(** * Rate-limit admission engine: a shallow embedding and its properties

    The development follows the TypeScript sources of the repository:

    - [lib/redis/keys.ts]             key derivation ([getMinuteKey], ...)
    - [lib/redis/metadata.ts]         the metadata cache
    - [lib/redis/api-key-storage.ts]  the durable credential records
    - [lib/redis/tier-storage.ts]     the durable tier records
    - [lib/redis/rate-limiter.ts]     the Lua script, [checkRateLimit], [getCurrentUsage]
    - [lib/redis/events.ts]           [addEvent]
    - [lib/db/api-keys.ts]            the in-process maps and the credential operations
    - [lib/rate-limit-middleware.ts]  [rateLimitMiddleware]

    Modelling decisions.

    - JavaScript numbers are integers ([Z]), exact at every magnitude: no
      rounding, no 2^53 or 64-bit limits, no fractions.  [toString] and
      [parseInt] are those of ECMAScript on such numbers; a tier cannot
      hold [NaN], so reading a limit that is not a number is an error of
      the model.
    - Asynchronous functions are state transformers that either return or
      throw: [M A := State -> Result A * State].  An [await] is a bind.
    - Redis is one key space of typed entries with an optional expiry
      instant.  Values are kept decoded: a counter is the integer it prints,
      the hash of a credential is the record whose fields it stores, the
      cached JSON is the metadata record.  The hash of a tier holds the
      strings that [storeTier] writes, which [getStoredTier] parses.  A
      command on an entry of the wrong kind throws, as does a command
      issued while the connection is out ([outages]).  An entry read at
      another decoding than the one its writers store is outside the
      model: that read throws as well.
    - One call runs within one clock reading: every [new Date()] and
      [Date.now()] of a call reads the field [now] of the state, in
      milliseconds since the epoch.  The local getters and setters of
      [Date] read the time zone of the host, the field [zone]; time values
      stay within the range of [Date].
    - JavaScript objects that are shared and mutated (the credential
      objects held by [apiKeysStore] and [apiKeysByHash]) live in a heap and
      are passed by reference.
    - [nanoid], [bcrypt.hash] are inputs of [createApiKey]. *)

From Stdlib Require Import ZArith Lia Ascii String.
From stdpp Require Import base tactics option list strings pretty gmap fin_maps.

Local Open Scope Z_scope.

(** ** Strings *)

Fixpoint replicate_char (n : nat) (c : ascii) : string :=
  match n with
  | O => ""
  | S n' => String c (replicate_char n' c)
  end.

(** [s.padStart(targetLength, c)] for a one-character filler. *)
Definition padStart (targetLength : nat) (c : ascii) (s : string) : string :=
  replicate_char (targetLength - String.length s) c +:+ s.

(** [true] when the character [c] occurs in [s]. *)
Fixpoint occurs (c : ascii) (s : string) : bool :=
  match s with
  | EmptyString => false
  | String a s' => if decide (a = c) then true else occurs c s'
  end.

(** ** Dates: time values, their UTC getters and their local setters
    (ECMAScript, 21.4.1) *)

Module Date.

Definition msPerMinute : Z := 60000.
Definition msPerHour : Z := 3600000.
Definition msPerDay : Z := 86400000.

Definition Day (t : Z) : Z := t / msPerDay.

(** Year, month (1..12) and day of the month of a day number, counted
    from 1970-01-01, in the proleptic Gregorian calendar. *)
Definition civil (days : Z) : Z * Z * Z :=
  let z := days + 719468 in
  let era := z / 146097 in
  let doe := z - era * 146097 in
  let yoe := (doe - doe / 1460 + doe / 36524 - doe / 146096) / 365 in
  let doy := doe - (365 * yoe + yoe / 4 - yoe / 100) in
  let mp := (5 * doy + 2) / 153 in
  let d := doy - (153 * mp + 2) / 5 + 1 in
  let m := if mp <? 10 then mp + 3 else mp - 9 in
  let y := yoe + era * 400 + (if m <=? 2 then 1 else 0) in
  (y, m, d).

Definition getUTCFullYear (t : Z) : Z := (civil (Day t)).1.1.
(** Months are numbered from 0. *)
Definition getUTCMonth (t : Z) : Z := (civil (Day t)).1.2 - 1.
Definition getUTCDate (t : Z) : Z := (civil (Day t)).2.
Definition getUTCHours (t : Z) : Z := (t / msPerHour) mod 24.
Definition getUTCMinutes (t : Z) : Z := (t / msPerMinute) mod 60.
Definition getUTCSeconds (t : Z) : Z := (t / 1000) mod 60.
Definition getUTCMilliseconds (t : Z) : Z := t mod 1000.

(** *** Local time (ECMAScript, 21.4.1.25 to 21.4.1.27)

    The zone of the host gives the offset of local time for a UTC time
    value, [LocalTZA(t, true)], and the offset that a local time value is
    read with, [LocalTZA(t, false)]: where local times repeat or are
    skipped at a change of offset, that is the offset before the change. *)
Record TimeZone : Type := mkZone {
  offsetAt : Z -> Z;
  offsetOfLocal : Z -> Z
}.

Definition LocalTime (z : TimeZone) (t : Z) : Z := t + offsetAt z t.
Definition UTC (z : TimeZone) (t : Z) : Z := t - offsetOfLocal z t.

Definition HourFromTime (t : Z) : Z := (t / msPerHour) mod 24.
Definition MinFromTime (t : Z) : Z := (t / msPerMinute) mod 60.
Definition SecFromTime (t : Z) : Z := (t / 1000) mod 60.
Definition msFromTime (t : Z) : Z := t mod 1000.

Definition MakeTime (hour min sec ms : Z) : Z :=
  hour * msPerHour + min * msPerMinute + sec * 1000 + ms.
Definition MakeDate (day time : Z) : Z := day * msPerDay + time.

Definition getMinutes (z : TimeZone) (t : Z) : Z := MinFromTime (LocalTime z t).

(** [d.setMinutes(min)] on a date of time value [t]: the new time value. *)
Definition setMinutes (z : TimeZone) (t min : Z) : Z :=
  let t := LocalTime z t in
  let date :=
    MakeDate (Day t) (MakeTime (HourFromTime t) min (SecFromTime t) (msFromTime t)) in
  UTC z date.

(** [d.setSeconds(sec)] *)
Definition setSeconds (z : TimeZone) (t sec : Z) : Z :=
  let t := LocalTime z t in
  let date :=
    MakeDate (Day t) (MakeTime (HourFromTime t) (MinFromTime t) sec (msFromTime t)) in
  UTC z date.

(** [d.setMilliseconds(ms)] *)
Definition setMilliseconds (z : TimeZone) (t ms : Z) : Z :=
  let t := LocalTime z t in
  let time := MakeTime (HourFromTime t) (MinFromTime t) (SecFromTime t) ms in
  UTC z (MakeDate (Day t) time).

(** [const nextMinute = new Date(now);
    nextMinute.setMinutes(nextMinute.getMinutes() + 1);
    nextMinute.setSeconds(0); nextMinute.setMilliseconds(0)]: the time
    value of [nextMinute]. *)
Definition nextMinute (z : TimeZone) (t : Z) : Z :=
  let d := setMinutes z t (getMinutes z t + 1) in
  let d := setSeconds z d 0 in
  setMilliseconds z d 0.

(** A host on UTC. *)
Definition utc : TimeZone := mkZone (fun _ => 0) (fun _ => 0).

(** 2026-03-08T07:00:00Z and 2026-11-01T06:00:00Z: daylight saving time
    begins and ends in New York. *)
Definition dst_begins_2026 : Z := 1772953200000.
Definition dst_ends_2026 : Z := 1793512800000.

(** A host in New York, for the time values of 2026: four hours behind
    UTC in daylight saving time, five otherwise.  The local hour from 02:00
    that is skipped in March is read five hours behind, and the local hour
    from 01:00 that repeats in November four hours behind. *)
Definition New_York : TimeZone :=
  mkZone
    (fun t => if (dst_begins_2026 <=? t) && (t <? dst_ends_2026)
              then - 4 * msPerHour else - 5 * msPerHour)
    (fun t => if (dst_begins_2026 - 4 * msPerHour <=? t)
                 && (t <? dst_ends_2026 - 4 * msPerHour)
              then - 4 * msPerHour else - 5 * msPerHour).

End Date.

(** [d.toISOString()] *)
Definition toISOString (t : Z) : string :=
  let y := Date.getUTCFullYear t in
  let year :=
    if (0 <=? y) && (y <=? 9999) then padStart 4 "0" (pretty y)
    else (if y <? 0 then "-" else "+") +:+ padStart 6 "0" (pretty (Z.abs y)) in
  year +:+ "-" +:+ padStart 2 "0" (pretty (Date.getUTCMonth t + 1))
       +:+ "-" +:+ padStart 2 "0" (pretty (Date.getUTCDate t))
       +:+ "T" +:+ padStart 2 "0" (pretty (Date.getUTCHours t))
       +:+ ":" +:+ padStart 2 "0" (pretty (Date.getUTCMinutes t))
       +:+ ":" +:+ padStart 2 "0" (pretty (Date.getUTCSeconds t))
       +:+ "." +:+ padStart 3 "0" (pretty (Date.getUTCMilliseconds t)) +:+ "Z".

(** [Math.ceil(a / b)] for a positive divisor. *)
Definition ceil_div (a b : Z) : Z := - ((- a) / b).

(** ** lib/redis/keys.ts *)

Definition String_of (n : Z) : string := pretty n.

Definition getMinuteKey (apiKey : string) (now : Z) : string :=
  let year := String_of (Date.getUTCFullYear now) in
  let month := padStart 2 "0" (String_of (Date.getUTCMonth now + 1)) in
  let day := padStart 2 "0" (String_of (Date.getUTCDate now)) in
  let hour := padStart 2 "0" (String_of (Date.getUTCHours now)) in
  let minute := padStart 2 "0" (String_of (Date.getUTCMinutes now)) in
  "rl:" +:+ apiKey +:+ ":min:" +:+ year +:+ month +:+ day +:+ hour +:+ minute.

Definition getDayKey (apiKey : string) (now : Z) : string :=
  let year := String_of (Date.getUTCFullYear now) in
  let month := padStart 2 "0" (String_of (Date.getUTCMonth now + 1)) in
  let day := padStart 2 "0" (String_of (Date.getUTCDate now)) in
  "rl:" +:+ apiKey +:+ ":day:" +:+ year +:+ month +:+ day.

Definition getMetadataKey (apiKey : string) : string := "meta:" +:+ apiKey.

Definition getEventsStreamKey (apiKey : string) : string := "events:" +:+ apiKey.

Definition getGlobalEventsStreamKey : string := "events:global".

(** ** Records of the sources *)

(** [ApiKey] of lib/db/api-keys.ts, which is also [StoredApiKey] of
    lib/redis/api-key-storage.ts. *)
Module ApiKey.
Record t : Type := mk {
  id : string;
  name : string;
  apiKey : string;
  apiKeyHash : string;
  ownerEmail : string;
  tier : string;
  perMinute : Z;
  perDay : Z;
  disabled : bool;
  createdAt : string
}.

Definition with_limits (perMinute' perDay' : Z) (k : t) : t :=
  mk (id k) (name k) (apiKey k) (apiKeyHash k) (ownerEmail k) (tier k)
     perMinute' perDay' (disabled k) (createdAt k).

Definition with_disabled (disabled' : bool) (k : t) : t :=
  mk (id k) (name k) (apiKey k) (apiKeyHash k) (ownerEmail k) (tier k)
     (perMinute k) (perDay k) disabled' (createdAt k).

(** The fields of [Partial<StoredApiKey>] that the callers of
    [updateStoredApiKey] pass. *)
Record partial : Type := mkPartial {
  perMinute_opt : option Z;
  perDay_opt : option Z;
  disabled_opt : option bool
}.

(** [{ ...key, ...updates }] *)
Definition spread (k : t) (u : partial) : t :=
  mk (id k) (name k) (apiKey k) (apiKeyHash k) (ownerEmail k) (tier k)
     (default (perMinute k) (perMinute_opt u))
     (default (perDay k) (perDay_opt u))
     (default (disabled k) (disabled_opt u))
     (createdAt k).

Global Instance inhabited : Inhabited t :=
  populate (mk "" "" "" "" "" "" 0 0 false "").
End ApiKey.

(** [Tier] of lib/db/api-keys.ts. *)
Module Tier.
Record t : Type := mk {
  id : string;
  name : string;
  rateLimit : Z;
  burstLimit : Z
}.

(** [Partial<Tier>] *)
Record partial : Type := mkPartial {
  id_opt : option string;
  name_opt : option string;
  rateLimit_opt : option Z;
  burstLimit_opt : option Z
}.

(** [Object.assign(tier, updates)] *)
Definition assign (x : t) (u : partial) : t :=
  mk (default (id x) (id_opt u)) (default (name x) (name_opt u))
     (default (rateLimit x) (rateLimit_opt u))
     (default (burstLimit x) (burstLimit_opt u)).
End Tier.

(** The fields of the hash that [storeTier] writes, strings all of them. *)
Module TierHash.
Record t : Type := mk {
  id : string;
  name : string;
  rateLimit : string;
  burstLimit : string
}.
End TierHash.

(** [ApiKeyMetadata] of lib/redis/metadata.ts. *)
Module ApiKeyMetadata.
Record t : Type := mk {
  id : string;
  name : string;
  tier : string;
  perMinute : Z;
  perDay : Z;
  disabled : bool;
  ownerEmail : string
}.
End ApiKeyMetadata.

(** [RateLimitEvent] of lib/redis/events.ts. *)
Module RateLimitEvent.
Record t : Type := mk {
  timestamp : string;
  apiKey : string;
  endpoint : string;
  status : Z;
  reason : string;
  latencyMs : Z
}.
End RateLimitEvent.

(** ** Redis *)

(** What a string key holds. *)
Inductive RString : Type :=
  | SInt (n : Z)
  | SText (s : string)
  | SJson (m : ApiKeyMetadata.t).

(** What a hash key holds. *)
Inductive RHash : Type :=
  | HApiKey (k : ApiKey.t)
  | HTier (x : TierHash.t).

Inductive RValue : Type :=
  | VString (s : RString)
  | VHash (h : RHash)
  | VSet (members : list string)
  | VStream (entries : list RateLimitEvent.t).

Record Entry : Type := mkEntry {
  value : RValue;
  expireAt : option Z
}.

Record Redis : Type := mkRedis {
  db : gmap string Entry;
  (** One flag per command still to come: [true] when that command finds
      the connection out.  Past the end of the list every command goes
      through. *)
  outages : list bool;
  (** How many of the oldest entries [XADD ... MAXLEN ~ n] evicts from a
      stream of a given length; never below the bound [n]. *)
  evict : nat -> nat -> nat
}.

(** ** The process state *)

Record State : Type := mkState {
  now : Z;
  heap : list ApiKey.t;
  apiKeysStore : list (string * nat);
  apiKeysByHash : gmap string nat;
  tiersStore : gmap string Tier.t;
  redis : Redis;
  (** The time zone of the host. *)
  zone : Date.TimeZone
}.

Inductive Result (A : Type) : Type :=
  | Ok (a : A)
  | Throw (message : string).
Arguments Ok {A} a.
Arguments Throw {A} message.

Definition M (A : Type) : Type := State -> Result A * State.

Definition ret {A} (a : A) : M A := fun s => (Ok a, s).

Definition throw {A} (message : string) : M A := fun s => (Throw message, s).

Definition bind {A B} (c : M A) (k : A -> M B) : M B :=
  fun s =>
    match c s with
    | (Ok a, s') => k a s'
    | (Throw e, s') => (Throw e, s')
    end.

(** [try { c } catch (err) { console.error(...); h }] *)
Definition try_catch {A} (c : M A) (h : M A) : M A :=
  fun s =>
    match c s with
    | (Ok a, s') => (Ok a, s')
    | (Throw _, s') => h s'
    end.

Notation "x <- c ;; k" := (bind c (fun x => k))
  (at level 100, c at next level, right associativity).
Notation "c ;;; k" := (bind c (fun _ => k))
  (at level 100, right associativity).

Definition get_state : M State := fun s => (Ok s, s).
Definition put_state (s' : State) : M unit := fun _ => (Ok tt, s').

Definition set_redis (r : Redis) (s : State) : State :=
  mkState (now s) (heap s) (apiKeysStore s) (apiKeysByHash s) (tiersStore s) r
    (zone s).
Definition set_heap (h : list ApiKey.t) (s : State) : State :=
  mkState (now s) h (apiKeysStore s) (apiKeysByHash s) (tiersStore s) (redis s)
    (zone s).
Definition set_apiKeysStore (m : list (string * nat)) (s : State) : State :=
  mkState (now s) (heap s) m (apiKeysByHash s) (tiersStore s) (redis s)
    (zone s).
Definition set_apiKeysByHash (m : gmap string nat) (s : State) : State :=
  mkState (now s) (heap s) (apiKeysStore s) m (tiersStore s) (redis s)
    (zone s).
Definition set_tiersStore (m : gmap string Tier.t) (s : State) : State :=
  mkState (now s) (heap s) (apiKeysStore s) (apiKeysByHash s) m (redis s)
    (zone s).
Definition set_now (t : Z) (s : State) : State :=
  mkState t (heap s) (apiKeysStore s) (apiKeysByHash s) (tiersStore s) (redis s)
    (zone s).
Definition set_zone (z : Date.TimeZone) (s : State) : State :=
  mkState (now s) (heap s) (apiKeysStore s) (apiKeysByHash s) (tiersStore s) (redis s) z.

Definition set_db (d : gmap string Entry) (r : Redis) : Redis :=
  mkRedis d (outages r) (evict r).
Definition set_outages (o : list bool) (r : Redis) : Redis :=
  mkRedis (db r) o (evict r).

(** *** Commands

    A command is a function of the instant and of the key space.  [live]
    entries are those whose expiry instant has not come. *)

Definition live (t : Z) (e : Entry) : bool :=
  match expireAt e with
  | Some x => t <? x
  | None => true
  end.

Definition peek (t : Z) (d : gmap string Entry) (key : string) : option Entry :=
  match d !! key with
  | Some e => if live t e then Some e else None
  | None => None
  end.

Definition WRONGTYPE : string :=
  "WRONGTYPE Operation against a key holding the wrong kind of value".

Definition cmd_get (t : Z) (d : gmap string Entry) (key : string)
  : Result (option RString) :=
  match peek t d key with
  | None => Ok None
  | Some (mkEntry (VString v) _) => Ok (Some v)
  | Some _ => Throw WRONGTYPE
  end.

(** [SET key v PX ms] (also [SETEX], [SET ... EX]) *)
Definition cmd_set_px (t : Z) (d : gmap string Entry) (key : string)
    (v : RString) (ms : Z) : gmap string Entry :=
  <[key := mkEntry (VString v) (Some (t + ms))]> d.

Definition cmd_del (d : gmap string Entry) (key : string) : gmap string Entry :=
  delete key d.

Definition cmd_incr (t : Z) (d : gmap string Entry) (key : string)
  : Result Z * gmap string Entry :=
  match peek t d key with
  | None => (Ok 1, <[key := mkEntry (VString (SInt 1)) None]> d)
  | Some (mkEntry (VString (SInt n)) ex) =>
      (Ok (n + 1), <[key := mkEntry (VString (SInt (n + 1))) ex]> d)
  | Some (mkEntry (VString _) _) =>
      (Throw "ERR value is not an integer or out of range", d)
  | Some _ => (Throw WRONGTYPE, d)
  end.

Definition cmd_pexpire (t : Z) (d : gmap string Entry) (key : string) (ms : Z)
  : gmap string Entry :=
  match peek t d key with
  | Some e => <[key := mkEntry (value e) (Some (t + ms))]> d
  | None => d
  end.

Definition cmd_hset (t : Z) (d : gmap string Entry) (key : string) (h : RHash)
  : Result unit * gmap string Entry :=
  match peek t d key with
  | None => (Ok tt, <[key := mkEntry (VHash h) None]> d)
  | Some (mkEntry (VHash _) ex) => (Ok tt, <[key := mkEntry (VHash h) ex]> d)
  | Some _ => (Throw WRONGTYPE, d)
  end.

Definition cmd_hgetall (t : Z) (d : gmap string Entry) (key : string)
  : Result (option RHash) :=
  match peek t d key with
  | None => Ok None
  | Some (mkEntry (VHash h) _) => Ok (Some h)
  | Some _ => Throw WRONGTYPE
  end.

Definition cmd_sadd (t : Z) (d : gmap string Entry) (key : string) (x : string)
  : Result unit * gmap string Entry :=
  match peek t d key with
  | None => (Ok tt, <[key := mkEntry (VSet [x]) None]> d)
  | Some (mkEntry (VSet l) ex) =>
      (Ok tt, <[key := mkEntry (VSet (if decide (x ∈ l) then l else l ++ [x])) ex]> d)
  | Some _ => (Throw WRONGTYPE, d)
  end.

Definition cmd_srem (t : Z) (d : gmap string Entry) (key : string) (x : string)
  : Result unit * gmap string Entry :=
  match peek t d key with
  | None => (Ok tt, delete key d)
  | Some (mkEntry (VSet l) ex) =>
      let l' := filter (fun y => y ≠ x) l in
      (Ok tt, match l' with
              | [] => delete key d
              | _ => <[key := mkEntry (VSet l') ex]> d
              end)
  | Some _ => (Throw WRONGTYPE, d)
  end.

Definition cmd_smembers (t : Z) (d : gmap string Entry) (key : string)
  : Result (list string) :=
  match peek t d key with
  | None => Ok []
  | Some (mkEntry (VSet l) _) => Ok l
  | Some _ => Throw WRONGTYPE
  end.

(** Approximate trimming of a stream to about [maxlen] entries. *)
Definition trim (ev : nat -> nat -> nat) (maxlen : N)
    (l : list RateLimitEvent.t) : list RateLimitEvent.t :=
  drop (Nat.min (ev (length l) (N.to_nat maxlen)) (length l - N.to_nat maxlen)) l.

(** [XADD key MAXLEN ~ maxlen * fields] *)
Definition cmd_xadd (t : Z) (ev : nat -> nat -> nat) (d : gmap string Entry)
    (key : string) (maxlen : N) (e : RateLimitEvent.t)
  : Result unit * gmap string Entry :=
  match peek t d key with
  | None => (Ok tt, <[key := mkEntry (VStream (trim ev maxlen [e])) None]> d)
  | Some (mkEntry (VStream l) ex) =>
      (Ok tt, <[key := mkEntry (VStream (trim ev maxlen (l ++ [e]))) ex]> d)
  | Some _ => (Throw WRONGTYPE, d)
  end.

(** *** The client ([ioredis]) *)

(** Every command first meets the connection. *)
Definition connection : M unit :=
  fun s =>
    match outages (redis s) with
    | [] => (Ok tt, s)
    | out :: rest =>
        let s' := set_redis (set_outages rest (redis s)) s in
        if out then (Throw "Connection is closed.", s') else (Ok tt, s')
    end.

Definition redis_read {A} (f : Z -> gmap string Entry -> Result A) : M A :=
  connection ;;; (fun s => (f (now s) (db (redis s)), s)).

Definition redis_write {A}
    (f : Z -> gmap string Entry -> Result A * gmap string Entry) : M A :=
  connection ;;;
  (fun s =>
     let '(r, d') := f (now s) (db (redis s)) in
     (r, set_redis (set_db d' (redis s)) s)).

Definition redis_get (key : string) : M (option RString) :=
  redis_read (fun t d => cmd_get t d key).

Definition redis_setex (key : string) (seconds : Z) (v : RString) : M unit :=
  redis_write (fun t d => (Ok tt, cmd_set_px t d key v (seconds * 1000))).

Definition redis_del (key : string) : M unit :=
  redis_write (fun _ d => (Ok tt, cmd_del d key)).

Definition redis_hset (key : string) (h : RHash) : M unit :=
  redis_write (fun t d => cmd_hset t d key h).

Definition redis_hgetall (key : string) : M (option RHash) :=
  redis_read (fun t d => cmd_hgetall t d key).

Definition redis_sadd (key x : string) : M unit :=
  redis_write (fun t d => cmd_sadd t d key x).

Definition redis_srem (key x : string) : M unit :=
  redis_write (fun t d => cmd_srem t d key x).

Definition redis_smembers (key : string) : M (list string) :=
  redis_read (fun t d => cmd_smembers t d key).

Definition redis_xadd (key : string) (maxlen : N) (e : RateLimitEvent.t)
  : M unit :=
  connection ;;;
  (fun s =>
     let '(r, d') := cmd_xadd (now s) (evict (redis s)) (db (redis s)) key maxlen e in
     (r, set_redis (set_db d' (redis s)) s)).

(** ** lib/redis/metadata.ts *)

Definition cacheMetadata (apiKey : string) (metadata : ApiKeyMetadata.t) : M unit :=
  let key := getMetadataKey apiKey in
  redis_setex key (24 * 60 * 60) (SJson metadata).

Definition getCachedMetadata (apiKey : string) : M (option ApiKeyMetadata.t) :=
  let key := getMetadataKey apiKey in
  data <- redis_get key ;;
  match data with
  | None => ret None
  | Some (SJson m) => ret (Some m)
  | Some _ => throw "SyntaxError: Unexpected token in JSON"
  end.

Definition invalidateMetadata (apiKey : string) : M unit :=
  let key := getMetadataKey apiKey in
  redis_del key.

Definition updateLastSeen (apiKey : string) : M unit :=
  let key := "lastseen:" +:+ apiKey in
  s <- get_state ;;
  redis_setex key (7 * 24 * 60 * 60) (SText (toISOString (now s))).

(** ** lib/redis/api-key-storage.ts *)

Definition API_KEYS_SET : string := "api-keys:all".
Definition API_KEY_PREFIX : string := "api-key:".

Definition storeApiKey (key : ApiKey.t) : M unit :=
  redis_hset (API_KEY_PREFIX +:+ ApiKey.id key) (HApiKey key) ;;;
  redis_sadd API_KEYS_SET (ApiKey.id key).

Definition getStoredApiKey (id : string) : M (option ApiKey.t) :=
  data <- redis_hgetall (API_KEY_PREFIX +:+ id) ;;
  match data with
  | None => ret None
  | Some (HApiKey k) => ret (Some k)
  | Some (HTier _) => throw "TypeError: not a stored API key"
  end.

(** The loop of [getAllStoredApiKeys] over the ids of the set. *)
Fixpoint getAllStoredApiKeys_loop (keyIds : list string) (keys : list ApiKey.t)
  : M (list ApiKey.t) :=
  match keyIds with
  | [] => ret keys
  | id :: rest =>
      key <- getStoredApiKey id ;;
      match key with
      | Some k => getAllStoredApiKeys_loop rest (keys ++ [k])
      | None => getAllStoredApiKeys_loop rest keys
      end
  end.

Definition getAllStoredApiKeys : M (list ApiKey.t) :=
  keyIds <- redis_smembers API_KEYS_SET ;;
  match keyIds with
  | [] => ret []
  | _ => getAllStoredApiKeys_loop keyIds []
  end.

Definition updateStoredApiKey (id : string) (updates : ApiKey.partial) : M unit :=
  key <- getStoredApiKey id ;;
  match key with
  | None => throw ("API key " +:+ id +:+ " not found")
  | Some k =>
      let updatedKey := ApiKey.spread k updates in
      storeApiKey updatedKey
  end.

Definition deleteStoredApiKey (id : string) : M unit :=
  redis_del (API_KEY_PREFIX +:+ id) ;;;
  redis_srem API_KEYS_SET id.

Definition findStoredApiKeyByValue (apiKeyValue : string) : M (option ApiKey.t) :=
  allKeys <- getAllStoredApiKeys ;;
  ret (find (fun k => bool_decide (ApiKey.apiKey k = apiKeyValue)) allKeys).

(** ** Numbers written and read as strings

    Strings are sequences of code units below 256; the white space that
    [parseInt] skips is the class [\s] on that range. *)

(** The class [\s]: tab, line feed, vertical tab, form feed, carriage
    return, space and no-break space. *)
Definition is_space (c : ascii) : bool :=
  let n := nat_of_ascii c in
  ((9 <=? n) && (n <=? 13) || (n =? 32) || (n =? 160))%nat.

(** The value of a code unit as a digit in base [radix], if it is one. *)
Definition digit_of (radix : Z) (c : ascii) : option Z :=
  let n := Z.of_nat (nat_of_ascii c) in
  let v := if (48 <=? n) && (n <=? 57) then n - 48
           else if (97 <=? n) && (n <=? 122) then n - 87
           else if (65 <=? n) && (n <=? 90) then n - 55
           else radix in
  if v <? radix then Some v else None.

(** The value of the longest prefix of digits, after the digits of [acc]. *)
Fixpoint parse_digits (radix acc : Z) (s : string) : Z :=
  match s with
  | EmptyString => acc
  | String c s' =>
      match digit_of radix c with
      | Some v => parse_digits radix (acc * radix + v) s'
      | None => acc
      end
  end.

(** The string without the white space at its start. *)
Fixpoint trimStart (s : string) : string :=
  match s with
  | EmptyString => EmptyString
  | String c s' => if is_space c then trimStart s' else s
  end.

(** [parseInt(s)]: white space, a sign, [0x] or [0X] for base 16, and
    then digits up to the first unit that is not one; [None] is [NaN]. *)
Definition parseInt (s : string) : option Z :=
  let s1 := trimStart s in
  let '(sign, s2) :=
    match s1 with
    | String "-" r => (- 1, r)
    | String "+" r => (1, r)
    | _ => (1, s1)
    end in
  let '(radix, s3) :=
    match s2 with
    | String "0" (String "x" r) => (16, r)
    | String "0" (String "X" r) => (16, r)
    | _ => (10, s2)
    end in
  match s3 with
  | EmptyString => None
  | String c _ =>
      match digit_of radix c with
      | Some _ => Some (sign * parse_digits radix 0 s3)
      | None => None
      end
  end.

(** A string of digits without the zeros at its end. *)
Fixpoint strip_zeros (s : string) : string :=
  match s with
  | EmptyString => EmptyString
  | String c r =>
      match strip_zeros r with
      | EmptyString => if Ascii.eqb c "0" then EmptyString else String c EmptyString
      | r' => String c r'
      end
  end.

(** [n.toString()] for an integer [n]: its decimal digits when its
    magnitude is below 10^21, and from there on its first digit, the
    digits that follow it up to the last that is not zero behind a point,
    and the exponent. *)
Definition Number_toString (n : Z) : string :=
  if Z.abs n <? 10 ^ 21 then pretty n
  else
    let digits := pretty (Z.abs n) in
    (if n <? 0 then "-" else "") +:+
    match strip_zeros digits with
    | EmptyString => EmptyString
    | String c EmptyString => String c EmptyString
    | String c r => String c ("." +:+ r)
    end +:+ "e+" +:+ pretty (Z.of_nat (String.length digits) - 1).

(** ** lib/redis/tier-storage.ts *)

Definition TIER_PREFIX : string := "tier:".
Definition TIER_SET_KEY : string := "tiers:all".

(** [{ id: tier.id, name: tier.name, rateLimit: tier.rateLimit.toString(),
    burstLimit: tier.burstLimit.toString() }] *)
Definition fields_of_tier (tier : Tier.t) : TierHash.t :=
  TierHash.mk (Tier.id tier) (Tier.name tier)
    (Number_toString (Tier.rateLimit tier))
    (Number_toString (Tier.burstLimit tier)).

Definition storeTier (x : Tier.t) : M unit :=
  let key := TIER_PREFIX +:+ Tier.id x in
  redis_hset key (HTier (fields_of_tier x)) ;;;
  redis_sadd TIER_SET_KEY (Tier.id x).

(** ** lib/redis/rate-limiter.ts *)

(** The Lua script, run by the server as one command on the key space:
    [KEYS[1]], [KEYS[2]] the minute and day keys, [ARGV[1]], [ARGV[2]]
    their lifetimes in milliseconds, [ARGV[3]], [ARGV[4]] the limits.  A
    [redis.call] that fails ends the script there. *)
Definition rateLimitLuaScript (KEYS1 KEYS2 : string) (ARGV1 ARGV2 ARGV3 ARGV4 : Z)
    (t : Z) (d : gmap string Entry) : Result (Z * Z * Z) * gmap string Entry :=
  match cmd_incr t d KEYS1 with
  | (Throw e, d1) => (Throw e, d1)
  | (Ok m, d1) =>
      let d2 := if m =? 1 then cmd_pexpire t d1 KEYS1 ARGV1 else d1 in
      match cmd_incr t d2 KEYS2 with
      | (Throw e, d3) => (Throw e, d3)
      | (Ok dd, d3) =>
          let d4 := if dd =? 1 then cmd_pexpire t d3 KEYS2 ARGV2 else d3 in
          let over := (m >? ARGV3) || (dd >? ARGV4) in
          (Ok (m, dd, if over then 1 else 0), d4)
      end
  end.

Module RateLimiter.
Record RateLimitResult : Type := mk {
  minuteCount : Z;
  dayCount : Z;
  isOverLimit : bool
}.
Record Usage : Type := mkUsage {
  minute : Z;
  day : Z
}.
End RateLimiter.

Definition checkRateLimit (apiKey : string) (minuteLimit dayLimit : Z)
  : M RateLimiter.RateLimitResult :=
  s <- get_state ;;
  let minuteKey := getMinuteKey apiKey (now s) in
  let dayKey := getDayKey apiKey (now s) in
  let minuteTTL := 90 * 1000 in
  let dayTTL := 25 * 60 * 60 * 1000 in
  result <- redis_write
              (rateLimitLuaScript minuteKey dayKey minuteTTL dayTTL
                 minuteLimit dayLimit) ;;
  let '(r0, r1, r2) := result in
  ret (RateLimiter.mk r0 r1 (r2 =? 1)).

(** [count ? parseInt(count, 10) : 0] on the reply of [GET]. *)
Definition count_of (reply : option RString) : M Z :=
  match reply with
  | None => ret 0
  | Some (SInt n) => ret n
  | Some _ => throw "TypeError: not a counter"
  end.

Definition getCurrentUsage (apiKey : string) : M RateLimiter.Usage :=
  s <- get_state ;;
  let minuteKey := getMinuteKey apiKey (now s) in
  let dayKey := getDayKey apiKey (now s) in
  minuteCount <- redis_get minuteKey ;;
  dayCount <- redis_get dayKey ;;
  minute <- count_of minuteCount ;;
  day <- count_of dayCount ;;
  ret (RateLimiter.mkUsage minute day).

(** ** lib/redis/events.ts *)

Definition addEvent (event : RateLimitEvent.t) : M unit :=
  let keyStream := getEventsStreamKey (RateLimitEvent.apiKey event) in
  redis_xadd keyStream 1000%N event ;;;
  let globalStream := getGlobalEventsStreamKey in
  redis_xadd globalStream 10000%N event.

(** ** lib/db/api-keys.ts *)

(** *** [Map<string, V>], in insertion order *)

Fixpoint Map_get {V} (key : string) (m : list (string * V)) : option V :=
  match m with
  | [] => None
  | (k, v) :: m' => if decide (k = key) then Some v else Map_get key m'
  end.

Fixpoint Map_set {V} (key : string) (v : V) (m : list (string * V))
  : list (string * V) :=
  match m with
  | [] => [(key, v)]
  | (k, v') :: m' =>
      if decide (k = key) then (k, v) :: m' else (k, v') :: Map_set key v m'
  end.

Definition Map_delete {V} (key : string) (m : list (string * V))
  : list (string * V) :=
  filter (fun kv => kv.1 ≠ key) m.

Definition Map_values {V} (m : list (string * V)) : list V := m.*2.

(** *** Objects *)

(** A new object. *)
Definition alloc (k : ApiKey.t) : M nat :=
  fun s => (Ok (length (heap s)), set_heap (heap s ++ [k]) s).

(** Reading the object behind a reference. *)
Definition deref (s : State) (l : nat) : ApiKey.t := heap s !!! l.

Definition read (l : nat) : M ApiKey.t := fun s => (Ok (deref s l), s).

(** Assigning to fields of the object behind a reference. *)
Definition assign (l : nat) (f : ApiKey.t -> ApiKey.t) : M unit :=
  fun s => (Ok tt, set_heap (<[l := f (deref s l)]> (heap s)) s).

(** *** Credentials *)

Definition apiKeysStore_set (id : string) (ref : nat) : M unit :=
  fun s => (Ok tt, set_apiKeysStore (Map_set id ref (apiKeysStore s)) s).

Definition apiKeysByHash_set (hash : string) (ref : nat) : M unit :=
  fun s => (Ok tt, set_apiKeysByHash (<[hash := ref]> (apiKeysByHash s)) s).

Definition apiKeysStore_delete (id : string) : M unit :=
  fun s => (Ok tt, set_apiKeysStore (Map_delete id (apiKeysStore s)) s).

Definition apiKeysByHash_delete (hash : string) : M unit :=
  fun s => (Ok tt, set_apiKeysByHash (delete hash (apiKeysByHash s)) s).

Definition generateApiKey (nanoid32 : string) : string := "sk_" +:+ nanoid32.

(** What the environment draws for one [createApiKey]: [nanoid()],
    [nanoid(32)] and [bcrypt.hash(apiKey, 10)]. *)
Record Drawn : Type := mkDrawn {
  nanoid : string;
  nanoid32 : string;
  bcrypt_hash : string
}.

Definition metadata_of (k : ApiKey.t) : ApiKeyMetadata.t :=
  ApiKeyMetadata.mk (ApiKey.id k) (ApiKey.name k) (ApiKey.tier k)
    (ApiKey.perMinute k) (ApiKey.perDay k) (ApiKey.disabled k)
    (ApiKey.ownerEmail k).

Definition createApiKey (drawn : Drawn) (name tier ownerEmail : string)
  : M (string * string) :=
  s <- get_state ;;
  match tiersStore s !! tier with
  | None => throw ("Tier " +:+ tier +:+ " not found")
  | Some tierConfig =>
      let id := nanoid drawn in
      let apiKey := generateApiKey (nanoid32 drawn) in
      let apiKeyHash := bcrypt_hash drawn in
      let perMinute := Tier.rateLimit tierConfig * 60 in
      let perDay := Tier.rateLimit tierConfig * 60 * 60 * 24 in
      let newKey :=
        ApiKey.mk id name apiKey apiKeyHash ownerEmail tier perMinute perDay
          false (toISOString (now s)) in
      ref <- alloc newKey ;;
      apiKeysStore_set id ref ;;;
      apiKeysByHash_set apiKeyHash ref ;;;
      storeApiKey newKey ;;;
      cacheMetadata apiKey
        (ApiKeyMetadata.mk id name tier perMinute perDay false ownerEmail) ;;;
      ret (id, apiKey)
  end.

Definition updateApiKeyWithCurrentTierLimits (key : nat) : M nat :=
  s <- get_state ;;
  match tiersStore s !! ApiKey.tier (deref s key) with
  | Some currentTier =>
      assign key (ApiKey.with_limits
                    (Tier.rateLimit currentTier * 60)
                    (Tier.rateLimit currentTier * 60 * 60 * 24)) ;;;
      ret key
  | None => ret key
  end.

(** The first [try] block of [findApiKeyByValue]: the metadata cache.
    [Some ref] is a [return] from inside the block. *)
Definition findApiKeyByValue_cache (apiKeyValue : string) : M (option nat) :=
  cached <- getCachedMetadata apiKeyValue ;;
  match cached with
  | None => ret None
  | Some c =>
      s <- get_state ;;
      match Map_get (ApiKeyMetadata.id c) (apiKeysStore s) with
      | None =>
          storedKey <- getStoredApiKey (ApiKeyMetadata.id c) ;;
          match storedKey with
          | Some k =>
              if decide (ApiKey.apiKey k = apiKeyValue) then
                ref <- alloc k ;;
                updatedKey <- updateApiKeyWithCurrentTierLimits ref ;;
                u <- read updatedKey ;;
                apiKeysStore_set (ApiKey.id u) updatedKey ;;;
                apiKeysByHash_set (ApiKey.apiKeyHash u) updatedKey ;;;
                ret (Some updatedKey)
              else ret None
          | None => ret None
          end
      | Some fullKey =>
          if decide (ApiKey.apiKey (deref s fullKey) = apiKeyValue) then
            updatedKey <- updateApiKeyWithCurrentTierLimits fullKey ;;
            ret (Some updatedKey)
          else ret None
      end
  end.

(** The loop over [Array.from(apiKeysStore.values())]. *)
Fixpoint findApiKeyByValue_memory (apiKeyValue : string) (memoryKeys : list nat)
  : M (option nat) :=
  match memoryKeys with
  | [] => ret None
  | key :: rest =>
      s <- get_state ;;
      if decide (ApiKey.apiKey (deref s key) = apiKeyValue) then
        updatedKey <- updateApiKeyWithCurrentTierLimits key ;;
        u <- read updatedKey ;;
        try_catch (cacheMetadata apiKeyValue (metadata_of u)) (ret tt) ;;;
        ret (Some updatedKey)
      else findApiKeyByValue_memory apiKeyValue rest
  end.

(** The last [try] block: the durable records. *)
Definition findApiKeyByValue_stored (apiKeyValue : string) : M (option nat) :=
  storedKey <- findStoredApiKeyByValue apiKeyValue ;;
  match storedKey with
  | Some k =>
      ref <- alloc k ;;
      updatedKey <- updateApiKeyWithCurrentTierLimits ref ;;
      u <- read updatedKey ;;
      apiKeysStore_set (ApiKey.id u) updatedKey ;;;
      apiKeysByHash_set (ApiKey.apiKeyHash u) updatedKey ;;;
      cacheMetadata apiKeyValue (metadata_of u) ;;;
      ret (Some updatedKey)
  | None => ret None
  end.

Definition findApiKeyByValue (apiKeyValue : string) : M (option nat) :=
  r1 <- try_catch (findApiKeyByValue_cache apiKeyValue) (ret None) ;;
  match r1 with
  | Some key => ret (Some key)
  | None =>
      s <- get_state ;;
      let memoryKeys := Map_values (apiKeysStore s) in
      r2 <- findApiKeyByValue_memory apiKeyValue memoryKeys ;;
      match r2 with
      | Some key => ret (Some key)
      | None =>
          r3 <- try_catch (findApiKeyByValue_stored apiKeyValue) (ret None) ;;
          match r3 with
          | Some key => ret (Some key)
          | None => ret None
          end
      end
  end.

Definition updateApiKeyLimits (id : string) (perMinute perDay : Z) : M unit :=
  s <- get_state ;;
  match Map_get id (apiKeysStore s) with
  | None => throw ("API key " +:+ id +:+ " not found")
  | Some key =>
      assign key (ApiKey.with_limits perMinute perDay) ;;;
      updateStoredApiKey id (ApiKey.mkPartial (Some perMinute) (Some perDay) None) ;;;
      k <- read key ;;
      invalidateMetadata (ApiKey.apiKey k) ;;;
      cacheMetadata (ApiKey.apiKey k)
        (ApiKeyMetadata.mk (ApiKey.id k) (ApiKey.name k) (ApiKey.tier k)
           perMinute perDay (ApiKey.disabled k) (ApiKey.ownerEmail k))
  end.

Definition disableApiKey (id : string) : M unit :=
  s <- get_state ;;
  match Map_get id (apiKeysStore s) with
  | None => throw ("API key " +:+ id +:+ " not found")
  | Some key =>
      assign key (ApiKey.with_disabled true) ;;;
      updateStoredApiKey id (ApiKey.mkPartial None None (Some true)) ;;;
      k <- read key ;;
      invalidateMetadata (ApiKey.apiKey k)
  end.

(** [deleteApiKey] once [key] is bound. *)
Definition deleteApiKey_rest (id : string) (key : ApiKey.t) : M unit :=
  apiKeysStore_delete id ;;;
  apiKeysByHash_delete (ApiKey.apiKeyHash key) ;;;
  deleteStoredApiKey id ;;;
  invalidateMetadata (ApiKey.apiKey key).

Definition deleteApiKey (id : string) : M unit :=
  s <- get_state ;;
  match Map_get id (apiKeysStore s) with
  | Some key => deleteApiKey_rest id (deref s key)
  | None =>
      storedKey <- getStoredApiKey id ;;
      match storedKey with
      | None => throw ("API key " +:+ id +:+ " not found")
      | Some k => deleteApiKey_rest id k
      end
  end.

(** *** Tiers *)

Definition updateTier (id : string) (updates : Tier.partial) : M unit :=
  s <- get_state ;;
  match tiersStore s !! id with
  | None => throw ("Tier " +:+ id +:+ " not found")
  | Some x =>
      let x' := Tier.assign x updates in
      put_state (set_tiersStore (<[id := x']> (tiersStore s)) s) ;;;
      storeTier x'
  end.

(** ** lib/rate-limit-middleware.ts *)

Module Middleware.
Inductive RateLimitResult : Type :=
  | Allowed (minuteCount dayCount minuteLimit dayLimit : Z)
  | Denied (reason : string) (retryAfter : Z).
End Middleware.

(** The client is taken to be ready. *)
Definition ensureRedisConnected : M unit := ret tt.

(** [request.headers.get("x-api-key")], with [!apiKeyValue] decided: the
    header is missing when it is absent or empty. *)
Definition header_missing (apiKeyValue : option string) : bool :=
  match apiKeyValue with
  | None => true
  | Some v => bool_decide (v = "")
  end.

Definition rateLimitMiddleware (x_api_key : option string) (endpoint : string)
  : M Middleware.RateLimitResult :=
  s0 <- get_state ;;
  let startTime := now s0 in
  ensureRedisConnected ;;;
  let apiKeyValue := x_api_key in
  if header_missing apiKeyValue then
    addEvent (RateLimitEvent.mk (toISOString (now s0)) "anonymous" endpoint 401
                "Missing API key" (now s0 - startTime)) ;;;
    ret (Middleware.Denied "Missing x-api-key header" 60)
  else
    let apiKeyValue := default "" apiKeyValue in
    apiKey <- findApiKeyByValue apiKeyValue ;;
    match apiKey with
    | None =>
        addEvent (RateLimitEvent.mk (toISOString (now s0)) apiKeyValue endpoint 401
                    "Invalid API key" (now s0 - startTime)) ;;;
        ret (Middleware.Denied "Invalid API key" 60)
    | Some apiKey =>
        k <- read apiKey ;;
        if ApiKey.disabled k then
          addEvent (RateLimitEvent.mk (toISOString (now s0)) apiKeyValue endpoint 403
                      "API key disabled" (now s0 - startTime)) ;;;
          ret (Middleware.Denied "API key is disabled" 3600)
        else
          rateLimitResult <- checkRateLimit apiKeyValue (ApiKey.perMinute k)
                               (ApiKey.perDay k) ;;
          let latencyMs := now s0 - startTime in
          if RateLimiter.isOverLimit rateLimitResult then
            addEvent (RateLimitEvent.mk (toISOString (now s0)) apiKeyValue endpoint
                        429 "Rate limit exceeded" latencyMs) ;;;
            let now_ := now s0 in
            let nextMinute := Date.nextMinute (zone s0) now_ in
            let retryAfter := ceil_div (nextMinute - now_) 1000 in
            ret (Middleware.Denied "Rate limit exceeded" retryAfter)
          else
            addEvent (RateLimitEvent.mk (toISOString (now s0)) apiKeyValue endpoint
                        200 "Allowed" latencyMs) ;;;
            updateLastSeen apiKeyValue ;;;
            k' <- read apiKey ;;
            ret (Middleware.Allowed
                   (RateLimiter.minuteCount rateLimitResult)
                   (RateLimiter.dayCount rateLimitResult)
                   (ApiKey.perMinute k') (ApiKey.perDay k'))
    end.

(** ** The state at module load *)

Definition defaultTiers : gmap string Tier.t :=
  <["basic" := Tier.mk "basic" "Basic" 20 30]>
  (<["standard" := Tier.mk "standard" "Standard" 30 50]>
  (<["premium" := Tier.mk "premium" "Premium" 40 80]> ∅)).

(** An empty server that never evicts below the bound and never drops the
    connection. *)
Definition emptyRedis : Redis := mkRedis ∅ [] (fun _ _ => O).

Definition initialState (t : Z) : State :=
  mkState t [] [] ∅ defaultTiers emptyRedis Date.utc.

(** Running a computation for its result, or for its final state. *)
Definition result_of {A} (c : M A) (s : State) : Result A := (c s).1.
Definition state_after {A} (c : M A) (s : State) : State := (c s).2.

(** [n] admission checks in a row, with their verdicts in order. *)
Fixpoint checks (n : nat) (x_api_key : option string) (endpoint : string)
  : M (list Middleware.RateLimitResult) :=
  match n with
  | O => ret []
  | S n' =>
      v <- rateLimitMiddleware x_api_key endpoint ;;
      vs <- checks n' x_api_key endpoint ;;
      ret (v :: vs)
  end.

(** ** Vocabulary of the statements *)

(** The digits that end a minute key and a day key. *)
Definition minuteStamp (t : Z) : string :=
  String_of (Date.getUTCFullYear t)
  +:+ padStart 2 "0" (String_of (Date.getUTCMonth t + 1))
  +:+ padStart 2 "0" (String_of (Date.getUTCDate t))
  +:+ padStart 2 "0" (String_of (Date.getUTCHours t))
  +:+ padStart 2 "0" (String_of (Date.getUTCMinutes t)).

Definition dayStamp (t : Z) : string :=
  String_of (Date.getUTCFullYear t)
  +:+ padStart 2 "0" (String_of (Date.getUTCMonth t + 1))
  +:+ padStart 2 "0" (String_of (Date.getUTCDate t)).

(** The connection holds for every command to come. *)
Definition healthy (s : State) : Prop := outages (redis s) = [].

(** The count a bucket key stands for at instant [t]: zero when the key
    was never written or has expired. *)
Definition count_at (t : Z) (d : gmap string Entry) (key : string) : Z :=
  match peek t d key with
  | Some (mkEntry (VString (SInt n)) _) => n
  | _ => 0
  end.

Definition expiry_at (t : Z) (d : gmap string Entry) (key : string) : option Z :=
  match peek t d key with
  | Some e => expireAt e
  | None => None
  end.

Definition absent (t : Z) (d : gmap string Entry) (key : string) : bool :=
  match peek t d key with
  | Some _ => false
  | None => true
  end.

(** A key that is absent or holds a count written by the script. *)
Definition is_bucket (t : Z) (d : gmap string Entry) (key : string) : Prop :=
  match peek t d key with
  | None => True
  | Some (mkEntry (VString (SInt n)) _) => 1 <= n
  | Some _ => False
  end.

(** A computation keeps a relation between the state it starts from and
    the state it leaves, whether it returns or throws. *)
Definition preserves (R : State -> State -> Prop) {A} (c : M A) : Prop :=
  forall s, R s (c s).2.

(** Whatever the computation writes to the server, it writes to a key of
    [W]; the clock, the tiers, the eviction policy and the zone of the
    host stay, and a connection that holds keeps holding. *)
Definition frame (W : string -> Prop) (s s' : State) : Prop :=
  now s' = now s /\
  tiersStore s' = tiersStore s /\
  (evict (redis s') = evict (redis s) /\ zone s' = zone s) /\
  (healthy s -> healthy s') /\
  forall key, ~ W key -> db (redis s') !! key = db (redis s) !! key.

(** The process memory is left alone. *)
Definition same_memory (s s' : State) : Prop :=
  heap s' = heap s /\
  apiKeysStore s' = apiKeysStore s /\
  apiKeysByHash s' = apiKeysByHash s.

(** Keys that begin with [p]. *)
Definition begins (p : string) (key : string) : Prop :=
  exists rest, key = p +:+ rest.

(** The entry of a bucket after one more hit at instant [t]: the count is
    one more, and the expiry is set to [t + ttl] only when the bucket was
    absent. *)
Definition bumped (t ttl : Z) (d : gmap string Entry) (key : string) : Entry :=
  mkEntry (VString (SInt (count_at t d key + 1)))
          (if absent t d key then Some (t + ttl) else expiry_at t d key).

(** A server command that writes to keys of [W] only. *)
Definition writes_in (W : string -> Prop) {A}
    (f : gmap string Entry -> Result A * gmap string Entry) : Prop :=
  forall d key, ~ W key -> (f d).2 !! key = d !! key.

(** One call of [checkRateLimit] at a given instant, as the traffic of
    any credential produces them. *)
Record Hit : Type := mkHit {
  hit_at : Z;
  hit_secret : string;
  hit_minuteLimit : Z;
  hit_dayLimit : Z
}.

Definition hit (h : Hit) (s : State) : State :=
  state_after
    (checkRateLimit (hit_secret h) (hit_minuteLimit h) (hit_dayLimit h))
    (set_now (hit_at h) s).

Definition hits (hs : list Hit) (s : State) : State :=
  fold_left (fun s h => hit h s) hs s.

(** The number of hits under one secret. *)
Definition hits_under (secret : string) (hs : list Hit) : Z :=
  Z.of_nat (length (filter (fun h => hit_secret h = secret) hs)).

(** The UTC minute an instant falls in. *)
Definition minute_of (t : Z) : Z := t / Date.msPerMinute.

(** A bucket that holds [n] hits of the minute [m]: never written when [n]
    is zero, and otherwise set to expire after that minute is over. *)
Definition bucket_of_minute (m : Z) (d : gmap string Entry) (key : string) (n : Z)
  : Prop :=
  (n = 0 /\ d !! key = None) \/
  (1 <= n /\ exists e, d !! key = Some (mkEntry (VString (SInt n)) (Some e)) /\
                       Date.msPerMinute * (m + 1) <= e).

(** A key that is absent or holds a stream. *)
Definition is_stream (t : Z) (d : gmap string Entry) (key : string) : Prop :=
  match peek t d key with
  | None => True
  | Some (mkEntry (VStream _) _) => True
  | Some _ => False
  end.

(** The entries of a stream at instant [t]. *)
Definition stream_at (t : Z) (d : gmap string Entry) (key : string)
  : list RateLimitEvent.t :=
  match peek t d key with
  | Some (mkEntry (VStream l) _) => l
  | _ => []
  end.

(** A computation that returns from every state. *)
Definition never_throws {A} (c : M A) : Prop :=
  forall s, exists a s', c s = (Ok a, s').

(** The status that the flow logs with a verdict. *)
Definition decision_status (v : Middleware.RateLimitResult) : Z :=
  match v with
  | Middleware.Allowed _ _ _ _ => 200
  | Middleware.Denied reason _ =>
      if (reason =? "Rate limit exceeded")%string then 429
      else if (reason =? "API key is disabled")%string then 403
      else 401
  end.

(** The credential that the events of a request are filed under. *)
Definition event_label (x_api_key : option string) : string :=
  if header_missing x_api_key then "anonymous" else default "" x_api_key.

(** The keys that the flow writes to before and after it appends its
    event. *)
Definition around_events (key : string) : Prop :=
  begins "meta:" key \/ begins "rl:" key \/ begins "lastseen:" key \/
  begins "api-key" key.

(** ** A concrete run *)

(** 2026-11-02T00:34:56.789Z *)
Definition t0 : Z := 1793579696789.

Definition drawn1 : Drawn :=
  mkDrawn "V1StGXR8_Z5jdHi6B-myT" "Uakgb_J5m9g-0JDMbcJqLJUakgb_J5m9" "$2b$10$N9qo8uLOickgx2ZMRZoMye".

Definition secret1 : string := generateApiKey (nanoid32 drawn1).

(** The state after [createApiKey("K", "basic")] at module load. *)
Definition created : State :=
  state_after (createApiKey drawn1 "K" "basic" "admin@example.com") (initialState t0).

(** The same state with the connection dropping at the [n]-th command to
    come (counted from 0). *)
Definition outage_at (n : nat) (s : State) : State :=
  set_redis (set_outages (replicate n false ++ [true]) (redis s)) s.

(** The credential is used twice and then disabled. *)
Definition used_then_disabled : State :=
  state_after (disableApiKey (nanoid drawn1))
    (state_after (checks 2 (Some secret1) "/api/data") created).

(** The credential that [deleteApiKey(id)] binds to [key]: the object in
    memory, or else the stored record. *)
Definition deleted_key (s : State) (id : string) : option ApiKey.t :=
  match Map_get id (apiKeysStore s) with
  | Some ref => Some (deref s ref)
  | None =>
      match peek (now s) (db (redis s)) (API_KEY_PREFIX +:+ id) with
      | Some (mkEntry (VHash (HApiKey k)) _) => Some k
      | _ => None
      end
  end.

(** The members of the set of all credential ids. *)
Definition all_ids (t : Z) (d : gmap string Entry) : list string :=
  match cmd_smembers t d API_KEYS_SET with
  | Ok l => l
  | Throw _ => []
  end.

(** The limits that a tier gives: [rate * 60] a minute, [rate * 86400] a
    day. *)
Definition derived_limits (x : Tier.t) (k : ApiKey.t) : Prop :=
  ApiKey.perMinute k = Tier.rateLimit x * 60 /\
  ApiKey.perDay k = Tier.rateLimit x * 86400.

(** The object that [createApiKey] builds. *)
Definition newKey_of (drawn : Drawn) (name tier ownerEmail : string) (x : Tier.t)
    (t : Z) : ApiKey.t :=
  ApiKey.mk (nanoid drawn) name (generateApiKey (nanoid32 drawn)) (bcrypt_hash drawn)
    ownerEmail tier (Tier.rateLimit x * 60) (Tier.rateLimit x * 60 * 60 * 24)
    false (toISOString t).

(** The credentials used once and then deleted. *)
Definition used_twice : State :=
  state_after (checks 2 (Some secret1) "/api/data") created.

(** The fields of a credential after its limits are refreshed from the
    tiers. *)
Definition refreshed (tiers : gmap string Tier.t) (k : ApiKey.t) : ApiKey.t :=
  match tiers !! ApiKey.tier k with
  | Some x =>
      ApiKey.with_limits (Tier.rateLimit x * 60) (Tier.rateLimit x * 60 * 60 * 24) k
  | None => k
  end.

(** Every reference held by [apiKeysStore] points into the heap. *)
Definition refs_valid (s : State) : Prop :=
  Forall (fun entry => (entry.2 < length (heap s))%nat) (apiKeysStore s).

(** Some object of [apiKeysStore] carries the secret. *)
Definition in_memory (s : State) (secret : string) : Prop :=
  exists entry, entry ∈ apiKeysStore s /\ ApiKey.apiKey (deref s entry.2) = secret.

(** Every object of [apiKeysStore] that carries the secret satisfies [P]. *)
Definition memory_all (P : ApiKey.t -> Prop) (secret : string) (s : State) : Prop :=
  Forall (fun entry => ApiKey.apiKey (deref s entry.2) = secret -> P (deref s entry.2))
         (apiKeysStore s).

(** Every stored record that carries the secret satisfies [P]. *)
Definition records_all (P : ApiKey.t -> Prop) (secret : string) (s : State) : Prop :=
  map_Forall
    (fun key e => begins "api-key" key ->
                  forall k, value e = VHash (HApiKey k) ->
                            ApiKey.apiKey k = secret -> P k)
    (db (redis s)).

Definition credentials_all (P : ApiKey.t -> Prop) (secret : string) (s : State) : Prop :=
  refs_valid s /\ memory_all P secret s /\ records_all P secret s.

(** A reference to a credential of the secret that satisfies [P] and whose
    limits are those of its tier, when that tier is registered. *)
Definition resolved (P : ApiKey.t -> Prop) (secret : string) (s : State) (ref : nat)
  : Prop :=
  (ref < length (heap s))%nat /\
  ApiKey.apiKey (deref s ref) = secret /\
  P (deref s ref) /\
  forall x, tiersStore s !! ApiKey.tier (deref s ref) = Some x ->
            derived_limits x (deref s ref).

(** A property of credentials that a change of limits does not affect. *)
Definition limit_blind (P : ApiKey.t -> Prop) : Prop :=
  forall k perMinute perDay, P k -> P (ApiKey.with_limits perMinute perDay k).

(** What a lookup of [secret] that started in [s] guarantees about its
    result [r] and the state [s'] it leaves. *)
Definition lookup_post (P : ApiKey.t -> Prop) (secret : string)
    (s : State) (r : option nat) (s' : State) : Prop :=
  credentials_all P secret s' /\
  tiersStore s' = tiersStore s /\
  (in_memory s secret -> in_memory s' secret) /\
  match r with
  | Some ref => resolved P secret s' ref
  | None => True
  end.

(** A stored record of a credential. *)
Definition stored_record (s : State) (k : ApiKey.t) : Prop :=
  exists id lifetime,
    db (redis s) !! (API_KEY_PREFIX +:+ id)
    = Some (mkEntry (VHash (HApiKey k)) lifetime).

(** The administrator sets the rate of "basic" to 40 requests a second. *)
Definition edit_basic_40 : Tier.partial :=
  Tier.mkPartial None (Some "Basic") (Some 40) (Some 30).

Definition edited : State := state_after (updateTier "basic" edit_basic_40) created.

(** The process starts again: its maps are empty, the tiers are as edited,
    the server is as it was. *)
Definition restarted (s : State) : State :=
  mkState (now s) [] [] ∅ (tiersStore s) (redis s) (zone s).

(** The process of the concrete run has started again and the cache
    entry of the credential is gone: only the durable store holds it. *)
Definition started_again : State :=
  restarted (state_after (invalidateMetadata secret1) created).

(** [n] lookups of one secret in a row, with their results in order. *)
Fixpoint lookups (n : nat) (secret : string) : M (list (option nat)) :=
  match n with
  | O => ret []
  | S n' =>
      r <- findApiKeyByValue secret ;;
      rs <- lookups n' secret ;;
      ret (r :: rs)
  end.

(** No credential, in memory or stored, carries the secret. *)
Definition unknown_secret (secret : string) (s : State) : Prop :=
  credentials_all (fun _ => False) secret s.

(** The limits of the credential are set to 5 a minute and 10 a day. *)
Definition limited_to_5 : State :=
  state_after (updateApiKeyLimits (nanoid drawn1) 5 10) created.

(** A key that is absent or holds a stream, whatever its expiry. *)
Definition holds_stream (d : gmap string Entry) (key : string) : Prop :=
  match d !! key with
  | None => True
  | Some (mkEntry (VStream _) _) => True
  | Some _ => False
  end.

(** What lets the flow reach the counters of [secret]: the connection
    holds, every credential of the secret is enabled and of the tier,
    one of them is in memory, and the two stream keys are free for
    events. *)
Definition check_ready (secret tier : string) (s : State) : Prop :=
  healthy s /\
  credentials_all
    (fun k => ApiKey.tier k = tier /\ ApiKey.disabled k = false) secret s /\
  in_memory s secret /\
  holds_stream (db (redis s)) (getEventsStreamKey secret) /\
  holds_stream (db (redis s)) getGlobalEventsStreamKey.

(** Through the minute that follows [t], local time on the host is UTC
    plus one offset, a whole number of minutes, whichever way a time is
    read. *)
Definition steady (z : Date.TimeZone) (t : Z) : Prop :=
  exists o, o mod Date.msPerMinute = 0 /\
    forall u, t <= u <= t + Date.msPerMinute ->
      Date.offsetAt z u = o /\ Date.offsetOfLocal z (u + o) = o.

(** The verdict of the flow on a host of zone [z] at instant [t] on the
    counts that the script returned, under the limits [L] and [D]. *)
Definition verdict_at (z : Date.TimeZone) (L D minuteCount dayCount t : Z)
  : Middleware.RateLimitResult :=
  if (minuteCount >? L) || (dayCount >? D)
  then Middleware.Denied "Rate limit exceeded" (ceil_div (Date.nextMinute z t - t) 1000)
  else Middleware.Allowed minuteCount dayCount L D.

(** The verdicts of checks at the instants [ts], in order, on buckets that
    hold [c] and [d]. *)
Fixpoint verdicts (z : Date.TimeZone) (L D c d : Z) (ts : list Z)
  : list Middleware.RateLimitResult :=
  match ts with
  | [] => []
  | t :: ts' => verdict_at z L D (c + 1) (d + 1) t :: verdicts z L D (c + 1) (d + 1) ts'
  end.

(** Admission checks in a row, one at each instant of [ts]. *)
Fixpoint checks_at (ts : list Z) (x_api_key : option string) (endpoint : string)
  : M (list Middleware.RateLimitResult) :=
  match ts with
  | [] => ret []
  | t :: ts' =>
      v <- (fun s => rateLimitMiddleware x_api_key endpoint (set_now t s)) ;;
      vs <- checks_at ts' x_api_key endpoint ;;
      ret (v :: vs)
  end.

Definition is_admitted (v : Middleware.RateLimitResult) : bool :=
  match v with
  | Middleware.Allowed _ _ _ _ => true
  | Middleware.Denied _ _ => false
  end.

(** The number of checks admitted. *)
Definition admitted (vs : list Middleware.RateLimitResult) : nat :=
  length (List.filter is_admitted vs).

(** 1,201 instants, a millisecond apart, from [t0] on. *)
Definition rapid_1201 : list Z := (fun i => t0 + Z.of_nat i) <$> seq 0 1201.

(** What the script answers to a hit. *)
Definition reply (h : Hit) (s : State) : Result RateLimiter.RateLimitResult :=
  result_of
    (checkRateLimit (hit_secret h) (hit_minuteLimit h) (hit_dayLimit h))
    (set_now (hit_at h) s).

(** The answers to hits that the server runs one after the other. *)
Fixpoint replies (hs : list Hit) (s : State)
  : list (Hit * Result RateLimiter.RateLimitResult) :=
  match hs with
  | [] => []
  | h :: hs' => (h, reply h s) :: replies hs' (hit h s)
  end.

(** A hit under [secret] that the script lets pass. *)
Definition passes (secret : string)
    (hr : Hit * Result RateLimiter.RateLimitResult) : bool :=
  bool_decide (hit_secret hr.1 = secret) &&
  match hr.2 with
  | Ok r => negb (RateLimiter.isOverLimit r)
  | Throw _ => false
  end.

Definition passed (secret : string)
    (rs : list (Hit * Result RateLimiter.RateLimitResult)) : nat :=
  length (List.filter (passes secret) rs).

(** * The rest of the sources

    Strings are sequences of code units below 256; [toLowerCase] and the
    class [\s] are those of ECMAScript on that range. *)

(** ** lib/redis/metadata.ts, [getLastSeen] *)

(** The reply of [GET] is returned as it is: the string that the key
    holds, or null. *)
Definition getLastSeen (apiKey : string) : M (option RString) :=
  let key := "lastseen:" +:+ apiKey in
  redis_get key.

(** ** lib/redis/events.ts, the readers *)

(** [XLEN key] *)
Definition cmd_xlen (t : Z) (d : gmap string Entry) (key : string) : Result Z :=
  match peek t d key with
  | None => Ok 0
  | Some (mkEntry (VStream l) _) => Ok (Z.of_nat (length l))
  | Some _ => Throw WRONGTYPE
  end.

(** [XREVRANGE key + - COUNT count], for a positive count: the newest
    [count] entries, the newest first. *)
Definition cmd_xrevrange (t : Z) (d : gmap string Entry) (key : string)
    (count : nat) : Result (list RateLimitEvent.t) :=
  match peek t d key with
  | None => Ok []
  | Some (mkEntry (VStream l) _) => Ok (take count (reverse l))
  | Some _ => Throw WRONGTYPE
  end.

Definition redis_xlen (key : string) : M Z :=
  redis_read (fun t d => cmd_xlen t d key).

Definition redis_xrevrange (key : string) (count : nat) : M (list RateLimitEvent.t) :=
  redis_read (fun t d => cmd_xrevrange t d key count).

(** [apiKey ? getEventsStreamKey(apiKey) : getGlobalEventsStreamKey()]: an
    argument that is left out or empty selects the global stream. *)
Definition streamKey_of (apiKey : option string) : string :=
  match apiKey with
  | None => getGlobalEventsStreamKey
  | Some v => if bool_decide (v = "") then getGlobalEventsStreamKey
              else getEventsStreamKey v
  end.

Definition getEventCount (apiKey : option string) : M Z :=
  let streamKey := streamKey_of apiKey in
  try_catch (redis_xlen streamKey) (ret 0).

(** [count] is 100 when the argument is left out.  The events are kept
    decoded, so the field map of an entry is the event it was written
    from. *)
Definition getRecentEvents (apiKey : option string) (count : option nat)
  : M (list RateLimitEvent.t) :=
  let count := default 100%nat count in
  let streamKey := streamKey_of apiKey in
  redis_xrevrange streamKey count.

(** ** lib/redis/tier-storage.ts, the readers *)

(** The tier that [getStoredTier] makes of the fields of a hash:
    [{ id: data.id, name: data.name, rateLimit: parseInt(data.rateLimit),
    burstLimit: parseInt(data.burstLimit) }].  The tiers of the model have
    integer limits: there is none when a limit reads as [NaN]. *)
Definition tier_of_fields (data : TierHash.t) : option Tier.t :=
  match parseInt (TierHash.rateLimit data), parseInt (TierHash.burstLimit data) with
  | Some rateLimit, Some burstLimit =>
      Some (Tier.mk (TierHash.id data) (TierHash.name data) rateLimit burstLimit)
  | _, _ => None
  end.

Definition getStoredTier (id : string) : M (option Tier.t) :=
  let key := TIER_PREFIX +:+ id in
  data <- redis_hgetall key ;;
  match data with
  | None => ret None
  | Some (HTier data) =>
      match tier_of_fields data with
      | Some tier => ret (Some tier)
      | None => throw "NaN: a limit that is not a number"
      end
  | Some (HApiKey _) => throw "TypeError: not a stored tier"
  end.

(** The loop of [getAllStoredTiers] over the ids of the set. *)
Fixpoint getAllStoredTiers_loop (tierIds : list string) (tiers : list Tier.t)
  : M (list Tier.t) :=
  match tierIds with
  | [] => ret tiers
  | id :: rest =>
      tier <- getStoredTier id ;;
      match tier with
      | Some x => getAllStoredTiers_loop rest (tiers ++ [x])
      | None => getAllStoredTiers_loop rest tiers
      end
  end.

Definition getAllStoredTiers : M (list Tier.t) :=
  tierIds <- redis_smembers TIER_SET_KEY ;;
  match tierIds with
  | [] => ret []
  | _ => getAllStoredTiers_loop tierIds []
  end.

Definition deleteStoredTier (id : string) : M unit :=
  let key := TIER_PREFIX +:+ id in
  redis_del key ;;;
  redis_srem TIER_SET_KEY id.

(** [SISMEMBER key x] *)
Definition cmd_sismember (t : Z) (d : gmap string Entry) (key x : string)
  : Result Z :=
  match peek t d key with
  | None => Ok 0
  | Some (mkEntry (VSet l) _) => Ok (if decide (x ∈ l) then 1 else 0)
  | Some _ => Throw WRONGTYPE
  end.

Definition tierExists (id : string) : M bool :=
  r <- redis_read (fun t d => cmd_sismember t d TIER_SET_KEY id) ;;
  ret (r =? 1).

(** ** lib/db/api-keys.ts, the rest *)

Definition getApiKeyById (id : string) : M (option nat) :=
  s <- get_state ;;
  ret (Map_get id (apiKeysStore s)).

(** [s.slice(0, n)] and [s.slice(-n)] *)
Definition slice_to (n : nat) (s : string) : string := String.substring 0 n s.
Definition slice_last (n : nat) (s : string) : string :=
  String.substring (String.length s - n) n s.

Definition maskApiKey (apiKey : string) : string :=
  if (String.length apiKey <? 12)%nat then apiKey
  else slice_to 8 apiKey +:+ "..." +:+ slice_last 4 apiKey.

(** A row of [listApiKeys]. *)
Module KeySummary.
Record t : Type := mk {
  id : string;
  name : string;
  maskedKey : string;
  tier : string;
  perMinute : Z;
  perDay : Z;
  disabled : bool;
  lastSeen : option RString;
  usage : RateLimiter.Usage
}.
End KeySummary.

(** The loop that fills the maps of the process from the stored records. *)
Fixpoint listApiKeys_load (storedKeys : list ApiKey.t) : M unit :=
  match storedKeys with
  | [] => ret tt
  | key :: rest =>
      ref <- alloc key ;;
      apiKeysStore_set (ApiKey.id key) ref ;;;
      apiKeysByHash_set (ApiKey.apiKeyHash key) ref ;;;
      listApiKeys_load rest
  end.

(** [Promise.all(keys.map(async (key) => ...))]: every callback runs up to
    its first [await], so the readings of usage are issued for all keys
    before the first reading of last-seen; the rows are built as the
    replies come, in the order of the keys. *)
Fixpoint listApiKeys_usages (keys : list nat) : M (list (nat * RateLimiter.Usage)) :=
  match keys with
  | [] => ret []
  | key :: rest =>
      k <- read key ;;
      usage <- getCurrentUsage (ApiKey.apiKey k) ;;
      us <- listApiKeys_usages rest ;;
      ret ((key, usage) :: us)
  end.

Fixpoint listApiKeys_rows (keys : list (nat * RateLimiter.Usage))
  : M (list KeySummary.t) :=
  match keys with
  | [] => ret []
  | (key, usage) :: rest =>
      k <- read key ;;
      lastSeen <- getLastSeen (ApiKey.apiKey k) ;;
      s <- get_state ;;
      let currentTier := tiersStore s !! ApiKey.tier k in
      let perMinute :=
        match currentTier with
        | Some x => Tier.rateLimit x * 60
        | None => ApiKey.perMinute k
        end in
      let perDay :=
        match currentTier with
        | Some x => Tier.rateLimit x * 60 * 60 * 24
        | None => ApiKey.perDay k
        end in
      rows <- listApiKeys_rows rest ;;
      ret (KeySummary.mk (ApiKey.id k) (ApiKey.name k) (maskApiKey (ApiKey.apiKey k))
             (ApiKey.tier k) perMinute perDay (ApiKey.disabled k) lastSeen
             (RateLimiter.mkUsage (RateLimiter.minute usage) (RateLimiter.day usage))
           :: rows)
  end.

Definition listApiKeys : M (list KeySummary.t) :=
  s <- get_state ;;
  (if bool_decide (length (apiKeysStore s) = 0%nat) then
     storedKeys <- getAllStoredApiKeys ;;
     listApiKeys_load storedKeys
   else ret tt) ;;;
  s <- get_state ;;
  let keys := Map_values (apiKeysStore s) in
  usages <- listApiKeys_usages keys ;;
  listApiKeys_rows usages.

Definition getTier (id : string) : M (option Tier.t) :=
  s <- get_state ;;
  ret (tiersStore s !! id).

(** [tiersStore.clear()] and then [tiersStore.set(tier.id, tier)] for each
    stored tier, in order. *)
Definition reloadTiers : M unit :=
  storedTiers <- getAllStoredTiers ;;
  s <- get_state ;;
  put_state
    (set_tiersStore
       (fold_left (fun m x => <[Tier.id x := x]> m) storedTiers ∅) s).

(** [c.toLowerCase()] for one code unit. *)
Definition toLowerCase_unit (c : ascii) : ascii :=
  let n := nat_of_ascii c in
  if ((65 <=? n) && (n <=? 90) ||
      (192 <=? n) && (n <=? 222) && negb (n =? 215))%nat
  then ascii_of_nat (n + 32)
  else c.

Fixpoint toLowerCase (s : string) : string :=
  match s with
  | EmptyString => EmptyString
  | String c s' => String (toLowerCase_unit c) (toLowerCase s')
  end.

(** [s.replace(/\s+/g, "-")]; [in_run] tells that the unit before was
    white space. *)
Fixpoint replace_spaces (in_run : bool) (s : string) : string :=
  match s with
  | EmptyString => EmptyString
  | String c s' =>
      if is_space c then
        if in_run then replace_spaces true s'
        else String "-" (replace_spaces true s')
      else String c (replace_spaces false s')
  end.

(** [customId || name.toLowerCase().replace(/\s+/g, "-")] *)
Definition tier_id_of (name : string) (customId : option string) : string :=
  match customId with
  | Some c => if bool_decide (c = "") then replace_spaces false (toLowerCase name)
              else c
  | None => replace_spaces false (toLowerCase name)
  end.

Definition createTier (name : string) (rateLimit burstLimit : Z)
    (customId : option string) : M Tier.t :=
  let id := tier_id_of name customId in
  let tier := Tier.mk id name rateLimit burstLimit in
  s <- get_state ;;
  put_state (set_tiersStore (<[id := tier]> (tiersStore s)) s) ;;;
  storeTier tier ;;;
  ret tier.

(** ** app/api/settings/route.ts, the loop of [PATCH] over the tiers *)

Fixpoint PATCH_tiers (tiers : list Tier.t) : M unit :=
  match tiers with
  | [] => ret tt
  | tier :: rest =>
      try_catch
        (updateTier (Tier.id tier)
           (Tier.mkPartial None (Some (Tier.name tier)) (Some (Tier.rateLimit tier))
              (Some (Tier.burstLimit tier))))
        (createTier (Tier.name tier) (Tier.rateLimit tier) (Tier.burstLimit tier)
           (Some (Tier.id tier)) ;;;
         ret tt) ;;;
      PATCH_tiers rest
  end.

(** ** lib/rate-limit-middleware.ts, [createRateLimitedResponse] *)

(** [hay.includes(needle)] *)
Fixpoint includes (needle hay : string) : bool :=
  String.prefix needle hay ||
  match hay with
  | EmptyString => false
  | String _ hay' => includes needle hay'
  end.

(** What the routes answer: the status, the JSON body and the headers
    they set. *)
Module NextResponse.
Inductive Body : Type :=
  | Refused (error : string) (retryAfter : Z)
  | Success (message : string)
  | Failure (error details : string).
Record t : Type := mk {
  status : Z;
  body : Body;
  headers : list (string * string)
}.
End NextResponse.

Definition createRateLimitedResponse (result : Middleware.RateLimitResult)
  : option NextResponse.t :=
  match result with
  | Middleware.Denied reason retryAfter =>
      let status :=
        if includes "Missing" reason || includes "Invalid" reason then 401
        else if includes "disabled" reason then 403
        else 429 in
      Some (NextResponse.mk status (NextResponse.Refused reason retryAfter)
              (if bool_decide (reason = "Rate limit exceeded")
               then [("Retry-After", String_of retryAfter)] else []))
  | Middleware.Allowed _ _ _ _ => None
  end.

(** ** app/api/data/route.ts *)

(** [try { c } catch (error) { h(error.message) }] *)
Definition try_catch_with {A} (c : M A) (h : string -> M A) : M A :=
  fun s =>
    match c s with
    | (Ok a, s') => (Ok a, s')
    | (Throw e, s') => h e s'
    end.

(** [GET]; of the body of a success the message is kept. *)
Definition data_GET (x_api_key : option string) : M NextResponse.t :=
  try_catch_with
    (rateLimitResult <- rateLimitMiddleware x_api_key "/api/data" ;;
     match createRateLimitedResponse rateLimitResult with
     | Some errorResponse => ret errorResponse
     | None =>
         ret (NextResponse.mk 200 (NextResponse.Success "Request successful")
                match rateLimitResult with
                | Middleware.Allowed minuteCount dayCount minuteLimit dayLimit =>
                    [("X-RateLimit-Limit-Minute", String_of minuteLimit);
                     ("X-RateLimit-Remaining-Minute",
                      String_of (minuteLimit - minuteCount));
                     ("X-RateLimit-Limit-Day", String_of dayLimit);
                     ("X-RateLimit-Remaining-Day", String_of (dayLimit - dayCount))]
                | Middleware.Denied _ _ => []
                end)
     end)
    (fun message =>
       ret (NextResponse.mk 500
              (NextResponse.Failure "Internal server error" message) [])).

(** [check z], for the [n] integers from [z] on. *)
Fixpoint holds_from (check : Z -> bool) (n : nat) (z : Z) : bool :=
  match n with
  | O => true
  | S n' => if check z then holds_from check n' (z + 1) else false
  end.

(** The day of the era that a year of the era, a month and a day of the
    month stand for. *)
Definition doe_of (yoe m d : Z) : Z :=
  let mp := (m + 9) mod 12 in
  let doy := (153 * mp + 2) / 5 + d - 1 in
  yoe * 365 + yoe / 4 - yoe / 100 + doy.

(** What [civil] computes within one era of 146097 days. *)
Definition civil_of_doe (doe : Z) : Z * Z * Z :=
  let yoe := (doe - doe / 1460 + doe / 36524 - doe / 146096) / 365 in
  let doy := doe - (365 * yoe + yoe / 4 - yoe / 100) in
  let mp := (5 * doy + 2) / 153 in
  let d := doy - (153 * mp + 2) / 5 + 1 in
  let m := if mp <? 10 then mp + 3 else mp - 9 in
  (yoe, m, d).

Definition doe_ok (doe : Z) : bool :=
  let '(yoe, m, d) := civil_of_doe doe in
  (0 <=? yoe) && (yoe <=? 399) && (1 <=? m) && (m <=? 12) &&
  (1 <=? d) && (d <=? 31) && (doe_of yoe m d =? doe).

Definition pad2 (n : Z) : string := padStart 2 "0" (String_of n).

Definition pad2_ok (n : Z) : bool :=
  (String.length (pad2 n) =? 2)%nat &&
  holds_from (fun n' => implb (String.eqb (pad2 n) (pad2 n')) (n =? n')) 100 0.

(** A bucket that holds [n] hits and, once written, lives at least until
    the instant [bound]. *)
Definition bucket_until (bound : Z) (d : gmap string Entry) (key : string) (n : Z)
  : Prop :=
  (n = 0 /\ d !! key = None) \/
  (1 <= n /\ exists e, d !! key = Some (mkEntry (VString (SInt n)) (Some e)) /\
                       bound <= e).

(** The number of instants of [ts] in the UTC minute, and in the UTC day,
    of [t]. *)
Definition hits_in_minute (t : Z) (ts : list Z) : Z :=
  Z.of_nat (length (filter (fun t' => minute_of t' = minute_of t) ts)).

Definition hits_in_day (t : Z) (ts : list Z) : Z :=
  Z.of_nat (length (filter (fun t' => Date.Day t' = Date.Day t) ts)).

(** The buckets of [secret] hold the hits at the instants [ts], window by
    window. *)
Definition counters_of (secret : string) (ts : list Z) (s : State) : Prop :=
  forall T,
    bucket_until (Date.msPerMinute * (minute_of T + 1)) (db (redis s))
      (getMinuteKey secret T) (hits_in_minute T ts) /\
    bucket_until (Date.msPerDay * (Date.Day T + 1)) (db (redis s))
      (getDayKey secret T) (hits_in_day T ts).

(** The verdicts of checks at the instants [ts], in order, after checks at
    the instants [past]. *)
Fixpoint verdicts_over (z : Date.TimeZone) (L D : Z) (past ts : list Z)
  : list Middleware.RateLimitResult :=
  match ts with
  | [] => []
  | t :: ts' =>
      verdict_at z L D (hits_in_minute t past + 1) (hits_in_day t past + 1) t
      :: verdicts_over z L D (past ++ [t]) ts'
  end.

(** The state after the first request with the credential of the concrete
    run. *)
Definition admitted_once : State :=
  state_after (rateLimitMiddleware (Some secret1) "/api/data") created.

(** [addEvent] for each event of a list, in order. *)
Fixpoint addEvents (es : list RateLimitEvent.t) : M unit :=
  match es with
  | [] => ret tt
  | e :: es' => addEvent e ;;; addEvents es'
  end.

(** The entries of a stream that is absent or never expires. *)
Definition lasting_stream (d : gmap string Entry) (key : string)
  : option (list RateLimitEvent.t) :=
  match d !! key with
  | None => Some []
  | Some (mkEntry (VStream l) None) => Some l
  | Some _ => None
  end.

(** What a stream holds, whatever its expiry. *)
Definition events_in (d : gmap string Entry) (key : string) : list RateLimitEvent.t :=
  match d !! key with
  | Some (mkEntry (VStream l) _) => l
  | _ => []
  end.

(** [l] is what is left of the history [hist] of a stream bounded by
    [maxlen]: its newest entries, and no fewer than the bound unless the
    history is shorter. *)
Definition kept (maxlen : nat) (hist l : list RateLimitEvent.t) : Prop :=
  l `suffix_of` hist /\ (Nat.min (length hist) maxlen <= length l)%nat.

(** The bound that [addEvent] gives with a stream key. *)
Definition bound_of (key : string) : N :=
  if decide (key = getGlobalEventsStreamKey) then 10000%N else 1000%N.

(** The streams that [addEvent] appends an event to. *)
Definition streams_of (e : RateLimitEvent.t) (key : string) : Prop :=
  key = getEventsStreamKey (RateLimitEvent.apiKey e) \/ key = getGlobalEventsStreamKey.

(** Every stream of events never expires and holds what is left of its
    history. *)
Definition streams_keep (hist : string -> list RateLimitEvent.t) (s : State) : Prop :=
  forall key, begins "events:" key ->
    exists l, lasting_stream (db (redis s)) key = Some l /\
              kept (N.to_nat (bound_of key)) (hist key) l.

(** Three events, two of them under one secret. *)
Definition event_a1 : RateLimitEvent.t :=
  RateLimitEvent.mk (toISOString t0) "sk_a" "/api/data" 200 "Allowed" 0.

Definition event_b : RateLimitEvent.t :=
  RateLimitEvent.mk (toISOString t0) "sk_b" "/api/data" 401 "Invalid API key" 0.

Definition event_a2 : RateLimitEvent.t :=
  RateLimitEvent.mk (toISOString t0) "sk_a" "/api/data" 429 "Rate limit exceeded" 0.

(** What makes the flow refuse [secret] as disabled: the connection holds,
    every credential of the secret is disabled, one of them is in memory,
    and the two stream keys are free for events. *)
Definition refusal_ready (secret : string) (s : State) : Prop :=
  healthy s /\
  credentials_all (fun k => ApiKey.disabled k = true) secret s /\
  in_memory s secret /\
  holds_stream (db (redis s)) (getEventsStreamKey secret) /\
  holds_stream (db (redis s)) getGlobalEventsStreamKey.

Definition is_digit (c : ascii) : bool :=
  let n := nat_of_ascii c in ((48 <=? n) && (n <=? 57))%nat.

(** The limits of the tier are integers that [toString] prints in decimal
    digits: their magnitude is below 10^21. *)
Definition plain_limits (x : Tier.t) : Prop :=
  Z.abs (Tier.rateLimit x) < 10 ^ 21 /\ Z.abs (Tier.burstLimit x) < 10 ^ 21.

(** The tier that the server holds under an id at instant [t], if any. *)
Definition stored_tier (t : Z) (d : gmap string Entry) (id : string) : option Tier.t :=
  match peek t d (TIER_PREFIX +:+ id) with
  | Some (mkEntry (VHash (HTier data)) _) => tier_of_fields data
  | _ => None
  end.

(** The ids of the set of tiers at instant [t]. *)
Definition tier_ids (t : Z) (d : gmap string Entry) : list string :=
  match cmd_smembers t d TIER_SET_KEY with
  | Ok l => l
  | Throw _ => []
  end.

(** The set of tier ids is a set, and under every id of it there is
    nothing, or the fields of a tier that carries that id. *)
Definition tiers_well_stored (t : Z) (d : gmap string Entry) : Prop :=
  (exists l, cmd_smembers t d TIER_SET_KEY = Ok l) /\
  forall id, id ∈ tier_ids t d ->
    match peek t d (TIER_PREFIX +:+ id) with
    | None => True
    | Some (mkEntry (VHash (HTier data)) _) =>
        TierHash.id data = id /\ is_Some (tier_of_fields data)
    | Some _ => False
    end.

(** What a row of [listApiKeys] shows of the object behind [ref]: its
    fields, its secret masked, and the limits of its tier when the tier is
    registered, those of the object otherwise. *)
Definition row_shows (s : State) (ref : nat) (row : KeySummary.t) : Prop :=
  let k := deref s ref in
  KeySummary.id row = ApiKey.id k /\
  KeySummary.name row = ApiKey.name k /\
  KeySummary.maskedKey row = maskApiKey (ApiKey.apiKey k) /\
  KeySummary.tier row = ApiKey.tier k /\
  KeySummary.disabled row = ApiKey.disabled k /\
  match tiersStore s !! ApiKey.tier k with
  | Some x =>
      KeySummary.perMinute row = Tier.rateLimit x * 60 /\
      KeySummary.perDay row = Tier.rateLimit x * 86400
  | None =>
      KeySummary.perMinute row = ApiKey.perMinute k /\
      KeySummary.perDay row = ApiKey.perDay k
  end.

(** What a row of [listApiKeys] reads for the object behind [ref]: the
    current usage and the last-seen reply of its secret. *)
Definition row_reads (s : State) (ref : nat) (row : KeySummary.t) : Prop :=
  let k := deref s ref in
  getCurrentUsage (ApiKey.apiKey k) s = (Ok (KeySummary.usage row), s) /\
  getLastSeen (ApiKey.apiKey k) s = (Ok (KeySummary.lastSeen row), s).

(** The state after the credentials of the concrete run are listed, once
    the rate of their tier is edited to 40. *)
Definition listed : State := state_after listApiKeys edited.

(** [p] holds of every code unit of [s]. *)
Fixpoint every_unit (p : ascii -> bool) (s : string) : bool :=
  match s with
  | EmptyString => true
  | String c s' => p c && every_unit p s'
  end.

(** A code unit that is neither white space nor an upper-case letter. *)
Definition slug_unit (c : ascii) : bool :=
  negb (is_space c) && Ascii.eqb (toLowerCase_unit c) c.

(** ** lib/redis/keys.ts, [getGlobalRPSKey] *)
Definition getGlobalRPSKey (now : Z) : string :=
  let year := String_of (Date.getUTCFullYear now) in
  let month := padStart 2 "0" (String_of (Date.getUTCMonth now + 1)) in
  let day := padStart 2 "0" (String_of (Date.getUTCDate now)) in
  let hour := padStart 2 "0" (String_of (Date.getUTCHours now)) in
  let minute := padStart 2 "0" (String_of (Date.getUTCMinutes now)) in
  let second := padStart 2 "0" (String_of (Date.getUTCSeconds now)) in
  "global:rps:" +:+ year +:+ month +:+ day +:+ hour +:+ minute +:+ second.

(** ** app/api/test-simple/route.ts
    What the test route answers: the status, the JSON body and the headers
    it sets. *)
Module SimpleResponse.
Inductive Body : Type :=
  | Error (error : string)
  | Limited (error : string) (retryAfter : Z)
  | Working (message apiKey : string) (minuteUsed minuteLimit dayUsed dayLimit : Z)
  | Failure (error details : string).
Record t : Type := mk {
  status : Z;
  body : Body;
  headers : list (string * string)
}.
End SimpleResponse.

(** [GET]; the status of a response made without one is 200. *)
Definition test_GET (x_api_key : option string) : M SimpleResponse.t :=
  s0 <- get_state ;;
  let startTime := now s0 in
  try_catch_with
    (ensureRedisConnected ;;;
     let apiKeyValue := x_api_key in
     if header_missing apiKeyValue then
       addEvent (RateLimitEvent.mk (toISOString (now s0)) "anonymous"
                   "/api/test-simple" 401 "Missing API key" (now s0 - startTime)) ;;;
       ret (SimpleResponse.mk 401 (SimpleResponse.Error "Missing x-api-key header") [])
     else
       let apiKeyValue := default "" apiKeyValue in
       apiKey <- findApiKeyByValue apiKeyValue ;;
       match apiKey with
       | None =>
           addEvent (RateLimitEvent.mk (toISOString (now s0)) apiKeyValue
                       "/api/test-simple" 401 "Invalid API key"
                       (now s0 - startTime)) ;;;
           ret (SimpleResponse.mk 401 (SimpleResponse.Error "Invalid API key") [])
       | Some apiKey =>
           k <- read apiKey ;;
           if ApiKey.disabled k then
             addEvent (RateLimitEvent.mk (toISOString (now s0)) apiKeyValue
                         "/api/test-simple" 403 "API key disabled"
                         (now s0 - startTime)) ;;;
             ret (SimpleResponse.mk 403 (SimpleResponse.Error "API key is disabled") [])
           else
             rateLimitResult <- checkRateLimit apiKeyValue (ApiKey.perMinute k)
                                  (ApiKey.perDay k) ;;
             let latencyMs := now s0 - startTime in
             if RateLimiter.isOverLimit rateLimitResult then
               addEvent (RateLimitEvent.mk (toISOString (now s0)) apiKeyValue
                           "/api/test-simple" 429 "Rate limit exceeded" latencyMs) ;;;
               let now_ := now s0 in
               let nextMinute := Date.nextMinute (zone s0) now_ in
               let retryAfter := ceil_div (nextMinute - now_) 1000 in
               ret (SimpleResponse.mk 429
                      (SimpleResponse.Limited "Rate limit exceeded" retryAfter)
                      [("Retry-After", String_of retryAfter)])
             else
               addEvent (RateLimitEvent.mk (toISOString (now s0)) apiKeyValue
                           "/api/test-simple" 200 "Allowed" latencyMs) ;;;
               updateLastSeen apiKeyValue ;;;
               k' <- read apiKey ;;
               ret (SimpleResponse.mk 200
                      (SimpleResponse.Working "Route is working!"
                         (String.substring 0 10 apiKeyValue +:+ "...")
                         (RateLimiter.minuteCount rateLimitResult)
                         (ApiKey.perMinute k')
                         (RateLimiter.dayCount rateLimitResult)
                         (ApiKey.perDay k'))
                      [("X-RateLimit-Limit-Minute", String_of (ApiKey.perMinute k'));
                       ("X-RateLimit-Remaining-Minute",
                        String_of (ApiKey.perMinute k'
                                   - RateLimiter.minuteCount rateLimitResult));
                       ("X-RateLimit-Limit-Day", String_of (ApiKey.perDay k'));
                       ("X-RateLimit-Remaining-Day",
                        String_of (ApiKey.perDay k'
                                   - RateLimiter.dayCount rateLimitResult))])
       end)
    (fun message =>
       ret (SimpleResponse.mk 500
              (SimpleResponse.Failure "Internal server error" message) [])).

(** The answer of the test route to a verdict of the flow for the header
    [x_api_key]. *)
Definition test_response (x_api_key : option string)
    (v : Middleware.RateLimitResult) : SimpleResponse.t :=
  match v with
  | Middleware.Allowed minuteCount dayCount minuteLimit dayLimit =>
      SimpleResponse.mk 200
        (SimpleResponse.Working "Route is working!"
           (String.substring 0 10 (default "" x_api_key) +:+ "...")
           minuteCount minuteLimit dayCount dayLimit)
        [("X-RateLimit-Limit-Minute", String_of minuteLimit);
         ("X-RateLimit-Remaining-Minute", String_of (minuteLimit - minuteCount));
         ("X-RateLimit-Limit-Day", String_of dayLimit);
         ("X-RateLimit-Remaining-Day", String_of (dayLimit - dayCount))]
  | Middleware.Denied reason retryAfter =>
      match createRateLimitedResponse v with
      | Some response =>
          SimpleResponse.mk (NextResponse.status response)
            (if bool_decide (reason = "Rate limit exceeded")
             then SimpleResponse.Limited reason retryAfter
             else SimpleResponse.Error reason)
            (NextResponse.headers response)
      | None => SimpleResponse.mk 200 (SimpleResponse.Error reason) []
      end
  end.

(** The credential that the server holds under an id at instant [t], if
    any. *)
Definition stored_key (t : Z) (d : gmap string Entry) (id : string) : option ApiKey.t :=
  match peek t d (API_KEY_PREFIX +:+ id) with
  | Some (mkEntry (VHash (HApiKey k)) _) => Some k
  | _ => None
  end.

(** Under the id there is nothing, or a credential. *)
Definition key_or_nothing (t : Z) (d : gmap string Entry) (id : string) : Prop :=
  match peek t d (API_KEY_PREFIX +:+ id) with
  | None => True
  | Some (mkEntry (VHash (HApiKey k)) _) => True
  | Some _ => False
  end.

(** The durable store holds the secret: the set of ids leads to
    credentials or to nothing, and one of its ids to a credential that
    carries the secret. *)
Definition in_store (s : State) (secret : string) : Prop :=
  exists ids id k,
    cmd_smembers (now s) (db (redis s)) API_KEYS_SET = Ok ids /\
    Forall (key_or_nothing (now s) (db (redis s))) ids /\
    id ∈ ids /\
    stored_key (now s) (db (redis s)) id = Some k /\
    ApiKey.apiKey k = secret.

(** The key is absent, or set to expire at the instant [B] at the
    latest. *)
Definition expires_by (B : Z) (d : gmap string Entry) (key : string) : Prop :=
  match d !! key with
  | Some e => exists x, expireAt e = Some x /\ x <= B
  | None => True
  end.

(** ** The end of daylight saving time on a host in New York *)

(** 2026-11-01T05:59:30.000Z, half a minute before the clocks of New York
    go back from 02:00 to 01:00, and 2026-11-01T06:30:15.000Z, in the
    hour that repeats. *)
Definition before_the_change : Z := 1793512770000.
Definition after_the_change : Z := 1793514615000.

(** The state after [createApiKey("K", "basic")] at module load at
    instant [t] on a host in New York. *)
Definition created_in_New_York (t : Z) : State :=
  state_after (createApiKey drawn1 "K" "basic" "admin@example.com")
    (set_zone Date.New_York (initialState t)).

(** 1,201 instants, a millisecond apart, from [t] on. *)
Definition rapid_from (t : Z) : list Z := (fun i => t + Z.of_nat i) <$> seq 0 1201.

(** * Properties *)

(** ** Strings and keys *)

Lemma append_assoc (a b c : string) : (a +:+ b) +:+ c = a +:+ b +:+ c.
Proof.
  induction a as [|x a IH]; [reflexivity|].
  change (String x ((a +:+ b) +:+ c) = String x (a +:+ b +:+ c)).
  by rewrite IH.
Qed.

Lemma append_nil_r (a : string) : a +:+ "" = a.
Proof.
  induction a as [|x a IH]; [reflexivity|].
  change (String x (a +:+ "") = String x a). by rewrite IH.
Qed.

Lemma length_append (a b : string) :
  String.length (a +:+ b) = (String.length a + String.length b)%nat.
Proof.
  induction a as [|x a IH]; [reflexivity|].
  change (S (String.length (a +:+ b)) = S (String.length a + String.length b)).
  by rewrite IH.
Qed.

Lemma occurs_append (c : ascii) (a b : string) :
  occurs c (a +:+ b) = occurs c a || occurs c b.
Proof.
  induction a as [|x a IH]; [reflexivity|].
  change (occurs c (String x (a +:+ b)) = occurs c (String x a) || occurs c b).
  simpl. by destruct (decide (x = c)).
Qed.

Lemma occurs_replicate_char (c f : ascii) (n : nat) :
  f ≠ c -> occurs c (replicate_char n f) = false.
Proof.
  intros Hf. induction n as [|n IH]; [reflexivity|].
  simpl. by destruct (decide (f = c)).
Qed.

Lemma occurs_padStart (c f : ascii) (n : nat) (s : string) :
  f ≠ c -> occurs c (padStart n f s) = occurs c s.
Proof.
  intros Hf. unfold padStart.
  by rewrite occurs_append, occurs_replicate_char.
Qed.

Lemma pretty_N_go_colon (x : N) (s : string) :
  occurs ":" s = false -> occurs ":" (pretty_N_go x s) = false.
Proof.
  revert s. induction (N.lt_wf_0 x) as [x _ IH]; intros s Hs.
  destruct (decide (x = 0%N)) as [->|Hx].
  - by rewrite pretty_N_go_0.
  - rewrite pretty_N_go_step by lia.
    apply IH.
    + apply N.div_lt; lia.
    + simpl. rewrite Hs. unfold pretty_N_char.
      by repeat case_match.
Qed.

Lemma String_of_colon (z : Z) : occurs ":" (String_of z) = false.
Proof.
  assert (HN : forall n : N, occurs ":" (pretty n) = false).
  { intros n. unfold pretty, pretty_N. case_decide; [reflexivity|].
    by apply pretty_N_go_colon. }
  unfold String_of, pretty, pretty_Z.
  destruct z as [|p|p]; [reflexivity|apply (HN (Npos p))|].
  rewrite occurs_append. simpl. apply (HN (Npos p)).
Qed.

Lemma minuteStamp_colon (t : Z) : occurs ":" (minuteStamp t) = false.
Proof.
  unfold minuteStamp.
  by rewrite !occurs_append, !occurs_padStart, !String_of_colon.
Qed.

Lemma dayStamp_colon (t : Z) : occurs ":" (dayStamp t) = false.
Proof.
  unfold dayStamp.
  by rewrite !occurs_append, !occurs_padStart, !String_of_colon.
Qed.

(** The last colon of a string splits it in one way only. *)
Lemma last_colon_split (a b u v : string) :
  occurs ":" u = false -> occurs ":" v = false ->
  a +:+ ":" +:+ u = b +:+ ":" +:+ v -> a = b /\ u = v.
Proof.
  intros Hu Hv. revert b.
  induction a as [|x a IH]; intros [|y b] Heq.
  - by injection Heq.
  - exfalso.
    change (String ":" u = String y (b +:+ ":" +:+ v)) in Heq.
    injection Heq as _ Heq. subst u.
    rewrite occurs_append in Hu.
    change (occurs ":" b || true = false) in Hu.
    by destruct (occurs ":" b).
  - exfalso.
    change (String x (a +:+ ":" +:+ u) = String ":" v) in Heq.
    injection Heq as _ Heq. subst v.
    rewrite occurs_append in Hv.
    change (occurs ":" a || true = false) in Hv.
    by destruct (occurs ":" a).
  - change (String x (a +:+ ":" +:+ u) = String y (b +:+ ":" +:+ v)) in Heq.
    injection Heq as -> Heq. destruct (IH _ Heq) as [-> ->]. done.
Qed.

(** Equal strings with equally long tails have equal heads and tails. *)
Lemma append_inj_length (a b u v : string) :
  String.length u = String.length v ->
  a +:+ u = b +:+ v -> a = b /\ u = v.
Proof.
  intros Hlen. revert b.
  induction a as [|x a IH]; intros [|y b] Heq.
  - done.
  - exfalso. change (u = String y b +:+ v) in Heq. subst u.
    rewrite (length_append (String y b)) in Hlen. simpl in Hlen. lia.
  - exfalso. change (String x a +:+ u = v) in Heq. subst v.
    rewrite (length_append (String x a)) in Hlen. simpl in Hlen. lia.
  - change (String x (a +:+ u) = String y (b +:+ v)) in Heq.
    injection Heq as -> Heq. destruct (IH _ Heq) as [-> ->]. done.
Qed.

Lemma getMinuteKey_split (apiKey : string) (t : Z) :
  getMinuteKey apiKey t = ("rl:" +:+ apiKey +:+ ":min") +:+ ":" +:+ minuteStamp t.
Proof.
  unfold getMinuteKey, minuteStamp.
  rewrite !append_assoc. reflexivity.
Qed.

Lemma getDayKey_split (apiKey : string) (t : Z) :
  getDayKey apiKey t = ("rl:" +:+ apiKey +:+ ":day") +:+ ":" +:+ dayStamp t.
Proof.
  unfold getDayKey, dayStamp.
  rewrite !append_assoc. reflexivity.
Qed.

(** Bucket keys of different credentials never meet. *)
Lemma getMinuteKey_inj (k1 k2 : string) (t1 t2 : Z) :
  getMinuteKey k1 t1 = getMinuteKey k2 t2 -> k1 = k2.
Proof.
  rewrite !getMinuteKey_split. intros Heq.
  apply last_colon_split in Heq as [Heq _]; [|apply minuteStamp_colon..].
  apply (inj (String.app "rl:")) in Heq.
  by apply append_inj_length in Heq as [-> _].
Qed.

Lemma getDayKey_inj (k1 k2 : string) (t1 t2 : Z) :
  getDayKey k1 t1 = getDayKey k2 t2 -> k1 = k2.
Proof.
  rewrite !getDayKey_split. intros Heq.
  apply last_colon_split in Heq as [Heq _]; [|apply dayStamp_colon..].
  apply (inj (String.app "rl:")) in Heq.
  by apply append_inj_length in Heq as [-> _].
Qed.

Lemma getMinuteKey_ne_getDayKey (k1 k2 : string) (t1 t2 : Z) :
  getMinuteKey k1 t1 ≠ getDayKey k2 t2.
Proof.
  rewrite getMinuteKey_split, getDayKey_split. intros Heq.
  apply last_colon_split in Heq as [Heq _];
    [|apply minuteStamp_colon|apply dayStamp_colon].
  apply (inj (String.app "rl:")) in Heq.
  by apply append_inj_length in Heq as [_ ?].
Qed.

(** ** The monad *)

Lemma bind_Ok {A B} (c : M A) (k : A -> M B) (s s' : State) (a : A) :
  c s = (Ok a, s') -> bind c k s = k a s'.
Proof. unfold bind. by intros ->. Qed.

Lemma bind_Throw {A B} (c : M A) (k : A -> M B) (s s' : State) (e : string) :
  c s = (Throw e, s') -> bind c k s = (Throw e, s').
Proof. unfold bind. by intros ->. Qed.

Lemma bind_inv_Ok {A B} (c : M A) (k : A -> M B) (s s2 : State) (b : B) :
  bind c k s = (Ok b, s2) ->
  exists a s1, c s = (Ok a, s1) /\ k a s1 = (Ok b, s2).
Proof.
  unfold bind. destruct (c s) as [[a|e] s1]; [eauto|discriminate].
Qed.

Section Preserves.
Context (R : State -> State -> Prop) `{!Reflexive R} `{!Transitive R}.

Lemma preserves_ret {A} (a : A) : preserves R (ret a).
Proof. intros s. simpl. reflexivity. Qed.

Lemma preserves_throw {A} (e : string) : preserves R (@throw A e).
Proof. intros s. simpl. reflexivity. Qed.

Lemma preserves_get_state : preserves R get_state.
Proof. intros s. simpl. reflexivity. Qed.

Lemma preserves_bind {A B} (c : M A) (k : A -> M B) :
  preserves R c -> (forall a, preserves R (k a)) -> preserves R (bind c k).
Proof.
  intros Hc Hk s. unfold bind.
  specialize (Hc s). destruct (c s) as [[a|e] s1]; simpl in *; [|done].
  etrans; [exact Hc|apply Hk].
Qed.

Lemma preserves_try_catch {A} (c h : M A) :
  preserves R c -> preserves R h -> preserves R (try_catch c h).
Proof.
  intros Hc Hh s. unfold try_catch.
  specialize (Hc s). destruct (c s) as [[a|e] s1]; simpl in *; [done|].
  etrans; [exact Hc|apply Hh].
Qed.

End Preserves.

(** ** Redis under a connection that holds *)

Lemma connection_healthy (s : State) : healthy s -> connection s = (Ok tt, s).
Proof. unfold healthy, connection. by intros ->. Qed.

Lemma redis_read_healthy {A} (f : Z -> gmap string Entry -> Result A) (s : State) :
  healthy s -> redis_read f s = (f (now s) (db (redis s)), s).
Proof.
  intros H. unfold redis_read.
  by rewrite (bind_Ok _ _ _ _ _ (connection_healthy s H)).
Qed.

Lemma redis_write_healthy {A}
    (f : Z -> gmap string Entry -> Result A * gmap string Entry) (s : State) :
  healthy s ->
  redis_write f s =
    ((f (now s) (db (redis s))).1,
     set_redis (set_db (f (now s) (db (redis s))).2 (redis s)) s).
Proof.
  intros H. unfold redis_write.
  rewrite (bind_Ok _ _ _ _ _ (connection_healthy s H)).
  by destruct (f (now s) (db (redis s))).
Qed.

Lemma peek_insert_eq (t : Z) (d : gmap string Entry) (key : string) (e : Entry) :
  peek t (<[key := e]> d) key = if live t e then Some e else None.
Proof. unfold peek. by rewrite lookup_insert_eq. Qed.

Lemma peek_insert_ne (t : Z) (d : gmap string Entry) (key key' : string) (e : Entry) :
  key ≠ key' -> peek t (<[key := e]> d) key' = peek t d key'.
Proof. intros. unfold peek. by rewrite lookup_insert_ne. Qed.

(** ** The counter store *)

Lemma cmd_incr_bucket (t : Z) (d : gmap string Entry) (key : string) :
  is_bucket t d key ->
  cmd_incr t d key =
    (Ok (count_at t d key + 1),
     <[key := mkEntry (VString (SInt (count_at t d key + 1))) (expiry_at t d key)]> d).
Proof.
  unfold is_bucket, cmd_incr, count_at, expiry_at.
  destruct (peek t d key) as [[[[n| |]| | |] ex]|]; done.
Qed.

(** One hit on a bucket: [INCR], then [PEXPIRE] when the count is 1. *)
Lemma incr_pexpire_bucket (t ttl : Z) (d : gmap string Entry) (key : string) :
  is_bucket t d key ->
  let m := count_at t d key + 1 in
  let d1 := (cmd_incr t d key).2 in
  (cmd_incr t d key).1 = Ok m /\
  (if m =? 1 then cmd_pexpire t d1 key ttl else d1) = <[key := bumped t ttl d key]> d.
Proof.
  intros Hb. rewrite (cmd_incr_bucket _ _ _ Hb). simpl. split; [done|].
  unfold bumped. unfold is_bucket in Hb.
  unfold count_at, expiry_at, absent in *.
  destruct (peek t d key) as [[[[n| |]| | |] ex]|] eqn:Hp; try done.
  - simpl. destruct (n + 1 =? 1) eqn:Hn; [lia|done].
  - simpl. unfold cmd_pexpire. rewrite peek_insert_eq. simpl.
    by rewrite insert_insert_eq.
Qed.

Lemma is_bucket_insert_ne (t : Z) (d : gmap string Entry) (key key' : string) (e : Entry) :
  key ≠ key' -> is_bucket t (<[key := e]> d) key' <-> is_bucket t d key'.
Proof. intros. unfold is_bucket. by rewrite peek_insert_ne. Qed.

Lemma count_at_insert_ne (t : Z) (d : gmap string Entry) (key key' : string) (e : Entry) :
  key ≠ key' -> count_at t (<[key := e]> d) key' = count_at t d key'.
Proof. intros. unfold count_at. by rewrite peek_insert_ne. Qed.

Lemma bumped_insert_ne (t ttl : Z) (d : gmap string Entry) (key key' : string) (e : Entry) :
  key ≠ key' -> bumped t ttl (<[key := e]> d) key' = bumped t ttl d key'.
Proof.
  intros. unfold bumped, count_at, absent, expiry_at. by rewrite peek_insert_ne.
Qed.

(** The script on two buckets. *)
Lemma rateLimitLuaScript_buckets (mk dk : string) (ttlM ttlD ml dl t : Z)
    (d : gmap string Entry) :
  mk ≠ dk -> is_bucket t d mk -> is_bucket t d dk ->
  rateLimitLuaScript mk dk ttlM ttlD ml dl t d =
    (Ok (count_at t d mk + 1, count_at t d dk + 1,
         if (count_at t d mk + 1 >? ml) || (count_at t d dk + 1 >? dl) then 1 else 0),
     <[dk := bumped t ttlD d dk]> (<[mk := bumped t ttlM d mk]> d)).
Proof.
  intros Hne Hm Hd. unfold rateLimitLuaScript.
  destruct (incr_pexpire_bucket t ttlM d mk Hm) as [Hr1 Hd1].
  destruct (cmd_incr t d mk) as [r1 d1]. simpl in Hr1, Hd1. subst r1.
  cbv zeta in Hd1. rewrite Hd1.
  assert (Hd' : is_bucket t (<[mk := bumped t ttlM d mk]> d) dk)
    by by apply is_bucket_insert_ne.
  destruct (incr_pexpire_bucket t ttlD _ dk Hd') as [Hr2 Hd2].
  destruct (cmd_incr t _ dk) as [r2 d2]. simpl in Hr2, Hd2. subst r2.
  cbv zeta in Hd2. rewrite Hd2.
  by rewrite count_at_insert_ne, bumped_insert_ne.
Qed.

Lemma live_bumped (t ttl : Z) (d : gmap string Entry) (key : string) :
  0 < ttl -> live t (bumped t ttl d key) = true.
Proof.
  intros Httl. unfold bumped, live, absent, expiry_at, peek. simpl.
  destruct (d !! key) as [e|]; simpl.
  - unfold live. destruct (expireAt e) as [x|] eqn:He; simpl.
    + destruct (t <? x) eqn:Hx; simpl; [by rewrite He|lia].
    + by rewrite He.
  - lia.
Qed.

(** What a command meets: a connection that lets it through, with the
    clock and the keys as they were, or one that is out, where the command
    throws with the keys as they were. *)
Lemma connection_cases (s : State) :
  (exists s', connection s = (Ok tt, s') /\
              now s' = now s /\ db (redis s') = db (redis s) /\
              (healthy s -> s' = s)) \/
  (exists e s', connection s = (Throw e, s') /\
                db (redis s') = db (redis s) /\ ~ healthy s).
Proof.
  unfold connection, healthy.
  destruct (outages (redis s)) as [|[] rest] eqn:Ho.
  - left. exists s. done.
  - right. eexists _, _. split; [reflexivity|]. done.
  - left. eexists. split; [reflexivity|]. done.
Qed.

(** C1.  A call [checkRateLimit(secret, minuteLimit, dayLimit)] with both
    bucket keys absent or holding counts.  The script is one command of
    the server, so the two increments are one unit: whatever the
    connection does, either the call throws, on a connection that is out,
    and no key of the server has changed, or it returns, and in the state
    it leaves the minute bucket and the day bucket of the secret each
    stand one higher and nothing else has changed; a bucket gets its expiry
    (90 seconds, 25 hours) only when it was absent, and keeps the one it
    had otherwise; the result carries the two new counts and
    [isOverLimit = (minuteCount > minuteLimit || dayCount > dayLimit)].  On
    a connection that holds the call returns, and the keys of the server
    are all of the state that it changes. *)
Theorem checkRateLimit_increments_both (s : State) (secret : string)
    (minuteLimit dayLimit : Z) :
  let t := now s in
  let d := db (redis s) in
  let minuteKey := getMinuteKey secret t in
  let dayKey := getDayKey secret t in
  is_bucket t d minuteKey -> is_bucket t d dayKey ->
  (exists e s',
     checkRateLimit secret minuteLimit dayLimit s = (Throw e, s') /\
     db (redis s') = d /\ ~ healthy s) \/
  (exists r s',
    checkRateLimit secret minuteLimit dayLimit s = (Ok r, s') /\
    RateLimiter.minuteCount r = count_at t d minuteKey + 1 /\
    RateLimiter.dayCount r = count_at t d dayKey + 1 /\
    RateLimiter.isOverLimit r =
      (RateLimiter.minuteCount r >? minuteLimit) || (RateLimiter.dayCount r >? dayLimit) /\
    count_at t (db (redis s')) minuteKey = RateLimiter.minuteCount r /\
    count_at t (db (redis s')) dayKey = RateLimiter.dayCount r /\
    expiry_at t (db (redis s')) minuteKey =
      (if absent t d minuteKey then Some (t + 90000) else expiry_at t d minuteKey) /\
    expiry_at t (db (redis s')) dayKey =
      (if absent t d dayKey then Some (t + 90000000) else expiry_at t d dayKey) /\
    (forall key, key ≠ minuteKey -> key ≠ dayKey ->
       db (redis s') !! key = db (redis s) !! key) /\
    (healthy s -> s' = set_redis (set_db (db (redis s')) (redis s)) s)).
Proof.
  intros t d minuteKey dayKey Hm Hd.
  assert (Hne : minuteKey ≠ dayKey) by apply getMinuteKey_ne_getDayKey.
  unfold checkRateLimit, redis_write, bind, get_state.
  destruct (connection_cases s)
    as [(s0 & Hc & Hn0 & Hd0 & Hsame)|(e & s0 & Hc & Hd0 & Hout)].
  2:{ left. rewrite Hc. eexists _, _. split; [reflexivity|]. done. }
  right. rewrite Hc, Hn0, Hd0.
  fold t d minuteKey dayKey.
  rewrite (rateLimitLuaScript_buckets _ _ _ _ _ _ _ _ Hne Hm Hd).
  simpl. eexists _, _. split; [reflexivity|]. simpl.
  assert (HlM := live_bumped t (90 * 1000) d minuteKey ltac:(lia)).
  assert (HlD := live_bumped t (25 * 60 * 60 * 1000) d dayKey ltac:(lia)).
  repeat split.
  - by destruct (_ || _).
  - unfold count_at at 1. rewrite peek_insert_ne, peek_insert_eq, HlM by done. done.
  - unfold count_at at 1. rewrite peek_insert_eq, HlD. done.
  - unfold expiry_at at 1. rewrite peek_insert_ne, peek_insert_eq, HlM by done. done.
  - unfold expiry_at at 1. rewrite peek_insert_eq, HlD. done.
  - intros key H1 H2. by rewrite !lookup_insert_ne.
  - intros Hh. by rewrite (Hsame Hh).
Qed.

(** ** What each operation leaves alone *)

#[global] Instance frame_reflexive (W : string -> Prop) : Reflexive (frame W).
Proof. intros s. unfold frame. auto. Qed.

#[global] Instance frame_transitive (W : string -> Prop) : Transitive (frame W).
Proof.
  intros s1 s2 s3 (Hn1 & Ht1 & (He1 & Hz1) & Hh1 & Hd1)
    (Hn2 & Ht2 & (He2 & Hz2) & Hh2 & Hd2).
  unfold frame. repeat split; try congruence; [auto|].
  intros key Hk. by rewrite Hd2, Hd1.
Qed.

#[global] Instance same_memory_reflexive : Reflexive same_memory.
Proof. intros s. unfold same_memory. auto. Qed.

#[global] Instance same_memory_transitive : Transitive same_memory.
Proof.
  intros s1 s2 s3 (? & ? & ?) (? & ? & ?). unfold same_memory.
  repeat split; congruence.
Qed.

Lemma frame_weaken (W W' : string -> Prop) (s s' : State) :
  (forall key, W key -> W' key) -> frame W s s' -> frame W' s s'.
Proof.
  intros HW (? & ? & (? & ?) & ? & Hd). unfold frame. repeat split; auto.
Qed.

(** A computation that writes to no key leaves the server as it was. *)
Lemma frame_nothing (s s' : State) :
  frame (fun _ => False) s s' ->
  tiersStore s' = tiersStore s /\ db (redis s') = db (redis s).
Proof.
  intros (_ & Ht & _ & _ & Hd). split; [done|]. apply map_eq. intros key.
  apply Hd. tauto.
Qed.

Lemma preserves_frame_weaken (W W' : string -> Prop) {A} (c : M A) :
  (forall key, W key -> W' key) ->
  preserves (frame W) c -> preserves (frame W') c.
Proof. intros HW Hc s. eapply frame_weaken; [exact HW|apply Hc]. Qed.

Lemma connection_frame (W : string -> Prop) : preserves (frame W) connection.
Proof.
  intros s. unfold connection.
  destruct (outages (redis s)) as [|[] rest] eqn:Ho; simpl;
    unfold frame, healthy; simpl; repeat split; auto; congruence.
Qed.

Lemma connection_memory : preserves same_memory connection.
Proof.
  intros s. unfold connection.
  by destruct (outages (redis s)) as [|[] rest].
Qed.

Lemma redis_read_frame (W : string -> Prop) {A}
    (f : Z -> gmap string Entry -> Result A) : preserves (frame W) (redis_read f).
Proof.
  unfold redis_read. apply preserves_bind; [apply _..|apply connection_frame|].
  intros _ s. simpl. reflexivity.
Qed.

Lemma redis_read_memory {A} (f : Z -> gmap string Entry -> Result A) :
  preserves same_memory (redis_read f).
Proof.
  unfold redis_read. apply preserves_bind; [apply _..|apply connection_memory|].
  intros _ s. simpl. reflexivity.
Qed.

Lemma redis_write_frame (W : string -> Prop) {A}
    (f : Z -> gmap string Entry -> Result A * gmap string Entry) :
  (forall t, writes_in W (f t)) -> preserves (frame W) (redis_write f).
Proof.
  intros Hf. unfold redis_write.
  apply preserves_bind; [apply _..|apply connection_frame|].
  intros _ s. specialize (Hf (now s) (db (redis s))).
  destruct (f (now s) (db (redis s))) as [r d']. simpl in *.
  unfold frame, healthy. simpl. repeat split; auto.
Qed.

Lemma redis_write_memory {A}
    (f : Z -> gmap string Entry -> Result A * gmap string Entry) :
  preserves same_memory (redis_write f).
Proof.
  unfold redis_write. apply preserves_bind; [apply _..|apply connection_memory|].
  intros _ s. by destruct (f (now s) (db (redis s))).
Qed.

Lemma cmd_incr_writes (W : string -> Prop) (t : Z) (key : string) :
  W key -> writes_in W (fun d => cmd_incr t d key).
Proof.
  intros HW d key' Hk. unfold cmd_incr.
  assert (key ≠ key') by congruence.
  destruct (peek t d key) as [[[[n| |]| | |] ex]|]; simpl;
    by rewrite ?lookup_insert_ne.
Qed.

Lemma cmd_pexpire_lookup_ne (t ms : Z) (d : gmap string Entry) (key key' : string) :
  key ≠ key' -> cmd_pexpire t d key ms !! key' = d !! key'.
Proof.
  intros. unfold cmd_pexpire.
  destruct (peek t d key); by rewrite ?lookup_insert_ne.
Qed.

Lemma cmd_hset_writes (W : string -> Prop) (t : Z) (key : string) (h : RHash) :
  W key -> writes_in W (fun d => cmd_hset t d key h).
Proof.
  intros HW d key' Hk. unfold cmd_hset.
  assert (key ≠ key') by congruence.
  destruct (peek t d key) as [[[| | |] ex]|]; simpl;
    by rewrite ?lookup_insert_ne.
Qed.

Lemma cmd_sadd_writes (W : string -> Prop) (t : Z) (key x : string) :
  W key -> writes_in W (fun d => cmd_sadd t d key x).
Proof.
  intros HW d key' Hk. unfold cmd_sadd.
  assert (key ≠ key') by congruence.
  destruct (peek t d key) as [[[| | |] ex]|]; simpl;
    by rewrite ?lookup_insert_ne.
Qed.

Lemma cmd_srem_writes (W : string -> Prop) (t : Z) (key x : string) :
  W key -> writes_in W (fun d => cmd_srem t d key x).
Proof.
  intros HW d key' Hk. unfold cmd_srem.
  assert (key ≠ key') by congruence.
  destruct (peek t d key) as [[[| |l|] ex]|]; simpl;
    try destruct (filter _ l);
    by rewrite ?lookup_insert_ne, ?lookup_delete_ne.
Qed.

Lemma cmd_xadd_writes (W : string -> Prop) (t : Z) (ev : nat -> nat -> nat)
    (key : string) (maxlen : N) (e : RateLimitEvent.t) :
  W key -> writes_in W (fun d => cmd_xadd t ev d key maxlen e).
Proof.
  intros HW d key' Hk. unfold cmd_xadd.
  assert (key ≠ key') by congruence.
  destruct (peek t d key) as [[[| | |] ex]|]; simpl;
    by rewrite ?lookup_insert_ne.
Qed.

Lemma rateLimitLuaScript_writes (W : string -> Prop) (mk dk : string)
    (ttlM ttlD ml dl t : Z) :
  W mk -> W dk -> writes_in W (rateLimitLuaScript mk dk ttlM ttlD ml dl t).
Proof.
  intros Hmk Hdk d key Hk. unfold rateLimitLuaScript.
  assert (mk ≠ key) by congruence. assert (dk ≠ key) by congruence.
  pose proof (cmd_incr_writes W t mk Hmk d key Hk) as H1.
  destruct (cmd_incr t d mk) as [[m|e] d1]; simpl in *; [|done].
  set (d2 := if m =? 1 then _ else _).
  assert (H2 : d2 !! key = d !! key).
  { unfold d2. destruct (m =? 1); by rewrite ?cmd_pexpire_lookup_ne. }
  pose proof (cmd_incr_writes W t dk Hdk d2 key Hk) as H3.
  destruct (cmd_incr t d2 dk) as [[dd|e] d3]; simpl in *; [|congruence].
  destruct (dd =? 1); rewrite ?cmd_pexpire_lookup_ne by done; congruence.
Qed.

Lemma redis_get_frame W key : preserves (frame W) (redis_get key).
Proof. apply redis_read_frame. Qed.

Lemma redis_hgetall_frame W key : preserves (frame W) (redis_hgetall key).
Proof. apply redis_read_frame. Qed.

Lemma redis_smembers_frame W key : preserves (frame W) (redis_smembers key).
Proof. apply redis_read_frame. Qed.

Lemma redis_setex_frame (W : string -> Prop) key seconds v :
  W key -> preserves (frame W) (redis_setex key seconds v).
Proof.
  intros HW. apply redis_write_frame. intros t d key' Hk. simpl.
  unfold cmd_set_px. rewrite lookup_insert_ne; [done|congruence].
Qed.

Lemma redis_del_frame (W : string -> Prop) key :
  W key -> preserves (frame W) (redis_del key).
Proof.
  intros HW. apply redis_write_frame. intros t d key' Hk. simpl.
  unfold cmd_del. rewrite lookup_delete_ne; [done|congruence].
Qed.

Lemma redis_hset_frame (W : string -> Prop) key h :
  W key -> preserves (frame W) (redis_hset key h).
Proof. intros HW. apply redis_write_frame. intros t. by apply cmd_hset_writes. Qed.

Lemma redis_sadd_frame (W : string -> Prop) key x :
  W key -> preserves (frame W) (redis_sadd key x).
Proof. intros HW. apply redis_write_frame. intros t. by apply cmd_sadd_writes. Qed.

Lemma redis_srem_frame (W : string -> Prop) key x :
  W key -> preserves (frame W) (redis_srem key x).
Proof. intros HW. apply redis_write_frame. intros t. by apply cmd_srem_writes. Qed.

Lemma redis_xadd_frame (W : string -> Prop) key maxlen e :
  W key -> preserves (frame W) (redis_xadd key maxlen e).
Proof.
  intros HW. unfold redis_xadd.
  apply preserves_bind; [apply _..|apply connection_frame|].
  intros _ s.
  pose proof (cmd_xadd_writes W (now s) (evict (redis s)) key maxlen e HW
                (db (redis s))) as Hf.
  destruct (cmd_xadd (now s) (evict (redis s)) (db (redis s)) key maxlen e)
    as [r d']. simpl in *.
  unfold frame, healthy. simpl. repeat split; auto.
Qed.

Lemma redis_xadd_memory key maxlen e : preserves same_memory (redis_xadd key maxlen e).
Proof.
  unfold redis_xadd. apply preserves_bind; [apply _..|apply connection_memory|].
  intros _ s. by destruct (cmd_xadd _ _ _ _ _ _).
Qed.

Lemma alloc_frame W k : preserves (frame W) (alloc k).
Proof. intros s. unfold frame. simpl. auto. Qed.

Lemma read_frame W l : preserves (frame W) (read l).
Proof. intros s. simpl. reflexivity. Qed.

Lemma assign_frame W l f : preserves (frame W) (assign l f).
Proof. intros s. unfold frame. simpl. auto. Qed.

Lemma apiKeysStore_set_frame W id ref : preserves (frame W) (apiKeysStore_set id ref).
Proof. intros s. unfold frame. simpl. auto. Qed.

Lemma apiKeysByHash_set_frame W h ref : preserves (frame W) (apiKeysByHash_set h ref).
Proof. intros s. unfold frame. simpl. auto. Qed.

Lemma apiKeysStore_delete_frame W id : preserves (frame W) (apiKeysStore_delete id).
Proof. intros s. unfold frame. simpl. auto. Qed.

Lemma apiKeysByHash_delete_frame W h : preserves (frame W) (apiKeysByHash_delete h).
Proof. intros s. unfold frame. simpl. auto. Qed.

Create HintDb frame discriminated.

#[global] Hint Resolve connection_frame connection_memory redis_read_frame
  redis_read_memory redis_write_memory redis_get_frame redis_hgetall_frame
  redis_smembers_frame redis_xadd_memory alloc_frame read_frame assign_frame
  apiKeysStore_set_frame apiKeysByHash_set_frame apiKeysStore_delete_frame
  apiKeysByHash_delete_frame : frame.

(** A key of the expected family, possibly one of several. *)
Ltac begins_here :=
  unfold begins, getMetadataKey, getEventsStreamKey, getGlobalEventsStreamKey,
    getMinuteKey, getDayKey, API_KEY_PREFIX, API_KEYS_SET, TIER_PREFIX, TIER_SET_KEY;
  cbv zeta; eexists; reflexivity.

Ltac in_family :=
  first [ assumption
        | begins_here
        | match goal with
          | H : forall key, begins _ key -> ?W key |- ?W _ => apply H; begins_here
          end
        | left; in_family
        | right; in_family ].

(** A family among those allowed. *)
Ltac family_incl :=
  let key := fresh "key" in
  let H := fresh "H" in
  intros key H; cbv beta;
  first [ exact H
        | match goal with
          | H' : forall key, begins _ key -> ?W key |- ?W _ => apply H'; exact H
          end
        | tauto ].

(** One step through the structure of a computation. *)
Ltac preserves_step :=
  lazymatch goal with
  | |- preserves _ (let _ := _ in _) => cbv zeta
  | |- preserves _ (bind _ _) => apply preserves_bind; [apply _ .. | | intros ?]
  | |- preserves _ (ret _) => apply preserves_ret; apply _
  | |- preserves _ (throw _) => apply preserves_throw; apply _
  | |- preserves _ get_state => apply preserves_get_state; apply _
  | |- preserves _ (try_catch _ _) => apply preserves_try_catch; [apply _ .. | | ]
  | |- preserves _ (match ?x with _ => _ end) => destruct x
  | |- preserves (frame _) (redis_setex _ _ _) => apply redis_setex_frame; in_family
  | |- preserves (frame _) (redis_del _) => apply redis_del_frame; in_family
  | |- preserves (frame _) (redis_hset _ _) => apply redis_hset_frame; in_family
  | |- preserves (frame _) (redis_sadd _ _) => apply redis_sadd_frame; in_family
  | |- preserves (frame _) (redis_srem _ _) => apply redis_srem_frame; in_family
  | |- preserves (frame _) (redis_xadd _ _ _) => apply redis_xadd_frame; in_family
  | |- _ => solve [eauto with frame | eauto with frame; family_incl]
  end.

Ltac preserves_auto := repeat preserves_step.

Lemma cacheMetadata_frame (W : string -> Prop) K m :
  (forall key, begins "meta:" key -> W key) -> preserves (frame W) (cacheMetadata K m).
Proof. intros HW. unfold cacheMetadata. preserves_auto. Qed.

Lemma cacheMetadata_memory K m : preserves same_memory (cacheMetadata K m).
Proof. unfold cacheMetadata, redis_setex. preserves_auto. Qed.

Lemma getCachedMetadata_frame (W : string -> Prop) K :
  preserves (frame W) (getCachedMetadata K).
Proof. unfold getCachedMetadata. preserves_auto. Qed.

Lemma getCachedMetadata_memory K : preserves same_memory (getCachedMetadata K).
Proof. unfold getCachedMetadata, redis_get. preserves_auto. Qed.

Lemma invalidateMetadata_frame (W : string -> Prop) K :
  (forall key, begins "meta:" key -> W key) -> preserves (frame W) (invalidateMetadata K).
Proof. intros HW. unfold invalidateMetadata. preserves_auto. Qed.

Lemma updateLastSeen_frame (W : string -> Prop) K :
  (forall key, begins "lastseen:" key -> W key) -> preserves (frame W) (updateLastSeen K).
Proof. intros HW. unfold updateLastSeen. preserves_auto. Qed.

Lemma updateLastSeen_memory K : preserves same_memory (updateLastSeen K).
Proof. unfold updateLastSeen, redis_setex. preserves_auto. Qed.

Lemma storeApiKey_frame (W : string -> Prop) k :
  (forall key, begins "api-key" key -> W key) -> preserves (frame W) (storeApiKey k).
Proof. intros HW. unfold storeApiKey. preserves_auto. Qed.

Lemma getStoredApiKey_frame (W : string -> Prop) id :
  preserves (frame W) (getStoredApiKey id).
Proof. unfold getStoredApiKey. preserves_auto. Qed.

Lemma getStoredApiKey_memory id : preserves same_memory (getStoredApiKey id).
Proof. unfold getStoredApiKey, redis_hgetall. preserves_auto. Qed.

#[global] Hint Resolve cacheMetadata_frame cacheMetadata_memory
  getCachedMetadata_frame getCachedMetadata_memory invalidateMetadata_frame
  updateLastSeen_frame updateLastSeen_memory storeApiKey_frame
  getStoredApiKey_frame getStoredApiKey_memory : frame.

Lemma getAllStoredApiKeys_loop_frame (W : string -> Prop) keyIds keys :
  preserves (frame W) (getAllStoredApiKeys_loop keyIds keys).
Proof.
  revert keys. induction keyIds as [|id rest IH]; intros keys; simpl;
    preserves_auto; apply IH.
Qed.

Lemma getAllStoredApiKeys_loop_memory keyIds keys :
  preserves same_memory (getAllStoredApiKeys_loop keyIds keys).
Proof.
  revert keys. induction keyIds as [|id rest IH]; intros keys; simpl;
    preserves_auto; apply IH.
Qed.

#[global] Hint Resolve getAllStoredApiKeys_loop_frame
  getAllStoredApiKeys_loop_memory : frame.

Lemma getAllStoredApiKeys_frame (W : string -> Prop) :
  preserves (frame W) getAllStoredApiKeys.
Proof. unfold getAllStoredApiKeys. preserves_auto. Qed.

Lemma getAllStoredApiKeys_memory : preserves same_memory getAllStoredApiKeys.
Proof. unfold getAllStoredApiKeys, redis_smembers. preserves_auto. Qed.

#[global] Hint Resolve getAllStoredApiKeys_frame getAllStoredApiKeys_memory : frame.

Lemma findStoredApiKeyByValue_frame (W : string -> Prop) K :
  preserves (frame W) (findStoredApiKeyByValue K).
Proof. unfold findStoredApiKeyByValue. preserves_auto. Qed.

Lemma findStoredApiKeyByValue_memory K :
  preserves same_memory (findStoredApiKeyByValue K).
Proof. unfold findStoredApiKeyByValue. preserves_auto. Qed.

Lemma updateStoredApiKey_frame (W : string -> Prop) id u :
  (forall key, begins "api-key" key -> W key) ->
  preserves (frame W) (updateStoredApiKey id u).
Proof. intros HW. unfold updateStoredApiKey. preserves_auto. Qed.

Lemma deleteStoredApiKey_frame (W : string -> Prop) id :
  (forall key, begins "api-key" key -> W key) ->
  preserves (frame W) (deleteStoredApiKey id).
Proof. intros HW. unfold deleteStoredApiKey. preserves_auto. Qed.

Lemma storeTier_frame (W : string -> Prop) x :
  (forall key, begins "tier" key -> W key) -> preserves (frame W) (storeTier x).
Proof. intros HW. unfold storeTier. preserves_auto. Qed.

Lemma checkRateLimit_frame (W : string -> Prop) K ml dl :
  (forall key, begins "rl:" key -> W key) -> preserves (frame W) (checkRateLimit K ml dl).
Proof.
  intros HW. unfold checkRateLimit. preserves_auto.
  apply redis_write_frame. intros t.
  apply rateLimitLuaScript_writes; in_family.
Qed.

Lemma checkRateLimit_memory K ml dl : preserves same_memory (checkRateLimit K ml dl).
Proof.
  unfold checkRateLimit. preserves_auto.
Qed.

Lemma count_of_preserves (R : State -> State -> Prop) `{!Reflexive R}
    `{!Transitive R} reply :
  preserves R (count_of reply).
Proof. unfold count_of. preserves_auto. Qed.

Lemma getCurrentUsage_frame (W : string -> Prop) K :
  preserves (frame W) (getCurrentUsage K).
Proof.
  unfold getCurrentUsage. preserves_auto; apply count_of_preserves; apply _.
Qed.

Lemma getCurrentUsage_memory K : preserves same_memory (getCurrentUsage K).
Proof.
  unfold getCurrentUsage, redis_get.
  preserves_auto; apply count_of_preserves; apply _.
Qed.

Lemma addEvent_frame (W : string -> Prop) e :
  (forall key, begins "events:" key -> W key) -> preserves (frame W) (addEvent e).
Proof. intros HW. unfold addEvent. preserves_auto. Qed.

Lemma addEvent_memory e : preserves same_memory (addEvent e).
Proof. unfold addEvent. preserves_auto. Qed.

Lemma updateApiKeyWithCurrentTierLimits_frame (W : string -> Prop) key :
  preserves (frame W) (updateApiKeyWithCurrentTierLimits key).
Proof. unfold updateApiKeyWithCurrentTierLimits. preserves_auto. Qed.

#[global] Hint Resolve findStoredApiKeyByValue_frame
  findStoredApiKeyByValue_memory updateStoredApiKey_frame
  deleteStoredApiKey_frame storeTier_frame checkRateLimit_frame
  checkRateLimit_memory getCurrentUsage_frame getCurrentUsage_memory
  addEvent_frame addEvent_memory updateApiKeyWithCurrentTierLimits_frame : frame.

Lemma findApiKeyByValue_cache_frame (W : string -> Prop) K :
  preserves (frame W) (findApiKeyByValue_cache K).
Proof. unfold findApiKeyByValue_cache. preserves_auto. Qed.

Lemma findApiKeyByValue_memory_frame (W : string -> Prop) K memoryKeys :
  (forall key, begins "meta:" key -> W key) ->
  preserves (frame W) (findApiKeyByValue_memory K memoryKeys).
Proof.
  intros HW. induction memoryKeys as [|key rest IH]; simpl;
    preserves_auto; apply IH.
Qed.

Lemma findApiKeyByValue_stored_frame (W : string -> Prop) K :
  (forall key, begins "meta:" key -> W key) ->
  preserves (frame W) (findApiKeyByValue_stored K).
Proof. intros HW. unfold findApiKeyByValue_stored. preserves_auto. Qed.

#[global] Hint Resolve findApiKeyByValue_cache_frame
  findApiKeyByValue_memory_frame findApiKeyByValue_stored_frame : frame.

Lemma findApiKeyByValue_frame (W : string -> Prop) K :
  (forall key, begins "meta:" key -> W key) ->
  preserves (frame W) (findApiKeyByValue K).
Proof. intros HW. unfold findApiKeyByValue. preserves_auto. Qed.

Lemma createApiKey_frame (W : string -> Prop) drawn name tier ownerEmail :
  (forall key, begins "api-key" key -> W key) ->
  (forall key, begins "meta:" key -> W key) ->
  preserves (frame W) (createApiKey drawn name tier ownerEmail).
Proof. intros HW1 HW2. unfold createApiKey. preserves_auto. Qed.

Lemma updateApiKeyLimits_frame (W : string -> Prop) id perMinute perDay :
  (forall key, begins "api-key" key -> W key) ->
  (forall key, begins "meta:" key -> W key) ->
  preserves (frame W) (updateApiKeyLimits id perMinute perDay).
Proof. intros HW1 HW2. unfold updateApiKeyLimits. preserves_auto. Qed.

Lemma disableApiKey_frame (W : string -> Prop) id :
  (forall key, begins "api-key" key -> W key) ->
  (forall key, begins "meta:" key -> W key) ->
  preserves (frame W) (disableApiKey id).
Proof. intros HW1 HW2. unfold disableApiKey. preserves_auto. Qed.

Lemma deleteApiKey_frame (W : string -> Prop) id :
  (forall key, begins "api-key" key -> W key) ->
  (forall key, begins "meta:" key -> W key) ->
  preserves (frame W) (deleteApiKey id).
Proof.
  intros HW1 HW2. unfold deleteApiKey, deleteApiKey_rest. preserves_auto.
Qed.

#[global] Hint Resolve findApiKeyByValue_frame : frame.

Lemma rateLimitMiddleware_frame (W : string -> Prop) x_api_key endpoint :
  (forall key, begins "meta:" key -> W key) ->
  (forall key, begins "rl:" key -> W key) ->
  (forall key, begins "events:" key -> W key) ->
  (forall key, begins "lastseen:" key -> W key) ->
  preserves (frame W) (rateLimitMiddleware x_api_key endpoint).
Proof.
  intros HW1 HW2 HW3 HW4. unfold rateLimitMiddleware, ensureRedisConnected.
  preserves_auto.
Qed.

(** ** Buckets of one minute *)

Lemma Day_minute_of (t : Z) : Date.Day t = minute_of t / 1440.
Proof.
  unfold Date.Day, minute_of, Date.msPerDay, Date.msPerMinute.
  rewrite Z.div_div by lia. reflexivity.
Qed.

Lemma getUTCHours_minute_of (t : Z) : Date.getUTCHours t = (minute_of t / 60) mod 24.
Proof.
  unfold Date.getUTCHours, minute_of, Date.msPerHour, Date.msPerMinute.
  rewrite Z.div_div by lia. reflexivity.
Qed.

Lemma same_minute_keys (secret : string) (t1 t2 : Z) :
  minute_of t1 = minute_of t2 ->
  getMinuteKey secret t1 = getMinuteKey secret t2 /\
  getDayKey secret t1 = getDayKey secret t2.
Proof.
  intros Hm. unfold getMinuteKey, getDayKey.
  unfold Date.getUTCFullYear, Date.getUTCMonth, Date.getUTCDate.
  rewrite !getUTCHours_minute_of, !Day_minute_of.
  unfold Date.getUTCMinutes. fold (minute_of t1) (minute_of t2).
  by rewrite Hm.
Qed.

Lemma minute_of_bounds (t : Z) :
  Date.msPerMinute * minute_of t <= t < Date.msPerMinute * (minute_of t + 1).
Proof.
  unfold minute_of, Date.msPerMinute.
  pose proof (Z.mul_div_le t 60000 ltac:(lia)).
  pose proof (Z.mul_succ_div_gt t 60000 ltac:(lia)). lia.
Qed.

Lemma bucket_of_minute_is_bucket (t : Z) (d : gmap string Entry) (key : string) (n : Z) :
  bucket_of_minute (minute_of t) d key n -> is_bucket t d key /\ count_at t d key = n.
Proof.
  pose proof (minute_of_bounds t) as Ht.
  unfold is_bucket, count_at, peek.
  intros [[-> ->]|(Hn & e & -> & He)]; [done|].
  unfold live. simpl.
  destruct (t <? e) eqn:Hlt; [done|lia].
Qed.

Lemma bucket_of_minute_bumped (t ttl : Z) (d : gmap string Entry) (key : string) (n : Z) :
  Date.msPerMinute <= ttl ->
  bucket_of_minute (minute_of t) d key n ->
  bucket_of_minute (minute_of t) (<[key := bumped t ttl d key]> d) key (n + 1).
Proof.
  intros Httl Hb.
  pose proof (minute_of_bounds t) as Ht.
  right. rewrite lookup_insert_eq.
  unfold bumped, count_at, absent, expiry_at, peek.
  destruct Hb as [[-> ->]|(Hn & e & -> & He)].
  - split; [lia|]. exists (t + ttl). split; [done|].
    unfold Date.msPerMinute in *. lia.
  - unfold live. simpl.
    destruct (t <? e) eqn:Hlt; [|lia].
    split; [lia|]. by exists e.
Qed.

Lemma bucket_of_minute_insert_ne (m : Z) (d : gmap string Entry) (key key' : string)
    (e : Entry) (n : Z) :
  key ≠ key' ->
  bucket_of_minute m (<[key := e]> d) key' n <-> bucket_of_minute m d key' n.
Proof. intros. unfold bucket_of_minute. by rewrite lookup_insert_ne. Qed.

(** What [checkRateLimit] leaves in the key space when the connection
    holds and both keys are buckets. *)
Lemma checkRateLimit_db (s : State) (secret : string) (ml dl : Z) :
  let t := now s in
  let d := db (redis s) in
  let mk := getMinuteKey secret t in
  let dk := getDayKey secret t in
  healthy s -> is_bucket t d mk -> is_bucket t d dk ->
  checkRateLimit secret ml dl s =
    (Ok (RateLimiter.mk (count_at t d mk + 1) (count_at t d dk + 1)
           ((count_at t d mk + 1 >? ml) || (count_at t d dk + 1 >? dl))),
     set_redis (set_db (<[dk := bumped t 90000000 d dk]>
                        (<[mk := bumped t 90000 d mk]> d)) (redis s)) s).
Proof.
  intros t d mk dk Hh Hm Hd.
  assert (Hne : mk ≠ dk) by apply getMinuteKey_ne_getDayKey.
  unfold checkRateLimit, bind, get_state.
  rewrite (redis_write_healthy _ s Hh).
  fold t d mk dk.
  rewrite (rateLimitLuaScript_buckets _ _ _ _ _ _ _ _ Hne Hm Hd).
  simpl. unfold ret. do 3 f_equal. by destruct (_ || _).
Qed.

(** A hit writes to the two bucket keys of its secret only. *)
Lemma checkRateLimit_other_keys (s : State) (secret : string) (ml dl : Z) (key : string) :
  key ≠ getMinuteKey secret (now s) -> key ≠ getDayKey secret (now s) ->
  db (redis (state_after (checkRateLimit secret ml dl) s)) !! key
  = db (redis s) !! key.
Proof.
  intros H1 H2.
  assert (Hf : preserves
                 (frame (fun k => k = getMinuteKey secret (now s) \/
                                  k = getDayKey secret (now s)))
                 (redis_write
                    (rateLimitLuaScript (getMinuteKey secret (now s))
                       (getDayKey secret (now s)) (90 * 1000)
                       (25 * 60 * 60 * 1000) ml dl))).
  { apply redis_write_frame. intros t. apply rateLimitLuaScript_writes; auto. }
  specialize (Hf s). destruct Hf as (_ & _ & _ & _ & Hf).
  unfold state_after, checkRateLimit, bind, get_state.
  destruct (redis_write _ s) as [[[[r0 r1] r2]|e] s']; simpl in *;
    apply Hf; tauto.
Qed.

Lemma hit_healthy (h : Hit) (s : State) : healthy s -> healthy (hit h s).
Proof.
  intros Hh. unfold hit, state_after.
  pose proof (checkRateLimit_frame (fun _ => True) (hit_secret h)
                (hit_minuteLimit h) (hit_dayLimit h) ltac:(done)
                (set_now (hit_at h) s)) as (_ & _ & _ & H & _).
  by apply H.
Qed.

(** The two buckets of a secret, through any traffic whose hits under
    that secret fall in the minute of the buckets. *)
Lemma hits_buckets (hs : list Hit) (s : State) (secret : string) (T : Z) (n : Z) :
  healthy s ->
  bucket_of_minute (minute_of T) (db (redis s)) (getMinuteKey secret T) n ->
  bucket_of_minute (minute_of T) (db (redis s)) (getDayKey secret T) n ->
  (forall h, h ∈ hs -> hit_secret h = secret -> minute_of (hit_at h) = minute_of T) ->
  healthy (hits hs s) /\
  bucket_of_minute (minute_of T) (db (redis (hits hs s))) (getMinuteKey secret T)
    (n + hits_under secret hs) /\
  bucket_of_minute (minute_of T) (db (redis (hits hs s))) (getDayKey secret T)
    (n + hits_under secret hs).
Proof.
  revert s n. induction hs as [|h hs IH]; intros s n Hh Hm Hd Hin.
  { unfold hits_under. simpl. by rewrite Z.add_0_r. }
  assert (Hne : getMinuteKey secret T ≠ getDayKey secret T)
    by apply getMinuteKey_ne_getDayKey.
  change (hits (h :: hs) s) with (hits hs (hit h s)).
  destruct (decide (hit_secret h = secret)) as [Hs|Hs].
  - (* a hit on these two buckets *)
    assert (Hmin : minute_of (hit_at h) = minute_of T)
      by (apply Hin; [by left|done]).
    destruct (same_minute_keys secret _ _ Hmin) as [Hk1 Hk2].
    rewrite <- Hmin in Hm, Hd.
    destruct (bucket_of_minute_is_bucket (hit_at h) _ _ _ Hm) as [Hb1 Hc1].
    destruct (bucket_of_minute_is_bucket (hit_at h) _ _ _ Hd) as [Hb2 Hc2].
    assert (Hstep : db (redis (hit h s)) =
              <[getDayKey secret T := bumped (hit_at h) 90000000 (db (redis s))
                                        (getDayKey secret T)]>
              (<[getMinuteKey secret T := bumped (hit_at h) 90000 (db (redis s))
                                            (getMinuteKey secret T)]> (db (redis s)))).
    { unfold hit, state_after. rewrite Hs.
      rewrite checkRateLimit_db; simpl; rewrite ?Hk1, ?Hk2; done. }
    replace (n + hits_under secret (h :: hs)) with ((n + 1) + hits_under secret hs).
    2:{ unfold hits_under. rewrite filter_cons_True by done. simpl length. lia. }
    apply IH.
    + by apply hit_healthy.
    + rewrite Hstep. rewrite <- Hmin.
      apply bucket_of_minute_insert_ne; [done|].
      apply bucket_of_minute_bumped; [unfold Date.msPerMinute; lia|done].
    + rewrite Hstep. rewrite <- Hmin.
      rewrite <- (bumped_insert_ne (hit_at h) 90000000 (db (redis s))
                    (getMinuteKey secret T) (getDayKey secret T)
                    (bumped (hit_at h) 90000 (db (redis s)) (getMinuteKey secret T))
                    Hne).
      apply bucket_of_minute_bumped; [unfold Date.msPerMinute; lia|].
      by apply bucket_of_minute_insert_ne.
    + intros h' Hh'. apply Hin. by right.
  - (* a hit under another secret *)
    assert (Hother : forall key,
              key = getMinuteKey secret T \/ key = getDayKey secret T ->
              db (redis (hit h s)) !! key = db (redis s) !! key).
    { intros key Hkey. unfold hit.
      rewrite checkRateLimit_other_keys; [done|..]; simpl;
        destruct Hkey as [-> | ->]; intros Heq.
      - by apply getMinuteKey_inj in Heq.
      - symmetry in Heq. by apply getMinuteKey_ne_getDayKey in Heq.
      - by apply getMinuteKey_ne_getDayKey in Heq.
      - by apply getDayKey_inj in Heq. }
    replace (hits_under secret (h :: hs)) with (hits_under secret hs).
    2:{ unfold hits_under. by rewrite filter_cons_False. }
    apply IH.
    + by apply hit_healthy.
    + unfold bucket_of_minute. rewrite Hother by auto. exact Hm.
    + unfold bucket_of_minute. rewrite Hother by auto. exact Hd.
    + intros h' Hh'. apply Hin. by right.
Qed.

Lemma getCurrentUsage_buckets (s : State) (secret : string) :
  let t := now s in
  let d := db (redis s) in
  healthy s ->
  is_bucket t d (getMinuteKey secret t) -> is_bucket t d (getDayKey secret t) ->
  getCurrentUsage secret s =
    (Ok (RateLimiter.mkUsage (count_at t d (getMinuteKey secret t))
           (count_at t d (getDayKey secret t))), s).
Proof.
  intros t d Hh Hm Hd.
  unfold getCurrentUsage, bind, get_state, redis_get.
  rewrite (redis_read_healthy _ s Hh). fold t d.
  unfold is_bucket, count_at, cmd_get in *.
  destruct (peek t d (getMinuteKey secret t)) as [[[[n| |]| | |] ex]|]; try done;
    rewrite (redis_read_healthy _ s Hh); fold t d;
    destruct (peek t d (getDayKey secret t)) as [[[[n'| |]| | |] ex']|]; done.
Qed.

Lemma getCurrentUsage_db (s : State) (secret : string) :
  db (redis (state_after (getCurrentUsage secret) s)) = db (redis s).
Proof.
  apply map_eq. intros key.
  pose proof (getCurrentUsage_frame (fun _ => False) secret s) as (_ & _ & _ & _ & H).
  apply H. tauto.
Qed.

(** C6.  [getCurrentUsage(secret)] leaves the whole key space as it was,
    counters included.  On a connection that holds it returns
    [{minute: 0, day: 0}] when both bucket keys are absent (never written
    or expired); and after any traffic that starts from untouched buckets
    and whose hits under [secret] fall in the minute of the reading, it
    returns the number of these hits for both windows, whatever the hits
    under other secrets are and whenever they come. *)
Theorem getCurrentUsage_counts (s : State) (secret : string) :
  db (redis (state_after (getCurrentUsage secret) s)) = db (redis s) /\
  (healthy s ->
   absent (now s) (db (redis s)) (getMinuteKey secret (now s)) = true ->
   absent (now s) (db (redis s)) (getDayKey secret (now s)) = true ->
   result_of (getCurrentUsage secret) s = Ok (RateLimiter.mkUsage 0 0)) /\
  (forall (hs : list Hit) (T : Z),
     healthy s ->
     db (redis s) !! getMinuteKey secret T = None ->
     db (redis s) !! getDayKey secret T = None ->
     Forall (fun h => hit_secret h = secret -> minute_of (hit_at h) = minute_of T) hs ->
     result_of (getCurrentUsage secret) (set_now T (hits hs s))
     = Ok (RateLimiter.mkUsage (hits_under secret hs) (hits_under secret hs))).
Proof.
  split; [apply getCurrentUsage_db|]. split.
  - intros Hh Hm Hd. unfold result_of, absent in *.
    rewrite getCurrentUsage_buckets; try done.
    + unfold count_at.
      destruct (peek _ _ (getMinuteKey _ _)); [done|].
      by destruct (peek _ _ (getDayKey _ _)).
    + unfold is_bucket. by destruct (peek _ _ (getMinuteKey _ _)).
    + unfold is_bucket. by destruct (peek _ _ (getDayKey _ _)).
  - intros hs T Hh Hm Hd Hin.
    destruct (hits_buckets hs s secret T 0 Hh) as (Hh' & Hm' & Hd').
    { by left. }
    { by left. }
    { intros h Hh'. by apply (proj1 (Forall_forall _ _) Hin). }
    rewrite Z.add_0_l in Hm', Hd'.
    apply (bucket_of_minute_is_bucket T) in Hm' as [Hm1 Hm2].
    apply (bucket_of_minute_is_bucket T) in Hd' as [Hd1 Hd2].
    unfold result_of.
    rewrite getCurrentUsage_buckets; simpl; try done.
    by rewrite Hm2, Hd2.
Qed.

(** Three hits under one secret in the minute of 2026-11-02T00:34, amid
    hits under two other secrets at other instants. *)
Lemma getCurrentUsage_counts_witness :
  let s := initialState 1793579696789 in
  let hs := [mkHit 1793579640000 "sk_a" 1200 1728000;
             mkHit 1793579650000 "sk_b" 1200 1728000;
             mkHit 1793500000000 "sk_c" 1800 2592000;
             mkHit 1793579699999 "sk_a" 1200 1728000;
             mkHit 1793579699999 "sk_b" 1200 1728000;
             mkHit 1793579660000 "sk_a" 1200 1728000] in
  healthy s /\
  result_of (getCurrentUsage "sk_a") s = Ok (RateLimiter.mkUsage 0 0) /\
  result_of (getCurrentUsage "sk_a") (set_now 1793579696789 (hits hs s))
  = Ok (RateLimiter.mkUsage 3 3).
Proof.
  intros s hs.
  destruct (getCurrentUsage_counts s "sk_a") as (_ & Hzero & Hk).
  split; [reflexivity|]. split.
  - apply Hzero; reflexivity.
  - apply (Hk hs 1793579696789); [reflexivity..|].
    repeat constructor; vm_compute; congruence.
Defined.

(** ** The event log *)

Lemma cmd_xadd_stream (t : Z) (ev : nat -> nat -> nat) (d : gmap string Entry)
    (key : string) (maxlen : N) (e : RateLimitEvent.t) :
  is_stream t d key ->
  exists ex,
    cmd_xadd t ev d key maxlen e =
      (Ok tt, <[key := mkEntry (VStream (trim ev maxlen (stream_at t d key ++ [e]))) ex]> d)
    /\ live t (mkEntry (VStream (trim ev maxlen (stream_at t d key ++ [e]))) ex) = true.
Proof.
  unfold is_stream, cmd_xadd, stream_at, peek.
  destruct (d !! key) as [[v ex]|] eqn:Hk; simpl.
  - destruct (live t (mkEntry v ex)) eqn:Hl.
    + destruct v; try done. intros _. exists ex. split; [done|].
      unfold live in *. done.
    + intros _. exists None. done.
  - intros _. exists None. done.
Qed.

Lemma redis_xadd_healthy (s : State) (key : string) (maxlen : N) (e : RateLimitEvent.t) :
  healthy s -> is_stream (now s) (db (redis s)) key ->
  exists ex,
    redis_xadd key maxlen e s =
      (Ok tt,
       set_redis
         (set_db (<[key := mkEntry (VStream (trim (evict (redis s)) maxlen
                                      (stream_at (now s) (db (redis s)) key ++ [e]))) ex]>
                    (db (redis s))) (redis s)) s)
    /\ live (now s) (mkEntry (VStream (trim (evict (redis s)) maxlen
                                (stream_at (now s) (db (redis s)) key ++ [e]))) ex) = true.
Proof.
  intros Hh Hs.
  destruct (cmd_xadd_stream (now s) (evict (redis s)) (db (redis s)) key maxlen e Hs)
    as (ex & Hx & Hl).
  exists ex. split; [|done].
  unfold redis_xadd.
  rewrite (bind_Ok _ _ _ _ _ (connection_healthy s Hh)).
  by rewrite Hx.
Qed.

(** [addEvent] on a connection that holds, with both stream keys absent or
    holding streams: it returns, and each of the two streams is the old one
    with the event appended, then trimmed. *)
Lemma addEvent_appends (s : State) (e : RateLimitEvent.t) :
  let t := now s in
  let keyStream := getEventsStreamKey (RateLimitEvent.apiKey e) in
  let globalStream := getGlobalEventsStreamKey in
  healthy s ->
  is_stream t (db (redis s)) keyStream ->
  is_stream t (db (redis s)) globalStream ->
  exists s',
    addEvent e s = (Ok tt, s') /\
    same_memory s s' /\
    (keyStream ≠ globalStream ->
     stream_at t (db (redis s')) keyStream
     = trim (evict (redis s)) 1000 (stream_at t (db (redis s)) keyStream ++ [e]) /\
     stream_at t (db (redis s')) globalStream
     = trim (evict (redis s)) 10000 (stream_at t (db (redis s)) globalStream ++ [e])).
Proof.
  intros t keyStream globalStream Hh Hk Hg.
  destruct (redis_xadd_healthy s keyStream 1000 e Hh Hk) as (ex1 & Hx1 & Hl1).
  set (s1 := set_redis _ s) in Hx1.
  assert (Hh1 : healthy s1) by exact Hh.
  assert (Hg1 : is_stream (now s1) (db (redis s1)) globalStream).
  { simpl. unfold is_stream. destruct (decide (keyStream = globalStream)) as [->|Hne].
    - fold t. rewrite peek_insert_eq. fold t in Hl1. by rewrite Hl1.
    - by rewrite peek_insert_ne. }
  destruct (redis_xadd_healthy s1 globalStream 10000 e Hh1 Hg1) as (ex2 & Hx2 & Hl2).
  eexists. split; [|split].
  - unfold addEvent. fold keyStream globalStream.
    rewrite (bind_Ok _ _ _ _ _ Hx1). exact Hx2.
  - done.
  - intros Hne. simpl. fold t. split.
    + unfold stream_at at 1.
      rewrite peek_insert_ne, peek_insert_eq by done.
      fold t in Hl1. by rewrite Hl1.
    + unfold stream_at at 1. rewrite peek_insert_eq.
      simpl in Hl2. fold t in Hl2. rewrite Hl2.
      f_equal. f_equal. unfold stream_at. by rewrite peek_insert_ne.
Qed.

(** ** Lookups never throw *)

Lemma never_throws_ret {A} (a : A) : never_throws (ret a).
Proof. intros s. by eexists _, _. Qed.

Lemma never_throws_bind {A B} (c : M A) (k : A -> M B) :
  never_throws c -> (forall a, never_throws (k a)) -> never_throws (bind c k).
Proof.
  intros Hc Hk s. destruct (Hc s) as (a & s1 & H1).
  destruct (Hk a s1) as (b & s2 & H2).
  exists b, s2. by rewrite (bind_Ok _ _ _ _ _ H1).
Qed.

Lemma never_throws_try_catch {A} (c h : M A) :
  never_throws h -> never_throws (try_catch c h).
Proof.
  intros Hh s. unfold try_catch.
  destruct (c s) as [[a|e] s1]; [by eexists _, _|apply Hh].
Qed.

Lemma never_throws_updateApiKeyWithCurrentTierLimits key :
  never_throws (updateApiKeyWithCurrentTierLimits key).
Proof.
  intros s. unfold updateApiKeyWithCurrentTierLimits, bind, get_state.
  destruct (tiersStore s !! _); by eexists _, _.
Qed.

Lemma never_throws_findApiKeyByValue_memory K memoryKeys :
  never_throws (findApiKeyByValue_memory K memoryKeys).
Proof.
  induction memoryKeys as [|key rest IH]; simpl; [apply never_throws_ret|].
  apply never_throws_bind; [intros s; by eexists _, _|]. intros s0.
  destruct (decide _); [|apply IH].
  apply never_throws_bind; [apply never_throws_updateApiKeyWithCurrentTierLimits|].
  intros u. apply never_throws_bind; [intros s; by eexists _, _|]. intros k.
  apply never_throws_bind; [|intros; apply never_throws_ret].
  apply never_throws_try_catch, never_throws_ret.
Qed.

Lemma never_throws_findApiKeyByValue K : never_throws (findApiKeyByValue K).
Proof.
  unfold findApiKeyByValue.
  apply never_throws_bind; [apply never_throws_try_catch, never_throws_ret|].
  intros [key|]; [apply never_throws_ret|].
  apply never_throws_bind; [intros s; by eexists _, _|]. intros s0.
  apply never_throws_bind; [apply never_throws_findApiKeyByValue_memory|].
  intros [key|]; [apply never_throws_ret|].
  apply never_throws_bind; [apply never_throws_try_catch, never_throws_ret|].
  intros [key|]; apply never_throws_ret.
Qed.

(** ** The admission flow *)

Lemma begins_rl_not_others (key : string) :
  begins "rl:" key ->
  ~ (begins "meta:" key \/ begins "events:" key \/ begins "lastseen:" key \/
     begins "api-key" key).
Proof.
  intros [r ->] [[r' H]|[[r' H]|[[r' H]|[r' H]]]]; discriminate.
Qed.

Lemma begins_events_not_others (key : string) :
  begins "events:" key ->
  ~ (begins "meta:" key \/ begins "rl:" key \/ begins "lastseen:" key \/
     begins "api-key" key).
Proof.
  intros [r ->] [[r' H]|[[r' H]|[[r' H]|[r' H]]]]; discriminate.
Qed.

(** A reading depends on the clock, the connection and the buckets only. *)
Lemma getCurrentUsage_same (s s' : State) (secret : string) :
  healthy s -> healthy s' -> now s' = now s ->
  (forall key, begins "rl:" key -> db (redis s') !! key = db (redis s) !! key) ->
  result_of (getCurrentUsage secret) s' = result_of (getCurrentUsage secret) s.
Proof.
  intros Hh Hh' Hn Hd.
  assert (Hp : forall key, begins "rl:" key ->
                 peek (now s) (db (redis s')) key = peek (now s) (db (redis s)) key).
  { intros key Hk. unfold peek. by rewrite Hd. }
  unfold result_of, getCurrentUsage, bind, get_state, redis_get.
  rewrite (redis_read_healthy _ s Hh), (redis_read_healthy _ s' Hh'), Hn.
  unfold cmd_get. rewrite Hp by begins_here.
  destruct (peek (now s) (db (redis s)) (getMinuteKey secret (now s)))
    as [[[[n| |]| | |] ex]|]; try done;
    rewrite (redis_read_healthy _ s Hh), (redis_read_healthy _ s' Hh'), Hn;
    rewrite Hp by begins_here;
    by destruct (peek (now s) (db (redis s)) (getDayKey secret (now s)))
      as [[[[n'| |]| | |] ex']|].
Qed.

(** The flow once the credential is resolved and found disabled. *)
Lemma rateLimitMiddleware_disabled (s s1 : State) (secret endpoint : string) (ref : nat) :
  secret ≠ "" ->
  findApiKeyByValue secret s = (Ok (Some ref), s1) ->
  ApiKey.disabled (deref s1 ref) = true ->
  rateLimitMiddleware (Some secret) endpoint s =
    (addEvent (RateLimitEvent.mk (toISOString (now s)) secret endpoint 403
                 "API key disabled" (now s - now s)) ;;;
     ret (Middleware.Denied "API key is disabled" 3600)) s1.
Proof.
  intros Hne Hfind Hdis. unfold rateLimitMiddleware.
  rewrite (bind_Ok _ _ s s s) by reflexivity.
  rewrite (bind_Ok _ _ s s tt) by reflexivity.
  unfold header_missing. rewrite bool_decide_eq_false_2 by done.
  simpl default.
  rewrite (bind_Ok _ _ _ _ _ Hfind).
  rewrite (bind_Ok _ _ s1 s1 (deref s1 ref)) by reflexivity.
  by rewrite Hdis.
Qed.

(** C5.  When the credential that the check resolves is disabled, no key
    of the counter store is written, whatever the connection does; and on
    a connection that holds, with the event streams in place, the check
    returns the disabled rejection and every reading of current usage is
    the same after the check as before it. *)
Theorem disabled_bypasses_counters (s s1 : State) (secret endpoint : string) (ref : nat) :
  secret ≠ "" ->
  findApiKeyByValue secret s = (Ok (Some ref), s1) ->
  ApiKey.disabled (deref s1 ref) = true ->
  let s' := state_after (rateLimitMiddleware (Some secret) endpoint) s in
  (forall key, begins "rl:" key -> db (redis s') !! key = db (redis s) !! key) /\
  (healthy s ->
   is_stream (now s) (db (redis s)) (getEventsStreamKey secret) ->
   is_stream (now s) (db (redis s)) getGlobalEventsStreamKey ->
   result_of (rateLimitMiddleware (Some secret) endpoint) s
   = Ok (Middleware.Denied "API key is disabled" 3600) /\
   forall other, result_of (getCurrentUsage other) s'
                 = result_of (getCurrentUsage other) s).
Proof.
  intros Hne Hfind Hdis s'.
  pose proof (rateLimitMiddleware_disabled s s1 secret endpoint ref Hne Hfind Hdis)
    as Hmw.
  set (ev := RateLimitEvent.mk _ _ _ _ _ _) in Hmw.
  pose proof (findApiKeyByValue_frame (begins "meta:") secret ltac:(done) s) as Hf1.
  rewrite Hfind in Hf1. simpl in Hf1.
  pose proof (addEvent_frame (begins "events:") ev ltac:(done) s1) as Hf2.
  assert (Hs' : s' = (addEvent ev s1).2).
  { unfold s', state_after. rewrite Hmw. unfold bind.
    by destruct (addEvent ev s1) as [[[]|e] s2]. }
  assert (Hrl : forall key, begins "rl:" key ->
                  db (redis s') !! key = db (redis s) !! key).
  { intros key Hk. pose proof (begins_rl_not_others key Hk) as Hno.
    destruct Hf1 as (_ & _ & _ & _ & Hd1). destruct Hf2 as (_ & _ & _ & _ & Hd2).
    rewrite Hs', Hd2, Hd1; tauto. }
  split; [exact Hrl|].
  intros Hh Hk Hg.
  assert (Hh1 : healthy s1) by (by apply Hf1).
  assert (Hn1 : now s1 = now s) by apply Hf1.
  assert (Hev : forall key, begins "events:" key ->
                  is_stream (now s) (db (redis s)) key ->
                  is_stream (now s1) (db (redis s1)) key).
  { intros key Hkey. pose proof (begins_events_not_others key Hkey) as Hno.
    destruct Hf1 as (_ & _ & _ & _ & Hd1).
    unfold is_stream, peek. rewrite Hn1, Hd1; tauto. }
  destruct (addEvent_appends s1 ev Hh1) as (s2 & Hadd & _ & _).
  { apply Hev; [begins_here|done]. }
  { apply Hev; [begins_here|done]. }
  split.
  - unfold result_of. rewrite Hmw. by rewrite (bind_Ok _ _ _ _ _ Hadd).
  - intros other. apply getCurrentUsage_same; try done.
    + rewrite Hs'. by apply Hf2.
    + rewrite Hs'. destruct Hf2 as (-> & _). done.
Qed.

(** ** Every verdict is logged *)

Lemma cmd_xadd_inv (t : Z) (ev : nat -> nat -> nat) (d d' : gmap string Entry)
    (key : string) (maxlen : N) (e : RateLimitEvent.t) :
  cmd_xadd t ev d key maxlen e = (Ok tt, d') -> is_stream t d key.
Proof.
  unfold cmd_xadd, is_stream.
  destruct (peek t d key) as [[[| | |] ex]|]; done.
Qed.

Lemma redis_xadd_inv (s s' : State) (key : string) (maxlen : N) (e : RateLimitEvent.t) :
  redis_xadd key maxlen e s = (Ok tt, s') ->
  frame (fun k => k = key) s s' /\
  stream_at (now s) (db (redis s')) key
  = trim (evict (redis s)) maxlen (stream_at (now s) (db (redis s)) key ++ [e]).
Proof.
  intros Hx. split.
  { pose proof (redis_xadd_frame (fun k => k = key) key maxlen e eq_refl s) as H.
    by rewrite Hx in H. }
  unfold redis_xadd, bind in Hx.
  destruct (connection s) as [[[]|msg] s0] eqn:Hc; [|discriminate].
  assert (Hs0 : now s0 = now s /\ db (redis s0) = db (redis s) /\
                evict (redis s0) = evict (redis s)).
  { unfold connection in Hc.
    destruct (outages (redis s)) as [|[] rest]; by simplify_eq. }
  destruct Hs0 as (Hn & Hd & He). rewrite Hn, Hd, He in Hx.
  destruct (cmd_xadd _ _ _ _ _ _) as [r d'] eqn:Hcmd. simplify_eq.
  destruct (cmd_xadd_stream (now s) (evict (redis s)) (db (redis s)) key maxlen e)
    as (ex & Hcmd' & Hl).
  { by eapply cmd_xadd_inv. }
  rewrite Hcmd in Hcmd'. simplify_eq. simpl.
  unfold stream_at at 1. by rewrite peek_insert_eq, Hl.
Qed.

Lemma frame_stream_at (W : string -> Prop) (s s' : State) (key : string) :
  frame W s s' -> ~ W key ->
  stream_at (now s') (db (redis s')) key = stream_at (now s) (db (redis s)) key.
Proof.
  intros (Hn & _ & _ & _ & Hd) Hk. unfold stream_at, peek.
  by rewrite Hn, Hd.
Qed.

Lemma addEvent_inv (s s' : State) (e : RateLimitEvent.t) :
  let keyStream := getEventsStreamKey (RateLimitEvent.apiKey e) in
  let globalStream := getGlobalEventsStreamKey in
  addEvent e s = (Ok tt, s') ->
  keyStream ≠ globalStream ->
  stream_at (now s) (db (redis s')) keyStream
  = trim (evict (redis s)) 1000 (stream_at (now s) (db (redis s)) keyStream ++ [e]) /\
  stream_at (now s) (db (redis s')) globalStream
  = trim (evict (redis s)) 10000 (stream_at (now s) (db (redis s)) globalStream ++ [e]).
Proof.
  intros keyStream globalStream Hadd Hne.
  unfold addEvent in Hadd. fold keyStream globalStream in Hadd.
  apply bind_inv_Ok in Hadd as ([] & s1 & H1 & H2).
  apply redis_xadd_inv in H1 as (Hf1 & Hs1).
  apply redis_xadd_inv in H2 as (Hf2 & Hs2).
  assert (Hn1 : now s1 = now s) by apply Hf1.
  assert (He1 : evict (redis s1) = evict (redis s)) by apply Hf1.
  assert (Hn2 : now s' = now s) by (destruct Hf2 as (-> & _); done).
  rewrite Hn1, He1 in Hs2.
  pose proof (frame_stream_at _ _ _ keyStream Hf2 ltac:(simpl; congruence)) as E1.
  pose proof (frame_stream_at _ _ _ globalStream Hf1 ltac:(simpl; congruence)) as E2.
  rewrite Hn2, Hn1 in E1. rewrite Hn1 in E2.
  by rewrite E1, Hs1, Hs2, E2.
Qed.

(** The end of every branch of the flow: the steps before the append and
    the steps after it leave the streams alone. *)
Lemma logged_between (W W' : string -> Prop) (s s1 s2 s' : State)
    (e : RateLimitEvent.t) :
  let keyStream := getEventsStreamKey (RateLimitEvent.apiKey e) in
  let globalStream := getGlobalEventsStreamKey in
  (forall key, begins "events:" key -> ~ W key) ->
  (forall key, begins "events:" key -> ~ W' key) ->
  frame W s s1 -> addEvent e s1 = (Ok tt, s2) -> frame W' s2 s' ->
  keyStream ≠ globalStream ->
  stream_at (now s) (db (redis s')) keyStream
  = trim (evict (redis s)) 1000 (stream_at (now s) (db (redis s)) keyStream ++ [e]) /\
  stream_at (now s) (db (redis s')) globalStream
  = trim (evict (redis s)) 10000 (stream_at (now s) (db (redis s)) globalStream ++ [e]).
Proof.
  intros keyStream globalStream HW HW' Hf1 Hadd Hf2 Hne.
  destruct (addEvent_inv s1 s2 e Hadd Hne) as [Hk Hg].
  pose proof (addEvent_frame (begins "events:") e ltac:(done) s1) as Hfa.
  rewrite Hadd in Hfa. simpl in Hfa.
  assert (Hn1 : now s1 = now s) by apply Hf1.
  assert (Hn2 : now s2 = now s) by (destruct Hfa as (-> & _); done).
  assert (Hn' : now s' = now s) by (destruct Hf2 as (-> & _); done).
  assert (He1 : evict (redis s1) = evict (redis s)) by apply Hf1.
  assert (Hkb : begins "events:" keyStream) by begins_here.
  assert (Hgb : begins "events:" globalStream) by begins_here.
  fold keyStream globalStream in Hk, Hg.
  rewrite Hn1, He1 in Hk, Hg.
  pose proof (frame_stream_at _ _ _ keyStream Hf2 (HW' _ Hkb)) as E1.
  pose proof (frame_stream_at _ _ _ globalStream Hf2 (HW' _ Hgb)) as E2.
  pose proof (frame_stream_at _ _ _ keyStream Hf1 (HW _ Hkb)) as E3.
  pose proof (frame_stream_at _ _ _ globalStream Hf1 (HW _ Hgb)) as E4.
  rewrite Hn', Hn2 in E1, E2. rewrite Hn1 in E3, E4.
  rewrite E1, E2, Hk, Hg, E3, E4. done.
Qed.

Lemma events_not_around (key : string) : begins "events:" key -> ~ around_events key.
Proof.
  intros Hk. pose proof (begins_events_not_others key Hk). unfold around_events. tauto.
Qed.

Lemma getEventsStreamKey_global (label : string) :
  label ≠ "global" -> getEventsStreamKey label ≠ getGlobalEventsStreamKey.
Proof.
  intros Hne Heq. apply Hne.
  by apply (inj (String.app "events:")) in Heq.
Qed.

(** The event of the branch at hand is the one just appended. *)
Ltac logged_here :=
  match goal with
  | Hadd : addEvent ?e ?s1 = (Ok tt, ?s2) |- _ =>
      exists e;
      split; [reflexivity|];
      split; [reflexivity|];
      split; [reflexivity|];
      eapply (logged_between around_events around_events _ s1 s2 _ e);
      first [ exact events_not_around | eassumption | reflexivity ]
  end.

(** The event that the branch at hand appends, in the state where it does. *)
Ltac append_at s1 :=
  match goal with
  | |- context [bind (addEvent ?e) _] => exists e, s1
  end.

(** A refusal is returned right after its event was appended. *)
Ltac reached_append H :=
  let s2 := fresh "s2" in
  let Hadd := fresh "Hadd" in
  apply bind_inv_Ok in H as ([] & s2 & Hadd & H);
  unfold ret in H; injection H as <- <-;
  exists s2; split; [exact Hadd|reflexivity].

(** C3, as the code has it.  Every verdict that the flow returns comes
    with exactly one event, appended to the stream of the credential
    (["anonymous"] when none was presented) and to the global stream, each
    trimmed as [XADD] does, for every secret other than ["global"].  The
    append is awaited without a handler on every branch.  Either the flow
    throws before it appends, with every stream as it was; or it comes,
    having written to no stream, to the append of one event under the label
    of the request, and then an error thrown by [addEvent] is thrown by the
    flow, with no verdict, while a verdict is returned only after that
    append has returned, and its status is the one of the event. *)
Theorem verdict_is_logged (s : State) (x_api_key : option string) (endpoint : string) :
  let label := event_label x_api_key in
  (forall v s',
     rateLimitMiddleware x_api_key endpoint s = (Ok v, s') ->
     label ≠ "global" ->
     exists ev,
       RateLimitEvent.apiKey ev = label /\
       RateLimitEvent.endpoint ev = endpoint /\
       RateLimitEvent.status ev = decision_status v /\
       stream_at (now s) (db (redis s')) (getEventsStreamKey label)
       = trim (evict (redis s)) 1000
           (stream_at (now s) (db (redis s)) (getEventsStreamKey label) ++ [ev]) /\
       stream_at (now s) (db (redis s')) getGlobalEventsStreamKey
       = trim (evict (redis s)) 10000
           (stream_at (now s) (db (redis s)) getGlobalEventsStreamKey ++ [ev])) /\
  ((exists e s',
      rateLimitMiddleware x_api_key endpoint s = (Throw e, s') /\
      forall key, begins "events:" key -> db (redis s') !! key = db (redis s) !! key) \/
   (exists ev s1,
      RateLimitEvent.apiKey ev = label /\
      RateLimitEvent.endpoint ev = endpoint /\
      frame around_events s s1 /\
      (forall message s2,
         addEvent ev s1 = (Throw message, s2) ->
         rateLimitMiddleware x_api_key endpoint s = (Throw message, s2)) /\
      (forall v s',
         rateLimitMiddleware x_api_key endpoint s = (Ok v, s') ->
         exists s2, addEvent ev s1 = (Ok tt, s2) /\
                    RateLimitEvent.status ev = decision_status v))) /\
  (header_missing x_api_key = true ->
   forall message,
     result_of (addEvent (RateLimitEvent.mk (toISOString (now s)) "anonymous"
                            endpoint 401 "Missing API key" 0)) s = Throw message ->
     result_of (rateLimitMiddleware x_api_key endpoint) s = Throw message).
Proof.
  intros label. split; [|split].
  - intros v s' H Hlabel.
    apply getEventsStreamKey_global in Hlabel.
    unfold label, event_label in *. clear label.
    unfold rateLimitMiddleware in H.
    apply bind_inv_Ok in H as (s0 & sa & H0 & H). unfold get_state in H0.
    injection H0 as <- <-.
    apply bind_inv_Ok in H as ([] & sb & H0 & H).
    unfold ensureRedisConnected, ret in H0. injection H0 as <-.
    destruct (header_missing x_api_key) eqn:Hmiss.
    + (* no credential *)
      apply bind_inv_Ok in H as ([] & s2 & Hadd & H).
      unfold ret in H. injection H as <- <-.
      logged_here.
    + set (secret := default "" x_api_key) in *.
      apply bind_inv_Ok in H as (r & s1 & Hfind & H).
      pose proof (findApiKeyByValue_frame around_events secret
                    ltac:(unfold around_events; tauto) s) as Hf1.
      rewrite Hfind in Hf1. simpl in Hf1.
      destruct r as [ref|].
      * apply bind_inv_Ok in H as (k & sr & Hr & H).
        unfold read in Hr. injection Hr as <- <-.
        destruct (ApiKey.disabled (deref s1 ref)).
        -- (* disabled *)
           apply bind_inv_Ok in H as ([] & s2 & Hadd & H).
           unfold ret in H. injection H as <- <-.
           logged_here.
        -- apply bind_inv_Ok in H as (rl & s2 & Hc & H).
           pose proof (checkRateLimit_frame around_events secret
                         (ApiKey.perMinute (deref s1 ref))
                         (ApiKey.perDay (deref s1 ref))
                         ltac:(unfold around_events; tauto) s1) as Hf2.
           rewrite Hc in Hf2. simpl in Hf2.
           assert (Hf12 : frame around_events s s2) by (etrans; eauto).
           destruct (RateLimiter.isOverLimit rl).
           ++ (* over the limit *)
              apply bind_inv_Ok in H as ([] & s3 & Hadd & H).
              unfold ret in H. injection H as <- <-.
              logged_here.
           ++ (* admitted *)
              apply bind_inv_Ok in H as ([] & s3 & Hadd & H).
              apply bind_inv_Ok in H as ([] & s4 & Hseen & H).
              apply bind_inv_Ok in H as (k' & sr & Hr & H).
              unfold read in Hr. injection Hr as <- <-.
              unfold ret in H. injection H as <- <-.
              pose proof (updateLastSeen_frame around_events secret
                            ltac:(unfold around_events; tauto) s3) as Hf3.
              rewrite Hseen in Hf3. simpl in Hf3.
              logged_here.
      * (* unknown credential *)
        apply bind_inv_Ok in H as ([] & s2 & Hadd & H).
        unfold ret in H. injection H as <- <-.
        logged_here.
  - unfold label, event_label. clear label.
    unfold rateLimitMiddleware.
    rewrite (bind_Ok _ _ s s s) by reflexivity.
    rewrite (bind_Ok _ _ s s tt) by reflexivity.
    destruct (header_missing x_api_key) eqn:Hmiss.
    { right. append_at s. split; [reflexivity|]. split; [reflexivity|].
      split; [reflexivity|]. split.
      - intros message s2 Ha. by rewrite (bind_Throw _ _ _ _ _ Ha).
      - intros v s' H. reached_append H. }
    set (secret := default "" x_api_key).
    pose proof (findApiKeyByValue_frame around_events secret
                  ltac:(unfold around_events; tauto) s) as Hf1.
    destruct (findApiKeyByValue secret s) as [[r|e] s1] eqn:Hfind; simpl in Hf1.
    2:{ left. rewrite (bind_Throw _ _ _ _ _ Hfind). eexists _, _.
        split; [reflexivity|]. intros key Hkey. apply Hf1.
        by apply events_not_around. }
    rewrite (bind_Ok _ _ _ _ _ Hfind).
    destruct r as [ref|].
    2:{ right. append_at s1. split; [reflexivity|]. split; [reflexivity|].
        split; [exact Hf1|]. split.
        - intros message s2 Ha. by rewrite (bind_Throw _ _ _ _ _ Ha).
        - intros v s' H. reached_append H. }
    rewrite (bind_Ok _ _ s1 s1 (deref s1 ref)) by reflexivity.
    destruct (ApiKey.disabled (deref s1 ref)).
    { right. append_at s1. split; [reflexivity|]. split; [reflexivity|].
      split; [exact Hf1|]. split.
      - intros message s2 Ha. by rewrite (bind_Throw _ _ _ _ _ Ha).
      - intros v s' H. reached_append H. }
    pose proof (checkRateLimit_frame around_events secret
                  (ApiKey.perMinute (deref s1 ref)) (ApiKey.perDay (deref s1 ref))
                  ltac:(unfold around_events; tauto) s1) as Hf2.
    destruct (checkRateLimit secret _ _ s1) as [[rl|e] s2] eqn:Hc; simpl in Hf2.
    2:{ left. rewrite (bind_Throw _ _ _ _ _ Hc). eexists _, _.
        split; [reflexivity|]. intros key Hkey.
        assert (Hf12 : frame around_events s s2) by (etrans; eauto).
        apply Hf12. by apply events_not_around. }
    rewrite (bind_Ok _ _ _ _ _ Hc).
    assert (Hf12 : frame around_events s s2) by (etrans; eauto).
    destruct (RateLimiter.isOverLimit rl).
    + right. append_at s2. split; [reflexivity|]. split; [reflexivity|].
      split; [exact Hf12|]. split.
      * intros message s3 Ha. by rewrite (bind_Throw _ _ _ _ _ Ha).
      * intros v s' H. reached_append H.
    + right. append_at s2. split; [reflexivity|]. split; [reflexivity|].
      split; [exact Hf12|]. split.
      * intros message s3 Ha. by rewrite (bind_Throw _ _ _ _ _ Ha).
      * intros v s' H.
        apply bind_inv_Ok in H as ([] & s3 & Hadd & H).
        apply bind_inv_Ok in H as ([] & s4 & Hseen & H).
        apply bind_inv_Ok in H as (k' & sr & Hr & H).
        unfold ret in H. injection H as <- <-.
        exists s3. split; [exact Hadd|reflexivity].
  - intros Hmiss message Hadd. unfold result_of in *.
    unfold rateLimitMiddleware.
    rewrite (bind_Ok _ _ s s s) by reflexivity.
    rewrite (bind_Ok _ _ s s tt) by reflexivity.
    rewrite Hmiss. rewrite Z.sub_diag.
    destruct (addEvent _ s) as [[[]|msg] s1] eqn:Ha; simpl in Hadd; [done|].
    simplify_eq. by rewrite (bind_Throw _ _ _ _ _ Ha).
Qed.

(** The first hit of a fresh credential, on a connection that holds and on
    one that is out. *)
Lemma checkRateLimit_increments_both_witness :
  (exists r s',
     checkRateLimit secret1 1200 1728000 created = (Ok r, s') /\
     RateLimiter.minuteCount r = 1 /\ RateLimiter.dayCount r = 1 /\
     RateLimiter.isOverLimit r = false /\
     expiry_at t0 (db (redis s')) (getMinuteKey secret1 t0) = Some (t0 + 90000) /\
     expiry_at t0 (db (redis s')) (getDayKey secret1 t0) = Some (t0 + 90000000)) /\
  (exists e s',
     checkRateLimit secret1 1200 1728000 (outage_at 0 created) = (Throw e, s') /\
     db (redis s') = db (redis created)).
Proof.
  split.
  - destruct (checkRateLimit_increments_both created secret1 1200 1728000)
      as [(e & s' & _ & _ & Hout)|(r & s' & Hrun & Hm & Hd & Ho & _ & _ & Hem & Hed & _)];
      [exact I|exact I|by destruct Hout|].
    exists r, s'. split; [exact Hrun|].
    split; [exact Hm|]. split; [exact Hd|].
    split; [by rewrite Ho, Hm, Hd|].
    split; [exact Hem|exact Hed].
  - destruct (checkRateLimit_increments_both (outage_at 0 created) secret1 1200 1728000)
      as [(e & s' & Hrun & Hdb & _)|(r & s' & Hrun & _)];
      [exact I|exact I| |].
    + exists e, s'. split; [exact Hrun|exact Hdb].
    + assert (Hthrows : result_of (checkRateLimit secret1 1200 1728000)
                          (outage_at 0 created) = Throw "Connection is closed.")
        by (vm_compute; reflexivity).
      unfold result_of in Hthrows. rewrite Hrun in Hthrows. discriminate.
Defined.

(** C3 as the spec has it fails: the third command of an admitted request
    is the [XADD] of [addEvent]; when the connection drops there, the
    counters have been spent and the flow throws instead of returning the
    verdict it returns when the append goes through.  And a request that
    presents the secret "global", whose stream is the global stream, has
    its one event appended to that stream twice. *)
Lemma verdict_lost_when_append_fails :
  let request := rateLimitMiddleware (Some secret1) "/api/data" in
  let global := rateLimitMiddleware (Some "global") "/api/data" in
  let ev := RateLimitEvent.mk (toISOString t0) "global" "/api/data" 401
              "Invalid API key" 0 in
  (result_of request created = Ok (Middleware.Allowed 1 1 1200 1728000) /\
   result_of request (outage_at 2 created) = Throw "Connection is closed." /\
   count_at t0 (db (redis (state_after request (outage_at 2 created))))
     (getMinuteKey secret1 t0) = 1 /\
   result_of (rateLimitMiddleware None "/api/data") created
   = Ok (Middleware.Denied "Missing x-api-key header" 60) /\
   result_of (rateLimitMiddleware None "/api/data") (outage_at 0 created)
   = Throw "Connection is closed.") /\
  (getEventsStreamKey "global" = getGlobalEventsStreamKey /\
   result_of global created = Ok (Middleware.Denied "Invalid API key" 60) /\
   stream_at t0 (db (redis created)) getGlobalEventsStreamKey = [] /\
   stream_at t0 (db (redis (state_after global created))) getGlobalEventsStreamKey
   = [ev; ev]).
Proof. vm_compute. repeat split; reflexivity. Qed.

(** An admitted request and its event. *)
Lemma verdict_is_logged_witness :
  let request := rateLimitMiddleware (Some secret1) "/api/data" in
  request created = (Ok (Middleware.Allowed 1 1 1200 1728000), state_after request created) /\
  exists ev,
    RateLimitEvent.apiKey ev = secret1 /\
    RateLimitEvent.endpoint ev = "/api/data" /\
    RateLimitEvent.status ev = 200 /\
    stream_at t0 (db (redis (state_after request created))) (getEventsStreamKey secret1)
    = trim (fun _ _ => O) 1000 ([] ++ [ev]) /\
    stream_at t0 (db (redis (state_after request created))) getGlobalEventsStreamKey
    = trim (fun _ _ => O) 10000 ([] ++ [ev]).
Proof.
  intros request.
  assert (Hrun : request created
                 = (Ok (Middleware.Allowed 1 1 1200 1728000), state_after request created))
    by (vm_compute; reflexivity).
  split; [exact Hrun|].
  apply (proj1 (verdict_is_logged created (Some secret1) "/api/data") _ _ Hrun).
  vm_compute. discriminate.
Defined.

(** A credential with two hits, disabled, and checked again. *)
Lemma disabled_bypasses_counters_witness :
  let s := used_then_disabled in
  let request := rateLimitMiddleware (Some secret1) "/api/data" in
  result_of (getCurrentUsage secret1) s = Ok (RateLimiter.mkUsage 2 2) /\
  result_of request s = Ok (Middleware.Denied "API key is disabled" 3600) /\
  (forall key, begins "rl:" key ->
     db (redis (state_after request s)) !! key = db (redis s) !! key) /\
  result_of (getCurrentUsage secret1) (state_after request s)
  = Ok (RateLimiter.mkUsage 2 2).
Proof.
  intros s request.
  assert (Hnow : result_of (getCurrentUsage secret1) s = Ok (RateLimiter.mkUsage 2 2))
    by (vm_compute; reflexivity).
  destruct (disabled_bypasses_counters s (state_after (findApiKeyByValue secret1) s)
              secret1 "/api/data" 0%nat) as (Hrl & Hrest).
  - vm_compute. discriminate.
  - vm_compute. reflexivity.
  - vm_compute. reflexivity.
  - destruct Hrest as (Hdenied & Hsame); [reflexivity|exact I|exact I|].
    split; [exact Hnow|]. split; [exact Hdenied|]. split; [exact Hrl|].
    fold request in Hsame. rewrite Hsame. exact Hnow.
Defined.

(** ** Commands that went through *)

Lemma connection_inv (s s' : State) :
  connection s = (Ok tt, s') ->
  now s' = now s /\ heap s' = heap s /\ apiKeysStore s' = apiKeysStore s /\
  apiKeysByHash s' = apiKeysByHash s /\ tiersStore s' = tiersStore s /\
  db (redis s') = db (redis s) /\ evict (redis s') = evict (redis s).
Proof.
  unfold connection.
  destruct (outages (redis s)) as [|[] rest]; intros H; by simplify_eq.
Qed.

Lemma redis_write_inv {A}
    (f : Z -> gmap string Entry -> Result A * gmap string Entry)
    (s s' : State) (a : A) :
  redis_write f s = (Ok a, s') ->
  f (now s) (db (redis s)) = (Ok a, db (redis s')) /\
  now s' = now s /\ same_memory s s' /\ tiersStore s' = tiersStore s.
Proof.
  unfold redis_write. intros H.
  apply bind_inv_Ok in H as ([] & s0 & Hc & H).
  apply connection_inv in Hc as (Hn & Hh & Hs & Hb & Ht & Hd & He).
  rewrite Hn, Hd in H.
  destruct (f (now s) (db (redis s))) as [r d']. simplify_eq. simpl.
  unfold same_memory. simpl. repeat split; done.
Qed.

Lemma redis_read_inv {A} (f : Z -> gmap string Entry -> Result A)
    (s s' : State) (a : A) :
  redis_read f s = (Ok a, s') ->
  f (now s) (db (redis s)) = Ok a /\
  db (redis s') = db (redis s) /\
  now s' = now s /\ same_memory s s' /\ tiersStore s' = tiersStore s.
Proof.
  unfold redis_read. intros H.
  apply bind_inv_Ok in H as ([] & s0 & Hc & H).
  apply connection_inv in Hc as (Hn & Hh & Hs & Hb & Ht & Hd & He).
  rewrite Hn, Hd in H. simplify_eq.
  unfold same_memory. repeat split; done.
Qed.

(** ** Deletion *)

Lemma Map_get_delete {V} (key : string) (m : list (string * V)) :
  Map_get key (Map_delete key m) = None.
Proof.
  unfold Map_delete. induction m as [|[k v] m IH]; [done|].
  destruct (decide (k = key)) as [->|Hne].
  - rewrite filter_cons_False; [done|]. simpl. tauto.
  - rewrite filter_cons_True by done. simpl. by rewrite decide_False.
Qed.

Lemma api_key_record_not_set (id : string) : API_KEY_PREFIX +:+ id ≠ API_KEYS_SET.
Proof. destruct id as [|a id]; [done|]. intros H. injection H as H _. done. Qed.

Lemma cmd_srem_removes (t : Z) (d d' : gmap string Entry) (key x : string) :
  cmd_srem t d key x = (Ok tt, d') ->
  match cmd_smembers t d' key with
  | Ok l => x ∉ l
  | Throw _ => False
  end.
Proof.
  unfold cmd_srem, cmd_smembers.
  destruct (peek t d key) as [[[| |l|] ex]|] eqn:Hp; intros H; simplify_eq.
  - destruct (filter (fun y => y ≠ x) l) as [|y l'] eqn:Hf.
    + unfold peek. rewrite lookup_delete_eq. apply not_elem_of_nil.
    + rewrite peek_insert_eq.
      assert (Hl : live t (mkEntry (VSet (y :: l')) ex) = true).
      { unfold peek in Hp. destruct (d !! key) as [e|]; [|done].
        destruct (live t e) eqn:He; [|done]. by simplify_eq. }
      rewrite Hl, <- Hf. intros [Hx _]%list_elem_of_filter. done.
  - unfold peek. rewrite lookup_delete_eq. apply not_elem_of_nil.
Qed.

(** The steps of [deleteApiKey] after [key] is bound. *)
Lemma deleteApiKey_rest_inv (s s' : State) (id : string) (key : ApiKey.t) :
  deleteApiKey_rest id key s = (Ok tt, s') ->
  Map_get id (apiKeysStore s') = None /\
  apiKeysByHash s' !! ApiKey.apiKeyHash key = None /\
  db (redis s') !! (API_KEY_PREFIX +:+ id) = None /\
  (id ∉ all_ids (now s) (db (redis s'))) /\
  db (redis s') !! getMetadataKey (ApiKey.apiKey key) = None.
Proof.
  unfold deleteApiKey_rest. intros H.
  apply bind_inv_Ok in H as ([] & s1 & H1 & H).
  unfold apiKeysStore_delete in H1. injection H1 as <-.
  apply bind_inv_Ok in H as ([] & s2 & H2 & H).
  unfold apiKeysByHash_delete in H2. injection H2 as <-.
  apply bind_inv_Ok in H as ([] & s3 & H3 & H).
  unfold deleteStoredApiKey in H3.
  apply bind_inv_Ok in H3 as ([] & s2' & Hdel & Hsrem).
  apply redis_write_inv in Hdel as (Hdel & Hn2 & Hm2 & _).
  apply redis_write_inv in Hsrem as (Hsrem & Hn3 & Hm3 & _).
  unfold invalidateMetadata, redis_del in H.
  apply redis_write_inv in H as (Hinv & Hn4 & Hm4 & _).
  simpl in *. injection Hdel as Hdel. injection Hinv as Hinv.
  rewrite Hn2 in Hsrem. rewrite <- Hdel in Hsrem.
  destruct Hm2 as (_ & Hs2 & Hb2). destruct Hm3 as (_ & Hs3 & Hb3).
  destruct Hm4 as (_ & Hs4 & Hb4). simpl in *.
  assert (Hrec : db (redis s3) !! (API_KEY_PREFIX +:+ id) = None).
  { pose proof (cmd_srem_writes (fun k => k = API_KEYS_SET) (now s) API_KEYS_SET id
                  eq_refl (cmd_del (db (redis s)) (API_KEY_PREFIX +:+ id))
                  (API_KEY_PREFIX +:+ id) (api_key_record_not_set id)) as Hw.
    cbv beta in Hw. rewrite Hsrem in Hw. simpl in Hw. rewrite Hw.
    unfold cmd_del. apply lookup_delete_eq. }
  repeat split.
  - rewrite Hs4, Hs3, Hs2. apply Map_get_delete.
  - rewrite Hb4, Hb3, Hb2. apply lookup_delete_eq.
  - rewrite <- Hinv. unfold cmd_del.
    destruct (decide (getMetadataKey (ApiKey.apiKey key) = API_KEY_PREFIX +:+ id))
      as [->|Hne]; [apply lookup_delete_eq|by rewrite lookup_delete_ne].
  - apply cmd_srem_removes in Hsrem.
    unfold all_ids, cmd_smembers in *. rewrite <- Hinv. unfold cmd_del, peek in *.
    rewrite lookup_delete_ne by done.
    destruct (db (redis s3) !! API_KEYS_SET) as [[[| |l|] ex]|];
      try apply not_elem_of_nil; simpl in *;
      destruct (live (now s) _); try apply not_elem_of_nil; done.
  - rewrite <- Hinv. apply lookup_delete_eq.
Qed.

Lemma getStoredApiKey_inv (s s' : State) (id : string) (r : option ApiKey.t) :
  getStoredApiKey id s = (Ok r, s') ->
  db (redis s') = db (redis s) /\ now s' = now s /\ same_memory s s' /\
  tiersStore s' = tiersStore s /\
  match r with
  | Some k => exists ex, peek (now s) (db (redis s)) (API_KEY_PREFIX +:+ id)
                         = Some (mkEntry (VHash (HApiKey k)) ex)
  | None => peek (now s) (db (redis s)) (API_KEY_PREFIX +:+ id) = None
  end.
Proof.
  unfold getStoredApiKey. intros H.
  apply bind_inv_Ok in H as (data & s1 & Hread & H).
  apply redis_read_inv in Hread as (Hget & Hd & Hn & Hm & Ht).
  unfold cmd_hgetall in Hget.
  destruct (peek _ _ _) as [[[|[k|x]| |] ex]|]; simplify_eq;
    unfold ret, throw in H; simplify_eq; eauto 10.
Qed.

(** C10.  [deleteApiKey(id)], when it returns: the stored record is gone,
    the id is no longer a member of the set of ids, the object is out of
    both maps of the process, and the cache entry of the secret is gone.
    Whether it returns or throws, it writes to no counter bucket and to no
    event stream: counts and events of the deleted credential stay, and on
    a connection that holds every reading of current usage is unchanged. *)
Theorem deleteApiKey_removes_record_only (s : State) (id : string) :
  let s' := state_after (deleteApiKey id) s in
  (forall key, begins "rl:" key \/ begins "events:" key ->
     db (redis s') !! key = db (redis s) !! key) /\
  (forall secret, stream_at (now s) (db (redis s')) (getEventsStreamKey secret)
                  = stream_at (now s) (db (redis s)) (getEventsStreamKey secret)) /\
  (healthy s -> forall secret,
     result_of (getCurrentUsage secret) s' = result_of (getCurrentUsage secret) s) /\
  (result_of (deleteApiKey id) s = Ok tt ->
   exists key,
     deleted_key s id = Some key /\
     db (redis s') !! (API_KEY_PREFIX +:+ id) = None /\
     (id ∉ all_ids (now s) (db (redis s'))) /\
     db (redis s') !! getMetadataKey (ApiKey.apiKey key) = None /\
     Map_get id (apiKeysStore s') = None /\
     apiKeysByHash s' !! ApiKey.apiKeyHash key = None).
Proof.
  intros s'.
  pose proof (deleteApiKey_frame (fun key => begins "api-key" key \/ begins "meta:" key)
                id ltac:(simpl; tauto) ltac:(simpl; tauto) s) as Hf.
  fold (state_after (deleteApiKey id) s) in Hf. fold s' in Hf.
  assert (Hkeep : forall key, begins "rl:" key \/ begins "events:" key ->
                    db (redis s') !! key = db (redis s) !! key).
  { intros key Hk. destruct Hf as (_ & _ & _ & _ & Hd). apply Hd.
    destruct Hk as [Hk|Hk].
    - pose proof (begins_rl_not_others key Hk). tauto.
    - pose proof (begins_events_not_others key Hk). tauto. }
  split; [exact Hkeep|]. split; [|split].
  - intros secret. unfold stream_at, peek. rewrite Hkeep; [done|].
    right. begins_here.
  - intros Hh secret. apply getCurrentUsage_same; try done.
    + by apply Hf.
    + apply Hf.
    + intros key Hk. apply Hkeep. by left.
  - unfold result_of, s', state_after, deleted_key.
    destruct (deleteApiKey id s) as [r s2] eqn:Hrun. simpl. intros ->.
    unfold deleteApiKey in Hrun.
    apply bind_inv_Ok in Hrun as (s0 & sa & H0 & Hrun).
    unfold get_state in H0. injection H0 as <- <-.
    destruct (Map_get id (apiKeysStore s)) as [ref|].
    + apply deleteApiKey_rest_inv in Hrun as (? & ? & ? & ? & ?).
      eexists. split; [reflexivity|]. auto.
    + apply bind_inv_Ok in Hrun as (r & s1 & Hget & Hrun).
      apply getStoredApiKey_inv in Hget as (Hd & Hn & Hm & _ & Hr).
      destruct r as [k|]; [|discriminate].
      destruct Hr as (ex & ->).
      apply deleteApiKey_rest_inv in Hrun as (? & ? & ? & ? & ?).
      rewrite Hn in *.
      eexists. split; [reflexivity|]. auto.
Qed.

(** Two hits, then the deletion: the counts and the events stay. *)
Lemma deleteApiKey_removes_record_only_witness :
  let s := used_twice in
  let s' := state_after (deleteApiKey (nanoid drawn1)) s in
  healthy s /\
  result_of (deleteApiKey (nanoid drawn1)) s = Ok tt /\
  db (redis s') !! (API_KEY_PREFIX +:+ nanoid drawn1) = None /\
  db (redis s') !! getMetadataKey secret1 = None /\
  result_of (getCurrentUsage secret1) s' = Ok (RateLimiter.mkUsage 2 2) /\
  length (stream_at t0 (db (redis s')) (getEventsStreamKey secret1)) = 2%nat.
Proof.
  intros s s'.
  assert (Hrun : result_of (deleteApiKey (nanoid drawn1)) s = Ok tt)
    by (vm_compute; reflexivity).
  destruct (deleteApiKey_removes_record_only s (nanoid drawn1))
    as (_ & Hstream & Husage & Hgone).
  destruct (Hgone Hrun) as (key & Hkey & Hrec & _ & Hmeta & _).
  assert (Hsecret : ApiKey.apiKey key = secret1).
  { vm_compute in Hkey. injection Hkey as <-. reflexivity. }
  rewrite Hsecret in Hmeta.
  split; [reflexivity|]. split; [exact Hrun|]. split; [exact Hrec|].
  split; [exact Hmeta|]. split.
  - unfold s'. rewrite (Husage eq_refl secret1). vm_compute. reflexivity.
  - replace t0 with (now s) by (vm_compute; reflexivity).
    unfold s'. rewrite (Hstream secret1). vm_compute. reflexivity.
Defined.

(** ** Creation *)

Lemma cmd_hset_inv (t : Z) (d d' : gmap string Entry) (key : string) (h : RHash) :
  cmd_hset t d key h = (Ok tt, d') ->
  exists ex, d' = <[key := mkEntry (VHash h) ex]> d /\
             live t (mkEntry (VHash h) ex) = true.
Proof.
  unfold cmd_hset, peek.
  destruct (d !! key) as [[v ex]|]; simpl.
  - destruct (live t (mkEntry v ex)) eqn:Hl.
    + destruct v; intros H; simplify_eq. by exists ex.
    + intros H. simplify_eq. by exists None.
  - intros H. simplify_eq. by exists None.
Qed.

Lemma cmd_sadd_inv (t : Z) (d d' : gmap string Entry) (key x : string) :
  cmd_sadd t d key x = (Ok tt, d') ->
  (forall key', key ≠ key' -> d' !! key' = d !! key') /\
  match cmd_smembers t d' key with
  | Ok l => x ∈ l
  | Throw _ => False
  end.
Proof.
  intros H. split.
  { intros key' Hne.
    pose proof (cmd_sadd_writes (fun k => k = key) t key x eq_refl d key') as Hw.
    cbv beta in Hw. rewrite H in Hw. apply Hw. congruence. }
  revert H. unfold cmd_sadd, cmd_smembers, peek.
  destruct (d !! key) as [[v ex]|]; simpl.
  - destruct (live t (mkEntry v ex)) eqn:Hl.
    + destruct v; intros H; simplify_eq.
      rewrite lookup_insert_eq. unfold live in *. simpl in *. rewrite Hl.
      destruct (decide (x ∈ members)); [done|].
      apply elem_of_app. right. by apply list_elem_of_singleton.
    + intros H. simplify_eq. rewrite lookup_insert_eq. simpl.
      by apply list_elem_of_singleton.
  - intros H. simplify_eq. rewrite lookup_insert_eq. simpl.
    by apply list_elem_of_singleton.
Qed.

Lemma meta_key_not_record (secret id : string) :
  getMetadataKey secret ≠ API_KEY_PREFIX +:+ id.
Proof. discriminate. Qed.

Lemma meta_key_not_set (secret : string) : getMetadataKey secret ≠ API_KEYS_SET.
Proof. discriminate. Qed.

(** What [createApiKey] has done when it returns. *)
Lemma createApiKey_inv (s s' : State) (drawn : Drawn) (name tier ownerEmail : string)
    (id secret : string) :
  createApiKey drawn name tier ownerEmail s = (Ok (id, secret), s') ->
  exists x,
    tiersStore s !! tier = Some x /\
    id = nanoid drawn /\ secret = generateApiKey (nanoid32 drawn) /\
    let newKey := newKey_of drawn name tier ownerEmail x (now s) in
    heap s' = heap s ++ [newKey] /\
    apiKeysStore s' = Map_set id (length (heap s)) (apiKeysStore s) /\
    apiKeysByHash s' = <[bcrypt_hash drawn := length (heap s)]> (apiKeysByHash s) /\
    now s' = now s /\ tiersStore s' = tiersStore s /\
    peek (now s) (db (redis s')) (API_KEY_PREFIX +:+ id)
    = Some (mkEntry (VHash (HApiKey newKey))
              (expiry_at (now s) (db (redis s')) (API_KEY_PREFIX +:+ id))) /\
    (id ∈ all_ids (now s) (db (redis s'))) /\
    db (redis s') !! getMetadataKey secret
    = Some (mkEntry (VString (SJson (metadata_of newKey))) (Some (now s + 86400000))) /\
    (forall key, key ≠ API_KEY_PREFIX +:+ id -> key ≠ API_KEYS_SET ->
                 key ≠ getMetadataKey secret ->
                 db (redis s') !! key = db (redis s) !! key).
Proof.
  unfold createApiKey. intros H.
  apply bind_inv_Ok in H as (s0 & sa & H0 & H).
  unfold get_state in H0. injection H0 as <- <-.
  destruct (tiersStore s !! tier) as [x|]; [|discriminate].
  exists x. split; [done|].
  apply bind_inv_Ok in H as (ref & s1 & H1 & H).
  unfold alloc in H1. injection H1 as <- <-.
  apply bind_inv_Ok in H as ([] & s2 & H2 & H).
  unfold apiKeysStore_set in H2. injection H2 as <-.
  apply bind_inv_Ok in H as ([] & s3 & H3 & H).
  unfold apiKeysByHash_set in H3. injection H3 as <-.
  apply bind_inv_Ok in H as ([] & s4 & H4 & H).
  apply bind_inv_Ok in H as ([] & s5 & H5 & H).
  unfold ret in H. injection H as <- <- <-.
  unfold storeApiKey in H4.
  apply bind_inv_Ok in H4 as ([] & s3' & Hhset & Hsadd).
  apply redis_write_inv in Hhset as (Hhset & Hn1 & Hm1 & Ht1).
  apply redis_write_inv in Hsadd as (Hsadd & Hn2 & Hm2 & Ht2).
  unfold cacheMetadata, redis_setex in H5.
  apply redis_write_inv in H5 as (Hset & Hn3 & Hm3 & Ht3).
  simpl in *. injection Hset as Hset.
  rewrite Hn1 in Hsadd. rewrite Hn2, Hn1 in Hset.
  apply cmd_hset_inv in Hhset as (ex & Hd1 & Hl1).
  apply cmd_sadd_inv in Hsadd as (Hd2 & Hin).
  destruct Hm1 as (Hh1 & Hs1 & Hb1). destruct Hm2 as (Hh2 & Hs2 & Hb2).
  destruct Hm3 as (Hh3 & Hs3 & Hb3). simpl in *.
  set (newKey := ApiKey.mk _ _ _ _ _ _ _ _ _ _) in *.
  assert (Hrec : db (redis s5) !! (API_KEY_PREFIX +:+ nanoid drawn)
                 = Some (mkEntry (VHash (HApiKey newKey)) ex)).
  { rewrite <- Hset. unfold cmd_set_px.
    rewrite lookup_insert_ne by apply meta_key_not_record.
    rewrite Hd2 by (intros Heq; symmetry in Heq; by apply api_key_record_not_set in Heq).
    rewrite Hd1. apply lookup_insert_eq. }
  split; [done|]. split; [done|].
  change (newKey_of drawn name tier ownerEmail x (now s)) with newKey.
  split; [congruence|]. split; [congruence|]. split; [congruence|].
  split; [congruence|]. split; [congruence|]. split; [|split; [|split]].
  - unfold expiry_at, peek. rewrite Hrec, Hl1. done.
  - assert (Hsame : cmd_smembers (now s) (db (redis s5)) API_KEYS_SET
                    = cmd_smembers (now s) (db (redis s4)) API_KEYS_SET).
    { unfold cmd_smembers. rewrite <- Hset. unfold cmd_set_px.
      by rewrite peek_insert_ne by apply meta_key_not_set. }
    unfold all_ids. rewrite Hsame.
    by destruct (cmd_smembers (now s) (db (redis s4)) API_KEYS_SET).
  - rewrite <- Hset. unfold cmd_set_px. rewrite lookup_insert_eq.
    reflexivity.
  - intros key Hk1 Hk2 Hk3. rewrite <- Hset. unfold cmd_set_px.
    rewrite lookup_insert_ne by done. rewrite Hd2 by done.
    rewrite Hd1. by rewrite lookup_insert_ne.
Qed.

(** ** Limits derived from the tier *)

Lemma set_heap_same (s : State) : set_heap (heap s) s = s.
Proof. by destruct s. Qed.

Lemma deref_valid (s : State) (ref : nat) :
  (ref < length (heap s))%nat -> heap s !! ref = Some (deref s ref).
Proof. intros. unfold deref. by apply list_lookup_lookup_total_lt. Qed.

Lemma updateApiKeyWithCurrentTierLimits_run (s : State) (ref : nat) :
  (ref < length (heap s))%nat ->
  updateApiKeyWithCurrentTierLimits ref s =
    (Ok ref, set_heap (<[ref := refreshed (tiersStore s) (deref s ref)]> (heap s)) s).
Proof.
  intros Hv. unfold updateApiKeyWithCurrentTierLimits, bind, get_state, refreshed.
  destruct (tiersStore s !! ApiKey.tier (deref s ref)) as [x|]; [done|].
  unfold ret. rewrite list_insert_id by by apply deref_valid.
  by rewrite set_heap_same.
Qed.

Lemma refreshed_derived (tiers : gmap string Tier.t) (k : ApiKey.t) (x : Tier.t) :
  tiers !! ApiKey.tier (refreshed tiers k) = Some x ->
  derived_limits x (refreshed tiers k).
Proof.
  unfold refreshed.
  destruct (tiers !! ApiKey.tier k) as [y|] eqn:Hy; simpl.
  - rewrite Hy. intros [= ->]. split; simpl; lia.
  - rewrite Hy. done.
Qed.

Lemma refreshed_fields (tiers : gmap string Tier.t) (k : ApiKey.t) :
  ApiKey.id (refreshed tiers k) = ApiKey.id k /\
  ApiKey.apiKey (refreshed tiers k) = ApiKey.apiKey k /\
  ApiKey.apiKeyHash (refreshed tiers k) = ApiKey.apiKeyHash k /\
  ApiKey.tier (refreshed tiers k) = ApiKey.tier k /\
  ApiKey.disabled (refreshed tiers k) = ApiKey.disabled k.
Proof. unfold refreshed. by destruct (tiers !! ApiKey.tier k). Qed.

Lemma Map_get_set_eq {V} (key : string) (v : V) (m : list (string * V)) :
  Map_get key (Map_set key v m) = Some v.
Proof.
  induction m as [|[k v'] m IH]; simpl.
  - by rewrite decide_True.
  - destruct (decide (k = key)) as [->|Hne]; simpl.
    + by rewrite decide_True.
    + by rewrite decide_False.
Qed.

(** C7.  The limits of a credential under a tier of rate [r] are
    [r * 60] a minute and [r * 86400] a day: in the object, the stored
    record and the cached metadata that [createApiKey] leaves, and in the
    object after [updateApiKeyWithCurrentTierLimits]; rate 20 gives 1200
    and 1728000. *)
Theorem limits_derive_from_tier (s : State) (x : Tier.t) :
  (forall drawn name tier ownerEmail id secret s',
     tiersStore s !! tier = Some x ->
     createApiKey drawn name tier ownerEmail s = (Ok (id, secret), s') ->
     exists ref stored cached lifetime,
       Map_get id (apiKeysStore s') = Some ref /\
       ApiKey.tier (deref s' ref) = tier /\
       derived_limits x (deref s' ref) /\
       peek (now s) (db (redis s')) (API_KEY_PREFIX +:+ id)
       = Some (mkEntry (VHash (HApiKey stored)) lifetime) /\
       derived_limits x stored /\
       cmd_get (now s) (db (redis s')) (getMetadataKey secret) = Ok (Some (SJson cached)) /\
       ApiKeyMetadata.perMinute cached = Tier.rateLimit x * 60 /\
       ApiKeyMetadata.perDay cached = Tier.rateLimit x * 86400) /\
  (forall ref,
     (ref < length (heap s))%nat ->
     tiersStore s !! ApiKey.tier (deref s ref) = Some x ->
     exists s',
       updateApiKeyWithCurrentTierLimits ref s = (Ok ref, s') /\
       derived_limits x (deref s' ref)) /\
  (Tier.rateLimit x = 20 ->
   forall k, derived_limits x k ->
             ApiKey.perMinute k = 1200 /\ ApiKey.perDay k = 1728000).
Proof.
  split; [|split].
  - intros drawn name tier ownerEmail id secret s' Hx Hrun.
    apply createApiKey_inv in Hrun
      as (x' & Hx' & -> & -> & Hheap & Hstore & _ & Hn & _ & Hrec & _ & Hmeta & _).
    rewrite Hx in Hx'. injection Hx' as <-.
    set (newKey := newKey_of drawn name tier ownerEmail x (now s)) in *.
    assert (Hnew : derived_limits x newKey) by (split; simpl; lia).
    exists (length (heap s)), newKey, (metadata_of newKey),
      (expiry_at (now s) (db (redis s')) (API_KEY_PREFIX +:+ nanoid drawn)).
    assert (Hderef : deref s' (length (heap s)) = newKey).
    { unfold deref. rewrite Hheap. apply list_lookup_total_middle. done. }
    split; [rewrite Hstore; apply Map_get_set_eq|].
    rewrite Hderef. split; [done|]. split; [done|].
    split; [exact Hrec|]. split; [done|]. split; [|split; simpl; lia].
    unfold cmd_get, peek. rewrite Hmeta. unfold live. simpl.
    destruct (now s <? now s + 86400000) eqn:Hlt; [done|lia].
  - intros ref Hv Hx. eexists. split; [by apply updateApiKeyWithCurrentTierLimits_run|].
    unfold deref at 1. simpl.
    rewrite list_lookup_total_insert_eq by done.
    apply refreshed_derived.
    destruct (refreshed_fields (tiersStore s) (deref s ref)) as (_ & _ & _ & -> & _).
    done.
  - intros Hr k [Hm Hd]. rewrite Hm, Hd, Hr. done.
Qed.

(** A credential created under the tier "basic", and refreshed. *)
Lemma limits_derive_from_tier_witness :
  let x := Tier.mk "basic" "Basic" 20 30 in
  let s := initialState t0 in
  createApiKey drawn1 "K" "basic" "admin@example.com" s
  = (Ok (nanoid drawn1, secret1), created) /\
  (exists ref,
     Map_get (nanoid drawn1) (apiKeysStore created) = Some ref /\
     ApiKey.perMinute (deref created ref) = 1200 /\
     ApiKey.perDay (deref created ref) = 1728000) /\
  (exists s', updateApiKeyWithCurrentTierLimits 0 created = (Ok 0%nat, s') /\
              ApiKey.perMinute (deref s' 0) = 1200 /\
              ApiKey.perDay (deref s' 0) = 1728000).
Proof.
  intros x s.
  assert (Hrun : createApiKey drawn1 "K" "basic" "admin@example.com" s
                 = (Ok (nanoid drawn1, secret1), created))
    by (vm_compute; reflexivity).
  split; [exact Hrun|]. split.
  - destruct (limits_derive_from_tier s x) as (Hcreate & _ & Hbasic).
    destruct (Hcreate drawn1 "K" "basic" "admin@example.com" _ _ _ eq_refl Hrun)
      as (ref & stored & cached & lifetime & Hget & _ & Hlim & _).
    exists ref. split; [exact Hget|]. by apply Hbasic.
  - destruct (limits_derive_from_tier created x) as (_ & Hrefresh & Hbasic).
    destruct (Hrefresh 0%nat) as (s' & Hupd & Hlim).
    + vm_compute. lia.
    + vm_compute. reflexivity.
    + exists s'. split; [exact Hupd|]. by apply Hbasic.
Defined.

(** ** Resolving a credential *)

Lemma limit_blind_refreshed (P : ApiKey.t -> Prop) tiers k :
  limit_blind P -> P k -> P (refreshed tiers k).
Proof.
  intros HP Hk. unfold refreshed. destruct (tiers !! ApiKey.tier k); auto.
Qed.

(** Operations on the server that leave the records of credentials and
    the process memory alone keep what holds of all credentials. *)
Lemma credentials_all_frame (P : ApiKey.t -> Prop) (secret : string)
    (W : string -> Prop) (s s' : State) :
  (forall key, begins "api-key" key -> ~ W key) ->
  frame W s s' -> same_memory s s' ->
  credentials_all P secret s -> credentials_all P secret s'.
Proof.
  intros HW (_ & _ & _ & _ & Hd) (Hh & Hs & _) (Hv & Hm & Hr).
  unfold credentials_all, refs_valid, memory_all, records_all, deref in *.
  rewrite Hh, Hs. split; [done|]. split; [done|].
  intros key e He Hk. rewrite Hd in He by auto.
  by apply (Hr key e He).
Qed.

Lemma in_memory_same (secret : string) (s s' : State) :
  same_memory s s' -> in_memory s secret -> in_memory s' secret.
Proof.
  intros (Hh & Hs & _). unfold in_memory, deref. by rewrite Hh, Hs.
Qed.

Lemma resolved_same (P : ApiKey.t -> Prop) (secret : string) (s s' : State) (ref : nat) :
  same_memory s s' -> tiersStore s' = tiersStore s ->
  resolved P secret s ref -> resolved P secret s' ref.
Proof.
  intros (Hh & _ & _) Ht. unfold resolved, deref. by rewrite Hh, Ht.
Qed.

(** Refreshing the limits of an object in place. *)
Lemma refresh_credentials_all (P : ApiKey.t -> Prop) (secret : string)
    (s : State) (ref : nat) :
  limit_blind P -> (ref < length (heap s))%nat ->
  let s' := set_heap (<[ref := refreshed (tiersStore s) (deref s ref)]> (heap s)) s in
  credentials_all P secret s ->
  credentials_all P secret s' /\
  (in_memory s secret -> in_memory s' secret) /\
  (ApiKey.apiKey (deref s ref) = secret -> P (deref s ref) ->
   resolved P secret s' ref).
Proof.
  intros HP Hv s' (Hrv & Hm & Hr).
  assert (Hderef : forall l, deref s' l
            = if decide (ref = l) then refreshed (tiersStore s) (deref s ref)
              else deref s l).
  { intros l. unfold deref, s'. simpl. rewrite list_lookup_total_insert.
    destruct (decide (ref = l)) as [<-|Hne].
    - by rewrite decide_True.
    - rewrite decide_False; [done|tauto]. }
  destruct (refreshed_fields (tiersStore s) (deref s ref)) as (_ & Hsec & _ & Htier & _).
  split; [|split].
  - unfold credentials_all, refs_valid, memory_all in *. simpl.
    rewrite length_insert. split; [done|]. split; [|done].
    eapply Forall_impl; [exact Hm|]. intros [id l] Hl. simpl in *.
    fold (deref s' l). rewrite Hderef.
    destruct (decide (ref = l)) as [<-|]; [|done].
    rewrite Hsec. intros Hk. by apply limit_blind_refreshed, Hl.
  - intros ([id l] & Hin & Hl). exists (id, l). split; [done|]. simpl in *.
    rewrite Hderef. destruct (decide (ref = l)) as [<-|]; [|done]. by rewrite Hsec.
  - intros Hk HPk. unfold resolved. rewrite Hderef, decide_True by done.
    simpl. rewrite length_insert, Hsec.
    split; [done|]. split; [done|]. split; [by apply limit_blind_refreshed|].
    intros x Hx. by apply refreshed_derived.
Qed.

Lemma elem_of_Map_set {V} (key : string) (v : V) (m : list (string * V)) entry :
  entry ∈ Map_set key v m -> entry = (key, v) \/ entry ∈ m.
Proof.
  induction m as [|[k v'] m IH]; simpl.
  - intros ->%list_elem_of_singleton. by left.
  - destruct (decide (k = key)) as [->|Hne].
    + intros [->|Hin]%elem_of_cons; [by left|]. right. by right.
    + intros [->|Hin]%elem_of_cons; [right; by left|].
      destruct (IH Hin) as [->|]; [by left|]. right. by right.
Qed.

Lemma elem_of_Map_set_here {V} (key : string) (v : V) (m : list (string * V)) :
  (key, v) ∈ Map_set key v m.
Proof.
  induction m as [|[k v'] m IH]; simpl.
  - by left.
  - destruct (decide (k = key)) as [->|Hne]; [by left|by right].
Qed.

(** Restoring a stored record to the process memory: a new object with
    refreshed limits, entered in both maps. *)
Lemma restore_run {A} (s : State) (k : ApiKey.t) (rest : ApiKey.t -> nat -> M A) :
  let here := length (heap s) in
  let u := refreshed (tiersStore s) k in
  (ref <- alloc k ;;
   updatedKey <- updateApiKeyWithCurrentTierLimits ref ;;
   u' <- read updatedKey ;;
   apiKeysStore_set (ApiKey.id u') updatedKey ;;;
   apiKeysByHash_set (ApiKey.apiKeyHash u') updatedKey ;;;
   rest u' updatedKey) s
  = rest u here
      (mkState (now s) (heap s ++ [u])
         (Map_set (ApiKey.id u) here (apiKeysStore s))
         (<[ApiKey.apiKeyHash u := here]> (apiKeysByHash s))
         (tiersStore s) (redis s) (zone s)).
Proof.
  intros here u.
  rewrite (bind_Ok _ _ s (set_heap (heap s ++ [k]) s) here) by reflexivity.
  set (s1 := set_heap (heap s ++ [k]) s).
  assert (Hv : (here < length (heap s1))%nat).
  { unfold s1, here. simpl. rewrite length_app. simpl. lia. }
  rewrite (bind_Ok _ _ _ _ _ (updateApiKeyWithCurrentTierLimits_run s1 here Hv)).
  assert (Hk : deref s1 here = k).
  { unfold deref, s1, here. simpl. by apply list_lookup_total_middle. }
  rewrite Hk. change (tiersStore s1) with (tiersStore s). fold u.
  assert (Hheap : <[here := u]> (heap s1) = heap s ++ [u]).
  { unfold s1, here. simpl.
    replace (length (heap s)) with (length (heap s) + 0)%nat by lia.
    by rewrite insert_app_r. }
  rewrite Hheap.
  unfold bind, read, apiKeysStore_set, apiKeysByHash_set, deref. simpl.
  rewrite list_lookup_total_middle by done. reflexivity.
Qed.

Lemma restore_credentials_all (P : ApiKey.t -> Prop) (secret : string)
    (s : State) (k : ApiKey.t) :
  limit_blind P ->
  let here := length (heap s) in
  let u := refreshed (tiersStore s) k in
  let s' := mkState (now s) (heap s ++ [u])
              (Map_set (ApiKey.id u) here (apiKeysStore s))
              (<[ApiKey.apiKeyHash u := here]> (apiKeysByHash s))
              (tiersStore s) (redis s) (zone s) in
  credentials_all P secret s ->
  ApiKey.apiKey k = secret -> P k ->
  credentials_all P secret s' /\ in_memory s' secret /\ resolved P secret s' here.
Proof.
  intros HP here u s' (Hrv & Hm & Hr) Hk HPk.
  destruct (refreshed_fields (tiersStore s) k) as (_ & Hsec & _ & Htier & _).
  fold u in Hsec, Htier.
  assert (Hold : forall l, (l < length (heap s))%nat -> deref s' l = deref s l).
  { intros l Hl. unfold deref, s'. simpl. by rewrite lookup_total_app_l. }
  assert (Hnew : deref s' here = u).
  { unfold deref, s', here. simpl. by apply list_lookup_total_middle. }
  assert (Hres : resolved P secret s' here).
  { unfold resolved. rewrite Hnew, Hsec. simpl. rewrite length_app. simpl.
    split; [unfold here; lia|]. split; [done|].
    split; [by apply limit_blind_refreshed|].
    intros x Hx. by apply refreshed_derived. }
  split; [|split; [|done]].
  - unfold credentials_all, refs_valid, memory_all in *. simpl.
    rewrite length_app. simpl. split; [|split; [|done]].
    + apply Forall_forall. intros entry [->|Hin]%elem_of_Map_set; simpl.
      * unfold here. lia.
      * pose proof (proj1 (Forall_forall _ _) Hrv entry Hin). simpl in *. lia.
    + apply Forall_forall. intros entry [->|Hin]%elem_of_Map_set; simpl.
      * fold (deref s' here). rewrite Hnew. intros _. by apply limit_blind_refreshed.
      * pose proof (proj1 (Forall_forall _ _) Hrv entry Hin) as Hl.
        pose proof (proj1 (Forall_forall _ _) Hm entry Hin) as Hp.
        simpl in *. fold (deref s' entry.2). by rewrite Hold.
  - exists (ApiKey.id u, here). split; [apply elem_of_Map_set_here|].
    change (ApiKey.apiKey (deref s' here) = secret). rewrite Hnew. congruence.
Qed.

Lemma Map_get_elem_of {V} (key : string) (v : V) (m : list (string * V)) :
  Map_get key m = Some v -> (key, v) ∈ m.
Proof.
  induction m as [|[k v'] m IH]; simpl; [done|].
  destruct (decide (k = key)) as [->|Hne].
  - intros [= ->]. by left.
  - intros H. right. by apply IH.
Qed.

Lemma records_all_stored (P : ApiKey.t -> Prop) (secret : string) (s : State) k :
  records_all P secret s -> stored_record s k -> ApiKey.apiKey k = secret -> P k.
Proof.
  intros Hr (id & lifetime & Hk) Hs.
  apply (Hr _ _ Hk); [begins_here|done..].
Qed.

Lemma peek_Some_lookup (t : Z) (d : gmap string Entry) (key : string) (e : Entry) :
  peek t d key = Some e -> d !! key = Some e.
Proof.
  unfold peek. destruct (d !! key) as [e'|]; [|done].
  destruct (live t e'); [by intros [= ->]|done].
Qed.

Lemma api_key_not_meta (key : string) : begins "api-key" key -> ~ begins "meta:" key.
Proof. intros [r ->] [r' H]. discriminate. Qed.

(** A step on the server that writes to the cache at most. *)
Lemma credentials_all_step (P : ApiKey.t -> Prop) (secret : string) {A}
    (c : M A) (s : State) :
  preserves (frame (begins "meta:")) c -> preserves same_memory c ->
  credentials_all P secret s ->
  credentials_all P secret (c s).2 /\
  tiersStore (c s).2 = tiersStore s /\
  (in_memory s secret -> in_memory (c s).2 secret) /\
  same_memory s (c s).2 /\
  (forall k, stored_record (c s).2 k -> stored_record s k).
Proof.
  intros Hf Hm Hc. specialize (Hf s). specialize (Hm s).
  split; [by eapply credentials_all_frame; eauto using api_key_not_meta|].
  destruct Hf as (_ & Ht & _ & _ & Hd).
  split; [exact Ht|]. split; [by apply in_memory_same|]. split; [done|].
  intros k (id & lifetime & Hk). exists id, lifetime.
  rewrite <- Hd; [done|]. apply api_key_not_meta. begins_here.
Qed.

Lemma try_catch_ret_tt (c : M unit) (s : State) :
  try_catch c (ret tt) s = (Ok tt, (c s).2).
Proof. unfold try_catch, ret. by destruct (c s) as [[[]|e] s1]. Qed.

Lemma lookup_post_None (P : ApiKey.t -> Prop) (secret : string) (s s' : State) :
  credentials_all P secret s' -> tiersStore s' = tiersStore s ->
  (in_memory s secret -> in_memory s' secret) ->
  lookup_post P secret s None s'.
Proof. unfold lookup_post. auto. Qed.

Lemma lookup_post_Some (P : ApiKey.t -> Prop) (secret : string) (s s' : State) ref :
  credentials_all P secret s' -> tiersStore s' = tiersStore s ->
  (in_memory s secret -> in_memory s' secret) ->
  resolved P secret s' ref ->
  lookup_post P secret s (Some ref) s'.
Proof. unfold lookup_post. auto. Qed.

(** The cache block of the lookup, whether it returns or throws. *)
Lemma cache_block (P : ApiKey.t -> Prop) (secret : string) (s s' : State)
    (res : Result (option nat)) :
  limit_blind P -> credentials_all P secret s ->
  findApiKeyByValue_cache secret s = (res, s') ->
  lookup_post P secret s (match res with Ok r => r | Throw _ => None end) s'.
Proof.
  intros HP Hc Hrun. unfold findApiKeyByValue_cache in Hrun.
  destruct (credentials_all_step P secret (getCachedMetadata secret) s
              ltac:(eauto with frame) ltac:(eauto with frame) Hc)
    as (Hc1 & Ht1 & Hi1 & _).
  unfold bind at 1 in Hrun.
  destruct (getCachedMetadata secret s) as [[[c|]|e] s1]; simpl in Hc1, Ht1, Hi1;
    [|injection Hrun as <- <-; by apply lookup_post_None..].
  unfold bind at 1, get_state in Hrun.
  destruct (Map_get (ApiKeyMetadata.id c) (apiKeysStore s1)) as [fullKey|] eqn:Hget.
  - (* the object is in memory *)
    apply Map_get_elem_of in Hget.
    pose proof (proj1 (Forall_forall _ _) (proj1 Hc1) _ Hget) as Hv.
    pose proof (proj1 (Forall_forall _ _) (proj1 (proj2 Hc1)) _ Hget) as HPk.
    simpl in Hv, HPk.
    destruct (decide (ApiKey.apiKey (deref s1 fullKey) = secret)) as [Hk|];
      [|injection Hrun as <- <-; by apply lookup_post_None].
    rewrite (bind_Ok _ _ _ _ _ (updateApiKeyWithCurrentTierLimits_run s1 _ Hv)) in Hrun.
    injection Hrun as <- <-.
    destruct (refresh_credentials_all P secret s1 fullKey HP Hv Hc1) as (Hc2 & Hi2 & Hres).
    apply lookup_post_Some; auto.
  - (* the object is restored from its record *)
    destruct (credentials_all_step P secret (getStoredApiKey (ApiKeyMetadata.id c)) s1
                ltac:(eauto with frame) ltac:(eauto with frame) Hc1)
      as (Hc2 & Ht2 & Hi2 & _ & Hst).
    unfold bind at 1 in Hrun.
    destruct (getStoredApiKey (ApiKeyMetadata.id c) s1) as [[[k|]|e] s2] eqn:Hget2;
      simpl in Hc2, Ht2, Hi2, Hst;
      [|injection Hrun as <- <-; apply lookup_post_None; auto; congruence..].
    destruct (decide (ApiKey.apiKey k = secret)) as [Hk|];
      [|injection Hrun as <- <-; apply lookup_post_None; auto; congruence].
    apply getStoredApiKey_inv in Hget2 as (Hd & Hn & _ & _ & (ex & Hpeek)).
    assert (HPk : P k).
    { apply (records_all_stored P secret s1); [apply Hc1| |done].
      exists (ApiKeyMetadata.id c), ex. by apply peek_Some_lookup in Hpeek. }
    rewrite (restore_run s2 k (fun _ updatedKey => ret (Some updatedKey))) in Hrun.
    injection Hrun as <- <-.
    destruct (restore_credentials_all P secret s2 k HP Hc2 Hk HPk) as (Hc3 & Hi3 & Hres).
    apply lookup_post_Some; auto. simpl. congruence.
Qed.

(** The loop over the objects in memory. *)
Lemma memory_block (P : ApiKey.t -> Prop) (secret : string) (memoryKeys : list nat)
    (s : State) :
  limit_blind P -> credentials_all P secret s ->
  (forall ref, ref ∈ memoryKeys -> exists entry, entry ∈ apiKeysStore s /\ entry.2 = ref) ->
  exists r s',
    findApiKeyByValue_memory secret memoryKeys s = (Ok r, s') /\
    lookup_post P secret s r s' /\
    ((exists ref, ref ∈ memoryKeys /\ ApiKey.apiKey (deref s ref) = secret) -> r ≠ None) /\
    (r = None -> s' = s).
Proof.
  intros HP Hc. induction memoryKeys as [|key rest IH]; intros Hkeys.
  { exists None, s. simpl. split; [done|]. split; [by apply lookup_post_None|].
    split; [|done]. intros (ref & Hin & _). by apply elem_of_nil in Hin. }
  simpl. unfold bind at 1, get_state.
  destruct (decide (ApiKey.apiKey (deref s key) = secret)) as [Hk|Hk].
  - destruct (Hkeys key ltac:(by left)) as (entry & Hin & Hentry).
    pose proof (proj1 (Forall_forall _ _) (proj1 Hc) _ Hin) as Hv.
    pose proof (proj1 (Forall_forall _ _) (proj1 (proj2 Hc)) _ Hin) as HPk.
    simpl in Hv, HPk. rewrite Hentry in Hv, HPk.
    rewrite (bind_Ok _ _ _ _ _ (updateApiKeyWithCurrentTierLimits_run s _ Hv)).
    destruct (refresh_credentials_all P secret s key HP Hv Hc) as (Hc2 & Hi2 & Hres).
    set (s1 := set_heap _ s) in *.
    rewrite (bind_Ok _ _ s1 s1 (deref s1 key)) by reflexivity.
    rewrite (bind_Ok _ _ _ _ _ (try_catch_ret_tt _ s1)).
    destruct (credentials_all_step P secret
                (cacheMetadata secret (metadata_of (deref s1 key))) s1
                ltac:(eauto with frame) ltac:(eauto with frame) Hc2)
      as (Hc3 & Ht3 & Hi3 & Hm3 & _).
    eexists _, _. split; [reflexivity|]. split; [|split; [done|done]].
    apply lookup_post_Some; auto.
    apply (resolved_same P secret s1); auto.
  - destruct IH as (r & s' & Hrun & Hpost & Hfound & Hsame).
    { intros ref Hin. apply Hkeys. by right. }
    exists r, s'. split; [done|]. split; [done|]. split; [|done].
    intros (ref & [->|Hin]%elem_of_cons & Href); [done|]. apply Hfound. eauto.
Qed.

Lemma getAllStoredApiKeys_loop_inv (keyIds : list string) (keys l : list ApiKey.t)
    (s s' : State) :
  getAllStoredApiKeys_loop keyIds keys s = (Ok l, s') ->
  (forall k, k ∈ keys -> stored_record s k) ->
  forall k, k ∈ l -> stored_record s k.
Proof.
  revert keys s. induction keyIds as [|id rest IH]; intros keys s Hrun Hkeys; simpl in Hrun.
  { unfold ret in Hrun. by injection Hrun as <- <-. }
  apply bind_inv_Ok in Hrun as (key & s1 & Hget & Hrun).
  apply getStoredApiKey_inv in Hget as (Hd & _ & _ & _ & Hkey).
  assert (Hsame : forall k, stored_record s1 k <-> stored_record s k).
  { intros k. unfold stored_record. by rewrite Hd. }
  destruct key as [k0|]; intros k Hk; apply Hsame;
    apply (IH _ _ Hrun); [|done| |done]; intros k' Hk'; apply Hsame.
  - apply elem_of_app in Hk' as [Hk'|Hk']; [by apply Hkeys|].
    apply list_elem_of_singleton in Hk' as ->.
    destruct Hkey as (ex & Hpeek). exists id, ex. by apply peek_Some_lookup in Hpeek.
  - by apply Hkeys.
Qed.

Lemma findStoredApiKeyByValue_inv (secret : string) (s s' : State) (k : ApiKey.t) :
  findStoredApiKeyByValue secret s = (Ok (Some k), s') ->
  ApiKey.apiKey k = secret /\ stored_record s k.
Proof.
  unfold findStoredApiKeyByValue. intros Hrun.
  apply bind_inv_Ok in Hrun as (allKeys & s1 & Hall & Hrun).
  unfold ret in Hrun. injection Hrun as Hfind <-.
  apply find_some in Hfind as [Hin Hk].
  apply bool_decide_eq_true in Hk. split; [done|].
  unfold getAllStoredApiKeys in Hall.
  apply bind_inv_Ok in Hall as (keyIds & s0 & Hids & Hall).
  apply redis_read_inv in Hids as (_ & Hd & _).
  assert (Hsame : forall k, stored_record s0 k <-> stored_record s k).
  { intros k'. unfold stored_record. by rewrite Hd. }
  apply Hsame. destruct keyIds as [|id rest].
  - unfold ret in Hall. injection Hall as <- <-. done.
  - eapply getAllStoredApiKeys_loop_inv; [exact Hall| |by apply list_elem_of_In].
    intros k' Hk'. by apply elem_of_nil in Hk'.
Qed.

(** The block over the durable records, whether it returns or throws. *)
Lemma stored_block (P : ApiKey.t -> Prop) (secret : string) (s s' : State)
    (res : Result (option nat)) :
  limit_blind P -> credentials_all P secret s ->
  findApiKeyByValue_stored secret s = (res, s') ->
  lookup_post P secret s (match res with Ok r => r | Throw _ => None end) s'.
Proof.
  intros HP Hc Hrun. unfold findApiKeyByValue_stored in Hrun.
  destruct (credentials_all_step P secret (findStoredApiKeyByValue secret) s
              ltac:(eauto with frame) ltac:(eauto with frame) Hc)
    as (Hc1 & Ht1 & Hi1 & _ & Hst).
  unfold bind at 1 in Hrun.
  destruct (findStoredApiKeyByValue secret s) as [[[k|]|e] s1] eqn:Hfind;
    simpl in Hc1, Ht1, Hi1, Hst;
    [|injection Hrun as <- <-; by apply lookup_post_None..].
  apply findStoredApiKeyByValue_inv in Hfind as (Hk & Hrec).
  assert (HPk : P k) by (by apply (records_all_stored P secret s); [apply Hc|..]).
  rewrite (restore_run s1 k
             (fun u updatedKey =>
                cacheMetadata secret (metadata_of u) ;;; ret (Some updatedKey)))
    in Hrun.
  destruct (restore_credentials_all P secret s1 k HP Hc1 Hk HPk) as (Hc2 & Hi2 & Hres).
  set (s2 := mkState _ _ _ _ _ _ _) in *.
  set (u := refreshed (tiersStore s1) k) in *.
  destruct (credentials_all_step P secret (cacheMetadata secret (metadata_of u)) s2
              ltac:(eauto with frame) ltac:(eauto with frame) Hc2)
    as (Hc3 & Ht3 & Hi3 & Hm3 & _).
  unfold bind in Hrun.
  destruct (cacheMetadata secret (metadata_of u) s2) as [[[]|e] s3];
    simpl in Hc3, Ht3, Hi3, Hm3; injection Hrun as <- <-.
  - apply lookup_post_Some; auto; [simpl in *; congruence|].
    by apply (resolved_same P secret s2).
  - apply lookup_post_None; auto. simpl in *; congruence.
Qed.

Lemma try_catch_None (c : M (option nat)) (s : State) :
  try_catch c (ret None) s
  = (Ok (match (c s).1 with Ok r => r | Throw _ => None end), (c s).2).
Proof. unfold try_catch, ret. by destruct (c s) as [[r|e] s1]. Qed.

Lemma lookup_post_trans (P : ApiKey.t -> Prop) (secret : string) (s s1 s2 : State)
    (r : option nat) :
  lookup_post P secret s None s1 -> lookup_post P secret s1 r s2 ->
  lookup_post P secret s r s2.
Proof.
  intros (_ & Ht1 & Hi1 & _) (Hc2 & Ht2 & Hi2 & Hr2).
  unfold lookup_post. repeat split; try apply Hc2; auto. congruence.
Qed.

(** The lookup of a secret: it always returns; what holds of all
    credentials of that secret keeps holding; the credential it resolves
    carries the secret, with the limits of its tier when that tier is
    registered; and a secret held in memory is always resolved. *)
Lemma findApiKeyByValue_resolves (P : ApiKey.t -> Prop) (secret : string) (s : State) :
  limit_blind P -> credentials_all P secret s ->
  exists r s',
    findApiKeyByValue secret s = (Ok r, s') /\
    lookup_post P secret s r s' /\
    (in_memory s secret -> r ≠ None).
Proof.
  intros HP Hc. unfold findApiKeyByValue.
  rewrite (bind_Ok _ _ _ _ _ (try_catch_None _ s)).
  destruct (findApiKeyByValue_cache secret s) as [res1 s1] eqn:Hcache.
  pose proof (cache_block P secret s s1 res1 HP Hc Hcache) as Hpost1.
  simpl. set (r1 := match res1 with Ok r => r | Throw _ => None end) in *.
  clearbody r1. clear Hcache res1.
  destruct r1 as [key|].
  { exists (Some key), s1. split; [done|]. split; [done|]. done. }
  assert (Hc1 : credentials_all P secret s1) by apply Hpost1.
  unfold bind at 1, get_state.
  destruct (memory_block P secret (Map_values (apiKeysStore s1)) s1 HP Hc1)
    as (r2 & s2 & Hmem & Hpost2 & Hfound & Hsame).
  { intros ref (entry & -> & Hin)%list_elem_of_fmap. by exists entry. }
  rewrite (bind_Ok _ _ _ _ _ Hmem).
  destruct r2 as [key|].
  { exists (Some key), s2. split; [done|].
    split; [by apply (lookup_post_trans P secret s s1)|done]. }
  rewrite (Hsame eq_refl) in *. clear Hsame Hmem s2.
  assert (Hnot : ~ in_memory s secret).
  { intros Hin. apply Hfound; [|done].
    destruct Hpost1 as (_ & _ & Hi1 & _).
    destruct (Hi1 Hin) as (entry & Hentry & Hk).
    exists entry.2. split; [|done]. apply list_elem_of_fmap. by exists entry. }
  rewrite (bind_Ok _ _ _ _ _ (try_catch_None _ s1)).
  destruct (findApiKeyByValue_stored secret s1) as [res3 s3] eqn:Hstored.
  pose proof (stored_block P secret s1 s3 res3 HP Hc1 Hstored) as Hpost3.
  simpl. set (r3 := match res3 with Ok r => r | Throw _ => None end) in *.
  clearbody r3. clear Hstored res3.
  destruct r3 as [key|]; eexists _, _;
    (split; [reflexivity|]);
    (split; [by apply (lookup_post_trans P secret s s1)|done]).
Qed.

Lemma credentials_all_True (secret : string) (s : State) :
  refs_valid s -> credentials_all (fun _ => True) secret s.
Proof.
  intros Hv. split; [done|]. split.
  - apply Forall_forall. done.
  - intros key e He Hk k Hval Hsec. done.
Qed.

Lemma limit_blind_True : limit_blind (fun _ => True).
Proof. done. Qed.

(** ** The durable records, on a connection that holds *)

Lemma getStoredApiKey_healthy (id : string) (s : State) :
  healthy s -> key_or_nothing (now s) (db (redis s)) id ->
  getStoredApiKey id s = (Ok (stored_key (now s) (db (redis s)) id), s).
Proof.
  intros Hh Hp. unfold getStoredApiKey, redis_hgetall, stored_key, key_or_nothing in *.
  unfold bind. rewrite (redis_read_healthy _ s Hh). unfold cmd_hgetall.
  by destruct (peek _ _ _) as [[[|[k|x]| |] ex]|].
Qed.

Lemma getAllStoredApiKeys_loop_healthy (s : State) (keyIds : list string) :
  healthy s ->
  Forall (key_or_nothing (now s) (db (redis s))) keyIds ->
  forall keys,
    getAllStoredApiKeys_loop keyIds keys s
    = (Ok (keys ++ omap (stored_key (now s) (db (redis s))) keyIds), s).
Proof.
  intros Hh. induction 1 as [|id rest Hid Hrest IH]; intros keys.
  - simpl. by rewrite app_nil_r.
  - cbn [getAllStoredApiKeys_loop omap list_omap].
    rewrite (bind_Ok _ _ s s (stored_key (now s) (db (redis s)) id))
      by (by apply getStoredApiKey_healthy).
    destruct (stored_key _ _ id) as [k|]; [|apply IH].
    rewrite IH. by rewrite <- app_assoc.
Qed.

Lemma getAllStoredApiKeys_healthy (s : State) (ids : list string) :
  healthy s ->
  cmd_smembers (now s) (db (redis s)) API_KEYS_SET = Ok ids ->
  Forall (key_or_nothing (now s) (db (redis s))) ids ->
  getAllStoredApiKeys s = (Ok (omap (stored_key (now s) (db (redis s))) ids), s).
Proof.
  intros Hh Hids Hok. unfold getAllStoredApiKeys, redis_smembers.
  rewrite (bind_Ok _ _ s s ids) by (by rewrite (redis_read_healthy _ s Hh), Hids).
  destruct ids as [|id rest]; [done|].
  by rewrite (getAllStoredApiKeys_loop_healthy s (id :: rest) Hh Hok).
Qed.

(** What the store holds under the keys of credentials is all that
    [in_store] reads. *)
Lemma in_store_same (s s' : State) (secret : string) :
  now s' = now s ->
  (forall key, begins "api-key" key -> db (redis s') !! key = db (redis s) !! key) ->
  in_store s secret -> in_store s' secret.
Proof.
  intros Hn Hd (ids & id & k & Hids & Hok & Hin & Hk & Hsec).
  assert (Hpeek : forall key, begins "api-key" key ->
            peek (now s') (db (redis s')) key = peek (now s) (db (redis s)) key).
  { intros key Hkey. unfold peek. by rewrite Hn, Hd. }
  exists ids, id, k. unfold cmd_smembers, key_or_nothing, stored_key in *.
  rewrite (Hpeek API_KEYS_SET) by begins_here.
  split; [done|]. split; [|split; [done|split; [|done]]].
  - eapply Forall_impl; [exact Hok|]. intros id' Hid'. simpl in *.
    by rewrite (Hpeek (API_KEY_PREFIX +:+ id')) by begins_here.
  - by rewrite (Hpeek (API_KEY_PREFIX +:+ id)) by begins_here.
Qed.

(** On a connection that holds, the block over the durable records
    resolves a secret that the store holds. *)
Lemma findApiKeyByValue_stored_finds (secret : string) (s : State) :
  healthy s -> in_store s secret ->
  exists ref s', findApiKeyByValue_stored secret s = (Ok (Some ref), s').
Proof.
  intros Hh (ids & id & k & Hids & Hok & Hin & Hk & Hsec).
  assert (Hfound : findStoredApiKeyByValue secret s
                   = (Ok (find (fun k => bool_decide (ApiKey.apiKey k = secret))
                            (omap (stored_key (now s) (db (redis s))) ids)), s)).
  { unfold findStoredApiKeyByValue.
    by rewrite (bind_Ok _ _ _ _ _ (getAllStoredApiKeys_healthy s ids Hh Hids Hok)). }
  unfold findApiKeyByValue_stored. rewrite (bind_Ok _ _ _ _ _ Hfound).
  destruct (find _ _) as [k'|] eqn:Hfind.
  2:{ exfalso.
      assert (Hmem : k ∈ omap (stored_key (now s) (db (redis s))) ids).
      { apply list_elem_of_omap. by exists id. }
      apply list_elem_of_In in Hmem.
      pose proof (find_none _ _ Hfind k Hmem) as Hno. simpl in Hno.
      by apply bool_decide_eq_false in Hno. }
  rewrite (restore_run s k'
             (fun u updatedKey =>
                cacheMetadata secret (metadata_of u) ;;; ret (Some updatedKey))).
  set (s2 := mkState _ _ _ _ _ _ _).
  assert (Hh2 : healthy s2) by exact Hh.
  unfold cacheMetadata, redis_setex.
  unfold bind at 1. rewrite (redis_write_healthy _ s2 Hh2). simpl.
  eexists _, _. reflexivity.
Qed.

(** On a connection that holds, the lookup resolves a secret that the
    store holds, whatever the memory and the cache hold. *)
Lemma findApiKeyByValue_finds_stored (secret : string) (s s' : State) (r : option nat) :
  refs_valid s -> healthy s -> in_store s secret ->
  findApiKeyByValue secret s = (Ok r, s') -> r ≠ None.
Proof.
  intros Hv Hh Hst Hrun. unfold findApiKeyByValue in Hrun.
  rewrite (bind_Ok _ _ _ _ _ (try_catch_None _ s)) in Hrun.
  pose proof (frame_nothing _ _ (findApiKeyByValue_cache_frame (fun _ => False) secret s))
    as [_ Hd1].
  pose proof (findApiKeyByValue_cache_frame (fun _ => False) secret s)
    as (Hn1 & _ & _ & Hh1 & _).
  destruct (findApiKeyByValue_cache secret s) as [res1 s1] eqn:Hcache.
  pose proof (cache_block (fun _ => True) secret s s1 res1 limit_blind_True
                (credentials_all_True secret s Hv) Hcache) as (Hc1 & _).
  simpl in Hrun, Hd1, Hn1, Hh1.
  destruct (match res1 with Ok r1 => r1 | Throw _ => None end) as [key|].
  { unfold ret in Hrun. by injection Hrun as <- _. }
  unfold bind at 1, get_state in Hrun.
  destruct (memory_block (fun _ => True) secret (Map_values (apiKeysStore s1)) s1
              limit_blind_True Hc1)
    as (r2 & s2 & Hmem & _ & _ & Hsame).
  { intros ref (entry & -> & Hin)%list_elem_of_fmap. by exists entry. }
  rewrite (bind_Ok _ _ _ _ _ Hmem) in Hrun.
  destruct r2 as [key|].
  { unfold ret in Hrun. by injection Hrun as <- _. }
  rewrite (Hsame eq_refl) in Hrun.
  rewrite (bind_Ok _ _ _ _ _ (try_catch_None _ s1)) in Hrun.
  destruct (findApiKeyByValue_stored_finds secret s1) as (ref & s3 & Hstored).
  { by apply Hh1. }
  { apply (in_store_same s); [done| |done]. intros key _. by rewrite Hd1. }
  rewrite Hstored in Hrun. simpl in Hrun. unfold ret in Hrun. by injection Hrun as <- _.
Qed.


(** What holds of every credential of a secret, in memory and in the
    records, whatever its limits, holds of the credential that the lookup
    resolves. *)
Lemma findApiKeyByValue_keeps (P : ApiKey.t -> Prop) (secret : string)
    (s s' : State) (r : option nat) (ref : nat) :
  limit_blind P -> credentials_all P secret s ->
  findApiKeyByValue secret s = (Ok r, s') -> r = Some ref ->
  P (deref s' ref).
Proof.
  intros HP Hc Hrun ->.
  destruct (findApiKeyByValue_resolves P secret s HP Hc)
    as (r' & s'' & Hrun' & (_ & _ & _ & Hres) & _).
  rewrite Hrun in Hrun'. injection Hrun' as <- <-.
  by destruct Hres as (_ & _ & HPk & _).
Qed.

Lemma credentials_all_same (P : ApiKey.t -> Prop) (secret : string) (s s' : State) :
  (forall key, begins "api-key" key -> db (redis s') !! key = db (redis s) !! key) ->
  same_memory s s' ->
  credentials_all P secret s -> credentials_all P secret s'.
Proof.
  intros Hd (Hh & Hs & _) (Hv & Hm & Hr).
  unfold credentials_all, refs_valid, memory_all, records_all, deref in *.
  rewrite Hh, Hs. split; [done|]. split; [done|].
  intros key e He Hk. rewrite Hd in He by done.
  by apply (Hr key e He).
Qed.


(** ** Tier edits *)

Lemma storeTier_memory x : preserves same_memory (storeTier x).
Proof. unfold storeTier, redis_hset, redis_sadd. preserves_auto. Qed.

Lemma updateTier_inv (s s1 : State) (id : string) (updates : Tier.partial) :
  updateTier id updates s = (Ok tt, s1) ->
  exists x0,
    tiersStore s !! id = Some x0 /\
    tiersStore s1 = <[id := Tier.assign x0 updates]> (tiersStore s) /\
    same_memory s s1 /\ now s1 = now s /\ (healthy s -> healthy s1).
Proof.
  unfold updateTier. intros Hrun.
  apply bind_inv_Ok in Hrun as (s0 & sa & H0 & Hrun).
  unfold get_state in H0. injection H0 as <- <-.
  destruct (tiersStore s !! id) as [x0|]; [|discriminate].
  apply bind_inv_Ok in Hrun as ([] & s2 & Hput & Hrun).
  unfold put_state in Hput. injection Hput as <-.
  exists x0. split; [done|].
  pose proof (storeTier_frame (begins "tier") (Tier.assign x0 updates) ltac:(done)
                (set_tiersStore (<[id := Tier.assign x0 updates]> (tiersStore s)) s))
    as (Hn & Ht & _ & Hh & _).
  pose proof (storeTier_memory (Tier.assign x0 updates)
                (set_tiersStore (<[id := Tier.assign x0 updates]> (tiersStore s)) s))
    as Hm.
  rewrite Hrun in Hn, Ht, Hh, Hm. simpl in *. done.
Qed.

Lemma updateTier_keys (s s1 : State) (id : string) (updates : Tier.partial) :
  updateTier id updates s = (Ok tt, s1) ->
  forall key, ~ begins "tier" key -> db (redis s1) !! key = db (redis s) !! key.
Proof.
  unfold updateTier. intros Hrun.
  apply bind_inv_Ok in Hrun as (s0 & sa & H0 & Hrun).
  unfold get_state in H0. injection H0 as <- <-.
  destruct (tiersStore s !! id) as [x0|]; [|discriminate].
  apply bind_inv_Ok in Hrun as ([] & s2 & Hput & Hrun).
  unfold put_state in Hput. injection Hput as <-.
  pose proof (storeTier_frame (begins "tier") (Tier.assign x0 updates) ltac:(done)
                (set_tiersStore (<[id := Tier.assign x0 updates]> (tiersStore s)) s))
    as (_ & _ & _ & _ & Hd).
  rewrite Hrun in Hd. exact Hd.
Qed.

Lemma refs_valid_same (s s' : State) : same_memory s s' -> refs_valid s -> refs_valid s'.
Proof. intros (Hh & Hs & _). unfold refs_valid. by rewrite Hh, Hs. Qed.



(** The same edit seen through each path of the lookup: the cache, the
    memory once the cache entry is gone, and the durable record after the
    process has started again, with and without the cache entry. *)
Lemma tier_edit_on_every_path :
  let limits := fun (r : Result (option nat) * State) =>
    match r with
    | (Ok (Some ref), s) =>
        Some (ApiKey.perMinute (deref s ref), ApiKey.perDay (deref s ref))
    | _ => None
    end in
  let uncached := state_after (invalidateMetadata secret1) in
  limits (findApiKeyByValue secret1 edited) = Some (2400, 3456000) /\
  limits (findApiKeyByValue secret1 (uncached edited)) = Some (2400, 3456000) /\
  limits (findApiKeyByValue secret1 (restarted edited)) = Some (2400, 3456000) /\
  limits (findApiKeyByValue secret1 (restarted (uncached edited))) = Some (2400, 3456000).
Proof. vm_compute. repeat split; reflexivity. Qed.

(** ** Limits set per credential *)

Lemma rateLimitLuaScript_over (mk dk : string) (ttlM ttlD ml dl t : Z)
    (d d' : gmap string Entry) (m dd o : Z) :
  rateLimitLuaScript mk dk ttlM ttlD ml dl t d = (Ok (m, dd, o), d') ->
  o = if (m >? ml) || (dd >? dl) then 1 else 0.
Proof.
  unfold rateLimitLuaScript.
  destruct (cmd_incr t d mk) as [[m'|e] d1]; [|discriminate].
  destruct (cmd_incr t _ dk) as [[dd'|e] d3]; [|discriminate].
  by intros [= <- <- <- _].
Qed.

Lemma checkRateLimit_inv (s s' : State) (secret : string) (ml dl : Z)
    (rl : RateLimiter.RateLimitResult) :
  checkRateLimit secret ml dl s = (Ok rl, s') ->
  RateLimiter.isOverLimit rl
  = (RateLimiter.minuteCount rl >? ml) || (RateLimiter.dayCount rl >? dl).
Proof.
  unfold checkRateLimit. intros Hrun.
  apply bind_inv_Ok in Hrun as (s0 & sa & H0 & Hrun).
  unfold get_state in H0. injection H0 as <- <-.
  apply bind_inv_Ok in Hrun as ([[m dd] o] & s1 & Hscript & Hrun).
  apply redis_write_inv in Hscript as (Hscript & _).
  apply rateLimitLuaScript_over in Hscript as ->.
  unfold ret in Hrun. injection Hrun as <- <-. simpl.
  by destruct (_ || _).
Qed.

Lemma deref_same (s s' : State) (ref : nat) : same_memory s s' -> deref s' ref = deref s ref.
Proof. intros (Hh & _). unfold deref. by rewrite Hh. Qed.

(** What an admitted request has gone through. *)
Lemma rateLimitMiddleware_Allowed_inv (s s' : State) (x_api_key : option string)
    (endpoint : string) (mc dc ml dl : Z) :
  rateLimitMiddleware x_api_key endpoint s = (Ok (Middleware.Allowed mc dc ml dl), s') ->
  exists secret ref s1,
    x_api_key = Some secret /\
    findApiKeyByValue secret s = (Ok (Some ref), s1) /\
    ApiKey.disabled (deref s1 ref) = false /\
    ml = ApiKey.perMinute (deref s1 ref) /\
    dl = ApiKey.perDay (deref s1 ref) /\
    mc <= ml /\ dc <= dl.
Proof.
  intros H. unfold rateLimitMiddleware in H.
  apply bind_inv_Ok in H as (s0 & sa & H0 & H). unfold get_state in H0.
  injection H0 as <- <-.
  apply bind_inv_Ok in H as ([] & sb & H0 & H).
  unfold ensureRedisConnected, ret in H0. injection H0 as <-.
  destruct (header_missing x_api_key) eqn:Hmiss.
  { apply bind_inv_Ok in H as ([] & s2 & _ & H). discriminate. }
  destruct x_api_key as [secret|]; [|discriminate]. simpl in H.
  apply bind_inv_Ok in H as (r & s1 & Hfind & H).
  destruct r as [ref|];
    [|apply bind_inv_Ok in H as ([] & s2 & _ & H); discriminate].
  apply bind_inv_Ok in H as (k & sr & Hr & H).
  unfold read in Hr. injection Hr as <- <-.
  destruct (ApiKey.disabled (deref s1 ref)) eqn:Hdis;
    [apply bind_inv_Ok in H as ([] & s2 & _ & H); discriminate|].
  apply bind_inv_Ok in H as (rl & s2 & Hc & H).
  pose proof (checkRateLimit_inv _ _ _ _ _ _ Hc) as Hover.
  pose proof (checkRateLimit_memory secret (ApiKey.perMinute (deref s1 ref))
                (ApiKey.perDay (deref s1 ref)) s1) as Hm2.
  rewrite Hc in Hm2. simpl in Hm2.
  destruct (RateLimiter.isOverLimit rl);
    [apply bind_inv_Ok in H as ([] & s3 & _ & H); discriminate|].
  apply bind_inv_Ok in H as ([] & s3 & Hadd & H).
  apply bind_inv_Ok in H as ([] & s4 & Hseen & H).
  apply bind_inv_Ok in H as (k' & sr & Hr & H).
  unfold read in Hr. injection Hr as <- <-.
  pose proof (addEvent_memory
                (RateLimitEvent.mk (toISOString (now s)) secret endpoint 200 "Allowed"
                   (now s - now s)) s2) as Hm3.
  rewrite Hadd in Hm3. simpl in Hm3.
  pose proof (updateLastSeen_memory secret s3) as Hm4.
  rewrite Hseen in Hm4. simpl in Hm4.
  assert (Hk : deref s4 ref = deref s1 ref).
  { rewrite (deref_same s3 s4), (deref_same s2 s3), (deref_same s1 s2); done. }
  unfold ret in H. rewrite Hk in H. injection H as <- <- <- <- <-.
  exists secret, ref, s1. symmetry in Hover.
  apply orb_false_elim in Hover as [Hm Hd].
  repeat split; try done; lia.
Qed.

Lemma getCachedMetadata_hit (s : State) (secret : string) (c : ApiKeyMetadata.t) (e : Z) :
  healthy s ->
  db (redis s) !! getMetadataKey secret = Some (mkEntry (VString (SJson c)) (Some e)) ->
  now s < e ->
  getCachedMetadata secret s = (Ok (Some c), s).
Proof.
  intros Hh Hd Hlt. unfold getCachedMetadata, redis_get.
  rewrite (bind_Ok _ _ s s (Some (SJson c))); [done|].
  rewrite (redis_read_healthy _ s Hh). unfold cmd_get, peek, live. rewrite Hd. simpl.
  destruct (now s <? e) eqn:Hl; [done|lia].
Qed.

Lemma updateStoredApiKey_memory id u : preserves same_memory (updateStoredApiKey id u).
Proof.
  unfold updateStoredApiKey, storeApiKey, redis_hset, redis_sadd. preserves_auto.
Qed.

Lemma invalidateMetadata_memory secret : preserves same_memory (invalidateMetadata secret).
Proof. unfold invalidateMetadata, redis_del. preserves_auto. Qed.

(** What [updateApiKeyLimits] has done when it returns. *)
Lemma updateApiKeyLimits_inv (s s1 : State) (id : string) (perMinute perDay : Z) :
  updateApiKeyLimits id perMinute perDay s = (Ok tt, s1) ->
  exists ref,
    Map_get id (apiKeysStore s) = Some ref /\
    let k := ApiKey.with_limits perMinute perDay (deref s ref) in
    heap s1 = <[ref := k]> (heap s) /\
    apiKeysStore s1 = apiKeysStore s /\
    tiersStore s1 = tiersStore s /\
    now s1 = now s /\
    (healthy s -> healthy s1) /\
    ((ref < length (heap s))%nat ->
     db (redis s1) !! getMetadataKey (ApiKey.apiKey k)
     = Some (mkEntry (VString (SJson (metadata_of k))) (Some (now s + 86400000)))).
Proof.
  unfold updateApiKeyLimits. intros Hrun.
  apply bind_inv_Ok in Hrun as (s0 & sa & H0 & Hrun).
  unfold get_state in H0. injection H0 as <- <-.
  destruct (Map_get id (apiKeysStore s)) as [ref|]; [|discriminate].
  exists ref. split; [done|].
  apply bind_inv_Ok in Hrun as ([] & s2 & Hassign & Hrun).
  unfold assign in Hassign. injection Hassign as <-.
  set (k := ApiKey.with_limits perMinute perDay (deref s ref)) in *.
  set (s2 := set_heap (<[ref := k]> (heap s)) s) in *.
  apply bind_inv_Ok in Hrun as ([] & s3 & Hstore & Hrun).
  apply bind_inv_Ok in Hrun as (k' & sr & Hr & Hrun).
  unfold read in Hr. injection Hr as <- <-.
  apply bind_inv_Ok in Hrun as ([] & s4 & Hinv & Hrun).
  pose proof (updateStoredApiKey_memory id
                (ApiKey.mkPartial (Some perMinute) (Some perDay) None) s2) as Hm3.
  pose proof (updateStoredApiKey_frame (begins "api-key") id
                (ApiKey.mkPartial (Some perMinute) (Some perDay) None) ltac:(done) s2)
    as (Hn3 & Ht3 & _ & Hh3 & _).
  rewrite Hstore in Hm3, Hn3, Ht3, Hh3. simpl in Hm3, Hn3, Ht3, Hh3.
  pose proof (invalidateMetadata_memory (ApiKey.apiKey (deref s3 ref)) s3) as Hm4.
  pose proof (invalidateMetadata_frame (begins "meta:") (ApiKey.apiKey (deref s3 ref))
                ltac:(done) s3) as (Hn4 & Ht4 & _ & Hh4 & _).
  rewrite Hinv in Hm4, Hn4, Ht4, Hh4. simpl in Hm4, Hn4, Ht4, Hh4.
  pose proof (cacheMetadata_memory (ApiKey.apiKey (deref s3 ref))
                (ApiKeyMetadata.mk (ApiKey.id (deref s3 ref)) (ApiKey.name (deref s3 ref))
                   (ApiKey.tier (deref s3 ref)) perMinute perDay
                   (ApiKey.disabled (deref s3 ref)) (ApiKey.ownerEmail (deref s3 ref)))
                s4) as Hm5.
  pose proof (cacheMetadata_frame (begins "meta:") (ApiKey.apiKey (deref s3 ref))
                (ApiKeyMetadata.mk (ApiKey.id (deref s3 ref)) (ApiKey.name (deref s3 ref))
                   (ApiKey.tier (deref s3 ref)) perMinute perDay
                   (ApiKey.disabled (deref s3 ref)) (ApiKey.ownerEmail (deref s3 ref)))
                ltac:(done) s4) as (Hn5 & Ht5 & _ & Hh5 & _).
  rewrite Hrun in Hm5, Hn5, Ht5, Hh5. simpl in Hm5, Hn5, Ht5, Hh5.
  destruct Hm3 as (Hh3' & Hs3 & _). destruct Hm4 as (Hh4' & Hs4 & _).
  destruct Hm5 as (Hh5' & Hs5 & _). simpl in *.
  split; [congruence|]. split; [congruence|]. split; [congruence|].
  split; [congruence|]. split; [auto|].
  intros Hv.
  assert (Hk3 : deref s3 ref = k).
  { unfold deref. rewrite Hh3'. by apply list_lookup_total_insert_eq. }
  rewrite Hk3 in Hrun. unfold cacheMetadata, redis_setex in Hrun.
  apply redis_write_inv in Hrun as (Hset & _).
  injection Hset as Hset. rewrite <- Hset. unfold cmd_set_px.
  rewrite lookup_insert_eq. rewrite Hn4, Hn3. reflexivity.
Qed.

(** The lookup through a cache entry whose object is in memory. *)
Lemma findApiKeyByValue_cache_hit (s : State) (secret : string)
    (c : ApiKeyMetadata.t) (e : Z) (ref : nat) :
  healthy s ->
  db (redis s) !! getMetadataKey secret = Some (mkEntry (VString (SJson c)) (Some e)) ->
  now s < e ->
  Map_get (ApiKeyMetadata.id c) (apiKeysStore s) = Some ref ->
  (ref < length (heap s))%nat ->
  ApiKey.apiKey (deref s ref) = secret ->
  findApiKeyByValue secret s =
    (Ok (Some ref),
     set_heap (<[ref := refreshed (tiersStore s) (deref s ref)]> (heap s)) s).
Proof.
  intros Hh Hd Hlt Hget Hv Hk. unfold findApiKeyByValue.
  rewrite (bind_Ok _ _ _ _ _ (try_catch_None _ s)).
  assert (Hcache : findApiKeyByValue_cache secret s =
            (Ok (Some ref),
             set_heap (<[ref := refreshed (tiersStore s) (deref s ref)]> (heap s)) s)).
  { unfold findApiKeyByValue_cache.
    rewrite (bind_Ok _ _ _ _ _ (getCachedMetadata_hit s secret c e Hh Hd Hlt)).
    unfold bind at 1, get_state. rewrite Hget, decide_True by done.
    by rewrite (bind_Ok _ _ _ _ _ (updateApiKeyWithCurrentTierLimits_run s ref Hv)). }
  by rewrite Hcache.
Qed.

(** C9.  Every lookup returns limits recomputed from the tier of the
    credential, when that tier is registered, edited or not.  The lookup
    of a secret always returns; it resolves a secret held in memory, and,
    on a connection that holds, a secret that the durable store holds,
    whatever the memory and the cache hold; the credential it resolves is
    one of those that carry the secret, in that whatever holds of all of
    them, in memory and in the records, whatever their limits, holds of
    it; and it has the limits of its tier.  So after
    [updateApiKeyLimits(id, perMinute, perDay)] has put its values in the
    object, the record and the cache, the next lookup of the secret
    resolves the same object and overwrites them with the limits of the
    tier; and a request is admitted only within the limits of the tier,
    never within the values set per credential. *)
Theorem lookup_recomputes_limits (s : State) :
  refs_valid s ->
  (forall secret, exists r s',
     findApiKeyByValue secret s = (Ok r, s') /\
     (in_memory s secret -> r ≠ None) /\
     (healthy s -> in_store s secret -> r ≠ None) /\
     (forall P : ApiKey.t -> Prop,
        limit_blind P -> credentials_all P secret s ->
        forall ref, r = Some ref ->
          ApiKey.apiKey (deref s' ref) = secret /\ P (deref s' ref)) /\
     forall ref x, r = Some ref ->
       tiersStore s !! ApiKey.tier (deref s' ref) = Some x ->
       derived_limits x (deref s' ref)) /\
  (forall id perMinute perDay s1 ref x,
     healthy s ->
     Map_get id (apiKeysStore s) = Some ref ->
     ApiKey.id (deref s ref) = id ->
     tiersStore s !! ApiKey.tier (deref s ref) = Some x ->
     updateApiKeyLimits id perMinute perDay s = (Ok tt, s1) ->
     let secret := ApiKey.apiKey (deref s ref) in
     ApiKey.perMinute (deref s1 ref) = perMinute /\
     ApiKey.perDay (deref s1 ref) = perDay /\
     (exists s2,
        findApiKeyByValue secret s1 = (Ok (Some ref), s2) /\
        derived_limits x (deref s2 ref)) /\
     (forall endpoint mc dc ml dl s3,
        rateLimitMiddleware (Some secret) endpoint s1
        = (Ok (Middleware.Allowed mc dc ml dl), s3) ->
        ml = Tier.rateLimit x * 60 /\ dl = Tier.rateLimit x * 86400 /\
        mc <= ml /\ dc <= dl)).
Proof.
  intros Hv. split.
  - intros secret.
    destruct (findApiKeyByValue_resolves (fun _ => True) secret s limit_blind_True
                (credentials_all_True secret s Hv))
      as (r & s' & Hrun & (_ & Ht & _ & Hres) & Hfound).
    exists r, s'. split; [done|]. split; [exact Hfound|]. split.
    { intros Hh Hst. by apply (findApiKeyByValue_finds_stored secret s s'). }
    split.
    { intros P HP Hc ref Hr. split.
      - subst r. by destruct Hres as (_ & Hsec & _).
      - by apply (findApiKeyByValue_keeps P secret s s' r ref HP). }
    intros ref x -> Hx.
    destruct Hres as (_ & _ & _ & Hlim). apply Hlim. by rewrite Ht.
  - intros id perMinute perDay s1 ref x Hh Hget Hid Hx Hrun secret.
    apply updateApiKeyLimits_inv in Hrun
      as (ref' & Hget' & Hheap & Hstore & Ht1 & Hn1 & Hh1 & Hmeta).
    rewrite Hget in Hget'. injection Hget' as <-.
    pose proof (proj1 (Forall_forall _ _) Hv _ (Map_get_elem_of _ _ _ Hget)) as Hvr.
    simpl in Hvr. specialize (Hmeta Hvr). specialize (Hh1 Hh).
    set (k := ApiKey.with_limits perMinute perDay (deref s ref)) in *.
    assert (Hk : deref s1 ref = k).
    { unfold deref. rewrite Hheap. by apply list_lookup_total_insert_eq. }
    assert (Hfind : findApiKeyByValue secret s1 =
              (Ok (Some ref),
               set_heap (<[ref := refreshed (tiersStore s1) (deref s1 ref)]> (heap s1)) s1)).
    { apply (findApiKeyByValue_cache_hit s1 secret (metadata_of k) (now s + 86400000));
        try done.
      - lia.
      - simpl. by rewrite Hid, Hstore.
      - by rewrite Hheap, length_insert.
      - by rewrite Hk. }
    set (s2 := set_heap _ s1) in Hfind.
    assert (Hk2 : deref s2 ref = refreshed (tiersStore s1) k).
    { unfold deref, s2. simpl. rewrite list_lookup_total_insert_eq.
      - by rewrite <- Hk.
      - by rewrite Hheap, length_insert. }
    assert (Hlim : derived_limits x (deref s2 ref)).
    { rewrite Hk2. apply refreshed_derived.
      destruct (refreshed_fields (tiersStore s1) k) as (_ & _ & _ & -> & _).
      by rewrite Ht1. }
    rewrite Hk. split; [done|]. split; [done|]. split; [by exists s2|].
    intros endpoint mc dc ml dl s3 Hmw.
    apply rateLimitMiddleware_Allowed_inv in Hmw
      as (secret' & ref' & s2' & Hsec & Hfind' & _ & -> & -> & Hmc & Hdc).
    injection Hsec as <-. rewrite Hfind in Hfind'. injection Hfind' as <- <-.
    destruct Hlim as [Hpm Hpd]. rewrite Hpm, Hpd in *. done.
Qed.

(** Limits of 5 and 10 set on a credential of the tier "basic"; then the
    process starts again with the cache entry gone, and the lookup
    resolves the credential from its record, which holds 5 and 10. *)
Lemma lookup_recomputes_limits_witness :
  (refs_valid created /\ healthy created /\
   updateApiKeyLimits (nanoid drawn1) 5 10 created = (Ok tt, limited_to_5) /\
   ApiKey.perMinute (deref limited_to_5 0) = 5 /\
   ApiKey.perDay (deref limited_to_5 0) = 10 /\
   exists s2,
     findApiKeyByValue secret1 limited_to_5 = (Ok (Some 0%nat), s2) /\
     ApiKey.perMinute (deref s2 0) = 1200 /\ ApiKey.perDay (deref s2 0) = 1728000) /\
  (let s := restarted (state_after (invalidateMetadata secret1) limited_to_5) in
   apiKeysStore s = [] /\
   peek t0 (db (redis s)) (getMetadataKey secret1) = None /\
   (exists k, stored_key t0 (db (redis s)) (nanoid drawn1) = Some k /\
              ApiKey.perMinute k = 5 /\ ApiKey.perDay k = 10) /\
   exists s2,
     findApiKeyByValue secret1 s = (Ok (Some 0%nat), s2) /\
     ApiKey.perMinute (deref s2 0) = 1200 /\ ApiKey.perDay (deref s2 0) = 1728000).
Proof.
  split.
  - assert (Hv : refs_valid created).
    { unfold refs_valid. vm_compute. repeat constructor. }
    assert (Hrun : updateApiKeyLimits (nanoid drawn1) 5 10 created = (Ok tt, limited_to_5))
      by (vm_compute; reflexivity).
    destruct (lookup_recomputes_limits created Hv) as (_ & Hset).
    destruct (Hset (nanoid drawn1) 5 10 limited_to_5 0%nat (Tier.mk "basic" "Basic" 20 30)
                eq_refl eq_refl eq_refl eq_refl Hrun)
      as (Hpm & Hpd & (s2 & Hfind & Hlim) & _).
    split; [exact Hv|]. split; [reflexivity|]. split; [exact Hrun|].
    split; [exact Hpm|]. split; [exact Hpd|].
    exists s2. split; [exact Hfind|]. destruct Hlim as [-> ->]. split; reflexivity.
  - intros s. split; [reflexivity|]. split; [vm_compute; reflexivity|].
    split; [eexists; split; [vm_compute; reflexivity|split; reflexivity]|].
    assert (Hv : refs_valid s) by constructor.
    destruct (lookup_recomputes_limits s Hv) as (Hlookup & _).
    destruct (Hlookup secret1) as (r & s2 & Hrun & _ & Hstore & _ & Hlim).
    assert (Hsome : r ≠ None).
    { apply Hstore; [reflexivity|].
      exists [nanoid drawn1], (nanoid drawn1).
      eexists. split; [vm_compute; reflexivity|].
      split; [repeat constructor|]. split; [by left|].
      split; vm_compute; reflexivity. }
    assert (Hr : r = Some 0%nat /\ ApiKey.tier (deref s2 0) = "basic").
    { vm_compute in Hrun. injection Hrun as <- <-. split; reflexivity. }
    destruct Hr as [-> Htier].
    exists s2. split; [exact Hrun|].
    destruct (Hlim 0%nat (Tier.mk "basic" "Basic" 20 30) eq_refl) as [-> ->];
      [by rewrite Htier|split; reflexivity].
Defined.

(** With limits of 5 and 10 set on the credential, six requests in a row
    are admitted all the same, against the limits of the tier. *)
Lemma limits_per_credential_do_not_bind :
  result_of (checks 6 (Some secret1) "/api/data") limited_to_5
  = Ok [Middleware.Allowed 1 1 1200 1728000; Middleware.Allowed 2 2 1200 1728000;
        Middleware.Allowed 3 3 1200 1728000; Middleware.Allowed 4 4 1200 1728000;
        Middleware.Allowed 5 5 1200 1728000; Middleware.Allowed 6 6 1200 1728000].
Proof. vm_compute. reflexivity. Qed.

(** ** Create, resolve, delete *)

Lemma elem_of_Map_delete {V} (key : string) (m : list (string * V)) entry :
  entry ∈ Map_delete key m -> entry ∈ m /\ entry.1 ≠ key.
Proof. unfold Map_delete. intros [? ?]%list_elem_of_filter. done. Qed.

(** The keys that [deleteApiKey] writes to once [key] is bound, and what
    it leaves at the set of ids. *)
Lemma deleteApiKey_rest_keys (s s' : State) (id : string) (key : ApiKey.t) :
  deleteApiKey_rest id key s = (Ok tt, s') ->
  now s' = now s /\
  heap s' = heap s /\
  apiKeysStore s' = Map_delete id (apiKeysStore s) /\
  tiersStore s' = tiersStore s /\
  (forall e, db (redis s') !! API_KEYS_SET = Some e ->
             exists l, value e = VSet l) /\
  (forall key', key' ≠ API_KEY_PREFIX +:+ id -> key' ≠ API_KEYS_SET ->
                key' ≠ getMetadataKey (ApiKey.apiKey key) ->
                db (redis s') !! key' = db (redis s) !! key').
Proof.
  unfold deleteApiKey_rest. intros H.
  apply bind_inv_Ok in H as ([] & s1 & H1 & H).
  unfold apiKeysStore_delete in H1. injection H1 as <-.
  apply bind_inv_Ok in H as ([] & s2 & H2 & H).
  unfold apiKeysByHash_delete in H2. injection H2 as <-.
  apply bind_inv_Ok in H as ([] & s3 & H3 & H).
  unfold deleteStoredApiKey in H3.
  apply bind_inv_Ok in H3 as ([] & s2' & Hdel & Hsrem).
  apply redis_write_inv in Hdel as (Hdel & Hn2 & Hm2 & Ht2).
  apply redis_write_inv in Hsrem as (Hsrem & Hn3 & Hm3 & Ht3).
  unfold invalidateMetadata, redis_del in H.
  apply redis_write_inv in H as (Hinv & Hn4 & Hm4 & Ht4).
  simpl in *. injection Hdel as Hdel. injection Hinv as Hinv.
  rewrite Hn2 in Hsrem. rewrite <- Hdel in Hsrem.
  destruct Hm2 as (Hh2 & Hs2 & _). destruct Hm3 as (Hh3 & Hs3 & _).
  destruct Hm4 as (Hh4 & Hs4 & _). simpl in *.
  split; [congruence|].
  split; [congruence|]. split; [congruence|]. split; [congruence|]. split.
  - intros e He. rewrite <- Hinv in He. unfold cmd_del in He.
    rewrite lookup_delete_ne in He by done.
    revert Hsrem He. unfold cmd_srem.
    destruct (peek (now s) _ API_KEYS_SET) as [[[| |l|] ex]|];
      try discriminate.
    + destruct (filter _ l) as [|y l'] eqn:Hf; intros [= <-] He.
      * by rewrite lookup_delete_eq in He.
      * rewrite lookup_insert_eq in He. injection He as <-. by eexists.
    + intros [= <-] He. by rewrite lookup_delete_eq in He.
  - intros key' Hk1 Hk2 Hk3. rewrite <- Hinv. unfold cmd_del.
    rewrite lookup_delete_ne by done.
    pose proof (cmd_srem_writes (fun k => k = API_KEYS_SET) (now s) API_KEYS_SET id
                  eq_refl (cmd_del (db (redis s)) (API_KEY_PREFIX +:+ id))
                  key' Hk2) as Hw.
    cbv beta in Hw. rewrite Hsrem in Hw. simpl in Hw. rewrite Hw.
    unfold cmd_del. by rewrite lookup_delete_ne.
Qed.

(** Lookups of a secret that no credential carries return nothing, one
    after the other. *)
Lemma lookups_unknown (n : nat) (secret : string) (s : State) :
  unknown_secret secret s ->
  exists s', lookups n secret s = (Ok (replicate n None), s') /\
             unknown_secret secret s'.
Proof.
  revert s. induction n as [|n IH]; intros s Hu; [by exists s|].
  destruct (findApiKeyByValue_resolves (fun _ => False) secret s
              ltac:(by intros ? ? ? []) Hu)
    as (r & s1 & Hrun & (Hu1 & _ & _ & Hres) & _).
  destruct r as [ref|]; [by destruct Hres as (_ & _ & [] & _)|].
  destruct (IH s1 Hu1) as (s' & Hrest & Hu').
  exists s'. split; [|done]. simpl.
  rewrite (bind_Ok _ _ _ _ _ Hrun), (bind_Ok _ _ _ _ _ Hrest). done.
Qed.


Lemma set_now_credentials_all (P : ApiKey.t -> Prop) (secret : string) (t : Z) (s : State) :
  credentials_all P secret s -> credentials_all P secret (set_now t s).
Proof. done. Qed.

Lemma peek_delete_ne (t : Z) (d : gmap string Entry) (key key' : string) :
  key' ≠ key -> peek t (delete key' d) key = peek t d key.
Proof. intros. unfold peek. by rewrite lookup_delete_ne. Qed.

Lemma member_is_set (t : Z) (d : gmap string Entry) (id : string) :
  id ∈ all_ids t d ->
  exists l ex, peek t d API_KEYS_SET = Some (mkEntry (VSet l) ex).
Proof.
  unfold all_ids, cmd_smembers.
  destruct (peek t d API_KEYS_SET) as [[[| |l|] ex]|]; intros H;
    try by apply not_elem_of_nil in H.
  eauto.
Qed.

Lemma limit_blind_created (id tier : string) :
  limit_blind (fun k => ApiKey.id k = id /\ ApiKey.tier k = tier /\
                        ApiKey.disabled k = false).
Proof. by intros [] ? ?. Qed.

(** The credentials of a secret after a [createApiKey] that drew it, when
    nothing carried the secret before: all of them have the id returned
    and the tier asked for and are enabled, and one is in memory. *)
Lemma createApiKey_credentials (s s1 : State) (drawn : Drawn)
    (name tier ownerEmail id secret : string) :
  unknown_secret secret s ->
  createApiKey drawn name tier ownerEmail s = (Ok (id, secret), s1) ->
  credentials_all
    (fun k => ApiKey.id k = id /\ ApiKey.tier k = tier /\ ApiKey.disabled k = false)
    secret s1 /\
  in_memory s1 secret.
Proof.
  intros (Hv & Hmem & Hrec) Hrun.
  apply createApiKey_inv in Hrun
    as (x & Hx & -> & -> & Hheap & Hstore & _ & Hn & _ & Hr & Hids & Hmeta & Hkeep).
  set (newKey := newKey_of drawn name tier ownerEmail x (now s)) in *.
  assert (Hnew : deref s1 (length (heap s)) = newKey).
  { unfold deref. rewrite Hheap. by apply list_lookup_total_middle. }
  assert (Hold : forall ref, (ref < length (heap s))%nat -> deref s1 ref = deref s ref).
  { intros ref Hlt. unfold deref. rewrite Hheap. by apply lookup_total_app_l. }
  unfold refs_valid, memory_all in *. rewrite Forall_forall in Hv, Hmem.
  split; [split; [|split]|].
  - unfold refs_valid. rewrite Forall_forall. intros entry He.
    rewrite Hstore in He. rewrite Hheap, length_app. simpl.
    apply elem_of_Map_set in He as [->|He]; [simpl; lia|].
    specialize (Hv _ He). lia.
  - unfold memory_all. rewrite Forall_forall. intros entry He.
    rewrite Hstore in He.
    apply elem_of_Map_set in He as [->|He]; simpl; [by rewrite Hnew|].
    rewrite (Hold _ (Hv _ He)). intros Hs. by destruct (Hmem _ He Hs).
  - intros key e He Hb k Hk Hs.
    destruct (decide (key = API_KEY_PREFIX +:+ nanoid drawn)) as [->|Hk1].
    { apply peek_Some_lookup in Hr. rewrite Hr in He. injection He as <-.
      simpl in Hk. by injection Hk as <-. }
    destruct (decide (key = API_KEYS_SET)) as [->|Hk2].
    { apply member_is_set in Hids as (l & ex & Hp).
      apply peek_Some_lookup in Hp. rewrite Hp in He. injection He as <-.
      simpl in Hk. discriminate. }
    destruct (decide (key = getMetadataKey (generateApiKey (nanoid32 drawn))))
      as [->|Hk3].
    { destruct (api_key_not_meta _ Hb). begins_here. }
    rewrite Hkeep in He by done.
    destruct (Hrec key e He Hb k Hk Hs).
  - exists (nanoid drawn, length (heap s)). split.
    + rewrite Hstore. apply elem_of_Map_set_here.
    + simpl. by rewrite Hnew.
Qed.

(** On a connection that holds, [deleteApiKey] of the id that
    [createApiKey] returned returns, at any instant. *)
Lemma deleteApiKey_created_returns (s s1 : State) (drawn : Drawn)
    (name tier ownerEmail id secret : string) (t : Z) :
  createApiKey drawn name tier ownerEmail s = (Ok (id, secret), s1) ->
  healthy s1 ->
  exists s2, deleteApiKey id (set_now t s1) = (Ok tt, s2).
Proof.
  intros Hrun Hh.
  apply createApiKey_inv in Hrun
    as (x & Hx & -> & -> & Hheap & Hstore & _ & Hn & _ & Hr & Hids & Hmeta & Hkeep).
  apply member_is_set in Hids as (l & ex & Hp). apply peek_Some_lookup in Hp.
  assert (Hht : healthy (set_now t s1)) by exact Hh.
  unfold deleteApiKey, get_state, bind at 1.
  change (apiKeysStore (set_now t s1)) with (apiKeysStore s1).
  rewrite Hstore, Map_get_set_eq.
  unfold deleteApiKey_rest, apiKeysStore_delete, apiKeysByHash_delete.
  unfold bind at 1. unfold bind at 1.
  unfold deleteStoredApiKey, invalidateMetadata, redis_del, redis_srem.
  unfold bind at 1. unfold bind at 1.
  rewrite redis_write_healthy by exact Hht. simpl.
  rewrite redis_write_healthy by exact Hht. simpl.
  unfold cmd_del, cmd_srem.
  rewrite peek_delete_ne by apply api_key_record_not_set.
  unfold peek. rewrite Hp.
  destruct (live t (mkEntry (VSet l) ex)); simpl;
    rewrite redis_write_healthy by exact Hht; simpl; eauto.
Qed.

(** A lookup through the cache of the credential that [createApiKey] has
    just made leaves the state as it found it. *)
Lemma findApiKeyByValue_created (s s1 : State) (drawn : Drawn)
    (name tier ownerEmail id secret : string) (t : Z) :
  createApiKey drawn name tier ownerEmail s = (Ok (id, secret), s1) ->
  healthy s1 -> t < now s + 86400000 ->
  exists ref,
    findApiKeyByValue secret (set_now t s1) = (Ok (Some ref), set_now t s1) /\
    ApiKey.id (deref s1 ref) = id /\ ApiKey.apiKey (deref s1 ref) = secret.
Proof.
  intros Hrun Hh Ht.
  apply createApiKey_inv in Hrun
    as (x & Hx & -> & -> & Hheap & Hstore & _ & Hn & Htiers & Hr & Hids & Hmeta & Hkeep).
  set (newKey := newKey_of drawn name tier ownerEmail x (now s)) in *.
  assert (Hnew : heap s1 !! length (heap s) = Some newKey).
  { rewrite Hheap. by apply list_lookup_middle. }
  assert (Hderef : deref s1 (length (heap s)) = newKey).
  { unfold deref. by apply list_lookup_total_correct. }
  exists (length (heap s)). split; [|by rewrite Hderef].
  rewrite (findApiKeyByValue_cache_hit (set_now t s1) _ (metadata_of newKey)
             (now s + 86400000) (length (heap s))).
  - f_equal.
    change (tiersStore (set_now t s1)) with (tiersStore s1).
    change (deref (set_now t s1) (length (heap s))) with (deref s1 (length (heap s))).
    change (heap (set_now t s1)) with (heap s1).
    rewrite Hderef, Htiers.
    assert (Hsame : refreshed (tiersStore s) newKey = newKey).
    { unfold refreshed. simpl. by rewrite Hx. }
    rewrite Hsame, list_insert_id by done.
    apply (set_heap_same (set_now t s1)).
  - exact Hh.
  - exact Hmeta.
  - exact Ht.
  - change (apiKeysStore (set_now t s1)) with (apiKeysStore s1).
    rewrite Hstore. apply Map_get_set_eq.
  - change (heap (set_now t s1)) with (heap s1).
    by apply lookup_lt_Some in Hnew.
  - change (deref (set_now t s1) (length (heap s))) with (deref s1 (length (heap s))).
    by rewrite Hderef.
Qed.

(** Deleting the credential that [createApiKey] made, when nothing carried
    its secret before, leaves nothing that carries it. *)
Lemma deleteApiKey_created_unknown (s s1 s2 : State) (drawn : Drawn)
    (name tier ownerEmail id secret : string) (t : Z) :
  unknown_secret secret s ->
  createApiKey drawn name tier ownerEmail s = (Ok (id, secret), s1) ->
  deleteApiKey id (set_now t s1) = (Ok tt, s2) ->
  unknown_secret secret s2 /\
  Map_get id (apiKeysStore s2) = None /\
  apiKeysByHash s2 !! bcrypt_hash drawn = None /\
  db (redis s2) !! (API_KEY_PREFIX +:+ id) = None /\
  (id ∉ all_ids (now s2) (db (redis s2))) /\
  db (redis s2) !! getMetadataKey secret = None.
Proof.
  intros (Hv & Hmem & Hrec) Hrun Hdel.
  apply createApiKey_inv in Hrun
    as (x & Hx & -> & -> & Hheap & Hstore & _ & Hn & _ & Hr & Hids & Hmeta & Hkeep).
  set (newKey := newKey_of drawn name tier ownerEmail x (now s)) in *.
  assert (Hnew : deref s1 (length (heap s)) = newKey).
  { unfold deref. rewrite Hheap. by apply list_lookup_total_middle. }
  unfold deleteApiKey, get_state, bind at 1 in Hdel.
  change (apiKeysStore (set_now t s1)) with (apiKeysStore s1) in Hdel.
  change (deref (set_now t s1)) with (deref s1) in Hdel.
  rewrite Hstore, Map_get_set_eq in Hdel. rewrite Hnew in Hdel.
  pose proof (deleteApiKey_rest_inv _ _ _ _ Hdel) as (Hg & Hb & Hd & Hi & Hm).
  pose proof (deleteApiKey_rest_keys _ _ _ _ Hdel)
    as (Hn2 & Hheap2 & Hstore2 & _ & Hset & Hkeep2).
  change (heap (set_now t s1)) with (heap s1) in Hheap2.
  change (apiKeysStore (set_now t s1)) with (apiKeysStore s1) in Hstore2.
  change (db (redis (set_now t s1))) with (db (redis s1)) in Hkeep2.
  rewrite Hn2.
  split; [|done].
  unfold refs_valid, memory_all in *. rewrite Forall_forall in Hv, Hmem.
  assert (Hentry : forall entry, entry ∈ apiKeysStore s2 -> entry ∈ apiKeysStore s).
  { intros entry He. rewrite Hstore2, Hstore in He.
    apply elem_of_Map_delete in He as [He Hne].
    apply elem_of_Map_set in He as [->|He]; done. }
  assert (Hold : forall ref, (ref < length (heap s))%nat -> deref s2 ref = deref s ref).
  { intros ref Hlt. unfold deref. rewrite Hheap2, Hheap. by apply lookup_total_app_l. }
  split; [|split].
  - unfold refs_valid. rewrite Forall_forall. intros entry He.
    rewrite Hheap2, Hheap, length_app. specialize (Hv _ (Hentry _ He)). lia.
  - unfold memory_all. rewrite Forall_forall. intros entry He.
    rewrite (Hold _ (Hv _ (Hentry _ He))). apply Hmem. auto.
  - intros key e He Hbk k Hk Hs.
    destruct (decide (key = API_KEY_PREFIX +:+ nanoid drawn)) as [->|Hk1].
    { by rewrite Hd in He. }
    destruct (decide (key = API_KEYS_SET)) as [->|Hk2].
    { destruct (Hset _ He) as (l & Hl). rewrite Hl in Hk. discriminate. }
    destruct (decide (key = getMetadataKey (generateApiKey (nanoid32 drawn))))
      as [->|Hk3].
    { destruct (api_key_not_meta _ Hbk). begins_here. }
    rewrite Hkeep2, Hkeep in He by done.
    destruct (Hrec key e He Hbk k Hk Hs).
Qed.

(** C8.  Take a state in which nothing carries the secret that
    [createApiKey] is about to draw, and let [createApiKey] return the id
    and the secret.  Then [findApiKeyByValue(secret)], at any later instant
    and whatever the connection does, resolves to a credential of that id
    and secret; on a connection that holds, within the lifetime of the
    cache entry, it does so and leaves the state as it found it.  On a
    connection that holds [deleteApiKey(id)] returns, at any instant, and
    when it has returned the stored record, the membership of the id, both
    entries in memory and the cache entry of the secret are gone, and every
    lookup of the secret from then on, at any instant and whatever the
    connection does, returns null. *)
Theorem create_find_delete_round_trip (s s1 : State) (drawn : Drawn)
    (name tier ownerEmail id secret : string) :
  unknown_secret secret s ->
  createApiKey drawn name tier ownerEmail s = (Ok (id, secret), s1) ->
  (forall t, exists ref s2,
     findApiKeyByValue secret (set_now t s1) = (Ok (Some ref), s2) /\
     ApiKey.id (deref s2 ref) = id /\ ApiKey.apiKey (deref s2 ref) = secret) /\
  (healthy s1 -> forall t, t < now s + 86400000 ->
     exists ref,
       findApiKeyByValue secret (set_now t s1) = (Ok (Some ref), set_now t s1) /\
       ApiKey.id (deref s1 ref) = id /\ ApiKey.apiKey (deref s1 ref) = secret) /\
  (healthy s1 -> forall t, exists s2, deleteApiKey id (set_now t s1) = (Ok tt, s2)) /\
  (forall t s2,
     deleteApiKey id (set_now t s1) = (Ok tt, s2) ->
     db (redis s2) !! (API_KEY_PREFIX +:+ id) = None /\
     (id ∉ all_ids (now s2) (db (redis s2))) /\
     Map_get id (apiKeysStore s2) = None /\
     apiKeysByHash s2 !! bcrypt_hash drawn = None /\
     db (redis s2) !! getMetadataKey secret = None /\
     forall t' n, exists s3,
       lookups n secret (set_now t' s2) = (Ok (replicate n None), s3)).
Proof.
  intros Hu Hrun. split; [|split; [|split]].
  - intros t.
    destruct (createApiKey_credentials _ _ _ _ _ _ _ _ Hu Hrun) as (Hc & Hin).
    destruct (findApiKeyByValue_resolves _ secret (set_now t s1)
                (limit_blind_created id tier) (set_now_credentials_all _ _ t _ Hc))
      as (r & s2 & Hfind & (_ & _ & _ & Hres) & Hsome).
    destruct r as [ref|]; [|by destruct (Hsome Hin)].
    destruct Hres as (_ & Hs & (Hid & _) & _). eauto.
  - intros Hh t Ht. by eapply findApiKeyByValue_created.
  - intros Hh t. by eapply deleteApiKey_created_returns.
  - intros t s2 Hdel.
    destruct (deleteApiKey_created_unknown _ _ _ _ _ _ _ _ _ _ Hu Hrun Hdel)
      as (Hu2 & ? & ? & ? & ? & ?).
    repeat (split; [done|]).
    intros t' n.
    destruct (lookups_unknown n secret (set_now t' s2)
                (set_now_credentials_all _ _ t' _ Hu2)) as (s3 & Hl & _).
    eauto.
Qed.

(** A credential created at module load, looked up, deleted a second
    later and looked up three times. *)
Lemma create_find_delete_round_trip_witness :
  let s := initialState t0 in
  unknown_secret secret1 s /\
  createApiKey drawn1 "K" "basic" "admin@example.com" s
  = (Ok (nanoid drawn1, secret1), created) /\
  (exists ref,
     findApiKeyByValue secret1 created = (Ok (Some ref), created) /\
     ApiKey.id (deref created ref) = nanoid drawn1) /\
  (exists s2,
     deleteApiKey (nanoid drawn1) (set_now (t0 + 1000) created) = (Ok tt, s2) /\
     exists s3, lookups 3 secret1 s2 = (Ok [None; None; None], s3)).
Proof.
  intros s.
  assert (Hu : unknown_secret secret1 s).
  { split; [|split].
    - unfold refs_valid. simpl. constructor.
    - unfold memory_all. simpl. constructor.
    - intros key e He Hb k Hk _. revert He Hb.
      unfold s, initialState, emptyRedis. simpl. by rewrite lookup_empty. }
  assert (Hrun : createApiKey drawn1 "K" "basic" "admin@example.com" s
                 = (Ok (nanoid drawn1, secret1), created))
    by (vm_compute; reflexivity).
  destruct (create_find_delete_round_trip s created drawn1 "K" "basic"
              "admin@example.com" (nanoid drawn1) secret1 Hu Hrun)
    as (_ & Hfind & Hret & Hgone).
  split; [exact Hu|]. split; [exact Hrun|]. split.
  - destruct (Hfind eq_refl t0) as (ref & Hf & Hid & _); [simpl; lia|].
    exists ref. split; [exact Hf|exact Hid].
  - destruct (Hret eq_refl (t0 + 1000)) as (s2 & Hdel). exists s2. split; [exact Hdel|].
    destruct (Hgone _ s2 Hdel) as (_ & _ & _ & _ & _ & Hl).
    destruct (Hl (now s2) 3%nat) as (s3 & Hl3).
    exists s3. replace s2 with (set_now (now s2) s2) at 1 by (by destruct s2).
    exact Hl3.
Defined.

(** ** At most the limit is admitted in a minute *)

Lemma limit_blind_enabled (tier : string) :
  limit_blind (fun k => ApiKey.tier k = tier /\ ApiKey.disabled k = false).
Proof. by intros [] ? ?. Qed.

(** The time value is the sum of its parts. *)
Lemma time_parts (t : Z) :
  Date.MakeDate (Date.Day t)
    (Date.MakeTime (Date.HourFromTime t) (Date.MinFromTime t) (Date.SecFromTime t)
       (Date.msFromTime t)) = t.
Proof.
  unfold Date.MakeDate, Date.MakeTime, Date.Day, Date.HourFromTime, Date.MinFromTime,
    Date.SecFromTime, Date.msFromTime, Date.msPerDay, Date.msPerHour, Date.msPerMinute.
  Z.div_mod_to_equations. lia.
Qed.

Lemma setMinutes_steady z t o m :
  Date.offsetAt z t = o ->
  Date.setMinutes z t m =
    Date.UTC z (t + o + (m - Date.MinFromTime (t + o)) * Date.msPerMinute).
Proof.
  intros Ho. unfold Date.setMinutes, Date.LocalTime. rewrite Ho. f_equal.
  pose proof (time_parts (t + o)) as H.
  unfold Date.MakeDate, Date.MakeTime in *. lia.
Qed.

Lemma setSeconds_steady z t o m :
  Date.offsetAt z t = o ->
  Date.setSeconds z t m =
    Date.UTC z (t + o + (m - Date.SecFromTime (t + o)) * 1000).
Proof.
  intros Ho. unfold Date.setSeconds, Date.LocalTime. rewrite Ho. f_equal.
  pose proof (time_parts (t + o)) as H.
  unfold Date.MakeDate, Date.MakeTime in *. lia.
Qed.

Lemma setMilliseconds_steady z t o m :
  Date.offsetAt z t = o ->
  Date.setMilliseconds z t m =
    Date.UTC z (t + o + (m - Date.msFromTime (t + o))).
Proof.
  intros Ho. unfold Date.setMilliseconds, Date.LocalTime. rewrite Ho. f_equal.
  pose proof (time_parts (t + o)) as H.
  unfold Date.MakeDate, Date.MakeTime in *. lia.
Qed.

(** On a steady host the next minute of the local setters is the next
    UTC minute. *)
Lemma nextMinute_steady z t :
  steady z t ->
  Date.nextMinute z t = (t / Date.msPerMinute + 1) * Date.msPerMinute.
Proof.
  intros (o & Ho & Hz). unfold Date.nextMinute. cbv zeta.
  assert (Hback : forall u, t <= u - o <= t + Date.msPerMinute -> Date.UTC z u = u - o).
  { intros u Hu. destruct (Hz (u - o) Hu) as (_ & H).
    unfold Date.UTC. replace (u - o + o) with u in H by lia. by rewrite H. }
  assert (Hat : forall u, t <= u <= t + Date.msPerMinute -> Date.offsetAt z u = o).
  { intros u Hu. by destruct (Hz u Hu). }
  clear Hz. unfold Date.msPerMinute in *.
  assert (H1 : Date.setMinutes z t (Date.getMinutes z t + 1) = t + 60000).
  { unfold Date.getMinutes, Date.LocalTime.
    rewrite (setMinutes_steady z t o); rewrite Hat by lia; [|reflexivity].
    unfold Date.msPerMinute. rewrite Hback; lia. }
  rewrite H1.
  assert (H2 : exists u2, Date.setSeconds z (t + 60000) 0 = u2 /\
                 t <= u2 <= t + 60000 /\ (u2 + o) mod 1000 = (t + o) mod 1000 /\
                 (u2 + o) / 1000 = (t + 60000 + o) / 60000 * 60).
  { eexists. split; [|].
    - rewrite (setSeconds_steady z _ o) by (apply Hat; lia).
      rewrite Hback; [reflexivity|].
      unfold Date.SecFromTime in *. Z.div_mod_to_equations. lia.
    - unfold Date.SecFromTime in *. clear Hback Hat H1. Z.div_mod_to_equations. lia. }
  destruct H2 as (u2 & -> & Hu2 & Hms & Hsec).
  rewrite (setMilliseconds_steady z u2 o 0 (Hat u2 Hu2)).
  assert (Hu3 : u2 + o + (0 - Date.msFromTime (u2 + o)) - o = (t / 60000 + 1) * 60000).
  { unfold Date.msFromTime in *. clear Hback Hat H1.
    Z.div_mod_to_equations. lia. }
  rewrite Hback; [exact Hu3|].
  rewrite Hu3. Z.div_mod_to_equations. lia.
Qed.

(** There the retry-after is between 1 and 60 seconds. *)
Lemma retryAfter_bounds (z : Date.TimeZone) (t : Z) :
  steady z t -> 1 <= ceil_div (Date.nextMinute z t - t) 1000 <= 60.
Proof.
  intros Hs. rewrite (nextMinute_steady z t Hs).
  unfold ceil_div, Date.msPerMinute. Z.div_mod_to_equations. lia.
Qed.

Lemma steady_utc (t : Z) : steady Date.utc t.
Proof. exists 0. split; [reflexivity|]. intros u _. split; reflexivity. Qed.

Lemma holds_stream_is_stream (t : Z) (d : gmap string Entry) (key : string) :
  holds_stream d key -> is_stream t d key.
Proof.
  unfold holds_stream, is_stream, peek.
  destruct (d !! key) as [[v ex]|]; [|done].
  by destruct (live t (mkEntry v ex)).
Qed.

Lemma holds_stream_insert (d : gmap string Entry) (key key' : string)
    (l : list RateLimitEvent.t) (ex : option Z) :
  holds_stream d key' -> holds_stream (<[key := mkEntry (VStream l) ex]> d) key'.
Proof.
  unfold holds_stream. destruct (decide (key = key')) as [->|Hne].
  - by rewrite lookup_insert_eq.
  - by rewrite lookup_insert_ne.
Qed.

Lemma holds_stream_same (d d' : gmap string Entry) (key : string) :
  d' !! key = d !! key -> holds_stream d key -> holds_stream d' key.
Proof. unfold holds_stream. by intros ->. Qed.

Lemma bucket_of_minute_same (m : Z) (d d' : gmap string Entry) (key : string) (n : Z) :
  d' !! key = d !! key -> bucket_of_minute m d key n -> bucket_of_minute m d' key n.
Proof. unfold bucket_of_minute. by intros ->. Qed.

(** [addEvent] on a connection that holds with both stream keys free: it
    returns, and writes to keys of events only, which stay streams. *)
Lemma addEvent_returns (s : State) (e : RateLimitEvent.t) :
  healthy s ->
  holds_stream (db (redis s)) (getEventsStreamKey (RateLimitEvent.apiKey e)) ->
  holds_stream (db (redis s)) getGlobalEventsStreamKey ->
  exists s',
    addEvent e s = (Ok tt, s') /\
    frame (begins "events:") s s' /\ same_memory s s' /\
    forall key, holds_stream (db (redis s)) key -> holds_stream (db (redis s')) key.
Proof.
  intros Hh Hk Hg.
  destruct (redis_xadd_healthy s _ 1000 e Hh (holds_stream_is_stream (now s) _ _ Hk))
    as (ex1 & Hx1 & _).
  set (s1 := set_redis _ s) in Hx1.
  assert (Hkeep1 : forall key, holds_stream (db (redis s)) key ->
                               holds_stream (db (redis s1)) key).
  { intros key. apply holds_stream_insert. }
  destruct (redis_xadd_healthy s1 getGlobalEventsStreamKey 10000 e Hh
              (holds_stream_is_stream (now s1) _ _ (Hkeep1 _ Hg)))
    as (ex2 & Hx2 & _).
  set (s2 := set_redis _ s1) in Hx2.
  assert (Hrun : addEvent e s = (Ok tt, s2)).
  { unfold addEvent. rewrite (bind_Ok _ _ _ _ _ Hx1). exact Hx2. }
  exists s2. split; [exact Hrun|].
  pose proof (addEvent_frame (begins "events:") e ltac:(done) s) as Hf.
  pose proof (addEvent_memory e s) as Hm.
  rewrite Hrun in Hf, Hm. split; [exact Hf|]. split; [exact Hm|].
  intros key Hkey. apply holds_stream_insert, Hkeep1, Hkey.
Qed.

Lemma updateLastSeen_returns (s : State) (K : string) :
  healthy s ->
  exists s',
    updateLastSeen K s = (Ok tt, s') /\
    frame (begins "lastseen:") s s' /\ same_memory s s'.
Proof.
  intros Hh.
  pose proof (updateLastSeen_frame (begins "lastseen:") K ltac:(done) s) as Hf.
  pose proof (updateLastSeen_memory K s) as Hm.
  assert (Hrun : exists s', updateLastSeen K s = (Ok tt, s')).
  { unfold updateLastSeen, redis_setex.
    rewrite (bind_Ok _ _ s s s) by reflexivity.
    rewrite redis_write_healthy by exact Hh. simpl. eauto. }
  destruct Hrun as (s' & Hrun). rewrite Hrun in Hf, Hm. eauto.
Qed.

(** Writes outside the records of credentials and the keys of events keep
    the flow ready. *)
Lemma check_ready_frame (secret tier : string) (W : string -> Prop) (s s' : State) :
  (forall key, W key -> begins "rl:" key \/ begins "lastseen:" key \/ begins "meta:" key) ->
  frame W s s' -> same_memory s s' ->
  check_ready secret tier s -> check_ready secret tier s'.
Proof.
  intros HW Hf Hm (Hh & Hc & Hin & Hk & Hg).
  assert (Hev : forall key, begins "events:" key -> ~ W key).
  { intros key Hkey HWk. pose proof (begins_events_not_others key Hkey).
    destruct (HW _ HWk) as [?|[?|?]]; tauto. }
  assert (Hd : forall key, ~ W key -> db (redis s') !! key = db (redis s) !! key)
    by apply Hf.
  split; [by apply Hf|]. split; [|split; [by eapply in_memory_same|]].
  - eapply credentials_all_frame; [|exact Hf|exact Hm|exact Hc].
    intros key [r ->] HWk.
    destruct (HW _ HWk) as [[r' H]|[[r' H]|[r' H]]]; discriminate.
  - split; (eapply holds_stream_same; [apply Hd, Hev; begins_here|done]).
Qed.

Lemma check_ready_set_now (secret tier : string) (t : Z) (s : State) :
  check_ready secret tier s -> check_ready secret tier (set_now t s).
Proof. done. Qed.

(** One admission check of an enabled credential on a connection that
    holds: the verdict is that of the counts after one more hit, under the
    limits of the tier, and the flow is ready for the next check. *)
Lemma rateLimitMiddleware_counts (secret tier endpoint : string) (x : Tier.t)
    (s : State) (c d : Z) :
  let t := now s in
  let L := Tier.rateLimit x * 60 in
  let D := Tier.rateLimit x * 86400 in
  secret ≠ "" ->
  check_ready secret tier s ->
  tiersStore s !! tier = Some x ->
  bucket_of_minute (minute_of t) (db (redis s)) (getMinuteKey secret t) c ->
  bucket_of_minute (minute_of t) (db (redis s)) (getDayKey secret t) d ->
  exists s',
    rateLimitMiddleware (Some secret) endpoint s
    = (Ok (verdict_at (zone s) L D (c + 1) (d + 1) t), s') /\
    check_ready secret tier s' /\
    (tiersStore s' = tiersStore s /\ zone s' = zone s) /\
    bucket_of_minute (minute_of t) (db (redis s')) (getMinuteKey secret t) (c + 1) /\
    bucket_of_minute (minute_of t) (db (redis s')) (getDayKey secret t) (d + 1).
Proof.
  intros t L D Hne Hready Hx Hmk Hdk.
  pose proof Hready as (Hh & Hc & Hin & Hks & Hgs).
  (* the lookup *)
  destruct (findApiKeyByValue_resolves _ secret s (limit_blind_enabled tier) Hc)
    as (r & s1 & Hfind & (Hc1 & Ht1 & Hin1 & Hres) & Hsome).
  destruct r as [ref|]; [|by destruct (Hsome Hin)].
  destruct Hres as (Hlt & Hsec & (Htier & Hdis) & Hlim).
  pose proof (findApiKeyByValue_frame (begins "meta:") secret ltac:(done) s) as Hf1.
  rewrite Hfind in Hf1. simpl in Hf1.
  assert (Hready1 : check_ready secret tier s1).
  { destruct Hf1 as (_ & _ & _ & Hh1 & Hd1).
    split; [by apply Hh1|]. split; [done|]. split; [by apply Hin1|].
    split; (eapply holds_stream_same; [apply Hd1|done]);
      intros [r' H]; discriminate. }
  assert (Hn1 : now s1 = t) by apply Hf1.
  assert (Hrl1 : forall key, begins "rl:" key ->
                   db (redis s1) !! key = db (redis s) !! key).
  { intros key Hkey. apply Hf1. pose proof (begins_rl_not_others key Hkey). tauto. }
  destruct (Hlim x) as [HL HD]; [by rewrite Htier, Ht1|].
  fold L in HL. fold D in HD.
  (* the script *)
  set (mk := getMinuteKey secret t) in *. set (dk := getDayKey secret t) in *.
  assert (Hmk1 : bucket_of_minute (minute_of t) (db (redis s1)) mk c).
  { eapply bucket_of_minute_same; [apply Hrl1; begins_here|done]. }
  assert (Hdk1 : bucket_of_minute (minute_of t) (db (redis s1)) dk d).
  { eapply bucket_of_minute_same; [apply Hrl1; begins_here|done]. }
  destruct (bucket_of_minute_is_bucket _ _ _ _ Hmk1) as (Hbm & Hcm).
  destruct (bucket_of_minute_is_bucket _ _ _ _ Hdk1) as (Hbd & Hcd).
  pose proof (checkRateLimit_db s1 secret L D) as Hcheck. cbv zeta in Hcheck.
  rewrite Hn1 in Hcheck. fold mk dk in Hcheck. rewrite Hcm, Hcd in Hcheck.
  specialize (Hcheck ltac:(apply Hready1) Hbm Hbd).
  set (s2 := set_redis _ s1) in Hcheck.
  pose proof (checkRateLimit_frame (begins "rl:") secret L D ltac:(done) s1) as Hf2.
  pose proof (checkRateLimit_memory secret L D s1) as Hm2.
  rewrite Hcheck in Hf2, Hm2. simpl in Hf2, Hm2.
  assert (Hready2 : check_ready secret tier s2).
  { eapply (check_ready_frame _ _ (begins "rl:")); [tauto|done..]. }
  assert (Hmk2 : bucket_of_minute (minute_of t) (db (redis s2)) mk (c + 1)).
  { simpl. apply bucket_of_minute_insert_ne; [apply not_eq_sym, getMinuteKey_ne_getDayKey|].
    apply bucket_of_minute_bumped; [done|exact Hmk1]. }
  assert (Hdk2 : bucket_of_minute (minute_of t) (db (redis s2)) dk (d + 1)).
  { simpl.
    rewrite <- (bumped_insert_ne t 90000000 (db (redis s1)) mk dk
                  (bumped t 90000 (db (redis s1)) mk))
      by apply getMinuteKey_ne_getDayKey.
    apply bucket_of_minute_bumped; [done|].
    apply bucket_of_minute_insert_ne; [apply getMinuteKey_ne_getDayKey|exact Hdk1]. }
  (* the flow *)
  unfold rateLimitMiddleware.
  rewrite (bind_Ok _ _ s s s) by reflexivity.
  rewrite (bind_Ok _ _ s s tt) by reflexivity.
  unfold header_missing. rewrite bool_decide_eq_false_2 by done.
  simpl default.
  rewrite (bind_Ok _ _ _ _ _ Hfind).
  rewrite (bind_Ok _ _ s1 s1 (deref s1 ref)) by reflexivity.
  rewrite Hdis, HL, HD.
  rewrite (bind_Ok _ _ _ _ _ Hcheck).
  unfold verdict_at.
  cbn [RateLimiter.isOverLimit RateLimiter.minuteCount RateLimiter.dayCount].
  fold t.
  destruct ((c + 1 >? L) || (d + 1 >? D)).
  - cbv iota. set (ev := RateLimitEvent.mk _ _ _ _ _ _).
    destruct (addEvent_returns s2 ev) as (s3 & Hadd & Hf3 & Hm3 & Hst3);
      [apply Hready2..|].
    rewrite (bind_Ok _ _ _ _ _ Hadd).
    exists s3. split; [done|].
    assert (Hrl3 : forall key, begins "rl:" key ->
                     db (redis s3) !! key = db (redis s2) !! key).
    { intros key Hkey. apply Hf3. pose proof (begins_rl_not_others key Hkey). tauto. }
    split; [|split; [|split]].
    + destruct Hready2 as (Hh2 & Hc2 & Hin2 & Hks2 & Hgs2).
      split; [by apply Hf3|]. split; [|split; [by eapply in_memory_same|]].
      * eapply credentials_all_frame; [|exact Hf3|exact Hm3|done].
        intros key [r ->] [r' Heq]. discriminate.
      * split; by apply Hst3.
    + destruct Hf1 as (_ & _ & (_ & Hz1) & _).
      destruct Hf2 as (_ & Ht2 & (_ & Hz2) & _).
      destruct Hf3 as (_ & Ht3 & (_ & Hz3) & _).
      split; [by rewrite Ht3, Ht2|by rewrite Hz3, Hz2, Hz1].
    + eapply bucket_of_minute_same; [apply Hrl3; begins_here|done].
    + eapply bucket_of_minute_same; [apply Hrl3; begins_here|done].
  - cbv iota. set (ev := RateLimitEvent.mk _ _ _ _ _ _).
    destruct (addEvent_returns s2 ev) as (s3 & Hadd & Hf3 & Hm3 & Hst3);
      [apply Hready2..|].
    rewrite (bind_Ok _ _ _ _ _ Hadd).
    assert (Hready3 : check_ready secret tier s3).
    { destruct Hready2 as (Hh2 & Hc2 & Hin2 & Hks2 & Hgs2).
      split; [by apply Hf3|]. split; [|split; [by eapply in_memory_same|]].
      * eapply credentials_all_frame; [|exact Hf3|exact Hm3|done].
        intros key [r ->] [r' Heq]. discriminate.
      * split; by apply Hst3. }
    destruct (updateLastSeen_returns s3 secret) as (s4 & Hseen & Hf4 & Hm4);
      [apply Hready3|].
    rewrite (bind_Ok _ _ _ _ _ Hseen).
    rewrite (bind_Ok _ _ s4 s4 (deref s4 ref)) by reflexivity.
    assert (Hk4 : deref s4 ref = deref s1 ref).
    { rewrite (deref_same s3 s4), (deref_same s2 s3), (deref_same s1 s2); done. }
    rewrite Hk4, HL, HD.
    exists s4. split; [done|].
    assert (Hrl4 : forall key, begins "rl:" key ->
                     db (redis s4) !! key = db (redis s2) !! key).
    { intros key Hkey. pose proof (begins_rl_not_others key Hkey).
      destruct Hf4 as (_ & _ & _ & _ & ->); [|tauto]. apply Hf3. tauto. }
    split; [|split; [|split]].
    + eapply (check_ready_frame _ _ (begins "lastseen:")); [tauto|done..].
    + destruct Hf1 as (_ & _ & (_ & Hz1) & _).
      destruct Hf2 as (_ & Ht2 & (_ & Hz2) & _).
      destruct Hf3 as (_ & Ht3 & (_ & Hz3) & _).
      destruct Hf4 as (_ & Ht4 & (_ & Hz4) & _).
      split; [by rewrite Ht4, Ht3, Ht2|by rewrite Hz4, Hz3, Hz2, Hz1].
    + eapply bucket_of_minute_same; [apply Hrl4; begins_here|done].
    + eapply bucket_of_minute_same; [apply Hrl4; begins_here|done].
Qed.

(** Checks in a row within one minute: their verdicts are those of the
    counts as they grow. *)
Lemma checks_at_run (secret tier endpoint : string) (x : Tier.t) (T0 : Z)
    (ts : list Z) :
  let L := Tier.rateLimit x * 60 in
  let D := Tier.rateLimit x * 86400 in
  secret ≠ "" ->
  Forall (fun t => minute_of t = minute_of T0) ts ->
  forall (s : State) (c d : Z),
    check_ready secret tier s ->
    tiersStore s !! tier = Some x ->
    bucket_of_minute (minute_of T0) (db (redis s)) (getMinuteKey secret T0) c ->
    bucket_of_minute (minute_of T0) (db (redis s)) (getDayKey secret T0) d ->
    exists s',
      checks_at ts (Some secret) endpoint s = (Ok (verdicts (zone s) L D c d ts), s') /\
      check_ready secret tier s' /\
      tiersStore s' !! tier = Some x /\
      bucket_of_minute (minute_of T0) (db (redis s')) (getMinuteKey secret T0)
        (c + Z.of_nat (length ts)) /\
      bucket_of_minute (minute_of T0) (db (redis s')) (getDayKey secret T0)
        (d + Z.of_nat (length ts)).
Proof.
  intros L D Hne Hts. induction Hts as [|t ts Ht Hts IH]; intros s c d Hr Hx Hmk Hdk.
  - exists s. simpl. rewrite !Z.add_0_r.
    repeat (split; [first [reflexivity|assumption]|]). assumption.
  - destruct (same_minute_keys secret t T0 Ht) as (Hkm & Hkd).
    pose proof (rateLimitMiddleware_counts secret tier endpoint x (set_now t s) c d Hne
                  (check_ready_set_now _ _ t s Hr) Hx) as Hstep.
    cbv zeta in Hstep.
    change (now (set_now t s)) with t in Hstep.
    change (tiersStore (set_now t s)) with (tiersStore s) in Hstep.
    change (db (redis (set_now t s))) with (db (redis s)) in Hstep.
    rewrite Ht, Hkm, Hkd in Hstep.
    change (zone (set_now t s)) with (zone s) in Hstep.
    destruct (Hstep Hmk Hdk) as (s1 & Hrun & Hr1 & (Ht1 & Hz1) & Hmk1 & Hdk1).
    destruct (IH s1 (c + 1) (d + 1) Hr1) as (s' & Hrest & Hr' & Hx' & Hmk' & Hdk');
      [by rewrite Ht1|done..|].
    exists s'. split; [|split; [done|split; [done|]]].
    + cbn [checks_at verdicts].
      rewrite (bind_Ok _ _ s s1 _ Hrun), (bind_Ok _ _ _ _ _ Hrest).
      by rewrite Hz1.
    + simpl length. rewrite Nat2Z.inj_succ.
      replace (c + Z.succ (Z.of_nat (length ts))) with (c + 1 + Z.of_nat (length ts)) by lia.
      replace (d + Z.succ (Z.of_nat (length ts))) with (d + 1 + Z.of_nat (length ts)) by lia.
      done.
Qed.

Lemma verdicts_length (z : Date.TimeZone) (L D c d : Z) (ts : list Z) :
  length (verdicts z L D c d ts) = length ts.
Proof. revert c d. induction ts as [|t ts IH]; intros c d; simpl; [done|]. by rewrite IH. Qed.

Lemma verdicts_lookup (z : Date.TimeZone) (L D c d : Z) (ts : list Z) (i : nat) (v : Middleware.RateLimitResult) :
  verdicts z L D c d ts !! i = Some v ->
  exists t, ts !! i = Some t /\
            v = verdict_at z L D (c + Z.of_nat i + 1) (d + Z.of_nat i + 1) t.
Proof.
  revert c d i. induction ts as [|t ts IH]; intros c d i; [done|].
  destruct i as [|i]; simpl.
  - intros [= <-]. exists t. by rewrite !Z.add_0_r.
  - intros Hv. destruct (IH _ _ _ Hv) as (t' & Ht' & ->). exists t'. split; [done|].
    f_equal; lia.
Qed.

Lemma verdicts_admitted (z : Date.TimeZone) (L D c d : Z) (ts : list Z) :
  Z.of_nat (admitted (verdicts z L D c d ts)) <= Z.max 0 (L - c).
Proof.
  unfold admitted. revert c d. induction ts as [|t ts IH]; intros c d; simpl; [lia|].
  specialize (IH (c + 1) (d + 1)). unfold verdict_at.
  destruct (c + 1 >? L) eqn:Hc; simpl.
  - lia.
  - destruct (d + 1 >? D); simpl; lia.
Qed.


Lemma unknown_at_module_load (secret : string) (t : Z) (z : Date.TimeZone) :
  unknown_secret secret (set_zone z (initialState t)).
Proof.
  split; [|split].
  - unfold refs_valid. simpl. constructor.
  - unfold memory_all. simpl. constructor.
  - intros key e He. revert He.
    unfold initialState, emptyRedis. simpl. by rewrite lookup_empty.
Qed.

(** A credential created under a tier at module load is ready for its
    checks. *)
Lemma check_ready_created (t : Z) (z : Date.TimeZone) (tier : string) (s : State) :
  createApiKey drawn1 "K" tier "admin@example.com" (set_zone z (initialState t))
  = (Ok (nanoid drawn1, secret1), s) ->
  healthy s ->
  holds_stream (db (redis s)) (getEventsStreamKey secret1) ->
  holds_stream (db (redis s)) getGlobalEventsStreamKey ->
  check_ready secret1 tier s.
Proof.
  intros Hrun Hh Hk Hg.
  destruct (createApiKey_credentials _ _ _ _ _ _ _ _
              (unknown_at_module_load secret1 t z) Hrun) as ((Hv & Hm & Hrec) & Hin).
  split; [exact Hh|]. split; [|split; [exact Hin|by split]].
  split; [exact Hv|]. split.
  - unfold memory_all in *. eapply Forall_impl; [exact Hm|]. simpl. tauto.
  - intros key e He Hb k Hk' Hs. destruct (Hrec key e He Hb k Hk' Hs). tauto.
Qed.


(** 1,201 checks in a row from [t] on, of the credential created under
    "basic" on a host in New York: their verdicts. *)
Lemma rapid_checks_in_New_York (t : Z) :
  result_of (createApiKey drawn1 "K" "basic" "admin@example.com")
    (set_zone Date.New_York (initialState t))
  = Ok (nanoid drawn1, secret1) ->
  healthy (created_in_New_York t) ->
  holds_stream (db (redis (created_in_New_York t))) (getEventsStreamKey secret1) ->
  holds_stream (db (redis (created_in_New_York t))) getGlobalEventsStreamKey ->
  db (redis (created_in_New_York t)) !! getMinuteKey secret1 t = None ->
  db (redis (created_in_New_York t)) !! getDayKey secret1 t = None ->
  tiersStore (created_in_New_York t) !! "basic" = Some (Tier.mk "basic" "Basic" 20 30) ->
  zone (created_in_New_York t) = Date.New_York ->
  Forall (fun u => minute_of u = minute_of t) (rapid_from t) ->
  exists s',
    checks_at (rapid_from t) (Some secret1) "/api/data" (created_in_New_York t)
    = (Ok (verdicts Date.New_York 1200 1728000 0 0 (rapid_from t)), s').
Proof.
  intros Hres Hh Hk Hg Hmk Hdk Hx Hz Hts.
  assert (Hrun : createApiKey drawn1 "K" "basic" "admin@example.com"
                   (set_zone Date.New_York (initialState t))
                 = (Ok (nanoid drawn1, secret1), created_in_New_York t)).
  { unfold created_in_New_York, state_after. unfold result_of in Hres.
    rewrite <- Hres. apply surjective_pairing. }
  destruct (checks_at_run secret1 "basic" "/api/data" (Tier.mk "basic" "Basic" 20 30)
              t (rapid_from t) ltac:(discriminate) Hts (created_in_New_York t) 0 0)
    as (s' & Hchecks & _).
  - by apply (check_ready_created t Date.New_York).
  - exact Hx.
  - by left.
  - by left.
  - exists s'. by rewrite Hz in Hchecks.
Qed.

Lemma verdicts_within (z : Date.TimeZone) (L D : Z) (ts : list Z) (i : nat) :
  (i < length ts)%nat -> Z.of_nat i + 1 <= L -> Z.of_nat i + 1 <= D ->
  verdicts z L D 0 0 ts !! i
  = Some (Middleware.Allowed (Z.of_nat i + 1) (Z.of_nat i + 1) L D).
Proof.
  intros Hi HL HD.
  destruct (lookup_lt_is_Some_2 (verdicts z L D 0 0 ts) i) as (v & Hv);
    [by rewrite verdicts_length|].
  rewrite Hv. destruct (verdicts_lookup _ _ _ _ _ _ _ _ Hv) as (t & _ & ->).
  unfold verdict_at. rewrite !Z.add_0_l.
  destruct (Z.of_nat i + 1 >? L) eqn:H1; [lia|].
  destruct (Z.of_nat i + 1 >? D) eqn:H2; [lia|]. done.
Qed.

(** C2, where the code departs from it.  On a host in New York the
    credential created under "basic" is checked 1,201 times within one
    minute.  Half a minute before the clocks go back on 2026-11-01, the
    first 1200 checks are admitted and the 1201st is refused with a
    retry-after of 3629 seconds; in the hour that repeats, the first 1200
    are admitted and the 1201st is refused with a retry-after of -3556
    seconds.  The claim, and the comment of the code (the time until the
    next minute window), say 1 to 60. *)
Theorem retry_after_when_the_clocks_go_back :
  (exists vs s',
     checks_at (rapid_from before_the_change) (Some secret1) "/api/data"
       (created_in_New_York before_the_change) = (Ok vs, s') /\
     (forall i, (i < 1200)%nat ->
        vs !! i = Some (Middleware.Allowed (Z.of_nat i + 1) (Z.of_nat i + 1)
                          1200 1728000)) /\
     vs !! 1200%nat = Some (Middleware.Denied "Rate limit exceeded" 3629)) /\
  (exists vs s',
     checks_at (rapid_from after_the_change) (Some secret1) "/api/data"
       (created_in_New_York after_the_change) = (Ok vs, s') /\
     (forall i, (i < 1200)%nat ->
        vs !! i = Some (Middleware.Allowed (Z.of_nat i + 1) (Z.of_nat i + 1)
                          1200 1728000)) /\
     vs !! 1200%nat = Some (Middleware.Denied "Rate limit exceeded" (- 3556))).
Proof.
  split.
  - destruct (rapid_checks_in_New_York before_the_change) as (s' & Hrun);
      [vm_compute; reflexivity|vm_compute; reflexivity
      |vm_compute; exact I|vm_compute; exact I
      |vm_compute; reflexivity|vm_compute; reflexivity|vm_compute; reflexivity
      |reflexivity| |].
    { apply (bool_decide_unpack
               (Forall (fun u => minute_of u = minute_of before_the_change)
                  (rapid_from before_the_change))).
      vm_compute. exact I. }
    eexists _, s'. split; [exact Hrun|]. split.
    + intros i Hi. apply verdicts_within; [|lia..].
      unfold rapid_from. rewrite length_fmap, length_seq. lia.
    + vm_compute. reflexivity.
  - destruct (rapid_checks_in_New_York after_the_change) as (s' & Hrun);
      [vm_compute; reflexivity|vm_compute; reflexivity
      |vm_compute; exact I|vm_compute; exact I
      |vm_compute; reflexivity|vm_compute; reflexivity|vm_compute; reflexivity
      |reflexivity| |].
    { apply (bool_decide_unpack
               (Forall (fun u => minute_of u = minute_of after_the_change)
                  (rapid_from after_the_change))).
      vm_compute. exact I. }
    eexists _, s'. split; [exact Hrun|]. split.
    + intros i Hi. apply verdicts_within; [|lia..].
      unfold rapid_from. rewrite length_fmap, length_seq. lia.
    + vm_compute. reflexivity.
Qed.

(** The same bound for checks that run at once: the server runs their
    scripts one after the other, in some order, among the hits of any other
    credential; of the hits under [secret], all in one minute and under the
    minute limit [L], the script lets at most [L - c] pass. *)
Lemma scripts_pass_at_most_limit (hs : list Hit) (secret : string) (T L : Z) :
  (forall h, h ∈ hs -> hit_secret h = secret ->
             minute_of (hit_at h) = minute_of T /\ hit_minuteLimit h = L) ->
  forall (s : State) (c d : Z),
    healthy s ->
    bucket_of_minute (minute_of T) (db (redis s)) (getMinuteKey secret T) c ->
    bucket_of_minute (minute_of T) (db (redis s)) (getDayKey secret T) d ->
    Z.of_nat (passed secret (replies hs s)) <= Z.max 0 (L - c).
Proof.
  unfold passed.
  induction hs as [|h hs IH]; intros Hin s c d Hh Hm Hd; [simpl; lia|].
  assert (Hne : getMinuteKey secret T ≠ getDayKey secret T)
    by apply getMinuteKey_ne_getDayKey.
  assert (Hin' : forall h', h' ∈ hs -> hit_secret h' = secret ->
                   minute_of (hit_at h') = minute_of T /\ hit_minuteLimit h' = L).
  { intros h' Hh'. apply Hin. by right. }
  cbn [replies List.filter]. unfold passes at 1. cbn [fst snd].
  destruct (decide (hit_secret h = secret)) as [Hs|Hs].
  - destruct (Hin h ltac:(by left) Hs) as (Hmin & HL).
    destruct (same_minute_keys secret _ _ Hmin) as [Hk1 Hk2].
    rewrite <- Hmin in Hm, Hd.
    destruct (bucket_of_minute_is_bucket (hit_at h) _ _ _ Hm) as [Hb1 Hc1].
    destruct (bucket_of_minute_is_bucket (hit_at h) _ _ _ Hd) as [Hb2 Hc2].
    pose proof (checkRateLimit_db (set_now (hit_at h) s) secret
                  (hit_minuteLimit h) (hit_dayLimit h)) as Hrun.
    cbv zeta in Hrun.
    change (now (set_now (hit_at h) s)) with (hit_at h) in Hrun.
    change (db (redis (set_now (hit_at h) s))) with (db (redis s)) in Hrun.
    rewrite Hk1, Hk2, Hc1, Hc2 in Hrun. specialize (Hrun Hh Hb1 Hb2).
    assert (Hreply : reply h s =
              Ok (RateLimiter.mk (c + 1) (d + 1)
                    ((c + 1 >? L) || (d + 1 >? hit_dayLimit h)))).
    { unfold reply, result_of. by rewrite Hs, Hrun, HL. }
    assert (Hnext : Z.of_nat (length (List.filter (passes secret)
                                        (replies hs (hit h s))))
                    <= Z.max 0 (L - (c + 1))).
    { apply (IH Hin' (hit h s) (c + 1) (d + 1)).
      - by apply hit_healthy.
      - unfold hit, state_after. rewrite Hs, Hrun. simpl. rewrite <- Hmin.
        apply bucket_of_minute_insert_ne; [done|].
        apply bucket_of_minute_bumped; [unfold Date.msPerMinute; lia|done].
      - unfold hit, state_after. rewrite Hs, Hrun. simpl. rewrite <- Hmin.
        rewrite <- (bumped_insert_ne (hit_at h) 90000000 (db (redis s))
                      (getMinuteKey secret T) (getDayKey secret T)
                      (bumped (hit_at h) 90000 (db (redis s)) (getMinuteKey secret T))
                      Hne).
        apply bucket_of_minute_bumped; [unfold Date.msPerMinute; lia|].
        by apply bucket_of_minute_insert_ne. }
    rewrite Hreply. cbn [RateLimiter.isOverLimit].
    destruct (c + 1 >? L) eqn:Hc; simpl.
    + rewrite andb_false_r. lia.
    + destruct (bool_decide _ && _); simpl length; lia.
  - rewrite bool_decide_eq_false_2 by done. simpl.
    apply (IH Hin' (hit h s) c d).
    + by apply hit_healthy.
    + eapply bucket_of_minute_same; [|exact Hm]. unfold hit.
      rewrite checkRateLimit_other_keys; [done|..]; simpl; intros Heq.
      * by apply getMinuteKey_inj in Heq.
      * by apply getMinuteKey_ne_getDayKey in Heq.
    + eapply bucket_of_minute_same; [|exact Hd]. unfold hit.
      rewrite checkRateLimit_other_keys; [done|..]; simpl; intros Heq.
      * symmetry in Heq. by apply getMinuteKey_ne_getDayKey in Heq.
      * by apply getDayKey_inj in Heq.
Qed.

(** ** The calendar *)

Lemma holds_from_spec (check : Z -> bool) (n : nat) (z : Z) :
  holds_from check n z = true ->
  forall k, z <= k < z + Z.of_nat n -> check k = true.
Proof.
  revert z. induction n as [|n IH]; intros z H k Hk; [lia|].
  simpl in H. destruct (check z) eqn:Hz; [|done].
  destruct (decide (k = z)) as [->|Hne]; [done|].
  apply (IH (z + 1) H). lia.
Qed.

Lemma doe_ok_all (doe : Z) : 0 <= doe < 146097 -> doe_ok doe = true.
Proof.
  intros H. apply (holds_from_spec doe_ok (Z.to_nat 146097) 0); [|lia].
  vm_compute. reflexivity.
Qed.

Lemma civil_era (days : Z) :
  let z := days + 719468 in
  let era := z / 146097 in
  let doe := z - era * 146097 in
  Date.civil days =
    ((civil_of_doe doe).1.1 + era * 400 +
       (if (civil_of_doe doe).1.2 <=? 2 then 1 else 0),
     (civil_of_doe doe).1.2, (civil_of_doe doe).2).
Proof. reflexivity. Qed.

Lemma doe_range (z : Z) : 0 <= z - z / 146097 * 146097 < 146097.
Proof.
  pose proof (Z.mul_div_le z 146097 ltac:(lia)).
  pose proof (Z.mul_succ_div_gt z 146097 ltac:(lia)). lia.
Qed.

(** The month and the day of the month are in range. *)
Lemma civil_bounds (days : Z) :
  1 <= (Date.civil days).1.2 <= 12 /\ 1 <= (Date.civil days).2 <= 31.
Proof.
  rewrite civil_era. cbv zeta.
  pose proof (doe_ok_all _ (doe_range (days + 719468))) as Hok.
  unfold doe_ok in Hok.
  destruct (civil_of_doe _) as [[yoe m] d]. simpl.
  repeat (apply andb_prop in Hok as [Hok ?]). lia.
Qed.

(** Different days have different dates. *)
Lemma civil_inj (a b : Z) : Date.civil a = Date.civil b -> a = b.
Proof.
  rewrite !civil_era. cbv zeta.
  pose proof (doe_ok_all _ (doe_range (a + 719468))) as Ha.
  pose proof (doe_ok_all _ (doe_range (b + 719468))) as Hb.
  unfold doe_ok in Ha, Hb.
  destruct (civil_of_doe (a + 719468 - _)) as [[yoe m] d].
  destruct (civil_of_doe (b + 719468 - _)) as [[yoe' m'] d']. simpl.
  repeat (apply andb_prop in Ha as [Ha ?]).
  repeat (apply andb_prop in Hb as [Hb ?]).
  intros [= Hy -> ->].
  assert (yoe = yoe' /\ (a + 719468) / 146097 = (b + 719468) / 146097) as [-> He]
    by lia.
  lia.
Qed.

(** ** Stamps *)

Lemma pad2_ok_all (n : Z) : 0 <= n < 100 -> pad2_ok n = true.
Proof.
  intros H. apply (holds_from_spec pad2_ok 100 0); [|lia].
  vm_compute. reflexivity.
Qed.

Lemma pad2_length (n : Z) : 0 <= n < 100 -> String.length (pad2 n) = 2%nat.
Proof.
  intros H. pose proof (pad2_ok_all n H) as Hok. unfold pad2_ok in Hok.
  apply andb_prop in Hok as [Hl _]. by apply Nat.eqb_eq.
Qed.

Lemma pad2_inj (n n' : Z) :
  0 <= n < 100 -> 0 <= n' < 100 -> pad2 n = pad2 n' -> n = n'.
Proof.
  intros H H' Heq. pose proof (pad2_ok_all n H) as Hok. unfold pad2_ok in Hok.
  apply andb_prop in Hok as [_ Hall].
  pose proof (holds_from_spec _ _ _ Hall n' ltac:(lia)) as Hn. simpl in Hn.
  rewrite Heq, String.eqb_refl in Hn. by apply Z.eqb_eq.
Qed.

Lemma append_pad2_inj (a b : string) (n n' : Z) :
  0 <= n < 100 -> 0 <= n' < 100 ->
  a +:+ pad2 n = b +:+ pad2 n' -> a = b /\ n = n'.
Proof.
  intros H H' Heq.
  apply append_inj_length in Heq as [-> Hp]; [|by rewrite !pad2_length].
  split; [done|]. by apply pad2_inj.
Qed.

Lemma date_fields (t : Z) :
  0 <= Date.getUTCMonth t + 1 < 100 /\ 0 <= Date.getUTCDate t < 100 /\
  0 <= Date.getUTCHours t < 100 /\ 0 <= Date.getUTCMinutes t < 100.
Proof.
  unfold Date.getUTCMonth, Date.getUTCDate, Date.getUTCHours, Date.getUTCMinutes.
  pose proof (civil_bounds (Date.Day t)).
  pose proof (Z.mod_pos_bound (t / Date.msPerHour) 24 ltac:(lia)).
  pose proof (Z.mod_pos_bound (t / Date.msPerMinute) 60 ltac:(lia)).
  lia.
Qed.

Lemma dayStamp_inj (t1 t2 : Z) : dayStamp t1 = dayStamp t2 -> Date.Day t1 = Date.Day t2.
Proof.
  unfold dayStamp. fold (pad2 (Date.getUTCMonth t1 + 1)) (pad2 (Date.getUTCDate t1))
    (pad2 (Date.getUTCMonth t2 + 1)) (pad2 (Date.getUTCDate t2)).
  destruct (date_fields t1) as (? & ? & _). destruct (date_fields t2) as (? & ? & _).
  rewrite <- !append_assoc. intros Heq.
  apply append_pad2_inj in Heq as [Heq Hd]; [|done..].
  apply append_pad2_inj in Heq as [Hy Hm]; [|done..].
  apply (inj pretty) in Hy.
  apply civil_inj.
  unfold Date.getUTCFullYear, Date.getUTCMonth, Date.getUTCDate in *.
  destruct (Date.civil (Date.Day t1)) as [[y1 m1] d1].
  destruct (Date.civil (Date.Day t2)) as [[y2 m2] d2]. simpl in *.
  f_equal; [f_equal|]; lia.
Qed.

Lemma minuteStamp_inj (t1 t2 : Z) :
  minuteStamp t1 = minuteStamp t2 -> minute_of t1 = minute_of t2.
Proof.
  unfold minuteStamp.
  fold (pad2 (Date.getUTCMonth t1 + 1)) (pad2 (Date.getUTCDate t1))
    (pad2 (Date.getUTCHours t1)) (pad2 (Date.getUTCMinutes t1))
    (pad2 (Date.getUTCMonth t2 + 1)) (pad2 (Date.getUTCDate t2))
    (pad2 (Date.getUTCHours t2)) (pad2 (Date.getUTCMinutes t2)).
  destruct (date_fields t1) as (? & ? & ? & ?).
  destruct (date_fields t2) as (? & ? & ? & ?).
  rewrite <- !append_assoc. intros Heq.
  apply append_pad2_inj in Heq as [Heq Hmi]; [|done..].
  apply append_pad2_inj in Heq as [Heq Hh]; [|done..].
  assert (Hday : Date.Day t1 = Date.Day t2).
  { apply dayStamp_inj. unfold dayStamp.
    fold (pad2 (Date.getUTCMonth t1 + 1)) (pad2 (Date.getUTCDate t1))
      (pad2 (Date.getUTCMonth t2 + 1)) (pad2 (Date.getUTCDate t2)).
    by rewrite <- !append_assoc. }
  rewrite !Day_minute_of in Hday. rewrite !getUTCHours_minute_of in Hh.
  unfold Date.getUTCMinutes in Hmi. fold (minute_of t1) (minute_of t2) in Hmi.
  pose proof (Z.div_mod (minute_of t1) 60 ltac:(lia)).
  pose proof (Z.div_mod (minute_of t2) 60 ltac:(lia)).
  pose proof (Z.div_mod (minute_of t1 / 60) 24 ltac:(lia)).
  pose proof (Z.div_mod (minute_of t2 / 60) 24 ltac:(lia)).
  rewrite !Z.div_div in * by lia. change (60 * 24) with 1440 in *.
  lia.
Qed.

Lemma same_day_key (secret : string) (t1 t2 : Z) :
  Date.Day t1 = Date.Day t2 -> getDayKey secret t1 = getDayKey secret t2.
Proof.
  intros H. unfold getDayKey, Date.getUTCFullYear, Date.getUTCMonth, Date.getUTCDate.
  by rewrite H.
Qed.

(** X1.  Two bucket keys are the same key only for the same credential in the
    same window: the same UTC minute for minute keys, the same UTC day for
    day keys; a minute key is never a day key. *)
Theorem bucket_keys_meet_in_one_window (k1 k2 : string) (t1 t2 : Z) :
  (getMinuteKey k1 t1 = getMinuteKey k2 t2 <->
   k1 = k2 /\ minute_of t1 = minute_of t2) /\
  (getDayKey k1 t1 = getDayKey k2 t2 <->
   k1 = k2 /\ Date.Day t1 = Date.Day t2) /\
  getMinuteKey k1 t1 ≠ getDayKey k2 t2.
Proof.
  split; [|split].
  - split.
    + intros Heq. pose proof (getMinuteKey_inj _ _ _ _ Heq) as ->. split; [done|].
      rewrite !getMinuteKey_split in Heq.
      apply last_colon_split in Heq as [_ Heq]; [|apply minuteStamp_colon..].
      by apply minuteStamp_inj.
    + intros [-> H]. by apply same_minute_keys.
  - split.
    + intros Heq. pose proof (getDayKey_inj _ _ _ _ Heq) as ->. split; [done|].
      rewrite !getDayKey_split in Heq.
      apply last_colon_split in Heq as [_ Heq]; [|apply dayStamp_colon..].
      by apply dayStamp_inj.
    + intros [-> H]. by apply same_day_key.
  - apply getMinuteKey_ne_getDayKey.
Qed.

(** ** What a check writes to the counters *)

Lemma bind_state_Ok {A B} (c : M A) (k : A -> M B) (s s1 : State) (a : A) :
  c s = (Ok a, s1) -> state_after (bind c k) s = state_after (k a) s1.
Proof. intros H. unfold state_after. by rewrite (bind_Ok _ _ _ _ _ H). Qed.

Lemma bind_state_Throw {A B} (c : M A) (k : A -> M B) (s s1 : State) (e : string) :
  c s = (Throw e, s1) -> state_after (bind c k) s = s1.
Proof. intros H. unfold state_after. by rewrite (bind_Throw _ _ _ _ _ H). Qed.

(** The part of the flow that follows the counters leaves them alone. *)
Lemma after_counters_rl {A} (c : M A) (s : State) (key : string) :
  preserves (frame (fun key => begins "events:" key \/ begins "lastseen:" key)) c ->
  begins "rl:" key ->
  db (redis (state_after c s)) !! key = db (redis s) !! key.
Proof.
  intros Hc Hkey. apply Hc.
  pose proof (begins_rl_not_others key Hkey). tauto.
Qed.

(** A check either leaves every counter as it was, or it has resolved an
    enabled credential and the counters are as [checkRateLimit] left
    them; whether the check returns or throws. *)
Lemma rateLimitMiddleware_rl (x_api_key : option string) (endpoint : string)
    (s : State) :
  let s' := state_after (rateLimitMiddleware x_api_key endpoint) s in
  (forall key, begins "rl:" key -> db (redis s') !! key = db (redis s) !! key) \/
  (exists secret ref s1,
     x_api_key = Some secret /\ secret ≠ "" /\
     findApiKeyByValue secret s = (Ok (Some ref), s1) /\
     ApiKey.disabled (deref s1 ref) = false /\
     forall key, begins "rl:" key ->
       db (redis s') !! key =
       db (redis (state_after
                    (checkRateLimit secret (ApiKey.perMinute (deref s1 ref))
                       (ApiKey.perDay (deref s1 ref))) s1)) !! key).
Proof.
  intros s'. unfold s', rateLimitMiddleware.
  rewrite (bind_state_Ok _ _ s s s) by reflexivity.
  rewrite (bind_state_Ok _ _ s s tt) by reflexivity.
  destruct (header_missing x_api_key) eqn:Hmiss.
  { left. intros key Hkey. apply after_counters_rl; [|done]. preserves_auto. }
  destruct x_api_key as [secret|]; [|discriminate]. simpl in Hmiss. simpl default.
  apply bool_decide_eq_false in Hmiss.
  destruct (never_throws_findApiKeyByValue secret s) as (r & s1 & Hfind).
  pose proof (findApiKeyByValue_frame (begins "meta:") secret ltac:(done) s) as Hf1.
  rewrite Hfind in Hf1. simpl in Hf1.
  assert (Hrl1 : forall key, begins "rl:" key ->
                   db (redis s1) !! key = db (redis s) !! key).
  { intros key Hkey. apply Hf1. pose proof (begins_rl_not_others key Hkey). tauto. }
  rewrite (bind_state_Ok _ _ _ _ _ Hfind).
  destruct r as [ref|].
  2:{ left. intros key Hkey. rewrite <- Hrl1 by done.
      apply after_counters_rl; [|done]. preserves_auto. }
  rewrite (bind_state_Ok _ _ s1 s1 (deref s1 ref)) by reflexivity.
  destruct (ApiKey.disabled (deref s1 ref)) eqn:Hdis.
  { left. intros key Hkey. rewrite <- Hrl1 by done.
    apply after_counters_rl; [|done]. preserves_auto. }
  right. exists secret, ref, s1. repeat (split; [done|]).
  intros key Hkey. unfold state_after at 2.
  destruct (checkRateLimit secret _ _ s1) as [[rl|e] s2] eqn:Hc.
  - rewrite (bind_state_Ok _ _ _ _ _ Hc). simpl.
    apply after_counters_rl; [|done].
    destruct (RateLimiter.isOverLimit rl); preserves_auto.
  - by rewrite (bind_state_Throw _ _ _ _ _ Hc).
Qed.

(** ** Vocabulary of the further statements *)

(** ** Windows *)

Lemma bucket_until_is_bucket (bound t : Z) (d : gmap string Entry) (key : string)
    (n : Z) :
  t < bound -> bucket_until bound d key n -> is_bucket t d key /\ count_at t d key = n.
Proof.
  intros Ht. unfold is_bucket, count_at, peek.
  intros [[-> ->]|(Hn & e & -> & He)]; [done|].
  unfold live. simpl. destruct (t <? e) eqn:Hlt; [done|lia].
Qed.

Lemma bucket_until_bumped (bound t ttl : Z) (d : gmap string Entry) (key : string)
    (n : Z) :
  t < bound -> bound <= t + ttl ->
  bucket_until bound d key n ->
  bucket_until bound (<[key := bumped t ttl d key]> d) key (n + 1).
Proof.
  intros Ht Httl Hb. right. rewrite lookup_insert_eq.
  unfold bumped, count_at, absent, expiry_at, peek.
  destruct Hb as [[-> ->]|(Hn & e & -> & He)].
  - split; [lia|]. exists (t + ttl). done.
  - unfold live. simpl. destruct (t <? e) eqn:Hlt; [|lia].
    split; [lia|]. by exists e.
Qed.

Lemma bucket_until_same (bound : Z) (d d' : gmap string Entry) (key : string) (n : Z) :
  d' !! key = d !! key -> bucket_until bound d key n -> bucket_until bound d' key n.
Proof. unfold bucket_until. by intros ->. Qed.

Lemma minute_end_in_day (t : Z) :
  t < Date.msPerMinute * (minute_of t + 1) <= t + 90000 /\
  t < Date.msPerDay * (Date.Day t + 1) <= t + 90000000.
Proof.
  unfold minute_of, Date.Day, Date.msPerMinute, Date.msPerDay.
  pose proof (Z.mul_div_le t 60000 ltac:(lia)).
  pose proof (Z.mul_succ_div_gt t 60000 ltac:(lia)).
  pose proof (Z.mul_div_le t 86400000 ltac:(lia)).
  pose proof (Z.mul_succ_div_gt t 86400000 ltac:(lia)). lia.
Qed.

(** One admission check of an enabled credential on a connection that
    holds, with the two buckets of the instant holding [c] and [d]: the
    verdict is that of [c + 1] and [d + 1] under the limits of the tier,
    the two buckets hold [c + 1] and [d + 1], and no other counter has
    changed. *)
Lemma rateLimitMiddleware_window (secret tier endpoint : string) (x : Tier.t)
    (s : State) (c d bm bd : Z) :
  let t := now s in
  let L := Tier.rateLimit x * 60 in
  let D := Tier.rateLimit x * 86400 in
  secret ≠ "" ->
  check_ready secret tier s ->
  tiersStore s !! tier = Some x ->
  t < bm <= t + 90000 -> t < bd <= t + 90000000 ->
  bucket_until bm (db (redis s)) (getMinuteKey secret t) c ->
  bucket_until bd (db (redis s)) (getDayKey secret t) d ->
  exists s',
    rateLimitMiddleware (Some secret) endpoint s
    = (Ok (verdict_at (zone s) L D (c + 1) (d + 1) t), s') /\
    check_ready secret tier s' /\
    (tiersStore s' = tiersStore s /\ zone s' = zone s) /\
    bucket_until bm (db (redis s')) (getMinuteKey secret t) (c + 1) /\
    bucket_until bd (db (redis s')) (getDayKey secret t) (d + 1) /\
    forall key, begins "rl:" key ->
      key ≠ getMinuteKey secret t -> key ≠ getDayKey secret t ->
      db (redis s') !! key = db (redis s) !! key.
Proof.
  intros t L D Hne Hready Hx Hbm Hbd Hmk Hdk.
  pose proof Hready as (Hh & Hc & Hin & Hks & Hgs).
  destruct (findApiKeyByValue_resolves _ secret s (limit_blind_enabled tier) Hc)
    as (r & s1 & Hfind & (Hc1 & Ht1 & Hin1 & Hres) & Hsome).
  destruct r as [ref|]; [|by destruct (Hsome Hin)].
  destruct Hres as (Hlt & Hsec & (Htier & Hdis) & Hlim).
  pose proof (findApiKeyByValue_frame (begins "meta:") secret ltac:(done) s) as Hf1.
  rewrite Hfind in Hf1. simpl in Hf1.
  assert (Hready1 : check_ready secret tier s1).
  { destruct Hf1 as (_ & _ & _ & Hh1 & Hd1).
    split; [by apply Hh1|]. split; [done|]. split; [by apply Hin1|].
    split; (eapply holds_stream_same; [apply Hd1|done]);
      intros [r' H]; discriminate. }
  assert (Hn1 : now s1 = t) by apply Hf1.
  assert (Hrl1 : forall key, begins "rl:" key ->
                   db (redis s1) !! key = db (redis s) !! key).
  { intros key Hkey. apply Hf1. pose proof (begins_rl_not_others key Hkey). tauto. }
  destruct (Hlim x) as [HL HD]; [by rewrite Htier, Ht1|].
  fold L in HL. fold D in HD.
  set (mk := getMinuteKey secret t) in *. set (dk := getDayKey secret t) in *.
  assert (Hmk1 : bucket_until bm (db (redis s1)) mk c).
  { eapply bucket_until_same; [apply Hrl1; begins_here|done]. }
  assert (Hdk1 : bucket_until bd (db (redis s1)) dk d).
  { eapply bucket_until_same; [apply Hrl1; begins_here|done]. }
  destruct (bucket_until_is_bucket bm t _ _ _ ltac:(lia) Hmk1) as (Hbm1 & Hcm).
  destruct (bucket_until_is_bucket bd t _ _ _ ltac:(lia) Hdk1) as (Hbd1 & Hcd).
  pose proof (checkRateLimit_db s1 secret L D) as Hcheck. cbv zeta in Hcheck.
  rewrite Hn1 in Hcheck. fold mk dk in Hcheck. rewrite Hcm, Hcd in Hcheck.
  specialize (Hcheck ltac:(apply Hready1) Hbm1 Hbd1).
  set (s2 := set_redis _ s1) in Hcheck.
  pose proof (checkRateLimit_frame (begins "rl:") secret L D ltac:(done) s1) as Hf2.
  pose proof (checkRateLimit_memory secret L D s1) as Hm2.
  rewrite Hcheck in Hf2, Hm2. simpl in Hf2, Hm2.
  assert (Hready2 : check_ready secret tier s2).
  { eapply (check_ready_frame _ _ (begins "rl:")); [tauto|done..]. }
  assert (Hmk2 : bucket_until bm (db (redis s2)) mk (c + 1)).
  { simpl. eapply bucket_until_same;
      [apply lookup_insert_ne, not_eq_sym, getMinuteKey_ne_getDayKey|].
    apply bucket_until_bumped; [lia..|exact Hmk1]. }
  assert (Hdk2 : bucket_until bd (db (redis s2)) dk (d + 1)).
  { simpl.
    rewrite <- (bumped_insert_ne t 90000000 (db (redis s1)) mk dk
                  (bumped t 90000 (db (redis s1)) mk))
      by apply getMinuteKey_ne_getDayKey.
    apply bucket_until_bumped; [lia..|].
    eapply bucket_until_same;
      [apply lookup_insert_ne, getMinuteKey_ne_getDayKey|exact Hdk1]. }
  assert (Hother2 : forall key, key ≠ mk -> key ≠ dk ->
                      db (redis s2) !! key = db (redis s1) !! key).
  { intros key H1 H2. simpl. by rewrite !lookup_insert_ne. }
  unfold rateLimitMiddleware.
  rewrite (bind_Ok _ _ s s s) by reflexivity.
  rewrite (bind_Ok _ _ s s tt) by reflexivity.
  unfold header_missing. rewrite bool_decide_eq_false_2 by done.
  simpl default.
  rewrite (bind_Ok _ _ _ _ _ Hfind).
  rewrite (bind_Ok _ _ s1 s1 (deref s1 ref)) by reflexivity.
  rewrite Hdis, HL, HD.
  rewrite (bind_Ok _ _ _ _ _ Hcheck).
  unfold verdict_at.
  cbn [RateLimiter.isOverLimit RateLimiter.minuteCount RateLimiter.dayCount].
  fold t.
  destruct ((c + 1 >? L) || (d + 1 >? D)).
  - cbv iota. set (ev := RateLimitEvent.mk _ _ _ _ _ _).
    destruct (addEvent_returns s2 ev) as (s3 & Hadd & Hf3 & Hm3 & Hst3);
      [apply Hready2..|].
    rewrite (bind_Ok _ _ _ _ _ Hadd).
    exists s3. split; [done|].
    assert (Hrl3 : forall key, begins "rl:" key ->
                     db (redis s3) !! key = db (redis s2) !! key).
    { intros key Hkey. apply Hf3. pose proof (begins_rl_not_others key Hkey). tauto. }
    split; [|split; [|split; [|split]]].
    + destruct Hready2 as (Hh2 & Hc2 & Hin2 & Hks2 & Hgs2).
      split; [by apply Hf3|]. split; [|split; [by eapply in_memory_same|]].
      * eapply credentials_all_frame; [|exact Hf3|exact Hm3|done].
        intros key [r ->] [r' Heq]. discriminate.
      * split; by apply Hst3.
    + destruct Hf1 as (_ & _ & (_ & Hz1) & _).
      destruct Hf2 as (_ & Ht2 & (_ & Hz2) & _).
      destruct Hf3 as (_ & Ht3 & (_ & Hz3) & _).
      split; [by rewrite Ht3, Ht2|by rewrite Hz3, Hz2, Hz1].
    + eapply bucket_until_same; [apply Hrl3; begins_here|done].
    + eapply bucket_until_same; [apply Hrl3; begins_here|done].
    + intros key Hkey H1 H2. by rewrite Hrl3, Hother2, Hrl1.
  - cbv iota. set (ev := RateLimitEvent.mk _ _ _ _ _ _).
    destruct (addEvent_returns s2 ev) as (s3 & Hadd & Hf3 & Hm3 & Hst3);
      [apply Hready2..|].
    rewrite (bind_Ok _ _ _ _ _ Hadd).
    assert (Hready3 : check_ready secret tier s3).
    { destruct Hready2 as (Hh2 & Hc2 & Hin2 & Hks2 & Hgs2).
      split; [by apply Hf3|]. split; [|split; [by eapply in_memory_same|]].
      * eapply credentials_all_frame; [|exact Hf3|exact Hm3|done].
        intros key [r ->] [r' Heq]. discriminate.
      * split; by apply Hst3. }
    destruct (updateLastSeen_returns s3 secret) as (s4 & Hseen & Hf4 & Hm4);
      [apply Hready3|].
    rewrite (bind_Ok _ _ _ _ _ Hseen).
    rewrite (bind_Ok _ _ s4 s4 (deref s4 ref)) by reflexivity.
    assert (Hk4 : deref s4 ref = deref s1 ref).
    { rewrite (deref_same s3 s4), (deref_same s2 s3), (deref_same s1 s2); done. }
    rewrite Hk4, HL, HD.
    exists s4. split; [done|].
    assert (Hrl4 : forall key, begins "rl:" key ->
                     db (redis s4) !! key = db (redis s2) !! key).
    { intros key Hkey. pose proof (begins_rl_not_others key Hkey).
      destruct Hf4 as (_ & _ & _ & _ & ->); [|tauto]. apply Hf3. tauto. }
    split; [|split; [|split; [|split]]].
    + eapply (check_ready_frame _ _ (begins "lastseen:")); [tauto|done..].
    + destruct Hf1 as (_ & _ & (_ & Hz1) & _).
      destruct Hf2 as (_ & Ht2 & (_ & Hz2) & _).
      destruct Hf3 as (_ & Ht3 & (_ & Hz3) & _).
      destruct Hf4 as (_ & Ht4 & (_ & Hz4) & _).
      split; [by rewrite Ht4, Ht3, Ht2|by rewrite Hz4, Hz3, Hz2, Hz1].
    + eapply bucket_until_same; [apply Hrl4; begins_here|done].
    + eapply bucket_until_same; [apply Hrl4; begins_here|done].
    + intros key Hkey H1 H2. by rewrite Hrl4, Hother2, Hrl1.
Qed.

Lemma hits_in_minute_snoc (T t : Z) (ts : list Z) :
  hits_in_minute T (ts ++ [t]) =
  hits_in_minute T ts + (if decide (minute_of t = minute_of T) then 1 else 0).
Proof.
  unfold hits_in_minute. rewrite filter_app, length_app.
  destruct (decide _) as [H|H].
  - rewrite filter_cons_True by done. simpl. lia.
  - rewrite filter_cons_False by done. simpl. lia.
Qed.

Lemma hits_in_day_snoc (T t : Z) (ts : list Z) :
  hits_in_day T (ts ++ [t]) =
  hits_in_day T ts + (if decide (Date.Day t = Date.Day T) then 1 else 0).
Proof.
  unfold hits_in_day. rewrite filter_app, length_app.
  destruct (decide _) as [H|H].
  - rewrite filter_cons_True by done. simpl. lia.
  - rewrite filter_cons_False by done. simpl. lia.
Qed.

(** Checks in a row at any instants: each verdict is that of the hits so
    far in the minute and in the day of the check. *)
Lemma checks_at_windows (secret tier endpoint : string) (x : Tier.t) (ts : list Z) :
  let L := Tier.rateLimit x * 60 in
  let D := Tier.rateLimit x * 86400 in
  secret ≠ "" ->
  forall (past : list Z) (s : State),
    check_ready secret tier s ->
    tiersStore s !! tier = Some x ->
    counters_of secret past s ->
    exists s',
      checks_at ts (Some secret) endpoint s = (Ok (verdicts_over (zone s) L D past ts), s') /\
      check_ready secret tier s' /\
      tiersStore s' !! tier = Some x /\
      counters_of secret (past ++ ts) s'.
Proof.
  intros L D Hne. induction ts as [|t ts IH]; intros past s Hr Hx Hcount.
  - exists s. simpl. rewrite app_nil_r. done.
  - destruct (Hcount t) as (Hmk & Hdk).
    destruct (minute_end_in_day t) as (Hbm & Hbd).
    pose proof (rateLimitMiddleware_window secret tier endpoint x (set_now t s)
                  (hits_in_minute t past) (hits_in_day t past) _ _ Hne
                  (check_ready_set_now _ _ t s Hr) Hx Hbm Hbd Hmk Hdk) as Hstep.
    cbv zeta in Hstep.
    change (now (set_now t s)) with t in Hstep.
    change (tiersStore (set_now t s)) with (tiersStore s) in Hstep.
    change (db (redis (set_now t s))) with (db (redis s)) in Hstep.
    change (zone (set_now t s)) with (zone s) in Hstep.
    destruct Hstep as (s1 & Hrun & Hr1 & (Ht1 & Hz1) & Hmk1 & Hdk1 & Hother).
    assert (Hcount1 : counters_of secret (past ++ [t]) s1).
    { intros T. rewrite hits_in_minute_snoc, hits_in_day_snoc.
      destruct (Hcount T) as (HmT & HdT). split.
      - destruct (decide (minute_of t = minute_of T)) as [Hsame|Hdiff].
        + destruct (same_minute_keys secret _ _ Hsame) as (<- & _).
          unfold hits_in_minute. rewrite <- Hsame. exact Hmk1.
        + rewrite Z.add_0_r. eapply bucket_until_same; [|exact HmT].
          apply Hother; [begins_here| |].
          * intros Heq. apply Hdiff. symmetry.
            rewrite !getMinuteKey_split in Heq.
            apply last_colon_split in Heq as [_ Heq]; [|apply minuteStamp_colon..].
            by apply minuteStamp_inj.
          * apply getMinuteKey_ne_getDayKey.
      - destruct (decide (Date.Day t = Date.Day T)) as [Hsame|Hdiff].
        + rewrite <- (same_day_key secret _ _ Hsame).
          unfold hits_in_day. rewrite <- Hsame. exact Hdk1.
        + rewrite Z.add_0_r. eapply bucket_until_same; [|exact HdT].
          apply Hother; [begins_here| |].
          * intros Heq. symmetry in Heq. by apply getMinuteKey_ne_getDayKey in Heq.
          * intros Heq. apply Hdiff. symmetry.
            rewrite !getDayKey_split in Heq.
            apply last_colon_split in Heq as [_ Heq]; [|apply dayStamp_colon..].
            by apply dayStamp_inj. }
    destruct (IH (past ++ [t]) s1 Hr1) as (s' & Hrest & Hr' & Hx' & Hcount');
      [by rewrite Ht1|done|].
    exists s'. split; [|split; [done|split; [done|]]].
    + cbn [checks_at verdicts_over].
      rewrite (bind_Ok _ _ s s1 _ Hrun), (bind_Ok _ _ _ _ _ Hrest).
      by rewrite Hz1.
    + by rewrite <- app_assoc in Hcount'.
Qed.

Lemma verdicts_over_length (z : Date.TimeZone) (L D : Z) (past ts : list Z) :
  length (verdicts_over z L D past ts) = length ts.
Proof.
  revert past. induction ts as [|t ts IH]; intros past; simpl; [done|]. by rewrite IH.
Qed.

Lemma verdicts_over_lookup (z : Date.TimeZone) (L D : Z) (past ts : list Z) (i : nat) (t : Z) :
  ts !! i = Some t ->
  verdicts_over z L D past ts !! i =
    Some (verdict_at z L D (hits_in_minute t (past ++ take i ts) + 1)
            (hits_in_day t (past ++ take i ts) + 1) t).
Proof.
  revert past i. induction ts as [|t' ts IH]; intros past i; [done|].
  destruct i as [|i]; simpl.
  - intros [= ->]. by rewrite app_nil_r.
  - intros Ht. rewrite (IH _ _ Ht). by rewrite <- app_assoc.
Qed.


(** ** The concrete run, ready for checks *)

Lemma initial_unknown (secret : string) (t : Z) : unknown_secret secret (initialState t).
Proof.
  split; [|split].
  - unfold refs_valid. simpl. constructor.
  - unfold memory_all. simpl. constructor.
  - intros key e He. revert He.
    unfold initialState, emptyRedis. simpl. by rewrite lookup_empty.
Qed.

Lemma created_run :
  createApiKey drawn1 "K" "basic" "admin@example.com" (initialState t0)
  = (Ok (nanoid drawn1, secret1), created).
Proof. vm_compute. reflexivity. Qed.

Lemma created_ready : check_ready secret1 "basic" created.
Proof.
  destruct (createApiKey_credentials _ _ _ _ _ _ _ _ (initial_unknown secret1 t0)
              created_run) as ((Hv & Hm & Hrec) & Hin).
  split; [reflexivity|]. split; [|split; [exact Hin|]].
  - split; [exact Hv|]. split.
    + unfold memory_all in *. eapply Forall_impl; [exact Hm|]. simpl. tauto.
    + intros key e He Hb k Hk Hs. destruct (Hrec key e He Hb k Hk Hs). tauto.
  - split; vm_compute; exact I.
Qed.

Lemma created_no_counters (key : string) :
  begins "rl:" key -> db (redis created) !! key = None.
Proof.
  intros Hkey.
  pose proof (createApiKey_frame (fun key => begins "api-key" key \/ begins "meta:" key)
                drawn1 "K" "basic" "admin@example.com"
                ltac:(simpl; tauto) ltac:(simpl; tauto) (initialState t0)) as Hf.
  rewrite created_run in Hf. simpl in Hf.
  destruct Hf as (_ & _ & _ & _ & Hd). rewrite Hd.
  - apply lookup_empty.
  - pose proof (begins_rl_not_others key Hkey). tauto.
Qed.


(** ** A check and the counters of others *)

(** X3.  Whatever the header, the state and the connection, and whether the
    check returns or throws: the minute bucket of a credential at an
    instant is left as it was unless that credential is the one presented
    and the instant is in the minute of the check; likewise the day bucket
    and the day of the check. *)
Theorem check_writes_own_window_only (x_api_key : option string) (endpoint : string)
    (s : State) (secret : string) (T : Z) :
  let s' := state_after (rateLimitMiddleware x_api_key endpoint) s in
  (x_api_key ≠ Some secret \/ minute_of T ≠ minute_of (now s) ->
   db (redis s') !! getMinuteKey secret T = db (redis s) !! getMinuteKey secret T) /\
  (x_api_key ≠ Some secret \/ Date.Day T ≠ Date.Day (now s) ->
   db (redis s') !! getDayKey secret T = db (redis s) !! getDayKey secret T).
Proof.
  intros s'.
  destruct (rateLimitMiddleware_rl x_api_key endpoint s)
    as [Hsame|(secret' & ref & s1 & -> & Hne & Hfind & Hdis & Hrl)].
  { split; intros _; apply Hsame; begins_here. }
  fold s' in Hrl.
  pose proof (findApiKeyByValue_frame (begins "meta:") secret' ltac:(done) s) as Hf1.
  rewrite Hfind in Hf1. simpl in Hf1.
  assert (Hn1 : now s1 = now s) by apply Hf1.
  assert (Hrl1 : forall key, begins "rl:" key ->
                   db (redis s1) !! key = db (redis s) !! key).
  { intros key Hkey. apply Hf1. pose proof (begins_rl_not_others key Hkey). tauto. }
  split; intros Hother.
  - rewrite Hrl, checkRateLimit_other_keys, Hrl1; [done|begins_here|..|begins_here].
    + rewrite Hn1. intros Heq.
      pose proof (getMinuteKey_inj _ _ _ _ Heq) as ->.
      rewrite !getMinuteKey_split in Heq.
      apply last_colon_split in Heq as [_ Heq]; [|apply minuteStamp_colon..].
      apply minuteStamp_inj in Heq. destruct Hother; done.
    + apply getMinuteKey_ne_getDayKey.
  - rewrite Hrl, checkRateLimit_other_keys, Hrl1; [done|begins_here|..|begins_here].
    + intros Heq. symmetry in Heq. by apply getMinuteKey_ne_getDayKey in Heq.
    + rewrite Hn1. intros Heq.
      pose proof (getDayKey_inj _ _ _ _ Heq) as ->.
      rewrite !getDayKey_split in Heq.
      apply last_colon_split in Heq as [_ Heq]; [|apply dayStamp_colon..].
      apply dayStamp_inj in Heq. destruct Hother; done.
Qed.

(** A check of the credential leaves the bucket of the minute before and
    the buckets of another credential alone. *)
Lemma check_writes_own_window_only_witness :
  let s' := state_after (rateLimitMiddleware (Some secret1) "/api/data") created in
  db (redis s') !! getMinuteKey secret1 (t0 - 60000)
  = db (redis created) !! getMinuteKey secret1 (t0 - 60000) /\
  db (redis s') !! getDayKey "sk_other" t0 = db (redis created) !! getDayKey "sk_other" t0.
Proof.
  intros s'. split.
  - apply (check_writes_own_window_only (Some secret1) "/api/data" created secret1
             (t0 - 60000)).
    right. vm_compute. discriminate.
  - apply (check_writes_own_window_only (Some secret1) "/api/data" created "sk_other" t0).
    left. discriminate.
Defined.

(** ** The verdicts of the flow *)

(** A verdict that the flow returns is one of five, each reached in one
    way. *)
Lemma rateLimitMiddleware_outcome (x_api_key : option string) (endpoint : string)
    (s s' : State) (v : Middleware.RateLimitResult) :
  rateLimitMiddleware x_api_key endpoint s = (Ok v, s') ->
  (header_missing x_api_key = true /\ v = Middleware.Denied "Missing x-api-key header" 60) \/
  exists secret r s1,
    x_api_key = Some secret /\ secret ≠ "" /\
    findApiKeyByValue secret s = (Ok r, s1) /\
    match r with
    | None => v = Middleware.Denied "Invalid API key" 60
    | Some ref =>
        if ApiKey.disabled (deref s1 ref)
        then v = Middleware.Denied "API key is disabled" 3600
        else exists counts s2,
          checkRateLimit secret (ApiKey.perMinute (deref s1 ref))
            (ApiKey.perDay (deref s1 ref)) s1 = (Ok counts, s2) /\
          if RateLimiter.isOverLimit counts
          then v = Middleware.Denied "Rate limit exceeded"
                     (ceil_div (Date.nextMinute (zone s) (now s) - now s) 1000)
          else v = Middleware.Allowed (RateLimiter.minuteCount counts)
                     (RateLimiter.dayCount counts)
                     (ApiKey.perMinute (deref s1 ref)) (ApiKey.perDay (deref s1 ref)) /\
               RateLimiter.minuteCount counts <= ApiKey.perMinute (deref s1 ref) /\
               RateLimiter.dayCount counts <= ApiKey.perDay (deref s1 ref)
    end.
Proof.
  intros H. unfold rateLimitMiddleware in H.
  apply bind_inv_Ok in H as (s0 & sa & H0 & H). unfold get_state in H0.
  injection H0 as <- <-.
  apply bind_inv_Ok in H as ([] & sb & H0 & H).
  unfold ensureRedisConnected, ret in H0. injection H0 as <-.
  destruct (header_missing x_api_key) eqn:Hmiss.
  { left. apply bind_inv_Ok in H as ([] & s2 & _ & H). by injection H as <- _. }
  right. destruct x_api_key as [secret|]; [|discriminate]. simpl in H, Hmiss.
  apply bool_decide_eq_false in Hmiss.
  apply bind_inv_Ok in H as (r & s1 & Hfind & H).
  exists secret, r, s1. repeat (split; [done|]).
  destruct r as [ref|].
  2:{ apply bind_inv_Ok in H as ([] & s2 & _ & H). by injection H as <- _. }
  apply bind_inv_Ok in H as (k & sr & Hr & H).
  unfold read in Hr. injection Hr as <- <-.
  destruct (ApiKey.disabled (deref s1 ref)) eqn:Hdis.
  { apply bind_inv_Ok in H as ([] & s2 & _ & H). by injection H as <- _. }
  apply bind_inv_Ok in H as (counts & s2 & Hc & H).
  exists counts, s2. split; [done|].
  pose proof (checkRateLimit_inv _ _ _ _ _ _ Hc) as Hover.
  pose proof (checkRateLimit_memory secret (ApiKey.perMinute (deref s1 ref))
                (ApiKey.perDay (deref s1 ref)) s1) as Hm2.
  rewrite Hc in Hm2. simpl in Hm2.
  destruct (RateLimiter.isOverLimit counts).
  { apply bind_inv_Ok in H as ([] & s3 & _ & H). by injection H as <- _. }
  apply bind_inv_Ok in H as ([] & s3 & Hadd & H).
  apply bind_inv_Ok in H as ([] & s4 & Hseen & H).
  apply bind_inv_Ok in H as (k' & sr & Hr & H).
  unfold read in Hr. injection Hr as <- <-.
  pose proof (addEvent_memory
                (RateLimitEvent.mk (toISOString (now s)) secret endpoint 200 "Allowed"
                   (now s - now s)) s2) as Hm3.
  rewrite Hadd in Hm3. simpl in Hm3.
  pose proof (updateLastSeen_memory secret s3) as Hm4.
  rewrite Hseen in Hm4. simpl in Hm4.
  assert (Hk : deref s4 ref = deref s1 ref).
  { rewrite (deref_same s3 s4), (deref_same s2 s3), (deref_same s1 s2); done. }
  unfold ret in H. rewrite Hk in H. injection H as <- _.
  split; [done|].
  symmetry in Hover. apply orb_false_iff in Hover as [H1 H2]. lia.
Qed.

(** X4.  A check that ends in a refusal for a missing header, an unknown key or
    a disabled credential has written to no counter, of any credential. *)
Theorem refusals_before_the_counters_count_nothing (x_api_key : option string)
    (endpoint : string) (s s' : State) (reason : string) (retryAfter : Z) :
  rateLimitMiddleware x_api_key endpoint s
  = (Ok (Middleware.Denied reason retryAfter), s') ->
  reason ≠ "Rate limit exceeded" ->
  forall key, begins "rl:" key -> db (redis s') !! key = db (redis s) !! key.
Proof.
  intros Hrun Hreason.
  destruct (rateLimitMiddleware_rl x_api_key endpoint s)
    as [Hsame|(secret & ref & s1 & -> & Hne & Hfind & Hdis & _)].
  { unfold state_after in Hsame. by rewrite Hrun in Hsame. }
  exfalso.
  destruct (rateLimitMiddleware_outcome _ _ _ _ _ Hrun)
    as [[Hmiss _]|(secret' & r & s1' & [= <-] & _ & Hfind' & Hv)].
  { simpl in Hmiss. by apply bool_decide_eq_true in Hmiss. }
  rewrite Hfind in Hfind'. injection Hfind' as <- <-.
  rewrite Hdis in Hv. destruct Hv as (counts & s2 & _ & Hv).
  destruct (RateLimiter.isOverLimit counts).
  - injection Hv as -> _. done.
  - by destruct Hv.
Qed.

(** A request with a key that nobody holds, on the state after the
    credential was used twice. *)
Lemma refusals_before_the_counters_count_nothing_witness :
  exists s',
    rateLimitMiddleware (Some "sk_unknown") "/api/data" used_twice
    = (Ok (Middleware.Denied "Invalid API key" 60), s') /\
    db (redis s') !! getMinuteKey secret1 t0 = db (redis used_twice) !! getMinuteKey secret1 t0.
Proof.
  eexists. split; [vm_compute; reflexivity|].
  eapply (refusals_before_the_counters_count_nothing (Some "sk_unknown") "/api/data"
            used_twice _ "Invalid API key" 60).
  - vm_compute. reflexivity.
  - discriminate.
  - begins_here.
Defined.

(** ** Responses *)



(** X6.  [GET /api/data] always answers.  It answers 500 with the message of
    the error exactly when the flow throws; 200 on an admission, with the
    limits and what remains of them, never below zero, in its headers; and
    the refusal of the flow otherwise.  It leaves the state as the flow
    left it. *)
Theorem data_GET_answers (x_api_key : option string) (s : State) :
  exists response,
    data_GET x_api_key s
    = (Ok response, state_after (rateLimitMiddleware x_api_key "/api/data") s) /\
    match result_of (rateLimitMiddleware x_api_key "/api/data") s with
    | Throw message =>
        response = NextResponse.mk 500
                     (NextResponse.Failure "Internal server error" message) []
    | Ok (Middleware.Allowed minuteCount dayCount minuteLimit dayLimit) =>
        response = NextResponse.mk 200 (NextResponse.Success "Request successful")
                     [("X-RateLimit-Limit-Minute", String_of minuteLimit);
                      ("X-RateLimit-Remaining-Minute",
                       String_of (minuteLimit - minuteCount));
                      ("X-RateLimit-Limit-Day", String_of dayLimit);
                      ("X-RateLimit-Remaining-Day", String_of (dayLimit - dayCount))] /\
        0 <= minuteLimit - minuteCount /\ 0 <= dayLimit - dayCount
    | Ok (Middleware.Denied reason retryAfter) =>
        NextResponse.body response = NextResponse.Refused reason retryAfter /\
        (NextResponse.status response = 401 \/ NextResponse.status response = 403 \/
         NextResponse.status response = 429)
    end.
Proof.
  unfold data_GET, try_catch_with, result_of, state_after, bind.
  destruct (rateLimitMiddleware x_api_key "/api/data" s) as [[v|e] s'] eqn:Hrun; simpl.
  2:{ eexists. split; reflexivity. }
  destruct (rateLimitMiddleware_outcome _ _ _ _ _ Hrun)
    as [[_ ->]|(secret & r & s1 & -> & _ & _ & Hv)].
  { eexists. split; [reflexivity|]. simpl. tauto. }
  destruct r as [ref|].
  2:{ rewrite Hv. eexists. split; [reflexivity|]. simpl. tauto. }
  destruct (ApiKey.disabled (deref s1 ref)).
  { rewrite Hv. eexists. split; [reflexivity|]. simpl. tauto. }
  destruct Hv as (counts & s2 & _ & Hv).
  destruct (RateLimiter.isOverLimit counts).
  - rewrite Hv. eexists. split; [reflexivity|]. simpl. tauto.
  - destruct Hv as (-> & ? & ?). eexists. split; [reflexivity|]. split; [done|]. lia.
Qed.

(** ** Last seen *)

Lemma begins_lastseen_not_others (key : string) :
  begins "lastseen:" key ->
  ~ (begins "meta:" key \/ begins "rl:" key \/ begins "events:" key \/
     begins "api-key" key).
Proof.
  intros [r ->] [[r' H]|[[r' H]|[[r' H]|[r' H]]]]; discriminate.
Qed.

Lemma frame_lastseen (W : string -> Prop) (s s' : State) (key : string) :
  frame W s s' ->
  (forall key, W key -> begins "meta:" key \/ begins "rl:" key \/
                        begins "events:" key \/ begins "api-key" key) ->
  begins "lastseen:" key ->
  db (redis s') !! key = db (redis s) !! key.
Proof.
  intros (_ & _ & _ & _ & Hf) HW Hkey. apply Hf. intros Hin.
  by apply (begins_lastseen_not_others key Hkey), HW.
Qed.

(** A refusal: the event is appended, and the verdict returned. *)
Lemma refusal_run (ev : RateLimitEvent.t) (reason : string) (retryAfter : Z)
    (s s' : State) (r : Result Middleware.RateLimitResult) :
  (addEvent ev ;;; ret (Middleware.Denied reason retryAfter)) s = (r, s') ->
  (forall mc dc ml dl, r ≠ Ok (Middleware.Allowed mc dc ml dl)) /\
  frame (begins "events:") s s'.
Proof.
  intros Hrun.
  pose proof (addEvent_frame (begins "events:") ev ltac:(done) s) as Hf.
  destruct (addEvent ev s) as [[[]|e] s2] eqn:Hadd; simpl in Hf.
  - rewrite (bind_Ok _ _ _ _ _ Hadd) in Hrun. injection Hrun as <- <-. done.
  - rewrite (bind_Throw _ _ _ _ _ Hadd) in Hrun. injection Hrun as <- <-. done.
Qed.

Lemma updateLastSeen_run (secret : string) (s : State) :
  (exists s', updateLastSeen secret s = (Ok tt, s') /\
              db (redis s')
              = <["lastseen:" +:+ secret :=
                    mkEntry (VString (SText (toISOString (now s))))
                      (Some (now s + 604800000))]> (db (redis s)) /\
              now s' = now s) \/
  (exists e s', updateLastSeen secret s = (Throw e, s') /\
                db (redis s') = db (redis s)).
Proof.
  unfold updateLastSeen, redis_setex, redis_write, bind, get_state, connection.
  cbv zeta.
  destruct (outages (redis s)) as [|[] rest]; simpl; eauto 10.
Qed.

(** [getLastSeen] on a connection that holds: the reply of [GET]. *)
Lemma getLastSeen_healthy (secret : string) (s : State) :
  healthy s ->
  getLastSeen secret s
  = (cmd_get (now s) (db (redis s)) ("lastseen:" +:+ secret), s).
Proof.
  intros Hh. unfold getLastSeen, redis_get. cbv zeta.
  by rewrite (redis_read_healthy _ s Hh).
Qed.

(** What a check writes to the last-seen keys: nothing, unless it returns
    an admission, and then the instant of the check under the key of the
    credential, to expire after seven days. *)
Lemma rateLimitMiddleware_lastseen (x_api_key : option string) (endpoint : string)
    (s s' : State) (r : Result Middleware.RateLimitResult) :
  rateLimitMiddleware x_api_key endpoint s = (r, s') ->
  ((forall mc dc ml dl, r ≠ Ok (Middleware.Allowed mc dc ml dl)) /\
   forall key, begins "lastseen:" key -> db (redis s') !! key = db (redis s) !! key) \/
  (exists secret mc dc ml dl,
     x_api_key = Some secret /\
     r = Ok (Middleware.Allowed mc dc ml dl) /\
     now s' = now s /\
     db (redis s') !! ("lastseen:" +:+ secret)
     = Some (mkEntry (VString (SText (toISOString (now s))))
               (Some (now s + 604800000))) /\
     forall key, begins "lastseen:" key -> key ≠ "lastseen:" +:+ secret ->
                 db (redis s') !! key = db (redis s) !! key).
Proof.
  intros Hrun. unfold rateLimitMiddleware in Hrun.
  rewrite (bind_Ok _ _ s s s) in Hrun by reflexivity.
  rewrite (bind_Ok _ _ s s tt) in Hrun by reflexivity.
  destruct (header_missing x_api_key) eqn:Hmiss.
  { left. apply refusal_run in Hrun as [Hr Hf]. split; [done|].
    intros key Hkey. eapply frame_lastseen; [exact Hf|tauto|done]. }
  destruct x_api_key as [secret|]; [|discriminate]. simpl default in Hrun.
  destruct (never_throws_findApiKeyByValue secret s) as (a & s1 & Hfind).
  pose proof (findApiKeyByValue_frame (begins "meta:") secret ltac:(done) s) as Hf1.
  rewrite Hfind in Hf1. simpl in Hf1.
  assert (Hls1 : forall key, begins "lastseen:" key ->
                   db (redis s1) !! key = db (redis s) !! key).
  { intros key Hkey. eapply frame_lastseen; [exact Hf1|tauto|done]. }
  rewrite (bind_Ok _ _ _ _ _ Hfind) in Hrun.
  destruct a as [ref|].
  2:{ left. apply refusal_run in Hrun as [Hr Hf]. split; [done|].
      intros key Hkey. rewrite <- Hls1 by done.
      eapply frame_lastseen; [exact Hf|tauto|done]. }
  rewrite (bind_Ok _ _ s1 s1 (deref s1 ref)) in Hrun by reflexivity.
  destruct (ApiKey.disabled (deref s1 ref)) eqn:Hdis.
  { left. apply refusal_run in Hrun as [Hr Hf]. split; [done|].
    intros key Hkey. rewrite <- Hls1 by done.
    eapply frame_lastseen; [exact Hf|tauto|done]. }
  pose proof (checkRateLimit_frame (begins "rl:") secret
                (ApiKey.perMinute (deref s1 ref)) (ApiKey.perDay (deref s1 ref))
                ltac:(done) s1) as Hf2.
  destruct (checkRateLimit secret _ _ s1) as [[counts|e] s2] eqn:Hc; simpl in Hf2.
  2:{ left. rewrite (bind_Throw _ _ _ _ _ Hc) in Hrun. injection Hrun as <- <-.
      split; [done|]. intros key Hkey. rewrite <- Hls1 by done.
      eapply frame_lastseen; [exact Hf2|tauto|done]. }
  assert (Hls2 : forall key, begins "lastseen:" key ->
                   db (redis s2) !! key = db (redis s) !! key).
  { intros key Hkey. rewrite <- Hls1 by done.
    eapply frame_lastseen; [exact Hf2|tauto|done]. }
  rewrite (bind_Ok _ _ _ _ _ Hc) in Hrun. cbv zeta in Hrun.
  destruct (RateLimiter.isOverLimit counts) eqn:Hover.
  { left. apply refusal_run in Hrun as [Hr Hf]. split; [done|].
    intros key Hkey. rewrite <- Hls2 by done.
    eapply frame_lastseen; [exact Hf|tauto|done]. }
  set (ev := RateLimitEvent.mk _ _ _ _ _ _) in Hrun.
  pose proof (addEvent_frame (begins "events:") ev ltac:(done) s2) as Hf3.
  destruct (addEvent ev s2) as [[[]|e] s3] eqn:Hadd; simpl in Hf3.
  2:{ left. rewrite (bind_Throw _ _ _ _ _ Hadd) in Hrun. injection Hrun as <- <-.
      split; [done|]. intros key Hkey. rewrite <- Hls2 by done.
      eapply frame_lastseen; [exact Hf3|tauto|done]. }
  assert (Hls3 : forall key, begins "lastseen:" key ->
                   db (redis s3) !! key = db (redis s) !! key).
  { intros key Hkey. rewrite <- Hls2 by done.
    eapply frame_lastseen; [exact Hf3|tauto|done]. }
  assert (Hn3 : now s3 = now s).
  { destruct Hf1 as (Hn1 & _). destruct Hf2 as (Hn2 & _). destruct Hf3 as (Hn3 & _).
    congruence. }
  rewrite (bind_Ok _ _ _ _ _ Hadd) in Hrun.
  destruct (updateLastSeen_run secret s3)
    as [(s4 & Hseen & Hdb & Hn4)|(e & s4 & Hseen & Hdb)].
  - right. rewrite (bind_Ok _ _ _ _ _ Hseen) in Hrun.
    unfold bind, read, ret in Hrun. injection Hrun as <- <-.
    eexists _, _, _, _, _. split; [done|]. split; [reflexivity|].
    split; [congruence|]. rewrite Hdb, Hn3. split.
    + by rewrite lookup_insert_eq.
    + intros key Hkey Hne. rewrite lookup_insert_ne by done. by apply Hls3.
  - left. rewrite (bind_Throw _ _ _ _ _ Hseen) in Hrun. injection Hrun as <- <-.
    split; [done|]. intros key Hkey. rewrite Hdb. by apply Hls3.
Qed.

(** X7.  Last seen follows the admissions.  A check that does not return an
    admission, whatever it returns or throws, leaves every last-seen key
    as it was.  A check that returns an admission writes the last-seen key
    of the presented credential only, and from then on, while the
    connection holds, [getLastSeen] of the credential returns the instant
    of that check for seven days, and null afterwards. *)
Theorem last_seen_follows_admissions (x_api_key : option string) (endpoint : string)
    (s s' : State) (r : Result Middleware.RateLimitResult) :
  rateLimitMiddleware x_api_key endpoint s = (r, s') ->
  match r with
  | Ok (Middleware.Allowed _ _ _ _) =>
      exists secret,
        x_api_key = Some secret /\
        (forall key, begins "lastseen:" key -> key ≠ "lastseen:" +:+ secret ->
                     db (redis s') !! key = db (redis s) !! key) /\
        forall t,
          healthy s' ->
          getLastSeen secret (set_now t s')
          = (Ok (if t <? now s + 7 * 24 * 60 * 60 * 1000
                 then Some (SText (toISOString (now s))) else None),
             set_now t s')
  | _ =>
      forall key, begins "lastseen:" key -> db (redis s') !! key = db (redis s) !! key
  end.
Proof.
  intros Hrun.
  destruct (rateLimitMiddleware_lastseen _ _ _ _ _ Hrun)
    as [[Hr Hsame]|(secret & mc & dc & ml & dl & -> & -> & Hn & Hentry & Hrest)].
  - destruct r as [[mc dc ml dl|reason ra]|e]; [|done..].
    by destruct (Hr mc dc ml dl).
  - exists secret. split; [done|]. split; [done|].
    intros t Hh. rewrite getLastSeen_healthy by exact Hh.
    change (db (redis (set_now t s'))) with (db (redis s')).
    change (now (set_now t s')) with t.
    unfold cmd_get, peek. rewrite Hentry. unfold live. simpl expireAt.
    change (7 * 24 * 60 * 60 * 1000) with 604800000.
    by destruct (t <? now s + 604800000).
Qed.

(** The first request with the credential of the concrete run is admitted;
    a day later its instant is still reported, eight days later it is
    not. *)
Lemma last_seen_follows_admissions_witness :
  result_of (rateLimitMiddleware (Some secret1) "/api/data") created
  = Ok (Middleware.Allowed 1 1 1200 1728000) /\
  result_of (getLastSeen secret1) (set_now (t0 + 86400000) admitted_once)
  = Ok (Some (SText (toISOString t0))) /\
  result_of (getLastSeen secret1) (set_now (t0 + 8 * 86400000) admitted_once) = Ok None.
Proof.
  assert (Hr : (rateLimitMiddleware (Some secret1) "/api/data" created).1
               = Ok (Middleware.Allowed 1 1 1200 1728000)) by (vm_compute; reflexivity).
  split; [exact Hr|].
  pose proof (last_seen_follows_admissions (Some secret1) "/api/data" created
                admitted_once _ (surjective_pairing _)) as H.
  destruct ((rateLimitMiddleware (Some secret1) "/api/data" created).1)
    as [[mc dc ml dl|]|]; [|discriminate..].
  destruct H as (secret & Hs & _ & H). injection Hs as <-.
  unfold result_of. split.
  - refine (eq_trans (f_equal fst (H (t0 + 86400000) _)) _); vm_compute; reflexivity.
  - refine (eq_trans (f_equal fst (H (t0 + 8 * 86400000) _)) _); vm_compute; reflexivity.
Defined.

(** ** The metadata cache *)

Lemma getCachedMetadata_healthy (K : string) (s : State) :
  healthy s ->
  getCachedMetadata K s =
    (match peek (now s) (db (redis s)) (getMetadataKey K) with
     | None => Ok None
     | Some (mkEntry (VString (SJson m)) _) => Ok (Some m)
     | Some (mkEntry (VString _) _) => Throw "SyntaxError: Unexpected token in JSON"
     | Some _ => Throw WRONGTYPE
     end, s).
Proof.
  intros Hh. unfold getCachedMetadata, redis_get. cbv zeta.
  unfold bind. rewrite (redis_read_healthy _ s Hh). unfold cmd_get.
  destruct (peek _ _ _) as [[[[n|v|m]|h|l|l] ex]|]; reflexivity.
Qed.

(** X8.  The cache of metadata.  On a connection that holds, what
    [cacheMetadata] writes under a secret is what [getCachedMetadata]
    returns for that secret during the next 24 hours, and null from then
    on; no other key is written; and after [invalidateMetadata] of the
    secret, at any instant, [getCachedMetadata] returns null. *)
Theorem cached_metadata_lives_a_day (K : string) (m : ApiKeyMetadata.t) (s : State) :
  healthy s ->
  exists s1,
    cacheMetadata K m s = (Ok tt, s1) /\
    (forall key, key ≠ getMetadataKey K ->
                 db (redis s1) !! key = db (redis s) !! key) /\
    (forall t,
       getCachedMetadata K (set_now t s1)
       = (Ok (if t <? now s + 24 * 60 * 60 * 1000 then Some m else None),
          set_now t s1)) /\
    forall t, exists s2,
      invalidateMetadata K (set_now t s1) = (Ok tt, s2) /\
      forall t', getCachedMetadata K (set_now t' s2) = (Ok None, set_now t' s2).
Proof.
  intros Hh. eexists. split.
  { unfold cacheMetadata, redis_setex. cbv zeta.
    rewrite (redis_write_healthy _ s Hh). reflexivity. }
  cbn [fst snd]. set (s1 := set_redis _ s).
  assert (Hh1 : healthy s1) by exact Hh.
  assert (Hd1 : db (redis s1)
                = <[getMetadataKey K := mkEntry (VString (SJson m))
                                          (Some (now s + 24 * 60 * 60 * 1000))]>
                    (db (redis s))) by reflexivity.
  clearbody s1. split; [|split].
  - intros key Hkey. rewrite Hd1. by rewrite lookup_insert_ne.
  - intros t. rewrite getCachedMetadata_healthy by exact Hh1.
    change (db (redis (set_now t s1))) with (db (redis s1)).
    change (now (set_now t s1)) with t.
    rewrite Hd1, peek_insert_eq. unfold live. cbn [expireAt].
    by destruct (t <? _).
  - intros t. eexists. split.
    { unfold invalidateMetadata, redis_del. cbv zeta.
      rewrite (redis_write_healthy _ (set_now t s1) Hh1). reflexivity. }
    intros t'. cbn [fst snd]. rewrite getCachedMetadata_healthy by exact Hh1.
    unfold peek, cmd_del. simpl. by rewrite lookup_delete_eq.
Qed.

(** The metadata of the concrete credential, cached at [t0], is returned
    an hour later and is gone two days later. *)
Lemma cached_metadata_lives_a_day_witness :
  exists s1 m,
    cacheMetadata secret1 m (initialState t0) = (Ok tt, s1) /\
    result_of (getCachedMetadata secret1) (set_now (t0 + 3600000) s1) = Ok (Some m) /\
    result_of (getCachedMetadata secret1) (set_now (t0 + 172800000) s1) = Ok None.
Proof.
  set (m := ApiKeyMetadata.mk "id" "name" "basic" 1200 1728000 false "owner@example.com").
  destruct (cached_metadata_lives_a_day secret1 m (initialState t0) eq_refl)
    as (s1 & Hrun & _ & Hget & _).
  exists s1, m. split; [exact Hrun|]. unfold result_of. split.
  - refine (eq_trans (f_equal fst (Hget (t0 + 3600000))) _). vm_compute. reflexivity.
  - refine (eq_trans (f_equal fst (Hget (t0 + 172800000))) _). vm_compute. reflexivity.
Defined.

(** ** The streams of events *)

Lemma trim_drop (ev : nat -> nat -> nat) (maxlen : N) (l : list RateLimitEvent.t) :
  exists k, trim ev maxlen l = drop k l /\ (k <= length l - N.to_nat maxlen)%nat.
Proof. unfold trim. eexists. split; [reflexivity|]. lia. Qed.

Lemma kept_trim (ev : nat -> nat -> nat) (maxlen : N)
    (hist l : list RateLimitEvent.t) (e : RateLimitEvent.t) :
  kept (N.to_nat maxlen) hist l ->
  kept (N.to_nat maxlen) (hist ++ [e]) (trim ev maxlen (l ++ [e])).
Proof.
  intros [[pre ->] Hlen].
  destruct (trim_drop ev maxlen (l ++ [e])) as (k & -> & Hk).
  rewrite !length_app in *. simpl in *. split.
  - exists (pre ++ take k (l ++ [e])).
    rewrite <- !app_assoc. by rewrite take_drop.
  - rewrite length_drop, !length_app. simpl. lia.
Qed.

Lemma kept_take (maxlen count : nat) (hist l : list RateLimitEvent.t) :
  kept maxlen hist l -> (count <= maxlen)%nat ->
  take count (reverse l) = take count (reverse hist).
Proof.
  intros [[pre ->] Hlen] Hc. rewrite reverse_app.
  rewrite length_app in Hlen.
  destruct (decide (count <= length l)%nat) as [Hle|Hgt].
  - rewrite take_app_le; [done|]. by rewrite length_reverse.
  - assert (length pre = 0%nat) as Hpre by lia.
    apply nil_length_inv in Hpre as ->. by rewrite reverse_nil, app_nil_r.
Qed.

Lemma kept_length (maxlen : nat) (hist l : list RateLimitEvent.t) :
  kept maxlen hist l ->
  (Nat.min (length hist) maxlen <= length l <= length hist)%nat.
Proof.
  intros [[pre ->] Hlen]. rewrite length_app in *. lia.
Qed.

Lemma lasting_stream_peek (t : Z) (d : gmap string Entry) (key : string)
    (l : list RateLimitEvent.t) :
  lasting_stream d key = Some l ->
  (d !! key = None /\ l = [] /\ peek t d key = None) \/
  (d !! key = Some (mkEntry (VStream l) None) /\
   peek t d key = Some (mkEntry (VStream l) None)).
Proof.
  unfold lasting_stream, peek.
  destruct (d !! key) as [[[v|h|m|l'] [ex|]]|]; try discriminate.
  - intros [= <-]. by right.
  - intros [= <-]. by left.
Qed.

(** One [XADD] to a stream that never expires, on a connection that
    holds. *)
Lemma redis_xadd_lasting (s : State) (key : string) (maxlen : N)
    (e : RateLimitEvent.t) (l : list RateLimitEvent.t) :
  healthy s ->
  lasting_stream (db (redis s)) key = Some l ->
  exists s',
    redis_xadd key maxlen e s = (Ok tt, s') /\
    healthy s' /\
    lasting_stream (db (redis s')) key
    = Some (trim (evict (redis s)) maxlen (l ++ [e])) /\
    evict (redis s') = evict (redis s) /\
    forall key', key' ≠ key -> db (redis s') !! key' = db (redis s) !! key'.
Proof.
  intros Hh Hl. unfold redis_xadd.
  rewrite (bind_Ok _ _ _ _ _ (connection_healthy s Hh)). unfold cmd_xadd.
  destruct (lasting_stream_peek (now s) _ _ _ Hl) as [(Hd & -> & Hp)|(Hd & Hp)];
    rewrite Hp; eexists; (split; [reflexivity|]); (split; [exact Hh|]);
    simpl; unfold lasting_stream; rewrite lookup_insert_eq;
    (split; [reflexivity|]); (split; [reflexivity|]);
    intros key' Hne; by rewrite lookup_insert_ne.
Qed.

Lemma getEventsStreamKey_inj (K K' : string) :
  getEventsStreamKey K = getEventsStreamKey K' -> K = K'.
Proof. unfold getEventsStreamKey. intros H. by simplify_eq. Qed.

Lemma bound_of_stream (K : string) :
  K ≠ "global" -> bound_of (getEventsStreamKey K) = 1000%N.
Proof.
  intros HK. unfold bound_of. destruct (decide _) as [H|]; [|done].
  destruct HK. by apply getEventsStreamKey_inj.
Qed.

#[local] Instance streams_of_dec (e : RateLimitEvent.t) (key : string) :
  Decision (streams_of e key).
Proof. unfold streams_of. apply _. Defined.

(** One [addEvent] on streams that keep their histories. *)
Lemma addEvent_keeps (hist : string -> list RateLimitEvent.t) (s : State)
    (e : RateLimitEvent.t) :
  healthy s -> RateLimitEvent.apiKey e ≠ "global" ->
  streams_keep hist s ->
  exists s',
    addEvent e s = (Ok tt, s') /\ healthy s' /\
    streams_keep
      (fun key => hist key ++ (if decide (streams_of e key) then [e] else [])) s'.
Proof.
  intros Hh HK Hinv. unfold addEvent. cbv zeta.
  set (keyStream := getEventsStreamKey (RateLimitEvent.apiKey e)).
  assert (Hne : keyStream ≠ getGlobalEventsStreamKey).
  { intros H. apply HK. by apply getEventsStreamKey_inj. }
  destruct (Hinv keyStream) as (l & Hl & Hk); [begins_here|].
  destruct (redis_xadd_lasting s keyStream 1000 e l Hh Hl)
    as (s1 & Hrun1 & Hh1 & Hl1 & Hev1 & Hd1).
  destruct (Hinv getGlobalEventsStreamKey) as (g & Hg & Hkg); [begins_here|].
  assert (Hg1 : lasting_stream (db (redis s1)) getGlobalEventsStreamKey = Some g).
  { unfold lasting_stream. rewrite Hd1 by done. exact Hg. }
  destruct (redis_xadd_lasting s1 getGlobalEventsStreamKey 10000 e g Hh1 Hg1)
    as (s2 & Hrun2 & Hh2 & Hl2 & Hev2 & Hd2).
  exists s2. rewrite (bind_Ok _ _ _ _ _ Hrun1). split; [exact Hrun2|].
  split; [exact Hh2|]. intros key Hkey.
  destruct (decide (key = getGlobalEventsStreamKey)) as [->|Hkg'].
  { eexists. split; [exact Hl2|].
    rewrite decide_True by (by right).
    unfold bound_of. rewrite decide_True by done.
    by apply (kept_trim _ 10000). }
  destruct (decide (key = keyStream)) as [->|Hks].
  { eexists. split.
    - unfold lasting_stream. rewrite Hd2 by done. exact Hl1.
    - rewrite decide_True by (by left).
      unfold bound_of in *. rewrite decide_False in * by done.
      by apply (kept_trim _ 1000). }
  destruct (Hinv key Hkey) as (l' & Hl' & Hk').
  exists l'. split.
  - unfold lasting_stream. rewrite Hd2, Hd1 by done. exact Hl'.
  - rewrite decide_False by (intros [?|?]; done). by rewrite app_nil_r.
Qed.

Lemma addEvents_keeps (es : list RateLimitEvent.t) :
  Forall (fun e => RateLimitEvent.apiKey e ≠ "global") es ->
  forall (hist : string -> list RateLimitEvent.t) (s : State),
    healthy s -> streams_keep hist s ->
    exists s',
      addEvents es s = (Ok tt, s') /\ healthy s' /\
      streams_keep (fun key => hist key ++ filter (fun e => streams_of e key) es) s'.
Proof.
  induction 1 as [|e es He Hes IH]; intros hist s Hh Hinv.
  - exists s. split; [done|]. split; [done|].
    intros key Hkey. rewrite filter_nil, app_nil_r. by apply Hinv.
  - destruct (addEvent_keeps hist s e Hh He Hinv) as (s1 & Hrun & Hh1 & Hinv1).
    destruct (IH _ s1 Hh1 Hinv1) as (s' & Hrest & Hh' & Hinv').
    exists s'. split; [|split; [done|]].
    + cbn [addEvents]. by rewrite (bind_Ok _ _ _ _ _ Hrun).
    + intros key Hkey. destruct (Hinv' key Hkey) as (l & Hl & Hk).
      exists l. split; [done|].
      destruct (decide (streams_of e key)) as [Hin|Hout].
      * rewrite filter_cons_True by done. by rewrite <- app_assoc in Hk.
      * rewrite filter_cons_False by done. by rewrite app_nil_r in Hk.
Qed.

Lemma streams_keep_init (s : State) :
  (forall key, begins "events:" key -> is_Some (lasting_stream (db (redis s)) key)) ->
  streams_keep (events_in (db (redis s))) s.
Proof.
  intros H key Hkey. destruct (H key Hkey) as [l Hl]. exists l. split; [done|].
  unfold lasting_stream, events_in in *.
  destruct (db (redis s) !! key) as [[[v|h|m|l'] [ex|]]|]; try discriminate;
    injection Hl as <-; split; (done || lia).
Qed.

Lemma filter_streams_of_key (K : string) (es : list RateLimitEvent.t) :
  K ≠ "global" ->
  filter (fun e => streams_of e (getEventsStreamKey K)) es
  = filter (fun e => RateLimitEvent.apiKey e = K) es.
Proof.
  intros HK. apply list_filter_iff. intros e. unfold streams_of. split.
  - intros [H|H]; [by apply getEventsStreamKey_inj in H|].
    destruct HK. by apply getEventsStreamKey_inj.
  - intros <-. by left.
Qed.

Lemma filter_streams_of_global (es : list RateLimitEvent.t) :
  filter (fun e => streams_of e getGlobalEventsStreamKey) es = es.
Proof.
  induction es as [|e es IH]; [done|].
  rewrite filter_cons_True by (by right). by rewrite IH.
Qed.

Lemma getRecentEvents_lasting (apiKey : option string) (count : option nat)
    (s : State) (l : list RateLimitEvent.t) :
  healthy s ->
  lasting_stream (db (redis s)) (streamKey_of apiKey) = Some l ->
  getRecentEvents apiKey count s = (Ok (take (default 100%nat count) (reverse l)), s).
Proof.
  intros Hh Hl. unfold getRecentEvents, redis_xrevrange. cbv zeta.
  rewrite (redis_read_healthy _ s Hh). unfold cmd_xrevrange.
  destruct (lasting_stream_peek (now s) _ _ _ Hl) as [(_ & -> & ->)|(_ & ->)];
    [by rewrite reverse_nil, take_nil|done].
Qed.

Lemma getEventCount_lasting (apiKey : option string) (s : State)
    (l : list RateLimitEvent.t) :
  healthy s ->
  lasting_stream (db (redis s)) (streamKey_of apiKey) = Some l ->
  getEventCount apiKey s = (Ok (Z.of_nat (length l)), s).
Proof.
  intros Hh Hl. unfold getEventCount, try_catch, redis_xlen. cbv zeta.
  rewrite (redis_read_healthy _ s Hh). unfold cmd_xlen.
  by destruct (lasting_stream_peek (now s) _ _ _ Hl) as [(_ & -> & ->)|(_ & ->)].
Qed.

(** X9.  The streams keep the newest events.  On a connection that holds, with
    the streams of events absent or without expiry, appending the events
    [es], none of them under the secret "global", returns; from then on,
    at any instant, [getRecentEvents] of a secret returns the newest
    [count] events of that secret, those held before included, the newest
    first, for every [count] from 1 to 1000 (100 when left out), and the
    global stream does so for every [count] from 1 to 10000, whatever the
    server trims; and [getEventCount] of a secret is at most the number of
    its events and at least 1000 or that number. *)
Theorem streams_keep_the_newest (es : list RateLimitEvent.t) (s : State) :
  healthy s ->
  Forall (fun e => RateLimitEvent.apiKey e ≠ "global") es ->
  (forall key, begins "events:" key -> is_Some (lasting_stream (db (redis s)) key)) ->
  exists s',
    addEvents es s = (Ok tt, s') /\
    (forall K count t,
       K ≠ "" -> K ≠ "global" -> 1 <= Z.of_nat (default 100%nat count) <= 1000 ->
       let all := events_in (db (redis s)) (getEventsStreamKey K)
                  ++ filter (fun e => RateLimitEvent.apiKey e = K) es in
       getRecentEvents (Some K) count (set_now t s')
       = (Ok (take (default 100%nat count) (reverse all)), set_now t s') /\
       exists n,
         getEventCount (Some K) (set_now t s') = (Ok n, set_now t s') /\
         Z.min (Z.of_nat (length all)) 1000 <= n <= Z.of_nat (length all)) /\
    (forall count t,
       1 <= Z.of_nat (default 100%nat count) <= 10000 ->
       getRecentEvents None count (set_now t s')
       = (Ok (take (default 100%nat count)
                (reverse (events_in (db (redis s)) getGlobalEventsStreamKey ++ es))),
          set_now t s')).
Proof.
  intros Hh Hes Hinit.
  destruct (addEvents_keeps es Hes _ s Hh (streams_keep_init s Hinit))
    as (s' & Hrun & Hh' & Hinv).
  exists s'. split; [exact Hrun|]. split.
  - intros K count t HK1 HK2 Hcount all.
    destruct (Hinv (getEventsStreamKey K)) as (l & Hl & Hk); [begins_here|].
    rewrite bound_of_stream in Hk by done.
    rewrite filter_streams_of_key in Hk by done. fold all in Hk.
    assert (Hkey : streamKey_of (Some K) = getEventsStreamKey K).
    { unfold streamKey_of. by rewrite bool_decide_eq_false_2. }
    split.
    + rewrite (getRecentEvents_lasting (Some K) count (set_now t s') l);
        [|exact Hh'|by rewrite Hkey].
      rewrite (kept_take (N.to_nat 1000) _ all l Hk); [done|lia].
    + exists (Z.of_nat (length l)). split.
      * apply getEventCount_lasting; [exact Hh'|by rewrite Hkey].
      * apply kept_length in Hk. lia.
  - intros count t Hcount.
    destruct (Hinv getGlobalEventsStreamKey) as (l & Hl & Hk); [begins_here|].
    rewrite filter_streams_of_global in Hk.
    rewrite (getRecentEvents_lasting None count (set_now t s') l);
      [|exact Hh'|exact Hl].
    unfold bound_of in Hk. rewrite decide_True in Hk by done.
    rewrite (kept_take (N.to_nat 10000) _ _ l Hk); [done|lia].
Qed.

(** The three events on an empty server. *)
Lemma streams_keep_the_newest_witness :
  exists s',
    addEvents [event_a1; event_b; event_a2] (initialState t0) = (Ok tt, s') /\
    result_of (getRecentEvents (Some "sk_a") None) (set_now (t0 + 1) s')
    = Ok [event_a2; event_a1] /\
    result_of (getRecentEvents None (Some 2%nat)) (set_now (t0 + 1) s')
    = Ok [event_a2; event_b].
Proof.
  destruct (streams_keep_the_newest [event_a1; event_b; event_a2] (initialState t0)
              eq_refl)
    as (s' & Hrun & HK & HG).
  { repeat constructor; discriminate. }
  { intros key _. unfold lasting_stream. simpl. rewrite lookup_empty. by eexists. }
  exists s'. split; [exact Hrun|]. unfold result_of. split.
  - destruct (HK "sk_a" None (t0 + 1)) as [-> _]; [done|done|simpl; lia|].
    vm_compute. reflexivity.
  - rewrite (HG (Some 2%nat) (t0 + 1)) by (simpl; lia). vm_compute. reflexivity.
Defined.

(** ** Disabling a credential *)

Lemma limit_blind_disabled : limit_blind (fun k => ApiKey.disabled k = true).
Proof. by intros [] ? ?. Qed.

Lemma cmd_sadd_returns (t : Z) (d : gmap string Entry) (key x : string) :
  (d !! key = None \/ exists l ex, d !! key = Some (mkEntry (VSet l) ex)) ->
  exists l' ex',
    cmd_sadd t d key x = (Ok tt, <[key := mkEntry (VSet l') ex']> d).
Proof.
  unfold cmd_sadd, peek. intros [->|(l & ex & ->)]; [eauto|].
  destruct (live t _); eauto.
Qed.

(** [updateStoredApiKey] of a record that is there under its own id, on a
    connection that holds: the record is written again with the fields
    given, under the same expiry, and the id is added to the set of ids. *)
Lemma updateStoredApiKey_live (s : State) (id : string) (u : ApiKey.partial)
    (k : ApiKey.t) (ex : option Z) :
  healthy s ->
  peek (now s) (db (redis s)) (API_KEY_PREFIX +:+ id)
  = Some (mkEntry (VHash (HApiKey k)) ex) ->
  ApiKey.id k = id ->
  (db (redis s) !! API_KEYS_SET = None \/
   exists l ex', db (redis s) !! API_KEYS_SET = Some (mkEntry (VSet l) ex')) ->
  exists s' l' ex',
    updateStoredApiKey id u s = (Ok tt, s') /\
    healthy s' /\ same_memory s s' /\ now s' = now s /\
    tiersStore s' = tiersStore s /\
    db (redis s')
    = <[API_KEYS_SET := mkEntry (VSet l') ex']>
        (<[API_KEY_PREFIX +:+ id := mkEntry (VHash (HApiKey (ApiKey.spread k u))) ex]>
           (db (redis s))).
Proof.
  intros Hh Hp Hid Hset. unfold updateStoredApiKey, getStoredApiKey, redis_hgetall.
  rewrite (bind_Ok _ _ s s (Some k)).
  2:{ rewrite (bind_Ok _ _ s s (Some (HApiKey k))); [done|].
      rewrite (redis_read_healthy _ s Hh). unfold cmd_hgetall. by rewrite Hp. }
  cbv zeta. unfold storeApiKey, redis_hset, redis_sadd.
  change (ApiKey.id (ApiKey.spread k u)) with (ApiKey.id k). rewrite Hid.
  set (k' := ApiKey.spread k u).
  set (d1 := <[API_KEY_PREFIX +:+ id := mkEntry (VHash (HApiKey k')) ex]> (db (redis s))).
  assert (Hset1 : d1 !! API_KEYS_SET = None \/
                  exists l ex', d1 !! API_KEYS_SET = Some (mkEntry (VSet l) ex')).
  { unfold d1. by rewrite lookup_insert_ne by apply api_key_record_not_set. }
  destruct (cmd_sadd_returns (now s) d1 API_KEYS_SET id Hset1) as (l' & ex' & Hsadd).
  exists (set_redis (set_db (<[API_KEYS_SET := mkEntry (VSet l') ex']> d1) (redis s)) s),
    l', ex'.
  split; [|done].
  rewrite (bind_Ok _ _ s (set_redis (set_db d1 (redis s)) s) tt).
  2:{ rewrite (redis_write_healthy _ s Hh). unfold cmd_hset. by rewrite Hp. }
  rewrite redis_write_healthy by exact Hh.
  change (now (set_redis _ s)) with (now s).
  change (db (redis (set_redis (set_db d1 (redis s)) s))) with d1.
  rewrite Hsadd. reflexivity.
Qed.

(** Disabling the credential that [createApiKey] has made, at an instant
    when its record is still stored. *)
Lemma disableApiKey_created (s s1 : State) (drawn : Drawn)
    (name tier ownerEmail id secret : string) (t : Z) :
  unknown_secret secret s ->
  createApiKey drawn name tier ownerEmail s = (Ok (id, secret), s1) ->
  healthy s1 ->
  is_Some (peek t (db (redis s1)) (API_KEY_PREFIX +:+ id)) ->
  exists s2,
    disableApiKey id (set_now t s1) = (Ok tt, s2) /\
    healthy s2 /\
    credentials_all (fun k => ApiKey.disabled k = true) secret s2 /\
    in_memory s2 secret /\
    forall key, ~ begins "api-key" key -> ~ begins "meta:" key ->
                db (redis s2) !! key = db (redis s1) !! key.
Proof.
  intros (Hv & Hmem & Hrec) Hrun Hh [e0 Hlive].
  apply createApiKey_inv in Hrun
    as (x & Hx & -> & -> & Hheap & Hstore & _ & Hn & _ & Hr & Hids & Hmeta & Hkeep).
  set (newKey := newKey_of drawn name tier ownerEmail x (now s)) in *.
  set (ref := length (heap s)) in *.
  set (secret := generateApiKey (nanoid32 drawn)) in *.
  set (id := nanoid drawn) in *.
  apply peek_Some_lookup in Hr as Hrl.
  set (ex0 := expiry_at (now s) (db (redis s1)) (API_KEY_PREFIX +:+ id)) in *.
  clearbody ex0.
  assert (Hpt : peek t (db (redis s1)) (API_KEY_PREFIX +:+ id)
                = Some (mkEntry (VHash (HApiKey newKey)) ex0)).
  { unfold peek in *. rewrite Hrl in *. by destruct (live t _). }
  apply member_is_set in Hids as (l & exs & Hp). apply peek_Some_lookup in Hp.
  assert (Hnew : deref s1 ref = newKey).
  { unfold deref. rewrite Hheap. by apply list_lookup_total_middle. }
  assert (Hold : forall r, (r < ref)%nat -> deref s1 r = deref s r).
  { intros r Hlt. unfold deref. rewrite Hheap. by apply lookup_total_app_l. }
  set (st := set_now t s1).
  set (sA := set_heap (<[ref := ApiKey.with_disabled true newKey]> (heap s1)) st).
  destruct (updateStoredApiKey_live sA id (ApiKey.mkPartial None None (Some true))
              newKey ex0)
    as (sB & l' & ex' & HrunB & HhB & HmB & HnB & HtB & HdB);
    [exact Hh|exact Hpt|done|right; eauto|].
  change (db (redis sA)) with (db (redis s1)) in HdB.
  set (k' := ApiKey.spread newKey (ApiKey.mkPartial None None (Some true))) in *.
  assert (HderefB : forall r, deref sB r
                              = <[ref := ApiKey.with_disabled true newKey]> (heap s1) !!! r).
  { intros r. unfold deref. destruct HmB as (-> & _). done. }
  assert (Hlen : length (heap s1) = S ref).
  { rewrite Hheap, length_app. simpl. lia. }
  assert (HrefB : deref sB ref = ApiKey.with_disabled true newKey).
  { rewrite HderefB. apply list_lookup_total_insert_eq. lia. }
  set (sC := set_redis (set_db (delete (getMetadataKey secret) (db (redis sB)))
                          (redis sB)) sB).
  exists sC. split.
  { unfold disableApiKey. rewrite (bind_Ok _ _ st st st) by reflexivity.
    change (apiKeysStore st) with (apiKeysStore s1).
    rewrite Hstore, Map_get_set_eq. fold ref.
    rewrite (bind_Ok _ _ st sA tt).
    2:{ unfold assign. change (deref st ref) with (deref s1 ref). by rewrite Hnew. }
    rewrite (bind_Ok _ _ _ _ _ HrunB).
    rewrite (bind_Ok _ _ sB sB (deref sB ref)) by reflexivity.
    rewrite HrefB. unfold invalidateMetadata, redis_del. cbv zeta.
    rewrite (redis_write_healthy _ sB HhB). reflexivity. }
  split; [exact HhB|].
  assert (HdC : db (redis sC) = delete (getMetadataKey secret) (db (redis sB)))
    by reflexivity.
  assert (HstoreC : apiKeysStore sC = Map_set id ref (apiKeysStore s)).
  { change (apiKeysStore sC) with (apiKeysStore sB).
    destruct HmB as (_ & -> & _). exact Hstore. }
  assert (HderefC : forall r, deref sC r = deref sB r) by done.
  unfold refs_valid, memory_all in *. rewrite Forall_forall in Hv, Hmem.
  split; [split; [|split]|split].
  - unfold refs_valid. rewrite Forall_forall. intros entry He.
    rewrite HstoreC in He.
    change (heap sC) with (heap sB). destruct HmB as (-> & _).
    change (heap sA) with (<[ref := ApiKey.with_disabled true newKey]> (heap s1)).
    rewrite length_insert, Hlen.
    apply elem_of_Map_set in He as [->|He]; [simpl; lia|].
    specialize (Hv _ He). fold ref in Hv. lia.
  - unfold memory_all. rewrite Forall_forall. intros entry He.
    rewrite HstoreC in He. rewrite HderefC.
    apply elem_of_Map_set in He as [->|He]; simpl; [by rewrite HrefB|].
    pose proof (Hv _ He) as Hlt. fold ref in Hlt.
    rewrite HderefB, list_lookup_total_insert_ne by lia.
    change (heap s1 !!! entry.2) with (deref s1 entry.2).
    rewrite (Hold _ Hlt). intros Hs. by destruct (Hmem _ He Hs).
  - intros key e He Hb k Hk Hs. rewrite HdC in He.
    destruct (decide (key = getMetadataKey secret)) as [->|Hk3].
    { by rewrite lookup_delete_eq in He. }
    rewrite lookup_delete_ne in He by done. rewrite HdB in He.
    destruct (decide (key = API_KEYS_SET)) as [->|Hk2].
    { rewrite lookup_insert_eq in He. injection He as <-. discriminate. }
    rewrite lookup_insert_ne in He by done.
    destruct (decide (key = API_KEY_PREFIX +:+ id)) as [->|Hk1].
    { rewrite lookup_insert_eq in He. injection He as <-.
      simpl in Hk. by injection Hk as <-. }
    rewrite lookup_insert_ne in He by done.
    rewrite Hkeep in He by done.
    destruct (Hrec key e He Hb k Hk Hs).
  - exists (id, ref). split.
    + rewrite HstoreC. apply elem_of_Map_set_here.
    + simpl. by rewrite HderefC, HrefB.
  - intros key Hk1 Hk2. rewrite HdC.
    rewrite lookup_delete_ne by (intros <-; apply Hk2; begins_here).
    rewrite HdB.
    rewrite lookup_insert_ne by (intros <-; apply Hk1; begins_here).
    rewrite lookup_insert_ne by (intros <-; apply Hk1; begins_here).
    done.
Qed.

(** One check of a disabled credential. *)
Lemma rateLimitMiddleware_refuses (secret endpoint : string) (s : State) :
  secret ≠ "" -> refusal_ready secret s ->
  exists s',
    rateLimitMiddleware (Some secret) endpoint s
    = (Ok (Middleware.Denied "API key is disabled" 3600), s') /\
    refusal_ready secret s' /\
    forall key, begins "rl:" key -> db (redis s') !! key = db (redis s) !! key.
Proof.
  intros Hne (Hh & Hc & Hin & Hk & Hg).
  destruct (findApiKeyByValue_resolves _ secret s limit_blind_disabled Hc)
    as (r & s1 & Hfind & (Hc1 & Ht1 & Hin1 & Hres) & Hsome).
  destruct r as [ref|]; [|by destruct (Hsome Hin)].
  destruct Hres as (_ & _ & Hdis & _).
  rewrite (rateLimitMiddleware_disabled s s1 secret endpoint ref Hne Hfind Hdis).
  pose proof (findApiKeyByValue_frame (begins "meta:") secret ltac:(done) s) as Hf1.
  rewrite Hfind in Hf1. simpl in Hf1.
  destruct Hf1 as (Hn1 & _ & _ & Hh1 & Hd1).
  assert (Hev : forall key, begins "events:" key ->
                  db (redis s1) !! key = db (redis s) !! key).
  { intros key Hkey. apply Hd1.
    pose proof (begins_events_not_others key Hkey). tauto. }
  set (ev := RateLimitEvent.mk _ _ _ _ _ _).
  destruct (addEvent_returns s1 ev) as (s2 & Hadd & Hf2 & Hm2 & Hst2).
  { by apply Hh1. }
  { eapply holds_stream_same; [apply Hev; begins_here|exact Hk]. }
  { eapply holds_stream_same; [apply Hev; begins_here|exact Hg]. }
  exists s2. rewrite (bind_Ok _ _ _ _ _ Hadd). split; [done|]. split.
  - split; [apply Hf2; by apply Hh1|]. split; [|split; [|split]].
    + eapply credentials_all_frame; [|exact Hf2|exact Hm2|exact Hc1].
      intros key [r ->] [r' H]. discriminate.
    + eapply in_memory_same; [exact Hm2|]. by apply Hin1.
    + apply Hst2. eapply holds_stream_same; [apply Hev; begins_here|exact Hk].
    + apply Hst2. eapply holds_stream_same; [apply Hev; begins_here|exact Hg].
  - intros key Hkey. pose proof (begins_rl_not_others key Hkey) as Hno.
    destruct Hf2 as (_ & _ & _ & _ & Hd2). rewrite Hd2, Hd1; tauto.
Qed.

Lemma checks_at_refused (secret endpoint : string) (ts : list Z) :
  secret ≠ "" ->
  forall s, refusal_ready secret s ->
    exists s',
      checks_at ts (Some secret) endpoint s
      = (Ok (replicate (length ts) (Middleware.Denied "API key is disabled" 3600)), s') /\
      refusal_ready secret s' /\
      forall key, begins "rl:" key -> db (redis s') !! key = db (redis s) !! key.
Proof.
  intros Hne. induction ts as [|t ts IH]; intros s Hr.
  - exists s. done.
  - destruct (rateLimitMiddleware_refuses secret endpoint (set_now t s) Hne Hr)
      as (s1 & Hrun & Hr1 & Hrl1).
    destruct (IH s1 Hr1) as (s' & Hrest & Hr' & Hrl').
    exists s'. split; [|split; [exact Hr'|]].
    + cbn [checks_at length replicate].
      rewrite (bind_Ok _ _ s s1 _ Hrun), (bind_Ok _ _ _ _ _ Hrest). done.
    + intros key Hkey. rewrite Hrl', Hrl1 by done. done.
Qed.

(** X10.  Disabling takes effect.  After [disableApiKey] of the credential that
    [createApiKey] has made, at an instant when its record is still
    stored, every check that presents the secret, at whatever instants, is
    refused with "API key is disabled" and a retry-after of 3600 seconds,
    and between the creation and the last of these checks no counter of
    any credential is written. *)
Theorem disabling_refuses_every_later_check (s s1 : State) (drawn : Drawn)
    (name tier ownerEmail id secret endpoint : string) (t : Z) (ts : list Z) :
  unknown_secret secret s ->
  createApiKey drawn name tier ownerEmail s = (Ok (id, secret), s1) ->
  healthy s1 ->
  is_Some (peek t (db (redis s1)) (API_KEY_PREFIX +:+ id)) ->
  holds_stream (db (redis s1)) (getEventsStreamKey secret) ->
  holds_stream (db (redis s1)) getGlobalEventsStreamKey ->
  exists s2 s3,
    disableApiKey id (set_now t s1) = (Ok tt, s2) /\
    checks_at ts (Some secret) endpoint s2
    = (Ok (replicate (length ts) (Middleware.Denied "API key is disabled" 3600)), s3) /\
    forall key, begins "rl:" key -> db (redis s3) !! key = db (redis s1) !! key.
Proof.
  intros Hu Hrun Hh Hlive Hk Hg.
  assert (Hne : secret ≠ "").
  { apply createApiKey_inv in Hrun as (x & _ & _ & -> & _). discriminate. }
  destruct (disableApiKey_created s s1 drawn name tier ownerEmail id secret t
              Hu Hrun Hh Hlive) as (s2 & Hdis & Hh2 & Hc2 & Hin2 & Hd2).
  assert (Hev : forall key, begins "events:" key ->
                  db (redis s2) !! key = db (redis s1) !! key).
  { intros key Hkey. pose proof (begins_events_not_others key Hkey).
    apply Hd2; tauto. }
  destruct (checks_at_refused secret endpoint ts Hne s2) as (s3 & Hchecks & _ & Hrl).
  { split; [exact Hh2|]. split; [exact Hc2|]. split; [exact Hin2|].
    split; (eapply holds_stream_same; [apply Hev; begins_here|done]). }
  exists s2, s3. split; [exact Hdis|]. split; [exact Hchecks|].
  intros key Hkey. rewrite Hrl by done.
  pose proof (begins_rl_not_others key Hkey). apply Hd2; tauto.
Qed.

(** The credential of the concrete run, disabled a minute after it was
    made and then presented three times. *)
Lemma disabling_refuses_every_later_check_witness :
  exists s2 s3,
    disableApiKey (nanoid drawn1) (set_now (t0 + 60000) created) = (Ok tt, s2) /\
    checks_at [t0 + 61000; t0 + 62000; t0 + 86400000] (Some secret1) "/api/data" s2
    = (Ok [Middleware.Denied "API key is disabled" 3600;
           Middleware.Denied "API key is disabled" 3600;
           Middleware.Denied "API key is disabled" 3600], s3) /\
    db (redis s3) !! getMinuteKey secret1 (t0 + 61000) = None.
Proof.
  destruct (disabling_refuses_every_later_check (initialState t0) created drawn1
              "K" "basic" "admin@example.com" (nanoid drawn1) secret1 "/api/data"
              (t0 + 60000) [t0 + 61000; t0 + 62000; t0 + 86400000]
              (initial_unknown secret1 t0) created_run)
    as (s2 & s3 & Hdis & Hchecks & Hrl).
  - reflexivity.
  - vm_compute. by eexists.
  - vm_compute. exact I.
  - vm_compute. exact I.
  - exists s2, s3. split; [exact Hdis|]. split; [exact Hchecks|].
    rewrite Hrl by begins_here. apply created_no_counters. begins_here.
Defined.

(** ** Numbers written and read as strings *)

Lemma digit_of_pretty_N_char (x : N) :
  (x < 10)%N -> digit_of 10 (pretty_N_char x) = Some (Z.of_N x).
Proof.
  intros Hx.
  assert (x = 0 ∨ x = 1 ∨ x = 2 ∨ x = 3 ∨ x = 4 ∨ x = 5 ∨ x = 6
          ∨ x = 7 ∨ x = 8 ∨ x = 9)%N as H by lia.
  by repeat (destruct H as [->|H]; [reflexivity|]); subst.
Qed.

(** Parsing the digits that [pretty] puts before [s]. *)
Lemma parse_digits_pretty_N_go (x : N) :
  exists k, forall (s : string) (acc : Z),
    parse_digits 10 acc (pretty_N_go x s) = parse_digits 10 (acc * 10 ^ k + Z.of_N x) s /\
    0 <= k.
Proof.
  induction (N.lt_wf_0 x) as [x _ IH].
  assert (x = 0 ∨ 0 < x)%N as [->|Hx] by lia.
  - exists 0. intros s acc. rewrite pretty_N_go_0. split; [f_equal; lia|lia].
  - destruct (IH (x `div` 10)%N) as (k & Hk); [by apply N.div_lt|].
    exists (k + 1). intros s acc. rewrite pretty_N_go_step by done.
    destruct (Hk (String (pretty_N_char (x `mod` 10)) s) acc) as (-> & Hk0).
    split; [|lia]. cbn [parse_digits].
    rewrite digit_of_pretty_N_char by (apply N.mod_lt; lia).
    f_equal. rewrite Z.pow_add_r, Z.pow_1_r by lia.
    rewrite N2Z.inj_div, N2Z.inj_mod. change (Z.of_N 10) with 10.
    pose proof (Z.div_mod (Z.of_N x) 10 ltac:(lia)) as Hdm.
    generalize dependent (Z.of_N x / 10). generalize dependent (Z.of_N x mod 10).
    intros m q ->. ring.
Qed.

Lemma is_digit_facts (c : ascii) :
  is_digit c = true ->
  is_space c = false /\ c ≠ "-"%char /\ c ≠ "+"%char /\ c ≠ "x"%char /\ c ≠ "X"%char /\
  exists v, digit_of 10 c = Some v.
Proof.
  destruct c as [[] [] [] [] [] [] [] []]; try discriminate; intros _;
    repeat split; try discriminate; by eexists.
Qed.

(** Reading back the digits of a number that is not negative. *)
Lemma parseInt_digits (c : ascii) (r : string) :
  is_digit c = true ->
  match r with String c' _ => is_digit c' = true | EmptyString => True end ->
  parseInt (String c r) = Some (parse_digits 10 0 (String c r)).
Proof.
  intros Hc Hr.
  destruct (is_digit_facts c Hc) as (Hsp & Hm & Hp & Hx1 & Hx2 & v & Hv).
  unfold parseInt. cbn [trimStart]. rewrite Hsp.
  assert (Hsign : match String c r with
                  | String "-" r0 => (- 1, r0)
                  | String "+" r0 => (1, r0)
                  | _ => (1, String c r)
                  end = (1, String c r)).
  { destruct c as [[] [] [] [] [] [] [] []]; try reflexivity; congruence. }
  rewrite Hsign.
  assert (Hradix : match String c r with
                   | String "0" (String "x" r0) => (16, r0)
                   | String "0" (String "X" r0) => (16, r0)
                   | _ => (10, String c r)
                   end = (10, String c r)).
  { destruct r as [|c' r']; [by destruct c as [[] [] [] [] [] [] [] []]|].
    destruct (is_digit_facts c' Hr) as (_ & _ & _ & Hx1' & Hx2' & _).
    destruct c as [[] [] [] [] [] [] [] []]; try reflexivity;
      destruct c' as [[] [] [] [] [] [] [] []]; try reflexivity; congruence. }
  rewrite Hradix, Hv. f_equal. lia.
Qed.

Lemma pretty_N_char_digit (x : N) : is_digit (pretty_N_char x) = true.
Proof. unfold pretty_N_char. by repeat case_match. Qed.

(** What [pretty] puts before [s] begins with two digits, or is one digit
    before [s]. *)
Lemma pretty_N_go_digits (x : N) (s : string) :
  (0 < x)%N ->
  exists c r, pretty_N_go x s = String c r /\ is_digit c = true /\
    (r = s \/ exists c' r', r = String c' r' /\ is_digit c' = true).
Proof.
  revert s. induction (N.lt_wf_0 x) as [x _ IH]. intros s Hx.
  rewrite pretty_N_go_step by done.
  destruct (N.eq_0_gt_0_cases (x `div` 10)) as [->|Hd].
  - rewrite pretty_N_go_0. eexists _, _. split; [done|].
    split; [apply pretty_N_char_digit|by left].
  - destruct (IH (x `div` 10)%N ltac:(by apply N.div_lt)
                (String (pretty_N_char (x `mod` 10)) s) Hd)
      as (c & r & Hs & Hc & Hr).
    exists c, r. split; [done|]. split; [done|]. right.
    destruct Hr as [->|Hr]; [|done].
    eexists _, _. split; [done|]. apply pretty_N_char_digit.
Qed.

Lemma parseInt_pretty_N (x : N) : parseInt (pretty x) = Some (Z.of_N x).
Proof.
  unfold pretty, pretty_N. destruct (decide (x = 0)%N) as [->|Hx]; [reflexivity|].
  destruct (pretty_N_go_digits x "") as (c & r & Hs & Hc & Hr); [lia|].
  destruct (parse_digits_pretty_N_go x) as (k & Hk).
  destruct (Hk "" 0) as (Hparse & _). cbn [parse_digits] in Hparse.
  rewrite Hs in *. rewrite parseInt_digits; [by rewrite Hparse|done|].
  destruct Hr as [->|(c' & r' & -> & Hc')]; done.
Qed.

Lemma parseInt_minus (s : string) (n : Z) :
  match s with String c _ => is_digit c = true | EmptyString => False end ->
  parseInt s = Some n -> parseInt ("-" +:+ s) = Some (- n).
Proof.
  destruct s as [|c r]; [done|]. intros Hc.
  destruct (is_digit_facts c Hc) as (Hsp & Hm & Hp & _).
  change ("-" +:+ String c r) with (String "-" (String c r)).
  unfold parseInt.
  assert (Ht1 : trimStart (String c r) = String c r)
    by (cbn [trimStart]; by rewrite Hsp).
  assert (Ht2 : trimStart (String "-" (String c r)) = String "-" (String c r))
    by reflexivity.
  rewrite Ht1, Ht2.
  assert (Hsign : match String c r with
                  | String "-" r0 => (- 1, r0)
                  | String "+" r0 => (1, r0)
                  | _ => (1, String c r)
                  end = (1, String c r)).
  { destruct c as [[] [] [] [] [] [] [] []]; try reflexivity; congruence. }
  rewrite Hsign. cbv beta iota.
  destruct (match String c r with
            | String "0" (String "x" r0) => (16, r0)
            | String "0" (String "X" r0) => (16, r0)
            | _ => (10, String c r)
            end) as [radix s3].
  destruct s3 as [|c3 r3]; [done|].
  destruct (digit_of radix c3) eqn:Hd; [|done]. intros [= <-]. f_equal.
  cbn [parse_digits]. rewrite ?Hd. lia.
Qed.

Lemma parseInt_pretty (n : Z) : parseInt (pretty n) = Some n.
Proof.
  destruct n as [|p|p].
  - reflexivity.
  - apply (parseInt_pretty_N (Npos p)).
  - change (pretty (Z.neg p)) with ("-" +:+ pretty (Npos p)).
    apply (parseInt_minus _ (Z.pos p)); [|apply (parseInt_pretty_N (Npos p))].
    unfold pretty, pretty_N. rewrite decide_False by done.
    by destruct (pretty_N_go_digits (Npos p) "") as (c & r & -> & Hc & _).
Qed.

(** An integer of magnitude below 10^21 is read back from what
    [toString] prints. *)
Lemma parseInt_Number_toString (n : Z) :
  Z.abs n < 10 ^ 21 -> parseInt (Number_toString n) = Some n.
Proof.
  intros Hn. unfold Number_toString.
  destruct (Z.abs n <? 10 ^ 21) eqn:H; [apply parseInt_pretty|lia].
Qed.

Lemma tier_of_fields_id (data : TierHash.t) (x : Tier.t) :
  tier_of_fields data = Some x ->
  Tier.id x = TierHash.id data /\ Tier.name x = TierHash.name data.
Proof.
  unfold tier_of_fields.
  destruct (parseInt (TierHash.rateLimit data)); [|done].
  destruct (parseInt (TierHash.burstLimit data)); [|done].
  by intros [= <-].
Qed.

(** The fields that [storeTier] writes of a tier read back as that tier
    when its limits are printed in decimal digits. *)
Lemma tier_of_fields_of_tier (x : Tier.t) :
  plain_limits x -> tier_of_fields (fields_of_tier x) = Some x.
Proof.
  intros [Hr Hb]. unfold tier_of_fields, fields_of_tier. simpl.
  rewrite !parseInt_Number_toString by done. by destruct x.
Qed.

(** ** Tiers, stored and reloaded *)

Lemma getStoredTier_healthy (id : string) (s : State) :
  healthy s ->
  match peek (now s) (db (redis s)) (TIER_PREFIX +:+ id) with
  | None => True
  | Some (mkEntry (VHash (HTier data)) _) => is_Some (tier_of_fields data)
  | Some _ => False
  end ->
  getStoredTier id s = (Ok (stored_tier (now s) (db (redis s)) id), s).
Proof.
  intros Hh Hp. unfold getStoredTier, redis_hgetall, stored_tier. cbv zeta.
  unfold bind. rewrite (redis_read_healthy _ s Hh). unfold cmd_hgetall.
  destruct (peek _ _ _) as [[[|[k|x]| |] ex]|]; try done.
  by destruct Hp as [tier ->].
Qed.

Lemma getAllStoredTiers_loop_healthy (s : State) (tierIds : list string) :
  healthy s ->
  (forall id, id ∈ tierIds ->
     match peek (now s) (db (redis s)) (TIER_PREFIX +:+ id) with
     | None => True
     | Some (mkEntry (VHash (HTier data)) _) => is_Some (tier_of_fields data)
     | Some _ => False
     end) ->
  forall tiers,
    getAllStoredTiers_loop tierIds tiers s
    = (Ok (tiers ++ omap (stored_tier (now s) (db (redis s))) tierIds), s).
Proof.
  intros Hh. induction tierIds as [|id rest IH]; intros Hok tiers.
  - simpl. by rewrite app_nil_r.
  - cbn [getAllStoredTiers_loop omap list_omap].
    rewrite (bind_Ok _ _ s s (stored_tier (now s) (db (redis s)) id)).
    2:{ apply getStoredTier_healthy; [done|]. apply Hok. by left. }
    destruct (stored_tier _ _ id) as [x|].
    + rewrite IH by (intros; apply Hok; by right). by rewrite <- app_assoc.
    + apply IH. intros; apply Hok; by right.
Qed.

(** Over a well-formed store every record of the set reads as a tier of
    its id. *)
Lemma tiers_well_stored_reads (t : Z) (d : gmap string Entry) (id : string) :
  tiers_well_stored t d -> id ∈ tier_ids t d ->
  match peek t d (TIER_PREFIX +:+ id) with
  | None => True
  | Some (mkEntry (VHash (HTier data)) _) => is_Some (tier_of_fields data)
  | Some _ => False
  end /\
  forall x, stored_tier t d id = Some x -> Tier.id x = id.
Proof.
  intros [_ Hrec] Hin. specialize (Hrec id Hin). unfold stored_tier.
  destruct (peek _ _ _) as [[[|[k|data]| |] ex]|]; try done.
  destruct Hrec as [Hid Hsome]. split; [done|].
  intros x Hx. apply tier_of_fields_id in Hx as [-> _]. done.
Qed.

Lemma getStoredTier_frame (W : string -> Prop) id :
  preserves (frame W) (getStoredTier id).
Proof. unfold getStoredTier. preserves_auto. Qed.

Lemma getAllStoredTiers_loop_frame (W : string -> Prop) tierIds :
  forall tiers, preserves (frame W) (getAllStoredTiers_loop tierIds tiers).
Proof.
  induction tierIds as [|id rest IH]; intros tiers; simpl.
  - preserves_auto.
  - apply preserves_bind; [apply _ ..|apply getStoredTier_frame|].
    intros [x|]; apply IH.
Qed.

Lemma getAllStoredTiers_frame (W : string -> Prop) :
  preserves (frame W) getAllStoredTiers.
Proof.
  unfold getAllStoredTiers. preserves_auto; apply getAllStoredTiers_loop_frame.
Qed.

Lemma reload_lookup (stored : string -> option Tier.t) (ids : list string) :
  (forall id x, id ∈ ids -> stored id = Some x -> Tier.id x = id) ->
  forall (m : gmap string Tier.t) (i : string),
    fold_left (fun m x => <[Tier.id x := x]> m) (omap stored ids) m !! i
    = match (if decide (i ∈ ids) then stored i else None) with
      | Some x => Some x
      | None => m !! i
      end.
Proof.
  induction ids as [|j rest IH]; intros Hkey m i.
  - cbn [omap list_omap fold_left].
    destruct (decide _) as [H|]; [by apply not_elem_of_nil in H|done].
  - cbn [omap list_omap].
    assert (Hrest : forall id x, id ∈ rest -> stored id = Some x -> Tier.id x = id).
    { intros id x Hin. apply Hkey. by right. }
    destruct (stored j) as [x|] eqn:Hj.
    + cbn [fold_left]. rewrite (IH Hrest).
      assert (Hx : Tier.id x = j) by (apply Hkey; [by left|done]). rewrite Hx.
      destruct (decide (i = j)) as [->|Hne].
      * rewrite (decide_True (P := j ∈ j :: rest)) by (by left).
        rewrite Hj, lookup_insert_eq.
        by destruct (decide (j ∈ rest)).
      * rewrite lookup_insert_ne by done.
        destruct (decide (i ∈ rest)) as [Hin|Hout].
        -- by rewrite decide_True by (by right).
        -- rewrite decide_False; [done|]. by intros [?|?]%elem_of_cons.
    + rewrite (IH Hrest).
      destruct (decide (i = j)) as [->|Hne].
      * rewrite (decide_True (P := j ∈ j :: rest)) by (by left). rewrite Hj.
        by destruct (decide (j ∈ rest)).
      * destruct (decide (i ∈ rest)) as [Hin|Hout].
        -- by rewrite decide_True by (by right).
        -- rewrite decide_False; [done|]. by intros [?|?]%elem_of_cons.
Qed.

(** X11.  [reloadTiers] makes the registry of the process what the server
    holds.  When it throws, the registry and the server are as before.  On
    a connection that holds, over a well-formed store, it returns, writes
    nothing to the server, and leaves under every id the tier stored under
    it when the id is in the set of tiers, and nothing otherwise: on a
    server without stored tiers the registry is left empty. *)
Theorem reloadTiers_mirrors_the_store (s : State) :
  (forall e s', reloadTiers s = (Throw e, s') ->
     tiersStore s' = tiersStore s /\ db (redis s') = db (redis s)) /\
  (healthy s -> tiers_well_stored (now s) (db (redis s)) ->
   exists s',
     reloadTiers s = (Ok tt, s') /\
     db (redis s') = db (redis s) /\
     (forall id, tiersStore s' !! id
                 = if decide (id ∈ tier_ids (now s) (db (redis s)))
                   then stored_tier (now s) (db (redis s)) id else None) /\
     (tier_ids (now s) (db (redis s)) = [] -> tiersStore s' = ∅)).
Proof.
  split.
  - intros e s' Hrun. unfold reloadTiers in Hrun.
    pose proof (frame_nothing _ _ (getAllStoredTiers_frame (fun _ => False) s)) as Hf.
    destruct (getAllStoredTiers s) as [[storedTiers|e'] s1] eqn:Hall.
    + rewrite (bind_Ok _ _ _ _ _ Hall) in Hrun. discriminate.
    + rewrite (bind_Throw _ _ _ _ _ Hall) in Hrun. injection Hrun as <- <-.
      exact Hf.
  - intros Hh Hw. pose proof Hw as [[l Hl] _].
    assert (Hids : tier_ids (now s) (db (redis s)) = l)
      by (unfold tier_ids; by rewrite Hl).
    rewrite Hids.
    assert (Hall : getAllStoredTiers s
                   = (Ok (omap (stored_tier (now s) (db (redis s))) l), s)).
    { unfold getAllStoredTiers, redis_smembers.
      rewrite (bind_Ok _ _ s s l) by (by rewrite (redis_read_healthy _ s Hh), Hl).
      destruct l as [|id rest]; [done|].
      rewrite (getAllStoredTiers_loop_healthy s (id :: rest) Hh); [done|].
      intros id' Hin. apply tiers_well_stored_reads; [done|by rewrite Hids]. }
    eexists. split.
    { unfold reloadTiers. rewrite (bind_Ok _ _ _ _ _ Hall).
      rewrite (bind_Ok _ _ s s s) by reflexivity. reflexivity. }
    split; [done|].
    assert (Hlook : forall id,
              fold_left (fun m x => <[Tier.id x := x]> m)
                (omap (stored_tier (now s) (db (redis s))) l)
                (∅ : gmap string Tier.t) !! id
              = if decide (id ∈ l) then stored_tier (now s) (db (redis s)) id
                else None).
    { intros id. rewrite reload_lookup.
      - rewrite lookup_empty.
        destruct (decide (id ∈ l)); [|done].
        by destruct (stored_tier (now s) (db (redis s)) id).
      - intros id' x Hin Hst.
        by apply (tiers_well_stored_reads (now s) (db (redis s)) id' Hw);
          [rewrite Hids|]. }
    split; [exact Hlook|].
    intros ->. done.
Qed.

(** After one tier was edited on the concrete run, a reload brings back
    that tier with its new rate; the tiers that were never stored are
    gone. *)
Lemma reloadTiers_mirrors_the_store_witness :
  exists s',
    reloadTiers edited = (Ok tt, s') /\
    tiersStore s' !! "basic" = Some (Tier.mk "basic" "Basic" 40 30) /\
    tiersStore s' !! "premium" = None.
Proof.
  destruct (reloadTiers_mirrors_the_store edited) as [_ H].
  destruct H as (s' & Hrun & _ & Hlook & _).
  - reflexivity.
  - split.
    + eexists. vm_compute. reflexivity.
    + intros id Hin.
      assert (Hids : tier_ids (now edited) (db (redis edited)) = ["basic"])
        by (vm_compute; reflexivity).
      rewrite Hids in Hin. apply list_elem_of_singleton in Hin as ->.
      vm_compute. split; [reflexivity|by eexists].
  - exists s'. split; [exact Hrun|]. split.
    + rewrite (Hlook "basic"). vm_compute. reflexivity.
    + rewrite (Hlook "premium"). vm_compute. reflexivity.
Defined.

Lemma tier_record_not_set (id : string) : TIER_PREFIX +:+ id ≠ TIER_SET_KEY.
Proof. discriminate. Qed.

Lemma tier_record_inj (id id' : string) :
  TIER_PREFIX +:+ id = TIER_PREFIX +:+ id' -> id = id'.
Proof. intros H. by simplify_eq. Qed.

Lemma cmd_sadd_members (t : Z) (d d' : gmap string Entry) (key x : string) :
  cmd_sadd t d key x = (Ok tt, d') ->
  exists l l',
    cmd_smembers t d key = Ok l /\ cmd_smembers t d' key = Ok l' /\
    (forall y, y ∈ l' <-> y = x \/ y ∈ l) /\
    forall key', key ≠ key' -> d' !! key' = d !! key'.
Proof.
  intros H. pose proof (cmd_sadd_inv _ _ _ _ _ H) as [Hother _].
  revert H. unfold cmd_sadd, cmd_smembers.
  destruct (peek t d key) as [[[| |l|] ex]|] eqn:Hp; intros H; simplify_eq.
  - assert (Hl : live t (mkEntry (VSet l) ex) = true).
    { unfold peek in Hp. destruct (d !! key) as [e|]; [|done].
      destruct (live t e) eqn:Hl; [|done]. by injection Hp as ->. }
    eexists _, _. split; [done|]. rewrite peek_insert_eq.
    change (live t _) with (live t (mkEntry (VSet l) ex)). rewrite Hl.
    split; [done|]. split; [|done].
    intros y. destruct (decide (x ∈ l)).
    + split; [tauto|]. by intros [->|?].
    + rewrite elem_of_app, list_elem_of_singleton. tauto.
  - eexists _, _. split; [done|]. rewrite peek_insert_eq. simpl.
    split; [done|]. split; [|done].
    intros y. rewrite list_elem_of_singleton. split; [tauto|].
    intros [?|H]; [done|]. by apply not_elem_of_nil in H.
Qed.

(** [storeTier] over a well-formed store, when it returns: the store is
    well-formed, holds the fields of the tier under its id, and holds
    under the other ids what it held. *)
Lemma storeTier_well_stored (x : Tier.t) (s s1 : State) :
  tiers_well_stored (now s) (db (redis s)) ->
  plain_limits x ->
  storeTier x s = (Ok tt, s1) ->
  now s1 = now s /\ tiersStore s1 = tiersStore s /\
  tiers_well_stored (now s1) (db (redis s1)) /\
  Tier.id x ∈ tier_ids (now s1) (db (redis s1)) /\
  stored_tier (now s1) (db (redis s1)) (Tier.id x) = Some x.
Proof.
  intros [[l Hl] Hrec] Hplain Hrun. unfold storeTier in Hrun. cbv zeta in Hrun.
  apply bind_inv_Ok in Hrun as ([] & s0 & Hhset & Hsadd).
  apply redis_write_inv in Hhset as (Hhset & Hn0 & _ & Ht0).
  apply redis_write_inv in Hsadd as (Hsadd & Hn1 & _ & Ht1).
  rewrite Hn0 in Hsadd.
  apply cmd_hset_inv in Hhset as (ex & Hd0 & Hlive).
  apply cmd_sadd_members in Hsadd as (l0 & l1 & Hl0 & Hl1 & Hmem & Hother).
  assert (Hl0' : l0 = l).
  { unfold cmd_smembers in Hl0, Hl. rewrite Hd0 in Hl0.
    rewrite peek_insert_ne in Hl0 by apply tier_record_not_set. congruence. }
  subst l0.
  assert (Hn : now s1 = now s) by congruence.
  assert (Hrecord : peek (now s) (db (redis s1)) (TIER_PREFIX +:+ Tier.id x)
                    = Some (mkEntry (VHash (HTier (fields_of_tier x))) ex)).
  { unfold peek. rewrite Hother by (apply not_eq_sym, tier_record_not_set).
    rewrite Hd0, lookup_insert_eq. by rewrite Hlive. }
  assert (Hids : tier_ids (now s) (db (redis s1)) = l1).
  { unfold tier_ids. by rewrite Hl1. }
  pose proof (tier_of_fields_of_tier x Hplain) as Hread.
  split; [exact Hn|]. split; [congruence|]. rewrite Hn, Hids.
  split; [|split].
  - split; [by exists l1|]. rewrite Hids. intros id Hin.
    destruct (decide (id = Tier.id x)) as [->|Hne].
    { rewrite Hrecord. split; [done|]. by rewrite Hread. }
    apply Hmem in Hin as [->|Hin]; [done|].
    unfold peek. rewrite Hother by (apply not_eq_sym, tier_record_not_set).
    rewrite Hd0, lookup_insert_ne by (intros H; by apply tier_record_inj in H).
    unfold tier_ids in Hrec. rewrite Hl in Hrec. by apply Hrec.
  - apply Hmem. by left.
  - unfold stored_tier. by rewrite Hrecord.
Qed.

(** [reloadTiers] on a connection that holds, over a well-formed store. *)
Lemma reloadTiers_healthy (s : State) (id : string) (x : Tier.t) :
  healthy s -> tiers_well_stored (now s) (db (redis s)) ->
  id ∈ tier_ids (now s) (db (redis s)) ->
  stored_tier (now s) (db (redis s)) id = Some x ->
  exists s', reloadTiers s = (Ok tt, s') /\ tiersStore s' !! id = Some x.
Proof.
  intros Hh Hw Hin Hst. pose proof Hw as [[l Hl] _].
  assert (Hids : tier_ids (now s) (db (redis s)) = l)
    by (unfold tier_ids; by rewrite Hl).
  rewrite Hids in Hin.
  assert (Hall : getAllStoredTiers s
                 = (Ok (omap (stored_tier (now s) (db (redis s))) l), s)).
  { unfold getAllStoredTiers, redis_smembers.
    rewrite (bind_Ok _ _ s s l) by (by rewrite (redis_read_healthy _ s Hh), Hl).
    destruct l as [|id' rest]; [done|].
    rewrite (getAllStoredTiers_loop_healthy s (id' :: rest) Hh); [done|].
    intros id'' Hin'. apply tiers_well_stored_reads; [done|by rewrite Hids]. }
  eexists. split.
  { unfold reloadTiers. rewrite (bind_Ok _ _ _ _ _ Hall).
    rewrite (bind_Ok _ _ s s s) by reflexivity. reflexivity. }
  cbn [tiersStore set_tiersStore]. rewrite reload_lookup.
  - rewrite decide_True by done. by rewrite Hst.
  - intros id' x' Hin' Hst'.
    by apply (tiers_well_stored_reads (now s) (db (redis s)) id' Hw);
      [rewrite Hids|].
Qed.



(** ** The list of credentials *)

Lemma getLastSeen_frame (W : string -> Prop) K : preserves (frame W) (getLastSeen K).
Proof. unfold getLastSeen. preserves_auto. Qed.

Lemma getLastSeen_memory K : preserves same_memory (getLastSeen K).
Proof. unfold getLastSeen, redis_get. preserves_auto. Qed.

Lemma listApiKeys_load_frame (W : string -> Prop) storedKeys :
  preserves (frame W) (listApiKeys_load storedKeys).
Proof.
  induction storedKeys as [|key rest IH]; simpl; preserves_auto.
Qed.

Lemma listApiKeys_usages_frame (W : string -> Prop) keys :
  preserves (frame W) (listApiKeys_usages keys).
Proof.
  induction keys as [|key rest IH]; simpl; preserves_auto;
    try apply getCurrentUsage_frame.
Qed.

Lemma listApiKeys_rows_frame (W : string -> Prop) keys :
  preserves (frame W) (listApiKeys_rows keys).
Proof.
  induction keys as [|[key usage] rest IH]; simpl; preserves_auto;
    try apply getLastSeen_frame.
Qed.

Lemma listApiKeys_frame (W : string -> Prop) : preserves (frame W) listApiKeys.
Proof.
  unfold listApiKeys. preserves_auto;
    first [apply listApiKeys_load_frame | apply listApiKeys_usages_frame
          | apply listApiKeys_rows_frame].
Qed.

(** On a connection that holds a reading leaves the state as it is. *)
Lemma getCurrentUsage_healthy_state (K : string) (s : State) :
  healthy s -> (getCurrentUsage K s).2 = s.
Proof.
  intros Hh. unfold getCurrentUsage, bind, get_state, redis_get.
  rewrite (redis_read_healthy _ s Hh).
  destruct (cmd_get _ _ _) as [m|e]; [|done].
  rewrite (redis_read_healthy _ s Hh).
  destruct (cmd_get _ _ _) as [d|e]; [|done].
  unfold count_of, ret, throw.
  destruct m as [[n| |]|]; try done; destruct d as [[n'| |]|]; done.
Qed.

Lemma listApiKeys_usages_inv (keys : list nat) :
  forall (s s' : State) (usages : list (nat * RateLimiter.Usage)),
    listApiKeys_usages keys s = (Ok usages, s') ->
    usages.*1 = keys /\ same_memory s s' /\ tiersStore s' = tiersStore s /\
    (healthy s ->
     s' = s /\
     Forall (fun p => getCurrentUsage (ApiKey.apiKey (deref s p.1)) s = (Ok p.2, s))
       usages).
Proof.
  induction keys as [|key rest IH]; intros s s' usages Hrun; simpl in Hrun.
  - unfold ret in Hrun. injection Hrun as <- <-. done.
  - apply bind_inv_Ok in Hrun as (k & s0 & Hread & Hrun).
    unfold read in Hread. injection Hread as <- <-.
    apply bind_inv_Ok in Hrun as (usage & s1 & Huse & Hrun).
    apply bind_inv_Ok in Hrun as (us & s2 & Hrest & Hrun).
    unfold ret in Hrun. injection Hrun as <- <-.
    pose proof (getCurrentUsage_memory (ApiKey.apiKey (deref s key)) s) as Hm.
    pose proof (getCurrentUsage_frame (fun _ => False) (ApiKey.apiKey (deref s key)) s)
      as (_ & Ht & _).
    pose proof (getCurrentUsage_healthy_state (ApiKey.apiKey (deref s key)) s) as Hs.
    rewrite Huse in Hm, Ht, Hs. simpl in Hm, Ht, Hs.
    destruct (IH _ _ _ Hrest) as (Hkeys & Hm' & Ht' & Hreads).
    split; [by rewrite fmap_cons, Hkeys|]. split; [by etrans|].
    split; [congruence|].
    intros Hh. specialize (Hs Hh). subst s1.
    destruct (Hreads Hh) as [-> Hall]. split; [done|].
    constructor; [exact Huse|exact Hall].
Qed.

Lemma row_shows_same (s s' : State) (ref : nat) (row : KeySummary.t) :
  same_memory s s' -> tiersStore s' = tiersStore s ->
  row_shows s ref row -> row_shows s' ref row.
Proof.
  intros (Hh & _) Ht. unfold row_shows, deref. by rewrite Hh, Ht.
Qed.

Lemma listApiKeys_rows_inv (usages : list (nat * RateLimiter.Usage)) :
  forall (s s' : State) (rows : list KeySummary.t),
    listApiKeys_rows usages s = (Ok rows, s') ->
    Forall2 (row_shows s) usages.*1 rows /\
    Forall2 (fun p row => KeySummary.usage row = p.2) usages rows /\
    same_memory s s' /\ tiersStore s' = tiersStore s /\
    (healthy s ->
     s' = s /\
     Forall2 (fun p row =>
                getLastSeen (ApiKey.apiKey (deref s p.1)) s
                = (Ok (KeySummary.lastSeen row), s)) usages rows).
Proof.
  induction usages as [|[key usage] rest IH]; intros s s' rows Hrun; simpl in Hrun.
  - unfold ret in Hrun. injection Hrun as <- <-. repeat split; (done || constructor).
  - apply bind_inv_Ok in Hrun as (k & s0 & Hread & Hrun).
    unfold read in Hread. injection Hread as <- <-.
    apply bind_inv_Ok in Hrun as (lastSeen & s1 & Hseen & Hrun).
    apply bind_inv_Ok in Hrun as (s1' & s1'' & Hget & Hrun).
    unfold get_state in Hget. injection Hget as <- <-.
    apply bind_inv_Ok in Hrun as (rows' & s2 & Hrest & Hrun).
    unfold ret in Hrun. injection Hrun as <- <-.
    pose proof (getLastSeen_memory (ApiKey.apiKey (deref s key)) s) as Hm.
    pose proof (getLastSeen_frame (fun _ => False) (ApiKey.apiKey (deref s key)) s)
      as (_ & Ht & _).
    rewrite Hseen in Hm, Ht. simpl in Hm, Ht.
    destruct (IH _ _ _ Hrest) as (Hrows & Huse & Hm' & Ht' & Hreads).
    split; [|split; [|split; [by etrans|split; [congruence|]]]].
    + rewrite fmap_cons. constructor.
      * unfold row_shows, deref. simpl. rewrite Ht.
        destruct (tiersStore s !! ApiKey.tier (heap s !!! key)) as [x|];
          repeat split; try reflexivity; lia.
      * eapply Forall2_impl; [exact Hrows|].
        intros ref row. apply row_shows_same; [|congruence].
        destruct Hm as (? & ? & ?). by repeat split.
    + constructor; [by destruct usage|exact Huse].
    + intros Hh.
      assert (Hs1 : s1 = s).
      { rewrite (getLastSeen_healthy _ s Hh) in Hseen. by injection Hseen. }
      subst s1. destruct (Hreads Hh) as [-> Hall]. split; [done|].
      constructor; [exact Hseen|exact Hall].
Qed.

(** X13.  [listApiKeys] reads, and shows the limits of the tiers.  Whether it
    returns or throws, the server and the registry of tiers are as before.
    When it returns, there is one row for each credential of the memory of
    the process, in their order, with the fields of the object behind it,
    its secret masked, and as limits those of its tier as registered now,
    whatever the object holds; unless the memory was empty, and was filled
    from the stored records, the objects and both maps are as before; and
    on a connection that holds, the usage and the last-seen of a row are
    what [getCurrentUsage] and [getLastSeen] return for its secret. *)
Theorem listApiKeys_shows_and_writes_nothing (s : State) :
  db (redis (state_after listApiKeys s)) = db (redis s) /\
  tiersStore (state_after listApiKeys s) = tiersStore s /\
  forall rows s',
    listApiKeys s = (Ok rows, s') ->
    Forall2 (row_shows s') (Map_values (apiKeysStore s')) rows /\
    (apiKeysStore s ≠ [] -> same_memory s s') /\
    (healthy s -> Forall2 (row_reads s') (Map_values (apiKeysStore s')) rows).
Proof.
  pose proof (listApiKeys_frame (fun _ => False) s) as (_ & Ht & _ & _ & Hd).
  split; [apply map_eq; intros key; apply Hd; tauto|].
  split; [exact Ht|].
  intros rows s' Hrun. unfold listApiKeys in Hrun.
  rewrite (bind_Ok _ _ s s s) in Hrun by reflexivity.
  apply bind_inv_Ok in Hrun as ([] & s0 & Hload & Hrun).
  rewrite (bind_Ok _ _ s0 s0 s0) in Hrun by reflexivity.
  apply bind_inv_Ok in Hrun as (usages & s1 & Huse & Hrows).
  assert (Hh0 : healthy s -> healthy s0).
  { assert (Hf : preserves (frame (fun _ => False))
                   (if bool_decide (length (apiKeysStore s) = 0%nat)
                    then storedKeys <- getAllStoredApiKeys ;; listApiKeys_load storedKeys
                    else ret tt)).
    { preserves_auto. apply listApiKeys_load_frame. }
    specialize (Hf s). rewrite Hload in Hf. apply Hf. }
  apply listApiKeys_usages_inv in Huse as (Hkeys & Hm1 & Ht1 & Hreads1).
  apply listApiKeys_rows_inv in Hrows as (Hrows & Huses & Hm2 & Ht2 & Hreads2).
  assert (Hm : same_memory s0 s') by (by etrans).
  split; [|split].
  - rewrite Hkeys in Hrows. destruct Hm as (Hh & Hs & Hb). rewrite Hs.
    eapply Forall2_impl; [exact Hrows|].
    intros ref row. apply row_shows_same; [done|]. done.
  - intros Hne. destruct (bool_decide _) eqn:Hempty.
    + apply bool_decide_eq_true in Hempty. by apply nil_length_inv in Hempty.
    + unfold ret in Hload. injection Hload as <-. done.
  - intros Hh. specialize (Hh0 Hh).
    destruct (Hreads1 Hh0) as [-> Hall1]. destruct (Hreads2 Hh0) as [-> Hall2].
    rewrite <- Hkeys. clear -Hall1 Hall2 Huses.
    induction Hall2 as [|[ref u] row usages rows Hseen Hall2 IH]; [constructor|].
    apply Forall_cons in Hall1 as [Hu Hall1].
    apply Forall2_cons in Huses as [Hrow Huses].
    rewrite fmap_cons. constructor; [|by apply IH].
    split; [|exact Hseen]. simpl in *. by rewrite Hrow.
Qed.

(** The list shows the limits of the edited tier, 2400 a minute, while the
    object keeps those it was made with. *)
Lemma listApiKeys_shows_and_writes_nothing_witness :
  exists row,
    listApiKeys edited = (Ok [row], listed) /\
    KeySummary.maskedKey row = "sk_Uakgb...J5m9" /\
    KeySummary.perMinute row = 2400 /\
    ApiKey.perMinute (deref listed 0) = 1200 /\
    db (redis listed) = db (redis edited) /\
    getCurrentUsage secret1 listed = (Ok (KeySummary.usage row), listed).
Proof.
  destruct (listApiKeys_shows_and_writes_nothing edited) as (Hd & _ & H).
  eexists.
  assert (Hrun : listApiKeys edited = (Ok _, listed)) by (vm_compute; reflexivity).
  destruct (H _ _ Hrun) as (Hrows & Hm & Hreads).
  split; [exact Hrun|]. split; [reflexivity|]. split; [reflexivity|].
  destruct Hm as (Hh & Hs & _); [discriminate|].
  split; [|split; [exact Hd|]].
  - unfold deref. rewrite Hh. vm_compute. reflexivity.
  - specialize (Hreads eq_refl).
    assert (Hkeys : Map_values (apiKeysStore listed) = [0%nat])
      by (rewrite Hs; vm_compute; reflexivity).
    rewrite Hkeys in Hreads. apply Forall2_cons in Hreads as [[Hu _] _].
    assert (Hk : ApiKey.apiKey (deref listed 0) = secret1)
      by (unfold deref; rewrite Hh; vm_compute; reflexivity).
    rewrite Hk in Hu. exact Hu.
Defined.

(** ** Masked keys and derived ids *)

Lemma slice_to_split (n : nat) (s : string) :
  (n <= String.length s)%nat ->
  exists rest, s = slice_to n s +:+ rest /\ String.length (slice_to n s) = n.
Proof.
  unfold slice_to. revert s. induction n as [|n IH]; intros s Hn.
  - exists s. by destruct s.
  - destruct s as [|c s]; simpl in Hn; [lia|].
    destruct (IH s) as (rest & Hs & Hlen); [lia|].
    exists rest. simpl. split; [|by rewrite Hlen].
    change (String c s = String c (String.substring 0 n s +:+ rest)).
    by rewrite <- Hs.
Qed.

Lemma substring_end (m n : nat) (s : string) :
  (m + n = String.length s)%nat ->
  exists pre, s = pre +:+ String.substring m n s /\ String.length pre = m /\
              String.length (String.substring m n s) = n.
Proof.
  revert s. induction m as [|m IH]; intros s Hlen.
  - exists "". simpl in Hlen. subst n. split; [|split; [done|]].
    + change ("" +:+ ?x) with x. induction s as [|c s IHs]; simpl; [done|].
      by rewrite <- IHs.
    + induction s as [|c s IHs]; simpl; [done|]. by rewrite IHs.
  - destruct s as [|c s]; simpl in Hlen; [lia|].
    destruct (IH s) as (pre & Hs & Hpre & Hsub); [lia|].
    exists (String c pre). simpl. split; [|split; [by rewrite Hpre|done]].
    change (String c s = String c (pre +:+ String.substring m n s)).
    by rewrite <- Hs.
Qed.

(** X14.  What a masked key shows.  A key of fewer than 12 code units is shown
    whole.  A longer key is shown as its first 8 code units, three dots
    and its last 4: 15 code units that hide the middle of the key. *)
Theorem maskApiKey_shows_twelve_units (apiKey : string) :
  ((String.length apiKey < 12)%nat -> maskApiKey apiKey = apiKey) /\
  ((12 <= String.length apiKey)%nat ->
   String.length (maskApiKey apiKey) = 15%nat /\
   exists first middle last,
     apiKey = first +:+ middle +:+ last /\
     String.length first = 8%nat /\ String.length last = 4%nat /\
     maskApiKey apiKey = first +:+ "..." +:+ last).
Proof.
  unfold maskApiKey. split; intros Hlen.
  - by rewrite (proj2 (Nat.ltb_lt _ _) Hlen).
  - rewrite (proj2 (Nat.ltb_ge _ _) Hlen).
    destruct (slice_to_split 8 apiKey) as (rest & Hfirst & Hl8); [lia|].
    destruct (substring_end (String.length apiKey - 4) 4 apiKey)
      as (pre & Hlast & Hpre & Hl4); [lia|].
    fold (slice_last 4 apiKey) in Hlast, Hl4.
    split; [rewrite !length_append, Hl8, Hl4; done|].
    assert (Hrest : (4 <= String.length rest)%nat).
    { apply (f_equal String.length) in Hfirst.
      rewrite length_append, Hl8 in Hfirst. lia. }
    destruct (substring_end (String.length rest - 4) 4 rest)
      as (middle & Hmid & _ & Hl4'); [lia|].
    exists (slice_to 8 apiKey), middle, (slice_last 4 apiKey).
    split; [|done].
    assert (Hsame : String.substring (String.length rest - 4) 4 rest
                    = slice_last 4 apiKey).
    { assert (H : (slice_to 8 apiKey +:+ middle)
                  +:+ String.substring (String.length rest - 4) 4 rest
                  = pre +:+ slice_last 4 apiKey).
      { rewrite append_assoc, <- Hmid, <- Hfirst. exact Hlast. }
      apply append_inj_length in H as [_ ?]; [done|]. by rewrite Hl4, Hl4'. }
    rewrite <- Hsame, <- Hmid. exact Hfirst.
Qed.

(** The secret of the concrete run, and a short key. *)
Lemma maskApiKey_shows_twelve_units_witness :
  maskApiKey "sk_short" = "sk_short" /\
  String.length (maskApiKey secret1) = 15%nat.
Proof.
  split.
  - apply (proj1 (maskApiKey_shows_twelve_units "sk_short")). vm_compute. lia.
  - apply (proj2 (maskApiKey_shows_twelve_units secret1)). vm_compute. lia.
Defined.

Lemma toLowerCase_unit_slug (c : ascii) :
  is_space (toLowerCase_unit c) = false -> slug_unit (toLowerCase_unit c) = true.
Proof.
  unfold slug_unit. intros ->. simpl.
  destruct c as [[] [] [] [] [] [] [] []]; vm_compute; reflexivity.
Qed.

Lemma replace_spaces_slug (s : string) :
  forall in_run, every_unit slug_unit (replace_spaces in_run (toLowerCase s)) = true.
Proof.
  induction s as [|c s IH]; intros in_run; [done|]. cbn [toLowerCase replace_spaces].
  destruct (is_space (toLowerCase_unit c)) eqn:Hsp.
  - destruct in_run; [apply IH|]. cbn [every_unit]. rewrite IH. reflexivity.
  - cbn [every_unit]. by rewrite toLowerCase_unit_slug, IH.
Qed.

Lemma replace_spaces_length (s : string) :
  forall in_run, (String.length (replace_spaces in_run s) <= String.length s)%nat.
Proof.
  induction s as [|c s IH]; intros in_run; [done|]. cbn [replace_spaces].
  destruct (is_space c).
  - destruct in_run; simpl; specialize (IH true); lia.
  - simpl. specialize (IH false). lia.
Qed.

Lemma toLowerCase_length (s : string) :
  String.length (toLowerCase s) = String.length s.
Proof. induction s as [|c s IH]; simpl; [done|]. by rewrite IH. Qed.

(** X15.  The id that [createTier] derives from a name, when no custom id is
    given or the custom id is empty, holds no white space and no
    upper-case letter, and is no longer than the name. *)
Theorem derived_tier_id_is_a_slug (name : string) :
  every_unit slug_unit (tier_id_of name None) = true /\
  (String.length (tier_id_of name None) <= String.length name)%nat /\
  tier_id_of name (Some "") = tier_id_of name None.
Proof.
  unfold tier_id_of. split; [apply replace_spaces_slug|]. split; [|done].
  etrans; [apply replace_spaces_length|]. by rewrite toLowerCase_length.
Qed.

(** ** The tiers of a settings update *)

Lemma storeTier_tiers (x : Tier.t) (s : State) :
  tiersStore (storeTier x s).2 = tiersStore s.
Proof. by destruct (storeTier_frame (begins "tier") x ltac:(done) s) as (_ & ? & _). Qed.

(** Whatever [updateTier] does, it changes the registry under its id at
    most. *)
Lemma updateTier_others (id : string) (updates : Tier.partial) (s : State) (j : string) :
  j ≠ id ->
  tiersStore (updateTier id updates s).2 !! j = tiersStore s !! j.
Proof.
  intros Hne. unfold updateTier.
  rewrite (bind_Ok _ _ s s s) by reflexivity.
  destruct (tiersStore s !! id) as [x0|]; [|done].
  rewrite (bind_Ok _ _ s _ tt) by reflexivity.
  rewrite storeTier_tiers. simpl. by rewrite lookup_insert_ne.
Qed.

Lemma createTier_inv (name : string) (rateLimit burstLimit : Z)
    (customId : option string) (s s1 : State) (x : Tier.t) :
  createTier name rateLimit burstLimit customId s = (Ok x, s1) ->
  x = Tier.mk (tier_id_of name customId) name rateLimit burstLimit /\
  tiersStore s1 = <[tier_id_of name customId := x]> (tiersStore s).
Proof.
  unfold createTier. cbv zeta. intros Hrun.
  rewrite (bind_Ok _ _ s s s) in Hrun by reflexivity.
  rewrite (bind_Ok _ _ s _ tt) in Hrun by reflexivity.
  apply bind_inv_Ok in Hrun as ([] & s2 & Hstore & Hret).
  unfold ret in Hret. injection Hret as <- <-. split; [done|].
  pose proof (storeTier_tiers
                (Tier.mk (tier_id_of name customId) name rateLimit burstLimit)
                (set_tiersStore
                   (<[tier_id_of name customId :=
                        Tier.mk (tier_id_of name customId) name rateLimit burstLimit]>
                      (tiersStore s)) s)) as Ht.
  rewrite Hstore in Ht. exact Ht.
Qed.

(** One tier of the update: edited when it is registered, made otherwise,
    and also when the edit fails. *)
Lemma PATCH_tier_step (tier : Tier.t) (s s1 : State) :
  try_catch
    (updateTier (Tier.id tier)
       (Tier.mkPartial None (Some (Tier.name tier)) (Some (Tier.rateLimit tier))
          (Some (Tier.burstLimit tier))))
    (createTier (Tier.name tier) (Tier.rateLimit tier) (Tier.burstLimit tier)
       (Some (Tier.id tier)) ;;;
     ret tt) s = (Ok tt, s1) ->
  Tier.id tier ≠ "" ->
  (exists x, tiersStore s1 !! Tier.id tier = Some x /\
             Tier.name x = Tier.name tier /\
             Tier.rateLimit x = Tier.rateLimit tier /\
             Tier.burstLimit x = Tier.burstLimit tier) /\
  forall j, j ≠ Tier.id tier -> tiersStore s1 !! j = tiersStore s !! j.
Proof.
  intros Hrun Hid. unfold try_catch in Hrun.
  set (u := Tier.mkPartial _ _ _ _) in Hrun.
  pose proof (updateTier_others (Tier.id tier) u s) as Hothers.
  destruct (updateTier (Tier.id tier) u s) as [[[]|e] s0] eqn:Hup.
  - injection Hrun as <-.
    apply updateTier_inv in Hup as (x0 & Hx0 & Ht & _). split.
    + exists (Tier.assign x0 u). rewrite Ht, lookup_insert_eq. done.
    + intros j Hj. by apply Hothers.
  - apply bind_inv_Ok in Hrun as (x & s2 & Hcreate & Hret).
    unfold ret in Hret. injection Hret as <-.
    apply createTier_inv in Hcreate as (-> & Ht).
    assert (Hkey : tier_id_of (Tier.name tier) (Some (Tier.id tier)) = Tier.id tier).
    { unfold tier_id_of. by rewrite bool_decide_eq_false_2. }
    rewrite Hkey in Ht. split.
    + eexists. rewrite Ht, lookup_insert_eq. done.
    + intros j Hj. rewrite Ht, lookup_insert_ne by done. by apply Hothers.
Qed.

(** X16.  The tiers of a settings update are upserted.  When the loop over the
    tiers returns, with ids that are not empty and all different, every
    tier of the update is registered under its id with the name, the rate
    and the burst given, whether it was registered before or not, and the
    registry holds under every other id what it held. *)
Theorem PATCH_upserts_the_tiers (tiers : list Tier.t) (s s' : State) :
  PATCH_tiers tiers s = (Ok tt, s') ->
  Forall (fun tier => Tier.id tier ≠ "") tiers ->
  NoDup (Tier.id <$> tiers) ->
  (forall tier, tier ∈ tiers ->
     exists x, tiersStore s' !! Tier.id tier = Some x /\
               Tier.name x = Tier.name tier /\
               Tier.rateLimit x = Tier.rateLimit tier /\
               Tier.burstLimit x = Tier.burstLimit tier) /\
  (forall id, id ∉ Tier.id <$> tiers -> tiersStore s' !! id = tiersStore s !! id).
Proof.
  revert s. induction tiers as [|tier rest IH]; intros s Hrun Hids Hnd.
  - unfold PATCH_tiers, ret in Hrun. injection Hrun as <-. split; [|done].
    intros tier Hin. by apply not_elem_of_nil in Hin.
  - cbn [PATCH_tiers] in Hrun.
    apply bind_inv_Ok in Hrun as ([] & s1 & Hstep & Hrest).
    apply Forall_cons in Hids as [Hid Hids].
    rewrite fmap_cons in Hnd. apply NoDup_cons in Hnd as [Hfresh Hnd].
    destruct (PATCH_tier_step tier s s1 Hstep Hid) as (Hhere & Hothers).
    destruct (IH s1 Hrest Hids Hnd) as (Hin' & Hout').
    split.
    + intros tier' [->|Hin]%elem_of_cons; [|by apply Hin'].
      rewrite Hout' by done. exact Hhere.
    + intros id Hid'. rewrite fmap_cons in Hid'.
      apply not_elem_of_cons in Hid' as [Hne Hout].
      rewrite Hout' by done. by apply Hothers.
Qed.

(** An update of the concrete run that edits the tier "basic" and brings
    a new tier "gold". *)
Lemma PATCH_upserts_the_tiers_witness :
  exists s',
    PATCH_tiers [Tier.mk "basic" "Basic" 25 35; Tier.mk "gold" "Gold" 100 150] created
    = (Ok tt, s') /\
    Tier.rateLimit <$> tiersStore s' !! "basic" = Some 25 /\
    Tier.rateLimit <$> tiersStore s' !! "gold" = Some 100 /\
    tiersStore s' !! "premium" = Some (Tier.mk "premium" "Premium" 40 80).
Proof.
  set (tiers := [Tier.mk "basic" "Basic" 25 35; Tier.mk "gold" "Gold" 100 150]).
  set (s' := state_after (PATCH_tiers tiers) created).
  assert (Hrun : PATCH_tiers tiers created = (Ok tt, s')) by (vm_compute; reflexivity).
  destruct (PATCH_upserts_the_tiers tiers created s' Hrun) as (Hin & Hout).
  - repeat constructor; discriminate.
  - apply (bool_decide_unpack _). vm_compute. exact I.
  - exists s'. split; [exact Hrun|]. split; [|split].
    + destruct (Hin (Tier.mk "basic" "Basic" 25 35)) as (x & Hx & _ & Hr & _);
        [by left|]. simpl in Hx, Hr. rewrite Hx. simpl. by rewrite Hr.
    + destruct (Hin (Tier.mk "gold" "Gold" 100 150)) as (x & Hx & _ & Hr & _);
        [by right; left|]. simpl in Hx, Hr. rewrite Hx. simpl. by rewrite Hr.
    + rewrite (Hout "premium"); [reflexivity|].
      intros [H|[H|H]%elem_of_cons]%elem_of_cons; [discriminate..|].
      by apply not_elem_of_nil in H.
Defined.

(** ** One key for each second *)

Lemma second_fields (t : Z) : 0 <= Date.getUTCSeconds t < 100.
Proof.
  unfold Date.getUTCSeconds.
  pose proof (Z.mod_pos_bound (t / 1000) 60 ltac:(lia)). lia.
Qed.

(** X17.  [getGlobalRPSKey] gives one key to each UTC second: two instants have
    the same key exactly when they fall in the same second. *)
Theorem global_rps_key_per_second (t1 t2 : Z) :
  getGlobalRPSKey t1 = getGlobalRPSKey t2 <-> t1 / 1000 = t2 / 1000.
Proof.
  split.
  - unfold getGlobalRPSKey. cbv zeta. intros Heq.
    assert (Hstamp : minuteStamp t1 +:+ pad2 (Date.getUTCSeconds t1)
                     = minuteStamp t2 +:+ pad2 (Date.getUTCSeconds t2)).
    { unfold minuteStamp, pad2. rewrite !append_assoc. by simplify_eq. }
    apply append_pad2_inj in Hstamp as [Hmin Hsec]; [|apply second_fields..].
    apply minuteStamp_inj in Hmin. unfold minute_of, Date.msPerMinute in Hmin.
    unfold Date.getUTCSeconds in Hsec.
    change 60000 with (1000 * 60) in Hmin. rewrite <- !Z.div_div in Hmin by lia.
    pose proof (Z.div_mod (t1 / 1000) 60 ltac:(lia)).
    pose proof (Z.div_mod (t2 / 1000) 60 ltac:(lia)). lia.
  - intros Heq. unfold getGlobalRPSKey, Date.getUTCFullYear, Date.getUTCMonth,
      Date.getUTCDate, Date.getUTCHours, Date.getUTCMinutes, Date.getUTCSeconds,
      Date.Day, Date.msPerDay, Date.msPerHour, Date.msPerMinute.
    change 86400000 with (1000 * 86400). change 3600000 with (1000 * 3600).
    change 60000 with (1000 * 60).
    rewrite <- !Z.div_div by lia. by rewrite Heq.
Qed.

(** ** The test route *)

Ltac refusal_runs :=
  unfold bind, ret;
  match goal with
  | |- context [addEvent ?e ?s] => destruct (addEvent e s) as [[[]|?] ?]
  end;
  reflexivity.

(** The test route runs the flow and answers its verdict. *)
Lemma test_GET_body (x_api_key : option string) (s : State) :
  test_GET x_api_key s
  = match rateLimitMiddleware x_api_key "/api/test-simple" s with
    | (Ok v, s') => (Ok (test_response x_api_key v), s')
    | (Throw message, s') =>
        (Ok (SimpleResponse.mk 500
               (SimpleResponse.Failure "Internal server error" message) []), s')
    end.
Proof.
  unfold test_GET, rateLimitMiddleware.
  rewrite !(bind_Ok _ _ s s s) by reflexivity. cbv zeta.
  unfold try_catch_with.
  rewrite !(bind_Ok _ _ s s tt) by reflexivity.
  destruct (header_missing x_api_key) eqn:Hmiss; [refusal_runs|].
  destruct x_api_key as [secret|]; [|discriminate]. simpl default.
  destruct (findApiKeyByValue secret s) as [[[ref|]|e] s1] eqn:Hfind.
  3:{ by rewrite !(bind_Throw _ _ _ _ _ Hfind). }
  2:{ rewrite !(bind_Ok _ _ _ _ _ Hfind). refusal_runs. }
  rewrite !(bind_Ok _ _ _ _ _ Hfind).
  rewrite !(bind_Ok _ _ s1 s1 (deref s1 ref)) by reflexivity.
  destruct (ApiKey.disabled (deref s1 ref)) eqn:Hdis; [refusal_runs|].
  destruct (checkRateLimit secret (ApiKey.perMinute (deref s1 ref))
              (ApiKey.perDay (deref s1 ref)) s1) as [[counts|e] s2] eqn:Hc.
  2:{ by rewrite !(bind_Throw _ _ _ _ _ Hc). }
  rewrite !(bind_Ok _ _ _ _ _ Hc).
  destruct (RateLimiter.isOverLimit counts) eqn:Hover; [refusal_runs|].
  set (ev := RateLimitEvent.mk _ _ _ _ _ _).
  destruct (addEvent ev s2) as [[[]|e] s3] eqn:Hadd.
  2:{ by rewrite !(bind_Throw _ _ _ _ _ Hadd). }
  rewrite !(bind_Ok _ _ _ _ _ Hadd).
  destruct (updateLastSeen secret s3) as [[[]|e] s4] eqn:Hseen.
  2:{ by rewrite !(bind_Throw _ _ _ _ _ Hseen). }
  rewrite !(bind_Ok _ _ _ _ _ Hseen).
  rewrite !(bind_Ok _ _ s4 s4 (deref s4 ref)) by reflexivity.
  reflexivity.
Qed.

(** X18.  The test route, written apart from the flow, decides as the flow does.
    It always answers, and leaves the state that the flow leaves for the
    endpoint "/api/test-simple".  It answers 500 with the message of the
    error when the flow throws; 200 on an admission, with the counts, the
    limits and the first ten code units of the key in its body and the
    limits and what remains of them in its headers; and to a refusal the
    status and the headers that [createRateLimitedResponse] gives, with a
    body that carries the retry-after only when the quota is exhausted. *)
Theorem test_route_decides_like_the_flow (x_api_key : option string) (s : State) :
  exists response,
    test_GET x_api_key s
    = (Ok response, state_after (rateLimitMiddleware x_api_key "/api/test-simple") s) /\
    match result_of (rateLimitMiddleware x_api_key "/api/test-simple") s with
    | Throw message =>
        response = SimpleResponse.mk 500
                     (SimpleResponse.Failure "Internal server error" message) []
    | Ok (Middleware.Allowed minuteCount dayCount minuteLimit dayLimit) =>
        response
        = SimpleResponse.mk 200
            (SimpleResponse.Working "Route is working!"
               (String.substring 0 10 (default "" x_api_key) +:+ "...")
               minuteCount minuteLimit dayCount dayLimit)
            [("X-RateLimit-Limit-Minute", String_of minuteLimit);
             ("X-RateLimit-Remaining-Minute", String_of (minuteLimit - minuteCount));
             ("X-RateLimit-Limit-Day", String_of dayLimit);
             ("X-RateLimit-Remaining-Day", String_of (dayLimit - dayCount))]
    | Ok (Middleware.Denied reason retryAfter) =>
        exists refusal,
          createRateLimitedResponse (Middleware.Denied reason retryAfter) = Some refusal /\
          SimpleResponse.status response = NextResponse.status refusal /\
          SimpleResponse.headers response = NextResponse.headers refusal /\
          SimpleResponse.body response
          = if bool_decide (reason = "Rate limit exceeded")
            then SimpleResponse.Limited reason retryAfter
            else SimpleResponse.Error reason
    end.
Proof.
  rewrite test_GET_body. unfold state_after, result_of.
  destruct (rateLimitMiddleware x_api_key "/api/test-simple" s) as [[v|e] s'].
  - eexists. split; [reflexivity|]. destruct v as [mc dc ml dl|reason ra]; [done|].
    eexists. split; [reflexivity|]. done.
  - eexists. split; [reflexivity|]. done.
Qed.

(** ** The store of tiers *)

Lemma cmd_srem_members (t : Z) (d d' : gmap string Entry) (key x : string) :
  cmd_srem t d key x = (Ok tt, d') ->
  exists l l',
    cmd_smembers t d key = Ok l /\ cmd_smembers t d' key = Ok l' /\
    (forall y, y ∈ l' <-> y ≠ x /\ y ∈ l) /\
    forall key', key ≠ key' -> d' !! key' = d !! key'.
Proof.
  unfold cmd_srem, cmd_smembers.
  destruct (peek t d key) as [[[| |l|] ex]|] eqn:Hp; intros H; simplify_eq.
  - exists l. destruct (filter (fun y => y ≠ x) l) as [|y l'] eqn:Hf.
    + exists []. split; [done|]. unfold peek. rewrite lookup_delete_eq.
      split; [done|]. split; [|by intros; rewrite lookup_delete_ne].
      intros y. split; [by intros ?%not_elem_of_nil|].
      intros [Hne Hin]. exfalso.
      assert (Hy : y ∈ filter (fun y => y ≠ x) l) by (by apply list_elem_of_filter).
      rewrite Hf in Hy. by apply not_elem_of_nil in Hy.
    + exists (y :: l'). split; [done|]. rewrite peek_insert_eq.
      assert (Hl : live t (mkEntry (VSet (y :: l')) ex) = true).
      { unfold peek in Hp. destruct (d !! key) as [e|]; [|done].
        destruct (live t e) eqn:He; [|done]. by simplify_eq. }
      rewrite Hl. split; [done|]. split; [|by intros; rewrite lookup_insert_ne].
      intros y'. rewrite <- Hf. by rewrite list_elem_of_filter.
  - exists [], []. split; [done|]. unfold peek. rewrite lookup_delete_eq.
    split; [done|]. split; [|by intros; rewrite lookup_delete_ne].
    intros y. split; [by intros ?%not_elem_of_nil|]. by intros [_ ?%not_elem_of_nil].
Qed.

Lemma tierExists_healthy (id : string) (s : State) (l : list string) :
  healthy s ->
  cmd_smembers (now s) (db (redis s)) TIER_SET_KEY = Ok l ->
  tierExists id s = (Ok (bool_decide (id ∈ l)), s).
Proof.
  intros Hh Hl. unfold tierExists.
  rewrite (bind_Ok _ _ s s (if decide (id ∈ l) then 1 else 0)).
  - unfold ret. by destruct (decide (id ∈ l));
      [rewrite bool_decide_eq_true_2|rewrite bool_decide_eq_false_2].
  - rewrite (redis_read_healthy _ s Hh). unfold cmd_sismember, cmd_smembers in *.
    destruct (peek _ _ _) as [[[| |l'|] ex]|]; simplify_eq; [done|].
    by rewrite decide_False by apply not_elem_of_nil.
Qed.



(** ** Counting events *)

Lemma cmd_xlen_nonneg (t : Z) (d : gmap string Entry) (key : string) (n : Z) :
  cmd_xlen t d key = Ok n -> 0 <= n.
Proof.
  unfold cmd_xlen. destruct (peek t d key) as [[[| | |l] ex]|]; intros H; simplify_eq; lia.
Qed.

(** X20.  [getEventCount] never throws.  From every state it returns a count
    that is not negative and leaves the keys of the server as they were;
    the count is 0 when the connection is out or the key does not hold a
    stream, where [getRecentEvents] throws; and an empty secret counts,
    like no secret, the global stream. *)
Theorem getEventCount_never_throws (apiKey : option string) (s : State) :
  (exists n s',
     getEventCount apiKey s = (Ok n, s') /\ 0 <= n /\
     db (redis s') = db (redis s) /\
     forall e, result_of (redis_xlen (streamKey_of apiKey)) s = Throw e ->
       n = 0 /\
       forall count, exists e', result_of (getRecentEvents apiKey count) s = Throw e') /\
  getEventCount (Some "") s = getEventCount None s.
Proof.
  split; [|done].
  unfold getEventCount, try_catch, result_of, getRecentEvents, redis_xlen,
    redis_xrevrange, redis_read. cbv zeta.
  unfold bind, connection.
  destruct (outages (redis s)) as [|[] rest] eqn:Hout; simpl.
  - destruct (cmd_xlen (now s) (db (redis s)) (streamKey_of apiKey)) as [n|e] eqn:Hlen.
    + exists n, s. split; [done|]. split; [by eapply cmd_xlen_nonneg|].
      split; [done|]. discriminate.
    + exists 0, s. split; [done|]. split; [done|]. split; [done|].
      intros e' _. split; [done|]. intros count.
      unfold cmd_xlen, cmd_xrevrange in *.
      destruct (peek _ _ _) as [[[| | |l] ex]|]; simplify_eq; eauto.
  - eexists 0, _. split; [reflexivity|]. split; [done|]. split; [done|].
    intros e' _. split; [done|]. eauto.
  - destruct (cmd_xlen (now s) (db (redis s)) (streamKey_of apiKey)) as [n|e] eqn:Hlen.
    + eexists n, _. split; [reflexivity|]. split; [by eapply cmd_xlen_nonneg|].
      split; [done|]. discriminate.
    + eexists 0, _. split; [reflexivity|]. split; [done|]. split; [done|].
      intros e' _. split; [done|]. intros count.
      unfold cmd_xlen, cmd_xrevrange in *.
      destruct (peek _ _ _) as [[[| | |l] ex]|]; simplify_eq; eauto.
Qed.

(** The connection is out for the next command. *)
Lemma getEventCount_never_throws_witness :
  exists s',
    getEventCount (Some secret1) (outage_at 0 created) = (Ok 0, s') /\
    result_of (getRecentEvents (Some secret1) None) (outage_at 0 created)
    = Throw "Connection is closed.".
Proof.
  destruct (getEventCount_never_throws (Some secret1) (outage_at 0 created))
    as [(n & s' & Hrun & _ & _ & H) _].
  destruct (H "Connection is closed." ltac:(vm_compute; reflexivity)) as [-> _].
  exists s'. split; [exact Hrun|]. vm_compute. reflexivity.
Defined.

(** ** The stored credentials *)

(** X21.  The stored credentials, listed and searched.  On a connection that
    holds, when every id of the set leads to a credential or to nothing,
    [getAllStoredApiKeys] returns the credentials stored under the ids of
    the set, in the order of the set, and passes over the ids whose record
    is gone or has expired; [findStoredApiKeyByValue] returns the first of
    them that carries the value, and null when none does.  Neither changes
    the state. *)
Theorem stored_credentials_are_listed (s : State) (ids : list string) :
  healthy s ->
  cmd_smembers (now s) (db (redis s)) API_KEYS_SET = Ok ids ->
  Forall (key_or_nothing (now s) (db (redis s))) ids ->
  let stored := omap (stored_key (now s) (db (redis s))) ids in
  getAllStoredApiKeys s = (Ok stored, s) /\
  (forall k, k ∈ stored <->
             exists id, id ∈ ids /\ stored_key (now s) (db (redis s)) id = Some k) /\
  forall apiKeyValue,
    findStoredApiKeyByValue apiKeyValue s
    = (Ok (find (fun k => bool_decide (ApiKey.apiKey k = apiKeyValue)) stored), s).
Proof.
  intros Hh Hids Hok stored.
  assert (Hall : getAllStoredApiKeys s = (Ok stored, s)).
  { unfold getAllStoredApiKeys, redis_smembers.
    rewrite (bind_Ok _ _ s s ids) by (by rewrite (redis_read_healthy _ s Hh), Hids).
    destruct ids as [|id rest]; [done|].
    by rewrite (getAllStoredApiKeys_loop_healthy s (id :: rest) Hh Hok). }
  split; [exact Hall|]. split.
  - intros k. unfold stored. by rewrite list_elem_of_omap.
  - intros apiKeyValue. unfold findStoredApiKeyByValue.
    by rewrite (bind_Ok _ _ _ _ _ Hall).
Qed.

(** On the concrete run the one stored credential is listed, and found by
    its secret. *)
Lemma stored_credentials_are_listed_witness :
  exists k,
    getAllStoredApiKeys created = (Ok [k], created) /\
    findStoredApiKeyByValue secret1 created = (Ok (Some k), created) /\
    findStoredApiKeyByValue "sk_unknown" created = (Ok None, created).
Proof.
  destruct (stored_credentials_are_listed created [nanoid drawn1] eq_refl)
    as (Hall & _ & Hfind).
  - vm_compute. reflexivity.
  - repeat constructor.
  - eexists. split; [|split].
    + rewrite Hall. vm_compute. reflexivity.
    + rewrite (Hfind secret1). vm_compute. reflexivity.
    + rewrite (Hfind "sk_unknown"). vm_compute. reflexivity.
Defined.

(** ** Lookups while the connection fails *)

(** X22.  A lookup never throws.  A secret that an object of the memory of
    the process carries is resolved whatever the connection does.  With
    the memory empty and the connection out for the two readings of the
    lookup, the lookup resolves to null whatever the server stores: a
    stored credential is then taken for an unknown key. *)
Theorem lookup_survives_outages (secret : string) (s : State) :
  (exists r s', findApiKeyByValue secret s = (Ok r, s')) /\
  (refs_valid s -> in_memory s secret ->
   exists ref s',
     findApiKeyByValue secret s = (Ok (Some ref), s') /\
     ApiKey.apiKey (deref s' ref) = secret) /\
  (forall rest,
     apiKeysStore s = [] -> outages (redis s) = true :: true :: rest ->
     findApiKeyByValue secret s
     = (Ok None, set_redis (set_outages rest (redis s)) s)).
Proof.
  split; [apply never_throws_findApiKeyByValue|]. split.
  - intros Hv Hin.
    destruct (findApiKeyByValue_resolves (fun _ => True) secret s limit_blind_True
                (credentials_all_True secret s Hv))
      as (r & s' & Hrun & (_ & _ & _ & Hres) & Hsome).
    destruct r as [ref|]; [|by destruct (Hsome Hin)].
    exists ref, s'. split; [done|]. by destruct Hres as (_ & ? & _).
  - intros rest Hstore Hout.
    unfold findApiKeyByValue, try_catch, findApiKeyByValue_cache, getCachedMetadata,
      redis_get, redis_read. cbv zeta.
    unfold bind at 1 2 3 4. unfold connection at 1. rewrite Hout.
    cbn [ret]. unfold ret at 1.
    unfold bind at 1. unfold get_state at 1.
    cbn [apiKeysStore set_redis]. rewrite Hstore.
    cbn [Map_values fmap list_fmap findApiKeyByValue_memory].
    unfold bind at 1. unfold ret at 1.
    unfold findApiKeyByValue_stored, findStoredApiKeyByValue, getAllStoredApiKeys,
      redis_smembers, redis_read.
    unfold bind, connection. simpl. reflexivity.
Qed.

(** The process of the concrete run starts again while the connection is
    out: the stored credential resolves to null. *)
Lemma lookup_survives_outages_witness :
  exists s',
    findApiKeyByValue secret1
      (set_redis (set_outages [true; true] (redis (restarted created))) (restarted created))
    = (Ok None, s') /\
    stored_key (now s') (db (redis s')) (nanoid drawn1) ≠ None.
Proof.
  eexists. split.
  - apply (proj2 (proj2 (lookup_survives_outages secret1 _)) []); reflexivity.
  - vm_compute. discriminate.
Defined.

(** ** Counters expire *)

Lemma expires_by_same (B : Z) (d d' : gmap string Entry) (key : string) :
  d' !! key = d !! key -> expires_by B d key -> expires_by B d' key.
Proof. unfold expires_by. by intros ->. Qed.

Lemma expires_by_weaken (B B' : Z) (d : gmap string Entry) (key : string) :
  B <= B' -> expires_by B d key -> expires_by B' d key.
Proof.
  unfold expires_by. intros HB. destruct (d !! key) as [e|]; [|done].
  intros (x & Hx & Hle). exists x. split; [done|lia].
Qed.

(** [INCR] of a key and, when it answers 1, [PEXPIRE] of that key. *)
Lemma incr_pexpire_expires (B t ttl : Z) (d : gmap string Entry) (key0 key : string) :
  expires_by B d key0 -> expires_by B d key ->
  match cmd_incr t d key0 with
  | (Ok m, d1) =>
      expires_by (Z.max B (t + ttl))
        (if m =? 1 then cmd_pexpire t d1 key0 ttl else d1) key
  | (Throw _, d1) => expires_by (Z.max B (t + ttl)) d1 key
  end.
Proof.
  intros H0 Hkey.
  assert (Hw : expires_by (Z.max B (t + ttl)) d key)
    by (eapply expires_by_weaken; [|exact Hkey]; lia).
  unfold cmd_incr.
  destruct (peek t d key0) as [[[[n|v|m]|h|l|l] ex]|] eqn:Hp; try exact Hw.
  - assert (Hd : d !! key0 = Some (mkEntry (VString (SInt n)) ex))
      by (by apply peek_Some_lookup in Hp).
    assert (Hlive : live t (mkEntry (VString (SInt (n + 1))) ex) = true).
    { unfold peek in Hp. rewrite Hd in Hp.
      change (live t (mkEntry (VString (SInt (n + 1))) ex))
        with (live t (mkEntry (VString (SInt n)) ex)).
      by destruct (live t _). }
    unfold expires_by in H0. rewrite Hd in H0. destruct H0 as (x & Hx & Hle).
    simpl in Hx. subst ex.
    destruct (decide (key = key0)) as [->|Hne].
    + destruct (n + 1 =? 1).
      * unfold cmd_pexpire. rewrite peek_insert_eq, Hlive.
        unfold expires_by. rewrite lookup_insert_eq. simpl. eexists. split; [done|lia].
      * unfold expires_by. rewrite lookup_insert_eq. simpl. eexists. split; [done|lia].
    + destruct (n + 1 =? 1).
      * unfold cmd_pexpire. rewrite peek_insert_eq, Hlive.
        eapply expires_by_same; [|exact Hw]. by rewrite !lookup_insert_ne.
      * eapply expires_by_same; [|exact Hw]. by rewrite lookup_insert_ne.
  - change (1 =? 1) with true. cbv iota. unfold cmd_pexpire.
    rewrite peek_insert_eq. change (live t _) with true. cbv iota.
    destruct (decide (key = key0)) as [->|Hne].
    + unfold expires_by. rewrite lookup_insert_eq. simpl. eexists. split; [done|lia].
    + eapply expires_by_same; [|exact Hw]. by rewrite !lookup_insert_ne.
Qed.

Lemma rateLimitLuaScript_expires (B t ml dl : Z) (d : gmap string Entry)
    (mk dk key : string) :
  expires_by B d mk -> expires_by B d dk -> expires_by B d key ->
  expires_by (Z.max B (t + 90000000))
    (rateLimitLuaScript mk dk (90 * 1000) (25 * 60 * 60 * 1000) ml dl t d).2 key.
Proof.
  intros Hmk Hdk Hkey. unfold rateLimitLuaScript.
  pose proof (incr_pexpire_expires B t (90 * 1000) d mk key Hmk Hkey) as H1.
  pose proof (incr_pexpire_expires B t (90 * 1000) d mk dk Hmk Hdk) as H1d.
  destruct (cmd_incr t d mk) as [[m|e] d1].
  2:{ simpl. eapply expires_by_weaken; [|exact H1]. lia. }
  set (d2 := if m =? 1 then _ else _) in *.
  pose proof (incr_pexpire_expires _ t (25 * 60 * 60 * 1000) d2 dk key H1d H1) as H2.
  destruct (cmd_incr t d2 dk) as [[dd|e] d3]; simpl;
    (eapply expires_by_weaken; [|exact H2]); lia.
Qed.

Lemma checkRateLimit_expires (B : Z) (secret : string) (ml dl : Z) (s : State) :
  (forall key, begins "rl:" key -> expires_by B (db (redis s)) key) ->
  forall key, begins "rl:" key ->
    expires_by (Z.max B (now s + 90000000))
      (db (redis (state_after (checkRateLimit secret ml dl) s))) key.
Proof.
  intros Hinv key Hkey.
  unfold state_after, checkRateLimit. rewrite (bind_Ok _ _ s s s) by reflexivity.
  cbv zeta. unfold bind, redis_write at 1, bind, connection.
  assert (Hscript := rateLimitLuaScript_expires B (now s) ml dl (db (redis s))
                       (getMinuteKey secret (now s)) (getDayKey secret (now s)) key
                       (Hinv _ ltac:(begins_here)) (Hinv _ ltac:(begins_here))
                       (Hinv _ Hkey)).
  assert (Hsame : expires_by (Z.max B (now s + 90000000)) (db (redis s)) key)
    by (eapply expires_by_weaken; [|by apply Hinv]; lia).
  destruct (outages (redis s)) as [|[] rest]; simpl; [|exact Hsame|].
  - destruct (rateLimitLuaScript _ _ _ _ _ _ _ _) as [[[[r0 r1] r2]|e] d'];
      exact Hscript.
  - destruct (rateLimitLuaScript _ _ _ _ _ _ _ _) as [[[[r0 r1] r2]|e] d'];
      exact Hscript.
Qed.

(** X23.  No counter lives forever.  When every counter key of the server is
    set to expire, at the instant [B] at the latest, then after a check,
    whatever its header, the connection and its outcome, every counter key
    is set to expire, at [B] or 25 hours after the check at the latest. *)
Theorem no_counter_lives_forever (B : Z) (x_api_key : option string)
    (endpoint : string) (s : State) :
  (forall key, begins "rl:" key -> expires_by B (db (redis s)) key) ->
  forall key, begins "rl:" key ->
    expires_by (Z.max B (now s + 25 * 60 * 60 * 1000))
      (db (redis (state_after (rateLimitMiddleware x_api_key endpoint) s))) key.
Proof.
  intros Hinv key Hkey. change (25 * 60 * 60 * 1000) with 90000000.
  destruct (rateLimitMiddleware_rl x_api_key endpoint s)
    as [Hsame|(secret & ref & s1 & -> & Hne & Hfind & Hdis & Hrl)].
  - eapply expires_by_same; [by apply Hsame|].
    eapply expires_by_weaken; [|by apply Hinv]. lia.
  - pose proof (findApiKeyByValue_frame (begins "meta:") secret ltac:(done) s) as Hf1.
    rewrite Hfind in Hf1. simpl in Hf1. destruct Hf1 as (Hn1 & _ & _ & _ & Hd1).
    eapply expires_by_same; [by apply Hrl|]. rewrite <- Hn1.
    apply checkRateLimit_expires; [|done].
    intros key' Hkey'. eapply expires_by_same; [|by apply Hinv].
    apply Hd1. pose proof (begins_rl_not_others key' Hkey'). tauto.
Qed.

(** After the first check of the concrete run its minute bucket is set to
    expire within 25 hours. *)
Lemma no_counter_lives_forever_witness :
  expires_by (t0 + 90000000) (db (redis admitted_once)) (getMinuteKey secret1 t0) /\
  db (redis admitted_once) !! getMinuteKey secret1 t0 ≠ None.
Proof.
  split.
  - apply (no_counter_lives_forever t0 (Some secret1) "/api/data" created).
    + intros key Hkey. unfold expires_by. by rewrite created_no_counters.
    + begins_here.
  - vm_compute. discriminate.
Defined.
